(* ===== verification/_CoqProject ===== *)
-Q . S2P
Prelude.v
Endian.v
StringPiece.v
Buffer.v
Inet.v
Channel.v
Poller.v
EventLoop.v
TimerQueue.v
Timers.v
TcpConnection.v
Connector.v
Descriptors.v
Server.v
System.v
Client.v
Http.v
HttpSession.v
HttpService.v
HttpSystem.v
Echo.v
Date.v
ZoneFile.v
Doubles.v
DoubleText.v
LogStream.v
LogFormat.v
Seconds.v
Logging.v
LogFile.v
AsyncLogging.v
LogPipeline.v
Sync.v
Threads.v
PoolLife.v
ProcessInfo.v
HttpDemo.v
UnitTests.v
