(* ===== verification/Prelude.v ===== *)
(** * The dc (m_muduo) reactor library: a verification development

    dc is a multi-threaded network library for Linux in C++ after the reactor
    pattern.  src/dc/net holds the reactor and TCP, src/dc/net/http a small
    HTTP server, src/dc/base time, logging and threads.

    ** The program and how its parts interact

    An [EventLoop] (one per thread) waits in a [Poller] (epoll or poll),
    dispatches the events to its [Channel]s, then runs the functors that other
    threads queued; an eventfd wakes it up.  Timers are a channel on a timerfd
    ([TimerQueue]).  A [TcpServer] accepts connections in the base loop
    ([Acceptor]), gives each to a loop of the [EventLoopThreadPool] and keeps
    them by name; a [Connector] does the active side for [TcpClient].  A
    [TcpConnection] owns a channel and two [Buffer]s.  [HttpServer] parses
    requests out of the input buffer.  Log statements format a line in a
    [LogStream]; the lines go through [AsyncLogging] to a [LogFile].

    ** Files

    Every operation keeps the name of the C++ function; where two classes
    share one, the class is put in front ([ep_], [pp_], [tq_], [lf_], ...).
    - Prelude: the result monad [res] with its faults, machine integers
      ([uwrap], [swrap], and [i32], [i64] that fault on signed overflow),
      slices of a vector, the C and C++ library functions the code uses
      (std::find, std::search, snprintf with its truncation, decimal text),
      tactics and hints.
    - Endian: src/dc/net/endian.h.  StringPiece: base/stringPieces.h, with
      pointers into byte arrays.  Buffer: buffer.h, buffer.cc.
    - Inet: inetAddress, socketsOps, socket: addresses as bytes and as text,
      accept and its errors, the options.
    - Channel: channel.h, channel.cc, dispatch half; Poller: poller.h,
      poller.cc and the directory poller, with the class [PollerOps] for the
      abstract class, [PollerLaws] for what a loop relies on and an instance
      of both for each implementation; EventLoop: eventLoop.h, eventLoop.cc
      and the registration half of channel.cc, for any poller with the laws.
    - TimerQueue: timer*.h, timer*.cc.  Timers: runAt, runAfter, runEvery and
      cancel of eventLoop.cc, called in any thread, and the destructor of the
      queue.
    - TcpConnection: tcpConnection.h, .cc.  Connector: connector.h, .cc,
      acceptor.h, .cc.  Descriptors: the table of file descriptors of the
      process and its RAII owners: loops, acceptors, connections, connectors.
    - Server: tcpServer and eventLoopThreadPool with the phases of a
      connection; System: the same server with the TcpConnection objects
      themselves, the functor queues of the loops and the shared_ptr counts;
      Client: tcpClient with its Connector and its connections.
    - Http: http/httpRequest.h, httpContext, httpResponse, httpServer.
      HttpSession: the server's callbacks on a TcpConnection.  HttpService: an
      abstract server on the whole byte stream, and the refinement for any
      input.  HttpSystem: HttpServer in the System of loops.  Echo: the class
      [Application] of the callbacks a program sets on a connection, and the
      echo server and client of src/test and the default callbacks of
      tcpConnection.cc as its instances.  HttpDemo: the HTTP program of
      src/test/test_testHttp.cc, whose callback meets the hypotheses of
      HttpService.
    - Date: src/dc/base/date, timeStamp, timeZone.  ZoneFile: a writer of
      zone files, the specification of the reader in Date.
    - LogStream, Logging, LogFile (with AppendFile of fileUtil),
      AsyncLogging: the files of the same names in src/dc/base.  LogPipeline:
      the logger's globals and setters, and statements, asynchronous logger
      and file put together.
    - Doubles: rounding.  DoubleText: the text that %.12g gives a double, on
      exact arithmetic (LogStream uses it).  LogFormat: formatSI and formatIEC
      of logStream.cc.  Seconds: the doubles of timeDifference and addTime of
      timeStamp.h, runAfter of eventLoop.cc and cpuTime of processInfo.cc.
    - Sync: blockingQueue.h and boundedBlockingQueue.h (Module [Queue]),
      countDownLatch (Module [Latch]), threadpool (Module [Pool]) and
      net/eventLoopThread (Module [LoopThread]).
    - Threads: atomic.h (Module [Atomic]), mutex.h and condition (Module
      [Mutex]), thread (Module [ThreadObject]), singleton.h, threadLocal.h,
      threadLocalSingleton.h, weakCallback.h (Module [Objects]), stackTrace of
      currentThread.cc and exception (Module [StackTrace]).  PoolLife: a
      ThreadPool from construction to destruction.
    - ProcessInfo: processInfo.cc and ReadSmallFile of fileUtil.cc.
    - UnitTests: the Boost test cases of src/test, run on the models.

    ** How the code is modelled

    The build defines no NDEBUG, so assertions are live: an operation returns
    [res], a value or the fault that ends the run (failed assertion, abort of
    LOG_FATAL, exception, undefined behaviour).  Objects reached through
    pointers live in heaps (channels by [cid], timers by address, with
    addresses that can be reused, connections with a reference count).
    Threads are step relations whose steps are critical sections and atomic
    calls.  What the kernel or the C library answers (readv, write,
    epoll_ctl, epoll_wait, poll, connect, fwrite, clocks, the allocator,
    strerror_r, the directory of /proc) is an argument or a field of a class,
    with its documented bounds as hypotheses; each theorem with hypotheses has
    a closed witness at a concrete input.

    ** What the theorems show

    - Bytes: [buffer_refines_bytestring] (the two-index vector is a byte
      string), [append_total], [readFd_appends], [int_roundtrip],
      [findCRLF_first], [piece_order].
    - Addresses: [inet_constructors], [inet_text_roundtrip].
    - Reactor: [loop_refines_registry] (either poller with the loop implements
      a registry of interests, and the kernel watches exactly those),
      [ep_poll_reports], [pp_poll_reports], [handleEvent_dispatch],
      [queueInLoop_no_lost_wakeup], [pending_functors_run],
      [doPendingFunctors_fifo].
    - Timers: [timers_well_formed], [handleRead_fires], [cancel_exact],
      [timers_lifetime] (no timer is used after deletion, none leaks from the
      queue, whatever threads call).
    - Connections: [conn_stream_integrity] (nothing lost, repeated or
      reordered on the output side), [conn_handlers_safe], [conn_lifecycle],
      [conn_uses_registry] (a connection respects the registry's protocol, so
      the theorem on the loop applies to it), [connector_no_leak],
      [connector_safe], [acceptor_sheds], [acceptor_balanced],
      [descriptors_owned] (the open descriptors are those of the live
      objects, each once; none is used or closed after it was closed).
    - Server and client: [server_connections], [getNextLoop_round_robin],
      [system_safe] (no assertion of server, connections or loops fails and
      no connection is used after it was freed), [system_refines_server] (the
      server with real connections refines the one with phases),
      [client_safe].
    - HTTP: [request_roundtrip], [parse_incremental], [parseRequest_returns],
      [response_text], [http_session] (requests cut into any pieces on one
      connection are answered once each, in order), [http_any_input] (on any
      bytes whatever the connection does what the abstract server does),
      [http_fails_only_refused], [http_system_safe] (the same server with
      any number of threads and connections); [echo_session] (an
      application that keeps the laws of [Converses] says what its
      conversation tells, from the first callback to the last).
    - Time: [julian_day_counts], [utc_roundtrip], [toLocalTime_in_force],
      [zone_file_roundtrip], [add_difference].
    - Logging: [convert_correct], [stream_items], [double_text], [log_line],
      [logfile_keeps_lines], [async_no_loss], [formatSI_shows],
      [pipeline_keeps_lines] (from the statements of all threads to the file).
    - Threads: [bounded_queue_safe], [threadpool_safe], [pool_stop_returns],
      [pool_joins_once], [latch_correct],
      [loop_thread_handshake], [mutex_owner_exact], [wait_deadline],
      [thread_start_safe], [tls_objects], [singleton_once],
      [frame_demangled].

    Some theorems record where the code does not do what it means to:
    [peekInt16_overread], [handleEvent_spurious], [poll_reuse_aborts],
    [cancelled_timer_fires_undefined], [posted_id_dangles],
    [conn_unguarded_calls], [late_send_dangles], [connector_restart_aborts],
    [client_reconnect_aborts], [client_remover_dangles],
    [client_stop_dangles], [bad_request_line_aborts],
    [pipelined_request_waits], [fromLocalTime_aborts], [tzif_rejected],
    [roll_size_ignored], [async_stop_loses], [fatal_line_lost],
    [setTimeZone_stale], [formatSI_rounds_up], [addTime_short],
    [stop_twice_aborts], [procname_takes_more], [pageSize_counts_pages],
    [readToBuffer_hides_errors], [favicon_not_found].

    ** Bounds and fuel

    - The digit loops of [convert] and [convertHex] have fuel 20 and 16, the
      number of digits of the largest 64-bit value; [convert_correct] proves
      that the fuel suffices.
    - [parseRequest] has fuel of one more than the readable bytes; every turn
      that goes on consumes at least the two bytes of a line end, and
      [parseRequest_returns] proves that a verdict is reached.
    - [decimal_exponent] of DoubleText searches at most 632 exponents, the
      range of the decimal exponents of finite doubles; [double_text] proves
      that the text is within half a unit of the twelfth digit.
    - [AppendFile::append] calls fwrite until all is taken or an error is
      seen; its model recurses on the list of fwrite's answers, and
      [logfile_keeps_lines] proves that it returns when they take the data.
    - The read loop of ReadSmallFile has the size limit as fuel: every turn
      reads at least one byte.
    - The doubles of formatSI and formatIEC are multiples of 2^-64, those of
      Seconds of 2^-128, rounded as the IEEE operations round them; no value
      the code computes there is subnormal.
    - [pipeline_keeps_lines] is for statements whose text fits in the 4000
      bytes of a LogStream, which drops what does not fit.
    - The calendar theorems hold for the years -4799 to 1400000, on which
      the [int] arithmetic of date.cc does not overflow.
    - [server_connections] is for runs shorter than the range of the [int]
      [m_nextConnId] and listening addresses of at most 52 characters, which
      fit the 64-byte name buffer with the connection number.
    - [http_session] bounds the answers so that the output buffer can hold
      them: beyond 2^63 bytes the vector throws.

    ** What is not modelled

    gzipFile.h (a wrapper of zlib; it is included nowhere and does not
    compile), callbacks.h, types.h and noncopyable.h (type aliases
    and a base class without state), base/eventLoop.h (included by no
    translation unit), the test programs that print or measure, and the plain
    forwarding of system calls (getpid, getuid, signal, fcntl, read,
    write, close). *)

From Stdlib Require Export ZArith Lia Ascii.
From stdpp Require Export base tactics list strings gmap relations option pretty.
Export list_basics.list list_relations.list list_misc.list list_monad.list.

(** ** Faults and the result monad

    The library is built with assertions enabled (the CMake flags define no
    NDEBUG), so a failing [assert] ends the process, and so does the
    destructor of a [LOG_FATAL] / [LOG_SYSFATAL] line (logging.cc).  An
    operation of the model returns [res]: a value, or the fault that ends
    the run.  [FUndef] marks undefined behaviour (an access outside an
    object); [FThrow] marks an exception that leaves the operation. *)
Inductive fault : Type :=
  | FAssert (what : string)
  | FAbort (what : string)
  | FThrow (what : string)
  | FUndef (what : string).

Inductive res (A : Type) : Type :=
  | Ok (a : A)
  | Fail (f : fault).

Arguments Ok {A} a.
Arguments Fail {A} f.

#[global] Instance fault_eq_dec : EqDecision fault.
Proof. solve_decision. Defined.

#[global] Instance res_ret : MRet res := λ A a, Ok a.

#[global] Instance res_bind : MBind res := λ A B k m,
  match m with
  | Ok a => k a
  | Fail f => Fail f
  end.

(** [assert(b)] of <assert.h>. *)
Definition cassert (b : bool) (what : string) : res unit :=
  if b then Ok tt else Fail (FAssert what).

(** Left-to-right iteration of a fallible step (a range-for loop). *)
Fixpoint foldM {A S : Type} (f : S → A → res S) (s : S) (l : list A) : res S :=
  match l with
  | [] => Ok s
  | x :: l' => s' ← f s x; foldM f s' l'
  end.

(** ** Machine integers *)

(** Conversion to an unsigned, resp. signed, integer of [n] bits. *)
Definition uwrap (n x : Z) : Z := (x mod 2 ^ n)%Z.
Definition swrap (n x : Z) : Z := ((x + 2 ^ (n - 1)) mod 2 ^ n - 2 ^ (n - 1))%Z.

(** [size_t] arithmetic. *)
Definition u64 (x : Z) : Z := uwrap 64 x.

(** The range of an [n]-bit signed integer. *)
Definition in_signed (n x : Z) : Prop := (- 2 ^ (n - 1) ≤ x < 2 ^ (n - 1))%Z.

(** A value computed in [int], resp. [int64_t]: signed overflow is
    undefined. *)
Definition signed_check (n x : Z) : res Z :=
  if ((- 2 ^ (n - 1) <=? x) && (x <? 2 ^ (n - 1)))%Z then Ok x else Fail (FUndef "signed overflow").
Definition i32 (x : Z) : res Z := signed_check 32 x.
Definition i64 (x : Z) : res Z := signed_check 64 x.

(** ** Lists indexed by integers (vectors of char) *)

Definition zlen {A} (l : list A) : Z := Z.of_nat (length l).
Definition ztake {A} (n : Z) (l : list A) : list A := take (Z.to_nat n) l.
Definition zdrop {A} (n : Z) (l : list A) : list A := drop (Z.to_nat n) l.

(** The bytes at positions [from .. upto-1]. *)
Definition slice {A} (from upto : Z) (l : list A) : list A :=
  ztake (upto - from) (zdrop from l).

(** Reading [len] bytes at [pos]; outside the vector it is undefined. *)
Definition read_at {A} (pos len : Z) (l : list A) : res (list A) :=
  if (0 <=? pos)%Z && (0 <=? len)%Z && (pos + len <=? zlen l)%Z
  then Ok (slice pos (pos + len) l)
  else Fail (FUndef "read outside the vector").

(** Writing [data] at [pos]; outside the vector it is undefined. *)
Definition write_at {A} (pos : Z) (data l : list A) : res (list A) :=
  if (0 <=? pos)%Z && (pos + zlen data <=? zlen l)%Z
  then Ok (ztake pos l ++ data ++ zdrop (pos + zlen data) l)
  else Fail (FUndef "write outside the vector").

(** ** Characters *)

Definition LF : ascii := ascii_of_nat 10.
Definition CR : ascii := ascii_of_nat 13.
Definition CRLF : list ascii := [CR; LF].
Definition NUL : ascii := ascii_of_nat 0.

(** A string literal as the bytes it denotes. *)
Fixpoint chars (s : string) : list ascii :=
  match s with
  | EmptyString => []
  | String c s' => c :: chars s'
  end.

Definition char_val (c : ascii) : Z := Z.of_N (N_of_ascii c).
Definition char_of (x : Z) : ascii := ascii_of_N (Z.to_N (x mod 256)).

(** The conversions of printf: %d, and %Nd, %0Nd with a width; snprintf keeps
    one byte of its buffer for the terminator. *)
Definition decimal (n : Z) : list ascii := chars (pretty n).
Definition fmt_d (zero : bool) (width : nat) (n : Z) : list ascii :=
  let sign := if (n <? 0)%Z then ["-"%char] else [] in
  let body := decimal (Z.abs n) in
  let fill := width - length sign - length body in
  if zero then sign ++ replicate fill "0"%char ++ body
  else replicate fill " "%char ++ sign ++ body.
Definition snprintf (size : nat) (s : list ascii) : list ascii := take (size - 1) s.

(** [std::find] on a range: the position of the first element equal to [c],
    the length of the range when there is none. *)
Fixpoint std_find {A} `{EqDecision A} (c : A) (l : list A) : nat :=
  match l with
  | [] => 0
  | x :: l' => if decide (x = c) then 0 else S (std_find c l')
  end.

(** [l] starts with [pat]. *)
Fixpoint starts {A} `{EqDecision A} (pat l : list A) : bool :=
  match pat, l with
  | [], _ => true
  | p :: pat', x :: l' => bool_decide (p = x) && starts pat' l'
  | _ :: _, [] => false
  end.

(** [std::search]: the position of the first occurrence of [pat], the length
    of the range when there is none. *)
Fixpoint std_search {A} `{EqDecision A} (pat l : list A) : nat :=
  if starts pat l then 0
  else match l with
       | [] => 0
       | _ :: l' => S (std_search pat l')
       end.

(** ** Lemmas on the result monad *)

Lemma bind_Ok {A B} (m : res A) (k : A → res B) (b : B) :
  m ≫= k = Ok b ↔ ∃ a, m = Ok a ∧ k a = Ok b.
Proof.
  destruct m as [a|f]; cbn; split.
  - eauto.
  - by intros (a' & [= <-] & ?).
  - done.
  - by intros (a' & ? & ?).
Qed.

Lemma cassert_Ok (b : bool) (w : string) (u : unit) :
  cassert b w = Ok u ↔ b = true.
Proof. destruct b, u; cbn; naive_solver. Qed.

Lemma cassert_true (b : bool) (w : string) : b = true → cassert b w = Ok tt.
Proof. by intros ->. Qed.

Lemma foldM_app {A S} (f : S → A → res S) (s : S) (l1 l2 : list A) :
  foldM f s (l1 ++ l2) = foldM f s l1 ≫= λ s', foldM f s' l2.
Proof.
  revert s; induction l1 as [|x l1 IH]; intros s; [done|].
  simpl. destruct (f s x) as [s'|e]; [apply IH|done].
Qed.

Lemma foldM_inv {A S} (P : S → Prop) (f : S → A → res S) (s s' : S) (l : list A) :
  P s → (∀ s1 x s2, x ∈ l → P s1 → f s1 x = Ok s2 → P s2) →
  foldM f s l = Ok s' → P s'.
Proof.
  revert s; induction l as [|x l IH]; intros s Hs Hf; simpl.
  - by intros [= <-].
  - intros (s1 & H1 & H2)%bind_Ok.
    eapply IH; [|by intros; eapply Hf; [by right|..]|exact H2].
    eapply Hf; [by left|exact Hs|exact H1].
Qed.

(** [minv H] splits a successful run [H : m ≫= k = Ok b] into its steps. *)
Ltac minv1 H :=
  lazymatch type of H with
  | mbind _ _ = Ok _ =>
      let a := fresh "a" in let H1 := fresh "Hm" in let H2 := fresh "Hk" in
      apply bind_Ok in H; destruct H as (a & H1 & H2);
      try minv1 H1; cbn beta iota zeta in H2; try minv1 H2
  | cassert _ _ = Ok _ => apply cassert_Ok in H
  | Ok _ = Ok _ => injection H as H; try subst
  | Fail _ = Ok _ => discriminate H
  | mret _ = Ok _ => injection H as H; try subst
  end.
Tactic Notation "minv" hyp(H) := minv1 H.

(** One step of the monad on a known value. *)
Ltac mred := cbn [mbind res_bind mret res_ret].

(** Booleans to propositions, for [lia]. *)
Ltac bprop :=
  repeat match goal with
  | H : (_ && _)%bool = true |- _ => apply andb_prop in H; destruct H
  | H : negb _ = true |- _ => apply negb_true_iff in H
  | H : negb _ = false |- _ => apply negb_false_iff in H
  | H : (_ || _)%bool = false |- _ => apply orb_false_iff in H; destruct H
  | H : (_ <=? _)%Z = true |- _ => apply Z.leb_le in H
  | H : (_ <=? _)%Z = false |- _ => apply Z.leb_gt in H
  | H : (_ <? _)%Z = true |- _ => apply Z.ltb_lt in H
  | H : (_ <? _)%Z = false |- _ => apply Z.ltb_ge in H
  | H : (_ =? _)%Z = true |- _ => apply Z.eqb_eq in H
  | H : (_ =? _)%Z = false |- _ => apply Z.eqb_neq in H
  | H : bool_decide _ = true |- _ => apply bool_decide_eq_true in H
  | H : bool_decide _ = false |- _ => apply bool_decide_eq_false in H
  end.

(** Decide the boolean comparison in the goal by [lia]. *)
Ltac btrue := repeat match goal with
  | |- (_ && _)%bool = true => apply andb_true_intro; split
  | |- (_ <=? _)%Z = true => apply Z.leb_le
  | |- (_ <? _)%Z = true => apply Z.ltb_lt
  | |- (_ =? _)%Z = true => apply Z.eqb_eq
  | |- (_ <=? _)%Z = false => apply Z.leb_gt
  | |- (_ <? _)%Z = false => apply Z.ltb_ge
  | |- (_ =? _)%Z = false => apply Z.eqb_neq
  | |- negb _ = true => apply negb_true_iff
  | |- bool_decide _ = true => apply bool_decide_eq_true
  | |- bool_decide _ = false => apply bool_decide_eq_false
  end; try lia.

(** Closed comparisons, by evaluation. *)
Ltac zcomp := repeat split; vm_compute; congruence.

(** ** Lemmas on machine integers *)

Lemma uwrap_small (n x : Z) : (0 ≤ x < 2 ^ n)%Z → uwrap n x = x.
Proof. apply Z.mod_small. Qed.

Lemma u64_small (x : Z) : (0 ≤ x < 2 ^ 64)%Z → u64 x = x.
Proof. apply uwrap_small. Qed.

Lemma uwrap_range (n x : Z) : (0 ≤ n)%Z → (0 ≤ uwrap n x < 2 ^ n)%Z.
Proof. intros. apply Z.mod_pos_bound. by apply Z.pow_pos_nonneg. Qed.

Lemma swrap_uwrap (n x : Z) : (0 < n)%Z → swrap n (uwrap n x) = swrap n x.
Proof.
  intros Hn. unfold swrap, uwrap. f_equal.
  by rewrite Zplus_mod_idemp_l.
Qed.

Lemma swrap_small (n x : Z) : (0 < n)%Z → in_signed n x → swrap n x = x.
Proof.
  intros Hn [H1 H2]. unfold swrap. rewrite Z.mod_small; [lia|].
  assert (2 ^ n = 2 * 2 ^ (n - 1))%Z as ->; [|lia].
  rewrite <- Z.pow_succ_r by lia. f_equal. lia.
Qed.

Lemma swrap_range (n x : Z) : (0 < n)%Z → in_signed n (swrap n x).
Proof.
  intros Hn. unfold in_signed, swrap.
  assert (2 ^ n = 2 * 2 ^ (n - 1))%Z as E.
  { rewrite <- Z.pow_succ_r by lia. f_equal. lia. }
  pose proof (Z.mod_pos_bound (x + 2 ^ (n - 1)) (2 ^ n)). lia.
Qed.

Lemma signed_check_Ok (n x : Z) : in_signed n x → signed_check n x = Ok x.
Proof.
  intros [H1 H2]. unfold signed_check. by rewrite (proj2 (Z.leb_le _ _) H1), (proj2 (Z.ltb_lt _ _) H2).
Qed.

Lemma i32_Ok (x : Z) : (-2147483648 ≤ x ≤ 2147483647)%Z → i32 x = Ok x.
Proof. intros. apply signed_check_Ok. unfold in_signed. change (2 ^ (32 - 1))%Z with 2147483648%Z. lia. Qed.

Lemma i64_Ok (x : Z) : (- 2 ^ 63 ≤ x < 2 ^ 63)%Z → i64 x = Ok x.
Proof. exact (signed_check_Ok 64 x). Qed.

(** ** Decimal text *)

Lemma chars_length (s : string) : length (chars s) = String.length s.
Proof. induction s; simpl; congruence. Qed.

Lemma pretty_go_length (k : nat) : ∀ (x : N) (s : string),
  (0 < x)%N → (x < 10 ^ N.of_nat k)%N →
  (String.length (pretty_N_go x s) ≤ k + String.length s)%nat ∧ (S (String.length s) ≤ String.length (pretty_N_go x s))%nat.
Proof.
  induction k as [|k IH]; intros x s Hx Hk; [change (10 ^ N.of_nat 0)%N with 1%N in Hk; lia|].
  rewrite pretty_N_go_step by done.
  rewrite Nat2N.inj_succ, N.pow_succ_r' in Hk.
  destruct (decide (x `div` 10 = 0)%N) as [E|E].
  - rewrite E, pretty_N_go_0. simpl. lia.
  - destruct (IH (x `div` 10)%N (String (pretty_N_char (x `mod` 10)) s)) as [H1 H2]; [by apply N.neq_0_lt_0| |simpl in *; lia].
    apply N.Div0.div_lt_upper_bound. lia.
Qed.

(** A number below [10 ^ k] has between one and [k] digits. *)
Lemma decimal_length (k : nat) (n : Z) :
  (0 ≤ n < 10 ^ Z.of_nat k)%Z → (0 < k)%nat → (1 ≤ length (decimal n) ≤ k)%nat.
Proof.
  intros Hn Hk. unfold decimal. rewrite chars_length.
  destruct n as [|p|p]; [simpl; lia| |lia].
  change (pretty (Z.pos p)) with (pretty (N.pos p)). unfold pretty, pretty_N.
  rewrite decide_False by lia.
  destruct (pretty_go_length k (N.pos p) "") as [H1 H2]; [lia| |simpl in *; lia].
  apply N2Z.inj_lt. rewrite N2Z.inj_pow. change (Z.of_N (N.pos p)) with (Z.pos p). rewrite nat_N_Z. lia.
Qed.

(** The text of a number is made of digits. *)
Lemma decimal_digits (n : Z) : (0 ≤ n)%Z → Forall (λ c, (48 ≤ char_val c ≤ 57)%Z) (decimal n).
Proof.
  assert (Hc : ∀ x : N, (48 ≤ char_val (pretty_N_char x) ≤ 57)%Z).
  { intros [|p]; [by vm_compute|]. do 4 (destruct p as [p|p|]; try by vm_compute). }
  assert (Hg : ∀ (x : N) s, Forall (λ c, (48 ≤ char_val c ≤ 57)%Z) (chars s) →
    Forall (λ c, (48 ≤ char_val c ≤ 57)%Z) (chars (pretty_N_go x s))).
  { intros x. induction (N.lt_wf_0 x) as [x _ IH]. intros s Hs.
    destruct (decide (x = 0)%N) as [->|Hx]; [by rewrite pretty_N_go_0|].
    rewrite pretty_N_go_step by lia. apply IH; [apply N.div_lt; lia|]. simpl. by constructor. }
  intros Hn. unfold decimal. destruct n as [|p|p]; [repeat constructor; zcomp| |lia].
  change (pretty (Z.pos p)) with (pretty (N.pos p)). unfold pretty, pretty_N.
  rewrite decide_False by lia. by apply Hg.
Qed.

Lemma decimal_no_nul (n : Z) : (0 ≤ n)%Z → NUL ∉ decimal n.
Proof.
  intros Hn Hin. pose proof (decimal_digits n Hn) as H. rewrite Forall_forall in H.
  specialize (H _ Hin). vm_compute in H. by destruct H as [[] _].
Qed.

(** The width of a padded number that fits. *)
Lemma fmt_d_length (z : bool) (w : nat) (n : Z) :
  (0 ≤ n < 10 ^ Z.of_nat w)%Z → (0 < w)%nat → length (fmt_d z w n) = w.
Proof.
  intros Hn Hw. unfold fmt_d. rewrite (proj2 (Z.ltb_ge _ _)) by lia. rewrite Z.abs_eq by lia.
  pose proof (decimal_length w n Hn Hw). destruct z; simpl; rewrite length_app, length_replicate; lia.
Qed.

(** ** Lemmas on integer-indexed lists *)

Create Rewrite HintDb zlist.

Lemma zlen_nonneg {A} (l : list A) : (0 ≤ zlen l)%Z.
Proof. unfold zlen. lia. Qed.

Lemma zlen_app {A} (l1 l2 : list A) : zlen (l1 ++ l2) = (zlen l1 + zlen l2)%Z.
Proof. unfold zlen. rewrite length_app. lia. Qed.

Lemma zlen_nil {A} : zlen (@nil A) = 0%Z.
Proof. done. Qed.

Lemma zlen_cons {A} (x : A) (l : list A) : zlen (x :: l) = (1 + zlen l)%Z.
Proof. unfold zlen. simpl length. lia. Qed.

Lemma zlen_ztake {A} (n : Z) (l : list A) :
  (0 ≤ n ≤ zlen l)%Z → zlen (ztake n l) = n.
Proof. unfold zlen, ztake. intros. rewrite length_take. lia. Qed.

Lemma zlen_zdrop {A} (n : Z) (l : list A) :
  (0 ≤ n ≤ zlen l)%Z → zlen (zdrop n l) = (zlen l - n)%Z.
Proof. unfold zlen, zdrop. intros. rewrite length_drop. lia. Qed.

Lemma zlen_replicate {A} (n : Z) (x : A) :
  (0 ≤ n)%Z → zlen (replicate (Z.to_nat n) x) = n.
Proof. unfold zlen. rewrite length_replicate. lia. Qed.

Lemma zlen_slice {A} (i j : Z) (l : list A) :
  (0 ≤ i ≤ j)%Z → (j ≤ zlen l)%Z → zlen (slice i j l) = (j - i)%Z.
Proof.
  intros. unfold slice. rewrite zlen_ztake; [done|]. rewrite zlen_zdrop; lia.
Qed.

#[export] Hint Rewrite @zlen_app @zlen_nil @zlen_cons : zlist.
#[export] Hint Rewrite @zlen_ztake @zlen_zdrop @zlen_replicate @zlen_slice
  using (autorewrite with zlist; lia) : zlist.

Lemma ztake_0 {A} (l : list A) : ztake 0 l = [].
Proof. done. Qed.

Lemma zdrop_0 {A} (l : list A) : zdrop 0 l = l.
Proof. done. Qed.

Lemma ztake_all {A} (n : Z) (l : list A) : (zlen l ≤ n)%Z → ztake n l = l.
Proof. unfold ztake, zlen. intros. apply take_ge. lia. Qed.

Lemma zdrop_all {A} (n : Z) (l : list A) : (zlen l ≤ n)%Z → zdrop n l = [].
Proof. unfold zdrop, zlen. intros. apply drop_ge. lia. Qed.

Lemma ztake_zdrop {A} (n : Z) (l : list A) : ztake n l ++ zdrop n l = l.
Proof. apply take_drop. Qed.

Lemma zdrop_zdrop {A} (i j : Z) (l : list A) :
  (0 ≤ i)%Z → (0 ≤ j)%Z → zdrop i (zdrop j l) = zdrop (j + i) l.
Proof.
  intros. unfold zdrop. rewrite drop_drop. f_equal. lia.
Qed.

Lemma zdrop_app_l {A} (n : Z) (l1 l2 : list A) :
  (0 ≤ n ≤ zlen l1)%Z → zdrop n (l1 ++ l2) = zdrop n l1 ++ l2.
Proof. unfold zdrop, zlen. intros. apply drop_app_le. lia. Qed.

Lemma zdrop_app_r {A} (n : Z) (l1 l2 : list A) :
  (zlen l1 ≤ n)%Z → zdrop n (l1 ++ l2) = zdrop (n - zlen l1) l2.
Proof.
  unfold zdrop, zlen. intros. rewrite drop_app_ge by lia. f_equal. lia.
Qed.

Lemma ztake_app_l {A} (n : Z) (l1 l2 : list A) :
  (n ≤ zlen l1)%Z → ztake n (l1 ++ l2) = ztake n l1.
Proof. unfold ztake, zlen. intros. apply take_app_le. lia. Qed.

Lemma ztake_app_r {A} (n : Z) (l1 l2 : list A) :
  (zlen l1 ≤ n)%Z → ztake n (l1 ++ l2) = l1 ++ ztake (n - zlen l1) l2.
Proof.
  unfold ztake, zlen. intros. rewrite take_app_ge by lia. f_equal. f_equal. lia.
Qed.

Lemma ztake_ztake {A} (i j : Z) (l : list A) :
  (i ≤ j)%Z → ztake i (ztake j l) = ztake i l.
Proof. unfold ztake. intros. rewrite take_take. f_equal. lia. Qed.

Lemma zdrop_ztake {A} (i j : Z) (l : list A) :
  (0 ≤ i)%Z → zdrop i (ztake j l) = ztake (j - i) (zdrop i l).
Proof.
  intros. unfold zdrop, ztake. rewrite skipn_firstn_comm. f_equal. lia.
Qed.

Lemma slice_empty {A} (i j : Z) (l : list A) : (j ≤ i)%Z → slice i j l = [].
Proof. intros. unfold slice, ztake. by replace (Z.to_nat (j - i)) with 0 by lia. Qed.

Lemma slice_split {A} (i j k : Z) (l : list A) :
  (0 ≤ i ≤ j)%Z → (j ≤ k)%Z → slice i k l = slice i j l ++ slice j k l.
Proof.
  intros. unfold slice, ztake, zdrop.
  replace (Z.to_nat j) with (Z.to_nat i + Z.to_nat (j - i)) by lia.
  rewrite <- drop_drop, take_take_drop. f_equal. lia.
Qed.

Lemma slice_app_l {A} (i j : Z) (l1 l2 : list A) :
  (0 ≤ i)%Z → (j ≤ zlen l1)%Z → slice i j (l1 ++ l2) = slice i j l1.
Proof.
  intros. destruct (decide (j ≤ i)%Z); [by rewrite !slice_empty by lia|].
  unfold slice. rewrite zdrop_app_l by lia. rewrite ztake_app_l; [done|].
  rewrite zlen_zdrop by lia. lia.
Qed.

Lemma slice_app_r {A} (i j : Z) (l1 l2 : list A) :
  (zlen l1 ≤ i)%Z → slice i j (l1 ++ l2) = slice (i - zlen l1) (j - zlen l1) l2.
Proof.
  intros. unfold slice. rewrite zdrop_app_r by lia. f_equal. lia.
Qed.

Lemma slice_all {A} (j : Z) (l : list A) : (zlen l ≤ j)%Z → slice 0 j l = l.
Proof. intros. unfold slice. rewrite zdrop_0. apply ztake_all. lia. Qed.

Lemma slice_ztake {A} (i j k : Z) (l : list A) :
  (0 ≤ i)%Z → (j ≤ k)%Z → slice i j (ztake k l) = slice i j l.
Proof.
  intros. unfold slice. rewrite zdrop_ztake by lia. by rewrite ztake_ztake by lia.
Qed.

(** ** Reading and writing vectors *)

Lemma read_at_Ok {A} (pos len : Z) (l : list A) :
  (0 ≤ pos)%Z → (0 ≤ len)%Z → (pos + len ≤ zlen l)%Z →
  read_at pos len l = Ok (slice pos (pos + len) l).
Proof. intros. unfold read_at. replace (_ && _ && _) with true; [done|]. symmetry. btrue. Qed.

Lemma write_at_Ok {A} (pos : Z) (d l : list A) :
  (0 ≤ pos)%Z → (pos + zlen d ≤ zlen l)%Z →
  write_at pos d l = Ok (ztake pos l ++ d ++ zdrop (pos + zlen d) l).
Proof. intros. unfold write_at. replace (_ && _) with true; [done|]. symmetry. btrue. Qed.

Section write_at.
Context {A : Type} (pos : Z) (d l : list A).
Hypothesis Hpos : (0 ≤ pos)%Z.
Hypothesis Hlen : (pos + zlen d ≤ zlen l)%Z.
Let l' := ztake pos l ++ d ++ zdrop (pos + zlen d) l.

Lemma zlen_write : zlen l' = zlen l.
Proof. subst l'. pose proof (zlen_nonneg d). autorewrite with zlist. lia. Qed.

Lemma slice_write_before i j : (0 ≤ i)%Z → (j ≤ pos)%Z → slice i j l' = slice i j l.
Proof.
  intros. subst l'. pose proof (zlen_nonneg d). rewrite slice_app_l; [|lia|autorewrite with zlist; lia].
  by apply slice_ztake.
Qed.

Lemma slice_write_data : slice pos (pos + zlen d) l' = d.
Proof.
  subst l'. pose proof (zlen_nonneg d).
  rewrite slice_app_r by (autorewrite with zlist; lia).
  autorewrite with zlist. rewrite slice_app_l by lia.
  replace (pos - pos)%Z with 0%Z by lia. apply slice_all. lia.
Qed.

Lemma slice_write_after i j : (pos + zlen d ≤ i)%Z → slice i j l' = slice i j l.
Proof.
  intros. subst l'. pose proof (zlen_nonneg d).
  rewrite !slice_app_r by (autorewrite with zlist; lia).
  autorewrite with zlist. unfold slice. rewrite zdrop_zdrop by lia.
  f_equal; [lia|]. f_equal. lia.
Qed.
End write_at.

(** Writing right behind a known beginning. *)
Lemma write_at_app {A} (pre d r : list A) :
  (zlen d ≤ zlen r)%Z → write_at (zlen pre) d (pre ++ r) = Ok (pre ++ d ++ zdrop (zlen d) r).
Proof.
  intros H. pose proof (zlen_nonneg pre). pose proof (zlen_nonneg d).
  rewrite write_at_Ok by (autorewrite with zlist; lia). f_equal.
  rewrite ztake_app_l, ztake_all by lia. f_equal. f_equal. rewrite zdrop_app_r by lia. f_equal. lia.
Qed.

(** ** Characters and searching *)

Lemma char_val_range (c : ascii) : (0 ≤ char_val c < 256)%Z.
Proof. unfold char_val. pose proof (N_ascii_bounded c). lia. Qed.

Lemma char_val_of (x : Z) : char_val (char_of x) = (x mod 256)%Z.
Proof.
  unfold char_val, char_of. pose proof (Z.mod_pos_bound x 256).
  rewrite N_ascii_embedding by lia. lia.
Qed.

Lemma char_of_val (c : ascii) : char_of (char_val c) = c.
Proof.
  unfold char_of, char_val. pose proof (N_ascii_bounded c).
  rewrite Z.mod_small by lia. rewrite N2Z.id. apply ascii_N_embedding.
Qed.

Lemma char_val_inj (c1 c2 : ascii) : char_val c1 = char_val c2 → c1 = c2.
Proof. intros E. by rewrite <- (char_of_val c1), E, char_of_val. Qed.

Section searching.
Context {A : Type} `{!EqDecision A}.
Implicit Types (l pat : list A) (c : A).

Lemma starts_spec pat l : starts pat l = true ↔ ∃ l', l = pat ++ l'.
Proof.
  revert l; induction pat as [|p pat IH]; intros [|x l]; simpl.
  - split; [by exists []|done].
  - split; [by exists (x :: l)|done].
  - split; [done|by intros (? & ?)].
  - split.
    + intros [H1 H2]%andb_prop. apply bool_decide_eq_true in H1 as ->.
      apply IH in H2 as [l' ->]. by exists l'.
    + intros [l' [= -> ->]]. rewrite bool_decide_true by done. apply IH. by exists l'.
Qed.

Lemma std_find_le c l : std_find c l ≤ length l.
Proof. induction l; simpl; [lia|]. case_decide; lia. Qed.

Lemma std_find_before c l : c ∉ take (std_find c l) l.
Proof.
  induction l as [|x l IH]; simpl; [by apply not_elem_of_nil|].
  case_decide; simpl; [by apply not_elem_of_nil|].
  by apply not_elem_of_cons.
Qed.

Lemma std_find_hit c l : std_find c l < length l → l !! std_find c l = Some c.
Proof. induction l; simpl; [lia|]. case_decide; simpl; [by subst|]. intros. apply IHl. lia. Qed.

Lemma std_find_app c l1 l2 : c ∉ l1 → std_find c (l1 ++ c :: l2) = length l1.
Proof.
  induction l1 as [|x l1 IH]; simpl; intros H.
  - by rewrite decide_True.
  - rewrite decide_False by set_solver. f_equal. apply IH. set_solver.
Qed.

Lemma std_find_none c l : c ∉ l → std_find c l = length l.
Proof.
  induction l as [|x l IH]; simpl; intros H; [done|].
  rewrite decide_False by set_solver. f_equal. apply IH. set_solver.
Qed.

Lemma std_search_le pat l : std_search pat l ≤ length l.
Proof. induction l; simpl; destruct (starts _ _); lia. Qed.

Lemma std_search_first pat l i :
  i < std_search pat l → starts pat (drop i l) = false.
Proof.
  revert i; induction l as [|x l IH]; intros i; cbn [std_search];
    destruct (starts pat _) eqn:E; try lia.
  destruct i as [|i]; [done|]. simpl. intros. apply IH. lia.
Qed.

Lemma std_search_hit pat l :
  std_search pat l < length l → starts pat (drop (std_search pat l) l) = true.
Proof.
  induction l as [|x l IH]; cbn [std_search]; [simpl; destruct (starts _ _); lia|].
  destruct (starts pat (x :: l)) eqn:E; [done|]. simpl. intros. apply IH. lia.
Qed.
End searching.
