(* ===== verification/Endian.v ===== *)
(** * Byte order: src/dc/net/endian.h

    The six conversions of namespace sockets wrap htobe16/32/64 and
    be16/32/64toh.  The build is for x86_64, a little-endian host, where all
    of them reverse the bytes of the object.  [mem_of n v] is the object
    representation of the [n]-byte unsigned value [v] on such a host, and
    [mem_val] the value a representation denotes. *)

From S2P Require Import Prelude.

Open Scope Z_scope.

Fixpoint mem_of (n : nat) (v : Z) : list ascii :=
  match n with
  | O => []
  | S n' => char_of v :: mem_of n' (v / 256)
  end.

Fixpoint mem_val (l : list ascii) : Z :=
  match l with
  | [] => 0
  | c :: l' => char_val c + 256 * mem_val l'
  end.

(** Big-endian (network order) value of a byte string: the specification the
    conversions are measured against. *)
Definition be_val (l : list ascii) : Z := mem_val (reverse l).

(** The byte swap of an [n]-byte integer. *)
Definition bswap (n : nat) (v : Z) : Z := mem_val (reverse (mem_of n v)).

Definition hostToNetwork64 (host64 : Z) : Z := bswap 8 (uwrap 64 host64).
Definition hostToNetwork32 (host32 : Z) : Z := bswap 4 (uwrap 32 host32).
Definition hostToNetwork16 (host16 : Z) : Z := bswap 2 (uwrap 16 host16).
Definition networkToHost64 (net64 : Z) : Z := bswap 8 (uwrap 64 net64).
Definition networkToHost32 (net32 : Z) : Z := bswap 4 (uwrap 32 net32).
Definition networkToHost16 (net16 : Z) : Z := bswap 2 (uwrap 16 net16).

(** ** Lemmas *)

Lemma length_mem_of (n : nat) (v : Z) : length (mem_of n v) = n.
Proof. revert v; induction n; intros; simpl; auto. Qed.

Lemma zlen_mem_of (n : nat) (v : Z) : zlen (mem_of n v) = Z.of_nat n.
Proof. unfold zlen. by rewrite length_mem_of. Qed.

Lemma pow256_succ (n : nat) : 256 ^ Z.of_nat (S n) = 256 * 256 ^ Z.of_nat n.
Proof. rewrite Nat2Z.inj_succ, Z.pow_succ_r; lia. Qed.

Lemma mem_val_of (n : nat) (v : Z) : mem_val (mem_of n v) = v mod 256 ^ Z.of_nat n.
Proof.
  revert v; induction n as [|n IH]; intros v; cbn [mem_of mem_val].
  - by rewrite Z.mod_1_r.
  - rewrite IH, char_val_of, pow256_succ.
    rewrite Z.rem_mul_r by lia. lia.
Qed.

Lemma mem_val_range (l : list ascii) : 0 ≤ mem_val l < 256 ^ zlen l.
Proof.
  unfold zlen. induction l as [|c l IH]; cbn [mem_val length]; [lia|].
  rewrite pow256_succ. pose proof (char_val_range c). lia.
Qed.

Lemma mem_of_val (l : list ascii) : mem_of (length l) (mem_val l) = l.
Proof.
  induction l as [|c l IH]; cbn [mem_val length mem_of]; [done|].
  pose proof (char_val_range c).
  replace ((char_val c + 256 * mem_val l) / 256) with (mem_val l)
    by (rewrite Z.mul_comm, Z.div_add, Z.div_small; lia).
  rewrite IH. f_equal.
  apply char_val_inj. rewrite char_val_of.
  rewrite Z.mul_comm, Z_mod_plus_full. by apply Z.mod_small.
Qed.

Lemma bswap_range (n : nat) (v : Z) : 0 ≤ bswap n v < 256 ^ Z.of_nat n.
Proof.
  unfold bswap. pose proof (mem_val_range (reverse (mem_of n v))) as H.
  unfold zlen in H. by rewrite length_reverse, length_mem_of in H.
Qed.

Lemma mem_of_bswap (n : nat) (v : Z) : mem_of n (bswap n v) = reverse (mem_of n v).
Proof.
  unfold bswap. rewrite <- (mem_of_val (reverse _)) at 2.
  by rewrite length_reverse, length_mem_of.
Qed.

Lemma bswap_bswap (n : nat) (v : Z) : bswap n (bswap n v) = v mod 256 ^ Z.of_nat n.
Proof.
  unfold bswap at 1. rewrite mem_of_bswap, reverse_involutive. apply mem_val_of.
Qed.

Lemma be_val_network (n : nat) (v : Z) :
  be_val (mem_of n (bswap n v)) = v mod 256 ^ Z.of_nat n.
Proof. unfold be_val. rewrite mem_of_bswap, reverse_involutive. apply mem_val_of. Qed.

(** The bytes of [uwrap] and of [swrap] are those of the integer itself. *)
Lemma mem_of_mod (n : nat) (v : Z) : mem_of n (v mod 256 ^ Z.of_nat n) = mem_of n v.
Proof. by rewrite <- mem_val_of, <- (length_mem_of n v) at 1; rewrite mem_of_val. Qed.

Lemma swrap_mod (k x : Z) : 0 < k → swrap k x mod 2 ^ k = x mod 2 ^ k.
Proof.
  intros. unfold swrap. rewrite Zminus_mod_idemp_l. f_equal. lia.
Qed.

Lemma mem_of_swrap (n : nat) (v : Z) : (0 < n)%nat →
  mem_of n (swrap (8 * Z.of_nat n) v) = mem_of n v.
Proof.
  intros. rewrite <- mem_of_mod, <- (mem_of_mod n v).
  change 256 with (2 ^ 8). rewrite <- !Z.pow_mul_r by lia.
  by rewrite swrap_mod by lia.
Qed.

Lemma mem_of_uwrap (n : nat) (v : Z) :
  mem_of n (uwrap (8 * Z.of_nat n) v) = mem_of n v.
Proof.
  rewrite <- (mem_of_mod n v). unfold uwrap. f_equal. f_equal.
  change 256 with (2 ^ 8). rewrite <- Z.pow_mul_r by lia. done.
Qed.

(** What goes on the wire: the big-endian bytes of the value. *)
Lemma wire_bytes (n : nat) (x : Z) : (0 < n)%nat →
  mem_of n (swrap (8 * Z.of_nat n) (bswap n (uwrap (8 * Z.of_nat n) x)))
  = reverse (mem_of n x).
Proof.
  intros. rewrite mem_of_swrap by done. by rewrite mem_of_bswap, mem_of_uwrap.
Qed.

(** What is read back: the signed value of the big-endian bytes. *)
Lemma uwrap_swrap (k x : Z) : 0 < k → uwrap k (swrap k x) = uwrap k x.
Proof. intros. by apply swrap_mod. Qed.

Lemma bswap_be_val (l : list ascii) : bswap (length l) (mem_val l) = be_val l.
Proof. unfold bswap, be_val. by rewrite mem_of_val. Qed.

Lemma pow256_bits (n : nat) : 256 ^ Z.of_nat n = 2 ^ (8 * Z.of_nat n).
Proof. change 256 with (2 ^ 8). rewrite <- Z.pow_mul_r by lia. done. Qed.

Lemma wire_value (n : nat) (l : list ascii) : (0 < n)%nat → length l = n →
  swrap (8 * Z.of_nat n) (bswap n (uwrap (8 * Z.of_nat n) (swrap (8 * Z.of_nat n) (mem_val l))))
  = swrap (8 * Z.of_nat n) (be_val l).
Proof.
  intros Hn <-. rewrite uwrap_swrap by lia.
  rewrite uwrap_small, bswap_be_val; [done|].
  rewrite <- pow256_bits. apply mem_val_range.
Qed.

(** A signed value survives the wire. *)
Lemma wire_roundtrip (n : nat) (x : Z) : (0 < n)%nat → in_signed (8 * Z.of_nat n) x →
  swrap (8 * Z.of_nat n) (be_val (reverse (mem_of n x))) = x.
Proof.
  intros Hn Hx. unfold be_val. rewrite reverse_involutive, mem_val_of, pow256_bits.
  fold (uwrap (8 * Z.of_nat n) x). rewrite swrap_uwrap by lia.
  apply swrap_small; [lia|done].
Qed.

Lemma mem_val_app (l1 l2 : list ascii) :
  mem_val (l1 ++ l2) = mem_val l1 + 256 ^ zlen l1 * mem_val l2.
Proof.
  unfold zlen. induction l1 as [|c l1 IH]; cbn [app mem_val length]; [lia|].
  rewrite IH, pow256_succ. lia.
Qed.

Lemma uwrap_swrap_wide (k j x : Z) : 0 < k ≤ j → uwrap k (swrap j x) = uwrap k x.
Proof.
  intros Hk. assert ((2 ^ k | 2 ^ j)) as D.
  { exists (2 ^ (j - k)). rewrite <- Z.pow_add_r by lia. f_equal. lia. }
  unfold uwrap. rewrite <- (Z.mod_mod_divide (swrap j x) (2 ^ j)) by done.
  rewrite swrap_mod by lia. by apply Z.mod_mod_divide.
Qed.
