(* ===== verification/StringPiece.v ===== *)
(** * String pieces: src/dc/base/stringPieces.h

    A [const char*] is null or points into a constant object, an array of
    bytes; reading outside the object is undefined.  A [StringPiece] is such a
    pointer and an [int] length.  [bytes_of] is the byte string a valid piece
    denotes; the theorems say that the operators implement the lexicographic
    order of unsigned bytes on these strings. *)

From S2P Require Import Prelude.

Open Scope Z_scope.

(** ** Pointers to constant characters *)

Inductive cptr : Type :=
  | Null
  | At (obj : list ascii) (off : Z).

Definition ptr_add (p : cptr) (n : Z) : cptr :=
  match p with Null => Null | At o i => At o (i + n) end.

(** Reading [n] bytes; nothing is read when [n] is 0. *)
Definition ptr_read (p : cptr) (n : Z) : res (list ascii) :=
  if n =? 0 then Ok []
  else match p with
       | Null => Fail (FUndef "read through a null pointer")
       | At o i => read_at i n o
       end.

(** [strlen]: the distance to the first NUL; none in the object is undefined. *)
Definition strlen (p : cptr) : res Z :=
  match p with
  | Null => Fail (FUndef "strlen of a null pointer")
  | At o i =>
      if (0 <=? i) && (Z.of_nat (std_find NUL (zdrop i o)) <? zlen (zdrop i o))
      then Ok (Z.of_nat (std_find NUL (zdrop i o))) else Fail (FUndef "strlen past the object")
  end.

(** [memcmp] on bytes as unsigned char; only the sign of its result is
    specified. *)
Fixpoint memcmp_bytes (a b : list ascii) : Z :=
  match a, b with
  | x :: a', y :: b' =>
      if char_val x <? char_val y then -1
      else if char_val y <? char_val x then 1
      else memcmp_bytes a' b'
  | _, _ => 0
  end.

Definition memcmp (p q : cptr) (n : Z) : res Z :=
  a ← ptr_read p n;
  b ← ptr_read q n;
  Ok (memcmp_bytes a b).

(** ** StringArg and StringPiece *)

Record StringArg : Type := mkArg { m_str : cptr }.

Definition StringArg_char (str : cptr) : StringArg := mkArg str.
(** A std::string's c_str() ends with a NUL. *)
Definition StringArg_string (str : list ascii) : StringArg := mkArg (At (str ++ [NUL]) 0).
Definition c_str (a : StringArg) : cptr := m_str a.

Record StringPiece : Type := mkPiece { m_ptr : cptr; m_length : Z }.

Definition StringPiece_default : StringPiece := mkPiece Null 0.
(** The conversion of a size_t to [int] keeps the low 32 bits. *)
Definition StringPiece_char (str : cptr) : res StringPiece :=
  n ← strlen str; Ok (mkPiece str (swrap 32 n)).
Definition StringPiece_string (str : list ascii) : StringPiece :=
  mkPiece (At (str ++ [NUL]) 0) (swrap 32 (zlen str)).
Definition StringPiece_len (offset : cptr) (len : Z) : StringPiece := mkPiece offset len.

Definition data (p : StringPiece) : cptr := m_ptr p.
Definition size (p : StringPiece) : Z := m_length p.
Definition empty (p : StringPiece) : bool := m_length p =? 0.
Definition piece_begin (p : StringPiece) : cptr := m_ptr p.
Definition piece_end (p : StringPiece) : cptr := ptr_add (m_ptr p) (m_length p).
Definition clear (p : StringPiece) : StringPiece := mkPiece Null 0.
Definition piece_set (p : StringPiece) (buffer : cptr) (len : Z) : StringPiece := mkPiece buffer len.
Definition piece_set_char (p : StringPiece) (str : cptr) : res StringPiece :=
  n ← strlen str; Ok (mkPiece str (swrap 32 n)).

(** [operator[]] *)
Definition piece_at (p : StringPiece) (i : Z) : res ascii :=
  l ← ptr_read (ptr_add (m_ptr p) i) 1;
  match l with c :: _ => Ok c | [] => Fail (FUndef "m_ptr[i]") end.

Definition remove_prefix (p : StringPiece) (n : Z) : res StringPiece :=
  len ← i32 (m_length p - n);
  Ok (mkPiece (ptr_add (m_ptr p) n) len).

Definition remove_suffix (p : StringPiece) (n : Z) : res StringPiece :=
  len ← i32 (m_length p - n);
  Ok (mkPiece (m_ptr p) len).

(** The [int] length becomes the size_t argument of memcmp. *)
Definition piece_eq (p x : StringPiece) : res bool :=
  if m_length p =? m_length x then
    r ← memcmp (m_ptr p) (m_ptr x) (u64 (m_length p)); Ok (r =? 0)
  else Ok false.

Definition piece_ne (p x : StringPiece) : res bool := b ← piece_eq p x; Ok (negb b).

(** [STRINGPIECE_BINARY_PREDICATE(cmp, auxcmp)] *)
Definition binary_predicate (cmp auxcmp : Z → Z → bool) (p x : StringPiece) : res bool :=
  r ← memcmp (m_ptr p) (m_ptr x) (u64 (if m_length p <? m_length x then m_length p else m_length x));
  Ok (auxcmp r 0 || ((r =? 0) && cmp (m_length p) (m_length x))).

Definition piece_lt : StringPiece → StringPiece → res bool := binary_predicate Z.ltb Z.ltb.
Definition piece_le : StringPiece → StringPiece → res bool := binary_predicate Z.leb Z.ltb.
Definition piece_ge : StringPiece → StringPiece → res bool := binary_predicate Z.geb Z.gtb.
Definition piece_gt : StringPiece → StringPiece → res bool := binary_predicate Z.gtb Z.gtb.

Definition compare (p x : StringPiece) : res Z :=
  r ← memcmp (m_ptr p) (m_ptr x) (u64 (if m_length p <? m_length x then m_length p else m_length x));
  Ok (if r =? 0 then
        if m_length p <? m_length x then -1
        else if m_length x <? m_length p then 1 else r
      else r).

(** [std::string(data(), size())]: a negative size throws. *)
Definition as_string (p : StringPiece) : res (list ascii) :=
  if m_length p <? 0 then Fail (FThrow "std::length_error") else ptr_read (m_ptr p) (m_length p).

Definition copyToString (p : StringPiece) : res (list ascii) :=
  if m_length p <? 0 then Fail (FThrow "std::length_error") else ptr_read (m_ptr p) (m_length p).

Definition starts_with (p x : StringPiece) : res bool :=
  if m_length x <=? m_length p then
    r ← memcmp (m_ptr p) (m_ptr x) (u64 (m_length x)); Ok (r =? 0)
  else Ok false.

(** ** The byte string a piece denotes *)

Definition bytes_of (p : StringPiece) (s : list ascii) : Prop :=
  m_length p = zlen s ∧ zlen s < 2 ^ 31 ∧ as_string p = Ok s.

(** Lexicographic order of unsigned bytes. *)
Fixpoint lex (a b : list ascii) : comparison :=
  match a, b with
  | [], [] => Eq
  | [], _ :: _ => Lt
  | _ :: _, [] => Gt
  | x :: a', y :: b' =>
      match char_val x ?= char_val y with Eq => lex a' b' | c => c end
  end.

Lemma lex_refl a : lex a a = Eq.
Proof. induction a as [|x a IH]; simpl; [done|]. by rewrite Z.compare_refl. Qed.

Lemma lex_eq a : ∀ b, lex a b = Eq → a = b.
Proof.
  induction a as [|x a IH]; intros [|y b]; simpl; try done.
  destruct (Z.compare_spec (char_val x) (char_val y)) as [E|E|E]; try done.
  intros H. apply char_val_inj in E. f_equal; [done|by apply IH].
Qed.

Lemma lex_antisym a : ∀ b, lex b a = CompOpp (lex a b).
Proof.
  induction a as [|x a IH]; intros [|y b]; simpl; try done.
  rewrite (Z.compare_antisym (char_val x) (char_val y)).
  destruct (char_val x ?= char_val y); simpl; [apply IH|done..].
Qed.

Lemma lex_trans a : ∀ b c, lex a b = Lt → lex b c = Lt → lex a c = Lt.
Proof.
  induction a as [|x a IH]; intros [|y b] [|z c]; simpl; try done.
  destruct (Z.compare_spec (char_val x) (char_val y)), (Z.compare_spec (char_val y) (char_val z)),
    (Z.compare_spec (char_val x) (char_val z)); try done; try lia. apply IH.
Qed.

(** memcmp on the common length decides all but prefixes. *)
Lemma memcmp_cases a : ∀ b,
  (memcmp_bytes a b = 0 ∧ (a `prefix_of` b ∨ b `prefix_of` a) ∧ lex a b = (zlen a ?= zlen b)) ∨
  (memcmp_bytes a b = -1 ∧ lex a b = Lt ∧ ¬ a `prefix_of` b ∧ ¬ b `prefix_of` a) ∨
  (memcmp_bytes a b = 1 ∧ lex a b = Gt ∧ ¬ a `prefix_of` b ∧ ¬ b `prefix_of` a).
Proof.
  induction a as [|x a IH]; intros [|y b]; cbn [memcmp_bytes lex].
  - left. auto.
  - left. by split_and!; [|left; apply prefix_nil|].
  - left. by split_and!; [|right; apply prefix_nil|].
  - rewrite !zlen_cons.
    destruct (Z.compare_spec (char_val x) (char_val y)) as [E|E|E].
    + rewrite E, Z.ltb_irrefl. apply char_val_inj in E as ->.
      assert (Hp : ∀ l k, y :: l `prefix_of` y :: k ↔ l `prefix_of` k)
        by (split; [apply prefix_cons_inv_2|apply prefix_cons]).
      rewrite !Hp. rewrite (Zcompare_plus_compat (zlen a) (zlen b) 1). apply IH.
    + right; left. rewrite (proj2 (Z.ltb_lt _ _) E).
      split_and!; try done; intros ->%prefix_cons_inv_1; lia.
    + right; right. rewrite (proj2 (Z.ltb_ge (char_val x) (char_val y))), (proj2 (Z.ltb_lt _ _) E) by lia.
      split_and!; try done; intros ->%prefix_cons_inv_1; lia.
Qed.

Lemma memcmp_take n a : ∀ b, (n = length a ∧ n ≤ length b ∨ n = length b ∧ n ≤ length a)%nat →
  memcmp_bytes (take n a) (take n b) = memcmp_bytes a b.
Proof.
  revert n. induction a as [|x a IH]; intros [|n] [|y b] H; simpl in *; try done; try lia.
  by rewrite IH by lia.
Qed.

(** Reading a prefix of a piece. *)
Lemma ptr_read_piece p s n : bytes_of p s → 0 ≤ n ≤ zlen s → ptr_read (m_ptr p) n = Ok (ztake n s).
Proof.
  intros (Hl & _ & H) Hn. unfold as_string, ptr_read in *. rewrite Hl in H.
  rewrite (proj2 (Z.ltb_ge _ _)) in H by apply zlen_nonneg.
  destruct (n =? 0) eqn:E0; bprop; [by subst|].
  rewrite (proj2 (Z.eqb_neq _ _)) in H by lia. destruct (m_ptr p) as [|o i]; [done|].
  unfold read_at in *. destruct (_ && _) eqn:E in H; [|done]. bprop. injection H as H.
  rewrite (proj2 (Z.leb_le _ _)), (proj2 (Z.leb_le 0 n)), (proj2 (Z.leb_le (i + n) _)) by lia. simpl.
  f_equal. rewrite <- H. unfold slice. rewrite ztake_ztake by lia. f_equal. lia.
Qed.

(** memcmp over the shorter length, on the strings. *)
Lemma memcmp_pieces p x a b n : bytes_of p a → bytes_of x b →
  n = Z.min (zlen a) (zlen b) → memcmp (m_ptr p) (m_ptr x) (u64 n) = Ok (memcmp_bytes a b).
Proof.
  intros Hp Hx ->. pose proof Hp as (_ & Ha & _). pose proof (zlen_nonneg a). pose proof (zlen_nonneg b).
  rewrite u64_small by lia. unfold memcmp.
  rewrite (ptr_read_piece p a), (ptr_read_piece x b) by (done || lia). mred.
  unfold ztake. rewrite memcmp_take; [done|]. unfold zlen in *. lia.
Qed.

Lemma binary_predicate_pieces cmp auxcmp p x a b : bytes_of p a → bytes_of x b →
  binary_predicate cmp auxcmp p x =
    Ok (auxcmp (memcmp_bytes a b) 0 || ((memcmp_bytes a b =? 0) && cmp (zlen a) (zlen b))).
Proof.
  intros Hp Hx. unfold binary_predicate. pose proof Hp as [-> _]. pose proof Hx as [-> _].
  rewrite (memcmp_pieces p x a b); [done..|]. destruct (Z.ltb_spec (zlen a) (zlen b)); lia.
Qed.

(** ** The operators *)

Lemma compare_pieces p x a b : bytes_of p a → bytes_of x b →
  compare p x = Ok (match lex a b with Lt => -1 | Eq => 0 | Gt => 1 end).
Proof.
  intros Hp Hx. unfold compare. pose proof Hp as [-> _]. pose proof Hx as [-> _].
  rewrite (memcmp_pieces p x a b); [|done..|destruct (Z.ltb_spec (zlen a) (zlen b)); lia]. mred. f_equal.
  destruct (memcmp_cases a b) as [(-> & _ & ->)|[(-> & -> & _)|(-> & -> & _)]]; [|done..]. simpl.
  destruct (Z.compare_spec (zlen a) (zlen b)), (Z.ltb_spec (zlen a) (zlen b)), (Z.ltb_spec (zlen b) (zlen a)); done || lia.
Qed.

Lemma eq_pieces p x a b : bytes_of p a → bytes_of x b → piece_eq p x = Ok (bool_decide (a = b)).
Proof.
  intros Hp Hx. unfold piece_eq. pose proof Hp as [-> _]. pose proof Hx as [-> _].
  destruct (Z.eqb_spec (zlen a) (zlen b)) as [E|E].
  - rewrite (memcmp_pieces p x a b) by (done || lia). mred. f_equal.
    destruct (memcmp_cases a b) as [(-> & _ & H)|[(-> & H & _)|(-> & H & _)]]; simpl.
    + rewrite E, Z.compare_refl in H. apply lex_eq in H. by rewrite bool_decide_eq_true_2.
    + rewrite bool_decide_eq_false_2; [done|]. intros ->. by rewrite lex_refl in H.
    + rewrite bool_decide_eq_false_2; [done|]. intros ->. by rewrite lex_refl in H.
  - rewrite bool_decide_eq_false_2; [done|]. by intros ->.
Qed.

Lemma starts_with_pieces p x a b : bytes_of p a → bytes_of x b →
  starts_with p x = Ok (bool_decide (b `prefix_of` a)).
Proof.
  intros Hp Hx. unfold starts_with. pose proof Hp as [-> _]. pose proof Hx as [-> _].
  destruct (Z.leb_spec (zlen b) (zlen a)) as [E|E].
  - rewrite (memcmp_pieces p x a b) by (done || lia). mred. f_equal.
    destruct (memcmp_cases a b) as [(-> & H & _)|[(-> & _ & _ & H)|(-> & _ & _ & H)]]; simpl;
      [|by rewrite bool_decide_eq_false_2..].
    rewrite bool_decide_eq_true_2; [done|]. destruct H as [H|H]; [|done].
    rewrite (prefix_length_eq a b H); [done|]. unfold zlen in *. lia.
  - rewrite bool_decide_eq_false_2; [done|]. intros H%prefix_length. unfold zlen in *. lia.
Qed.

(** C40.  The order of string pieces: on pieces that denote byte strings every
    operator reads inside the objects and decides what its name says of the
    strings ([compare] gives the sign of the lexicographic order of unsigned
    bytes, [==] equality, [<], [<=], [>=], [>] agree with [compare],
    [starts_with] the prefix relation), and [<] is transitive. *)
Theorem piece_order (p x y : StringPiece) (a b c : list ascii) :
  bytes_of p a → bytes_of x b → bytes_of y c →
  compare p x = Ok (match lex a b with Lt => -1 | Eq => 0 | Gt => 1 end) ∧
  piece_eq p x = Ok (bool_decide (a = b)) ∧ piece_ne p x = Ok (bool_decide (a ≠ b)) ∧
  piece_lt p x = Ok (bool_decide (lex a b = Lt)) ∧ piece_le p x = Ok (bool_decide (lex a b ≠ Gt)) ∧
  piece_ge p x = Ok (bool_decide (lex a b ≠ Lt)) ∧ piece_gt p x = Ok (bool_decide (lex a b = Gt)) ∧
  starts_with p x = Ok (bool_decide (b `prefix_of` a)) ∧
  (piece_lt p x = Ok true → piece_lt x y = Ok true → piece_lt p y = Ok true).
Proof.
  intros Hp Hx Hy.
  assert (Hlt : ∀ q r s t, bytes_of q s → bytes_of r t → piece_lt q r = Ok (bool_decide (lex s t = Lt))).
  { intros q r s t Hq Hr. unfold piece_lt. rewrite (binary_predicate_pieces _ _ q r s t) by done. f_equal.
    destruct (memcmp_cases s t) as [(-> & _ & ->)|[(-> & -> & _)|(-> & -> & _)]]; [|done..]. simpl.
    destruct (Z.compare_spec (zlen s) (zlen t)), (Z.ltb_spec (zlen s) (zlen t)); done || lia. }
  split_and!.
  - by apply compare_pieces.
  - by apply eq_pieces.
  - unfold piece_ne. rewrite (eq_pieces p x a b) by done. mred. by rewrite bool_decide_not.
  - by apply Hlt.
  - unfold piece_le. rewrite (binary_predicate_pieces _ _ p x a b) by done. f_equal.
    destruct (memcmp_cases a b) as [(-> & _ & ->)|[(-> & -> & _)|(-> & -> & _)]]; [|done..]. simpl.
    destruct (Z.compare_spec (zlen a) (zlen b)), (Z.leb_spec (zlen a) (zlen b)); done || lia.
  - unfold piece_ge. rewrite (binary_predicate_pieces _ _ p x a b) by done. f_equal.
    destruct (memcmp_cases a b) as [(-> & _ & ->)|[(-> & -> & _)|(-> & -> & _)]]; [|done..]. simpl.
    rewrite Z.geb_leb. destruct (Z.compare_spec (zlen a) (zlen b)), (Z.leb_spec (zlen b) (zlen a)); done || lia.
  - unfold piece_gt. rewrite (binary_predicate_pieces _ _ p x a b) by done. f_equal.
    destruct (memcmp_cases a b) as [(-> & _ & ->)|[(-> & -> & _)|(-> & -> & _)]]; [|done..]. simpl.
    rewrite Z.gtb_ltb. destruct (Z.compare_spec (zlen a) (zlen b)), (Z.ltb_spec (zlen b) (zlen a)); done || lia.
  - by apply starts_with_pieces.
  - rewrite (Hlt p x a b), (Hlt x y b c), (Hlt p y a c) by done. intros [= H1] [= H2]. bprop.
    f_equal. apply bool_decide_eq_true. by eapply lex_trans.
Qed.

Lemma StringPiece_string_bytes s : zlen s < 2 ^ 31 → bytes_of (StringPiece_string s) s.
Proof.
  intros H. pose proof (zlen_nonneg s). unfold bytes_of, as_string. simpl. rewrite swrap_small by (unfold in_signed; lia).
  split_and!; [done..|]. rewrite (proj2 (Z.ltb_ge _ _)) by lia. unfold ptr_read.
  destruct (Z.eqb_spec (zlen s) 0) as [E|E]; [by destruct s|].
  rewrite read_at_Ok by (autorewrite with zlist; lia). f_equal. rewrite slice_app_l by lia. apply slice_all. lia.
Qed.

Lemma piece_order_witness :
  let p := StringPiece_string (chars "abc") in
  let x := StringPiece_string (chars "abd") in
  let y := StringPiece_string (chars "abdz") in
  compare p x = Ok (-1) ∧ piece_lt p y = Ok true ∧ starts_with y x = Ok true.
Proof.
  intros p x y.
  pose proof (StringPiece_string_bytes (chars "abc") eq_refl) as Hp.
  pose proof (StringPiece_string_bytes (chars "abd") eq_refl) as Hx.
  pose proof (StringPiece_string_bytes (chars "abdz") eq_refl) as Hy.
  destruct (piece_order p x y _ _ _ Hp Hx Hy) as (H1 & _ & _ & H2 & _ & _ & _ & _ & H3).
  destruct (piece_order y x p _ _ _ Hy Hx Hp) as (_ & _ & _ & _ & _ & _ & _ & H4 & _).
  destruct (piece_order x y p _ _ _ Hx Hy Hp) as (_ & _ & _ & H5 & _).
  split_and!; [exact H1|by apply H3; [rewrite H2|rewrite H5]|exact H4].
Defined.

(** Cutting a piece at either end cuts the string it denotes. *)
Lemma remove_prefix_bytes p s n : bytes_of p s → 0 ≤ n ≤ zlen s →
  ∃ p', remove_prefix p n = Ok p' ∧ bytes_of p' (zdrop n s).
Proof.
  intros Hp Hn. pose proof Hp as (Hl & Hb & H). unfold remove_prefix. rewrite Hl, i32_Ok by lia. mred.
  eexists. split; [done|]. unfold bytes_of, as_string in *. simpl. rewrite zlen_zdrop by lia. split_and!; [done|lia|].
  rewrite Hl in H. rewrite (proj2 (Z.ltb_ge _ _)) in H by lia. rewrite (proj2 (Z.ltb_ge _ _)) by lia.
  unfold ptr_read in *. destruct (Z.eqb_spec (zlen s - n) 0) as [E|E]; [by rewrite zdrop_all by lia|].
  rewrite (proj2 (Z.eqb_neq _ _)) in H by lia. destruct (m_ptr p) as [|o i]; [done|]. simpl.
  unfold read_at in *. destruct (_ && _) eqn:E1 in H; [|done]. bprop. injection H as H.
  rewrite (proj2 (Z.leb_le 0 (i + n))), (proj2 (Z.leb_le 0 (zlen s - n))), (proj2 (Z.leb_le (i + n + _) _)) by lia.
  simpl. f_equal. replace (zdrop n s) with (zdrop n (slice i (i + zlen s) o)) by (by rewrite H). unfold slice. rewrite zdrop_ztake, zdrop_zdrop by lia. f_equal. lia.
Qed.

Lemma remove_suffix_bytes p s n : bytes_of p s → 0 ≤ n ≤ zlen s →
  ∃ p', remove_suffix p n = Ok p' ∧ bytes_of p' (ztake (zlen s - n) s).
Proof.
  intros Hp Hn. pose proof Hp as (Hl & Hb & H). unfold remove_suffix. rewrite Hl, i32_Ok by lia. mred.
  eexists. split; [done|]. unfold bytes_of, as_string. simpl. rewrite zlen_ztake by lia. split_and!; [done|lia|].
  rewrite (proj2 (Z.ltb_ge _ _)) by lia. by apply ptr_read_piece; [|lia].
Qed.
