(* ===== verification/Buffer.v ===== *)
(** * The byte buffer: src/dc/net/buffer.h, src/dc/net/buffer.cc

    A [Buffer] is a vector of char with a reader and a writer index; a
    [const char*] into it is its offset from [begin()].  [size_t] values are
    integers with the wrap-around of [u64] written out.  The kernel's readv
    is an argument of [readFd]. *)

From S2P Require Import Prelude Endian.

Open Scope Z_scope.

(** ** Data *)

Definition kCheapPrepend : Z := 8.
Definition kInitialSize : Z := 1024.

(** [std::vector<char>::max_size()] of libstdc++ on x86_64. *)
Definition max_size : Z := 2 ^ 63 - 1.

Record Buffer : Type := mkBuffer {
  m_buffers : list ascii;
  m_readerIndex : Z;
  m_writerIndex : Z;
}.

Definition vsize (b : Buffer) : Z := zlen (m_buffers b).

(** [std::vector<char>::resize] *)
Definition vector_resize (n : Z) (v : list ascii) : res (list ascii) :=
  if n <=? max_size
  then Ok (if n <=? zlen v then ztake n v
           else v ++ replicate (Z.to_nat (n - zlen v)) NUL)
  else Fail (FThrow "std::length_error").

Definition set_reader (b : Buffer) (r : Z) : Buffer :=
  mkBuffer (m_buffers b) r (m_writerIndex b).
Definition set_writer (b : Buffer) (w : Z) : Buffer :=
  mkBuffer (m_buffers b) (m_readerIndex b) w.
Definition set_bytes (b : Buffer) (v : list ascii) : Buffer :=
  mkBuffer v (m_readerIndex b) (m_writerIndex b).

(** ** Observers *)

Definition readableBytes (b : Buffer) : Z := u64 (m_writerIndex b - m_readerIndex b).
Definition writableBytes (b : Buffer) : Z := u64 (vsize b - m_writerIndex b).
Definition prependableBytes (b : Buffer) : Z := m_readerIndex b.
Definition peek (b : Buffer) : Z := m_readerIndex b.
Definition beginWrite (b : Buffer) : Z := m_writerIndex b.

(** [Buffer::Buffer(size_t initialSize)] *)
Definition Buffer_ctor (initialSize : Z) : res Buffer :=
  v ← vector_resize (u64 (kCheapPrepend + initialSize)) [];
  let b := mkBuffer v kCheapPrepend kCheapPrepend in
  cassert (readableBytes b =? 0) "readableBytes() == 0";;
  cassert (writableBytes b =? initialSize) "writableBytes() == initialSize";;
  cassert (prependableBytes b =? kCheapPrepend) "prependableBytes() == kCheapPrepend";;
  Ok b.

Definition swap (a b : Buffer) : Buffer * Buffer := (b, a).

Definition findCRLF_from (b : Buffer) (start : Z) : res (option Z) :=
  cassert (peek b <=? start) "peek() <= start";;
  cassert (start <=? beginWrite b) "start <= beginWrite()";;
  let crlf := start + Z.of_nat (std_search CRLF (slice start (beginWrite b) (m_buffers b))) in
  Ok (if crlf =? beginWrite b then None else Some crlf).

Definition findCRLF (b : Buffer) : option Z :=
  let crlf := peek b
    + Z.of_nat (std_search CRLF (slice (peek b) (beginWrite b) (m_buffers b))) in
  if crlf =? beginWrite b then None else Some crlf.

(** [memchr(start, '\n', len)] as an offset. *)
Definition memchr_LF (v : list ascii) (start len : Z) : option Z :=
  let i := Z.of_nat (std_find LF (slice start (start + len) v)) in
  if i <? len then Some (start + i) else None.

Definition findEOL (b : Buffer) : option Z :=
  memchr_LF (m_buffers b) (peek b) (readableBytes b).

Definition findEOL_from (b : Buffer) (start : Z) : res (option Z) :=
  cassert (peek b <=? start) "peek() <= start";;
  cassert (start <=? beginWrite b) "start <= beginWrite()";;
  Ok (memchr_LF (m_buffers b) start (beginWrite b - start)).

(** ** Retrieving *)

Definition retrieveAll (b : Buffer) : Buffer :=
  mkBuffer (m_buffers b) kCheapPrepend kCheapPrepend.

Definition retrieve (b : Buffer) (len : Z) : res Buffer :=
  cassert (len <=? readableBytes b) "len <= readableBytes()";;
  Ok (if len <? readableBytes b
      then set_reader b (u64 (m_readerIndex b + len))
      else retrieveAll b).

Definition retrieveUntil (b : Buffer) (end_ : Z) : res Buffer :=
  cassert (peek b <=? end_) "peek() <= end";;
  cassert (end_ <=? beginWrite b) "end <= beginWrite()";;
  retrieve b (u64 (end_ - peek b)).

Definition retrieveInt64 (b : Buffer) : res Buffer := retrieve b 8.
Definition retrieveInt32 (b : Buffer) : res Buffer := retrieve b 4.
Definition retrieveInt16 (b : Buffer) : res Buffer := retrieve b 2.
Definition retrieveInt8 (b : Buffer) : res Buffer := retrieve b 1.

Definition retrieveAsString (b : Buffer) (len : Z) : res (list ascii * Buffer) :=
  cassert (len <=? readableBytes b) "len <= readableBytes()";;
  result ← read_at (peek b) len (m_buffers b);
  b' ← retrieve b len;
  Ok (result, b').

Definition retrieveAllAsString (b : Buffer) : res (list ascii * Buffer) :=
  retrieveAsString b (readableBytes b).

(** [toStringPiece]: a pointer and an [int] length. *)
Definition toStringPiece (b : Buffer) : Z * Z := (peek b, swrap 32 (readableBytes b)).

(** ** Making room and appending *)

Definition makeSpace (b : Buffer) (len : Z) : res Buffer :=
  if u64 (writableBytes b + prependableBytes b) <? u64 (len + kCheapPrepend)
  then
    v ← vector_resize (u64 (m_writerIndex b + len)) (m_buffers b);
    Ok (set_bytes b v)
  else
    cassert (kCheapPrepend <? m_readerIndex b) "kCheapPrepend < m_readerIndex";;
    let readable := readableBytes b in
    d ← read_at (m_readerIndex b) (m_writerIndex b - m_readerIndex b) (m_buffers b);
    v ← write_at kCheapPrepend d (m_buffers b);
    let b' := mkBuffer v kCheapPrepend (u64 (kCheapPrepend + readable)) in
    cassert (readable =? readableBytes b') "readable == readableBytes()";;
    Ok b'.

Definition ensureWritableBytes (b : Buffer) (len : Z) : res Buffer :=
  b' ← (if writableBytes b <? len then makeSpace b len else Ok b);
  cassert (len <=? writableBytes b') "writableBytes() >= len";;
  Ok b'.

Definition hasWritten (b : Buffer) (len : Z) : res Buffer :=
  cassert (len <=? writableBytes b) "len <= writableBytes()";;
  Ok (set_writer b (u64 (m_writerIndex b + len))).

Definition unwrite (b : Buffer) (len : Z) : res Buffer :=
  cassert (len <=? readableBytes b) "len <= readableBytes()";;
  Ok (set_writer b (u64 (m_writerIndex b - len))).

(** [append(const char* data, size_t len)], [data] pointing at offset [pos]
    of the object [src]. *)
Definition append_from (b : Buffer) (src : list ascii) (pos len : Z) : res Buffer :=
  b1 ← ensureWritableBytes b len;
  d ← read_at pos len src;
  v ← write_at (beginWrite b1) d (m_buffers b1);
  hasWritten (set_bytes b1 v) len.

(** [append] of a whole object. *)
Definition append (b : Buffer) (data : list ascii) : res Buffer :=
  append_from b data 0 (zlen data).

Definition append_piece (b : Buffer) (src : list ascii) (p : Z * Z) : res Buffer :=
  append_from b src p.1 (u64 p.2).

Definition prepend (b : Buffer) (data : list ascii) : res Buffer :=
  cassert (zlen data <=? prependableBytes b) "len <= prependableBytes()";;
  let r := u64 (m_readerIndex b - zlen data) in
  v ← write_at r data (m_buffers b);
  Ok (mkBuffer v r (m_writerIndex b)).

Definition shrink (b : Buffer) (reserve : Z) : res Buffer :=
  other ← Buffer_ctor kInitialSize;
  other1 ← ensureWritableBytes other (u64 (readableBytes b + reserve));
  other2 ← append_piece other1 (m_buffers b) (toStringPiece b);
  Ok (swap b other2).1.

(** ** Integers in network order *)

Definition appendInt64 (b : Buffer) (x : Z) : res Buffer :=
  let be64 := swrap 64 (hostToNetwork64 x) in append b (mem_of 8 be64).
Definition appendInt32 (b : Buffer) (x : Z) : res Buffer :=
  let be32 := swrap 32 (hostToNetwork32 x) in append b (mem_of 4 be32).
Definition appendInt16 (b : Buffer) (x : Z) : res Buffer :=
  let be16 := swrap 16 (hostToNetwork16 x) in append b (mem_of 2 be16).
Definition appendInt8 (b : Buffer) (x : Z) : res Buffer :=
  append b (mem_of 1 x).

Definition peekInt64 (b : Buffer) : res Z :=
  cassert (8 <=? readableBytes b) "readableBytes() >= sizeof(int64_t)";;
  m ← read_at (peek b) 8 (m_buffers b);
  let be64 := swrap 64 (mem_val m) in
  Ok (swrap 64 (networkToHost64 be64)).

Definition peekInt32 (b : Buffer) : res Z :=
  cassert (4 <=? readableBytes b) "readableBytes() >= sizeof(int32_t)";;
  m ← read_at (peek b) 4 (m_buffers b);
  let be32 := swrap 32 (mem_val m) in
  Ok (swrap 32 (networkToHost32 be32)).

(** [be16] is declared [int32_t], so [sizeof be16] is 4. *)
Definition peekInt16 (b : Buffer) : res Z :=
  cassert (2 <=? readableBytes b) "readableBytes() >= sizeof(int16_t)";;
  m ← read_at (peek b) 4 (m_buffers b);
  let be16 := swrap 32 (mem_val m) in
  Ok (swrap 16 (networkToHost16 be16)).

Definition peekInt8 (b : Buffer) : res Z :=
  cassert (1 <=? readableBytes b) "readableBytes() >= sizeof(int8_t)";;
  m ← read_at (peek b) 1 (m_buffers b);
  Ok (swrap 8 (mem_val m)).

Definition readInt64 (b : Buffer) : res (Z * Buffer) :=
  result ← peekInt64 b; b' ← retrieveInt64 b; Ok (result, b').
Definition readInt32 (b : Buffer) : res (Z * Buffer) :=
  result ← peekInt32 b; b' ← retrieveInt32 b; Ok (result, b').
Definition readInt16 (b : Buffer) : res (Z * Buffer) :=
  result ← peekInt16 b; b' ← retrieveInt16 b; Ok (result, b').
Definition readInt8 (b : Buffer) : res (Z * Buffer) :=
  result ← peekInt8 b; b' ← retrieveInt8 b; Ok (result, b').

Definition prependInt64 (b : Buffer) (x : Z) : res Buffer :=
  prepend b (mem_of 8 (swrap 64 (hostToNetwork64 x))).
Definition prependInt32 (b : Buffer) (x : Z) : res Buffer :=
  prepend b (mem_of 4 (swrap 32 (hostToNetwork32 x))).
Definition prependInt16 (b : Buffer) (x : Z) : res Buffer :=
  prepend b (mem_of 2 (swrap 16 (hostToNetwork16 x))).

(** ** Reading from a descriptor *)

(** What readv(2) reports: the error number, or the bytes it stored into the
    vectors, filling them in order. *)
Inductive readv_result : Type :=
  | ReadvErr (err : Z)
  | ReadvBytes (data : list ascii).

Definition extrabuf_size : Z := 65536.

(** The result, [*savedErrno] when it is written, and the buffer. *)
Definition readFd (readv : list Z → readv_result) (b : Buffer) :
    res (Z * option Z * Buffer) :=
  let writable := writableBytes b in
  let vec := if writable <? extrabuf_size then [writable; extrabuf_size] else [writable] in
  match readv vec with
  | ReadvErr err => Ok (-1, Some err, b)
  | ReadvBytes data =>
      let n := zlen data in
      v ← write_at (m_writerIndex b) (ztake writable data) (m_buffers b);
      let b1 := set_bytes b v in
      let extrabuf := zdrop writable data in
      if u64 n <=? writable
      then Ok (n, None, set_writer b1 (u64 (m_writerIndex b1 + n)))
      else
        let b2 := set_writer b1 (vsize b1) in
        b3 ← append_from b2 extrabuf 0 (u64 (n - writable));
        Ok (n, None, b3)
  end.

(** ** The representation invariant and the abstraction

    [0 <= readerIndex <= writerIndex <= size] (the picture above class
    Buffer), with room for the prepend area.  [content] is the byte string
    the buffer stands for. *)
Definition wf (b : Buffer) : Prop :=
  0 ≤ m_readerIndex b ≤ m_writerIndex b ∧ m_writerIndex b ≤ vsize b ∧
  kCheapPrepend ≤ vsize b ≤ max_size.

Definition content (b : Buffer) : list ascii :=
  slice (m_readerIndex b) (m_writerIndex b) (m_buffers b).

(** [len] more bytes can be stored: in place, after moving the readable bytes
    down, or by growing the vector. *)
Definition room (b : Buffer) (len : Z) : Prop :=
  len ≤ writableBytes b ∨ len + kCheapPrepend ≤ writableBytes b + m_readerIndex b ∨
  m_writerIndex b + len ≤ max_size.

(** The mutating operations, as the steps of a client. *)
Inductive buf_op : Type :=
  | OAppend (data : list ascii)
  | OAppendInt64 (x : Z) | OAppendInt32 (x : Z) | OAppendInt16 (x : Z) | OAppendInt8 (x : Z)
  | OPrepend (data : list ascii)
  | ORetrieve (len : Z) | ORetrieveUntil (end_ : Z) | ORetrieveAll
  | ORetrieveAsString (len : Z)
  | OUnwrite (len : Z)
  | OShrink (reserve : Z).

Definition run_op (b : Buffer) (o : buf_op) : res Buffer :=
  match o with
  | OAppend d => append b d
  | OAppendInt64 x => appendInt64 b x
  | OAppendInt32 x => appendInt32 b x
  | OAppendInt16 x => appendInt16 b x
  | OAppendInt8 x => appendInt8 b x
  | OPrepend d => prepend b d
  | ORetrieve n => retrieve b n
  | ORetrieveUntil p => retrieveUntil b p
  | ORetrieveAll => Ok (retrieveAll b)
  | ORetrieveAsString n => '(_, b') ← retrieveAsString b n; Ok b'
  | OUnwrite n => unwrite b n
  | OShrink r => shrink b r
  end.

(** The arguments are representable: a [size_t] is not negative, and no
    object has more than [max_size] bytes.  [shrink] hands the readable bytes
    over with an [int] length. *)
Definition op_args (b : Buffer) (o : buf_op) : Prop :=
  match o with
  | OAppend d | OPrepend d => zlen d ≤ max_size
  | ORetrieve n | ORetrieveAsString n | OUnwrite n => 0 ≤ n
  | OShrink n => 0 ≤ n ∧ kCheapPrepend + readableBytes b + n ≤ max_size ∧
                 readableBytes b < 2 ^ 31
  | _ => True
  end.

(** The abstract buffer: a byte string.  [peek0] is the offset of its first
    byte, which only [retrieveUntil] depends on. *)
Definition spec_op (peek0 : Z) (s : list ascii) (o : buf_op) : list ascii :=
  match o with
  | OAppend d => s ++ d
  | OAppendInt64 x => s ++ reverse (mem_of 8 x)
  | OAppendInt32 x => s ++ reverse (mem_of 4 x)
  | OAppendInt16 x => s ++ reverse (mem_of 2 x)
  | OAppendInt8 x => s ++ mem_of 1 x
  | OPrepend d => d ++ s
  | ORetrieve n | ORetrieveAsString n => zdrop n s
  | ORetrieveUntil p => zdrop (p - peek0) s
  | ORetrieveAll => []
  | OUnwrite n => ztake (zlen s - n) s
  | OShrink _ => s
  end.

(** ** Lemmas *)

Ltac wf_unfold :=
  unfold wf, retrieveAll, vsize, kCheapPrepend, max_size in *;
  cbn [m_buffers m_readerIndex m_writerIndex set_reader set_writer set_bytes] in *.

Lemma readable_wf (b : Buffer) :
  wf b → readableBytes b = m_writerIndex b - m_readerIndex b.
Proof. intros H. apply u64_small. wf_unfold. lia. Qed.

Lemma writable_wf (b : Buffer) : wf b → writableBytes b = vsize b - m_writerIndex b.
Proof. intros H. apply u64_small. wf_unfold. lia. Qed.

Lemma zlen_content (b : Buffer) : wf b → zlen (content b) = readableBytes b.
Proof.
  intros H. rewrite readable_wf by done. unfold content.
  rewrite zlen_slice; wf_unfold; lia.
Qed.

Lemma Buffer_ctor_ok (n : Z) :
  0 ≤ n ≤ max_size - kCheapPrepend →
  ∃ b, Buffer_ctor n = Ok b ∧ wf b ∧ content b = [] ∧ writableBytes b = n
    ∧ m_readerIndex b = kCheapPrepend ∧ m_writerIndex b = kCheapPrepend.
Proof.
  unfold kCheapPrepend, max_size. intros Hn.
  set (b := mkBuffer (replicate (Z.to_nat (8 + n)) NUL) 8 8).
  assert (Hs : vsize b = 8 + n) by (unfold vsize; simpl; autorewrite with zlist; lia).
  assert (Hw : wf b) by (unfold wf; rewrite Hs; subst b; simpl; unfold kCheapPrepend, max_size; lia).
  exists b. split_and!; try done.
  - unfold Buffer_ctor, vector_resize, kCheapPrepend, max_size.
    rewrite u64_small by lia. change (zlen []) with 0.
    rewrite (proj2 (Z.leb_le _ _)) by lia. rewrite (proj2 (Z.leb_gt _ _)) by lia.
    replace (8 + n - 0) with (8 + n) by lia. mred. cbn zeta. cbn [app]. fold b.
    rewrite readable_wf, writable_wf by done. rewrite Hs. simpl.
    rewrite (cassert_true (8 + n - 8 =? n)) by btrue. done.
  - rewrite writable_wf, Hs by done. simpl. lia.
Qed.

Lemma retrieveAll_wf (b : Buffer) : wf b → wf (retrieveAll b) ∧ content (retrieveAll b) = [].
Proof.
  intros. split; [wf_unfold; lia|]. apply slice_empty. simpl. lia.
Qed.

Lemma retrieve_ok (b : Buffer) (len : Z) :
  wf b → 0 ≤ len ≤ readableBytes b →
  ∃ b', retrieve b len = Ok b' ∧ wf b' ∧ content b' = zdrop len (content b) ∧
    vsize b' = vsize b.
Proof.
  intros Hw Hl. pose proof (zlen_content b Hw) as Hc. unfold retrieve.
  rewrite cassert_true by btrue. mred.
  eexists; split; [done|]. pose proof Hw as Hw'.
  destruct (len <? readableBytes b) eqn:E; bprop.
  - rewrite readable_wf in * by done.
    assert (u64 (m_readerIndex b + len) = m_readerIndex b + len) as ->
      by (apply u64_small; wf_unfold; lia).
    split_and!; [wf_unfold; lia| |done].
    unfold content; simpl. unfold slice. rewrite zdrop_ztake by lia.
    rewrite zdrop_zdrop by (wf_unfold; lia). f_equal. lia.
  - destruct (retrieveAll_wf b) as [? ->]; [done|]. split_and!; [done| |done].
    symmetry. apply zdrop_all. lia.
Qed.

Lemma retrieve_fail (b : Buffer) (len : Z) :
  readableBytes b < len → retrieve b len = Fail (FAssert "len <= readableBytes()").
Proof.
  intros. unfold retrieve. replace (_ <=? _) with false; [done|]. symmetry. btrue.
Qed.

Lemma retrieveAsString_ok (b : Buffer) (len : Z) :
  wf b → 0 ≤ len ≤ readableBytes b →
  ∃ b', retrieveAsString b len = Ok (ztake len (content b), b') ∧ wf b' ∧
    content b' = zdrop len (content b).
Proof.
  intros Hw Hl. destruct (retrieve_ok b len) as (b' & E & Hw' & Hc & _); [done..|].
  exists b'. split; [|done]. unfold retrieveAsString, peek.
  rewrite cassert_true by btrue. mred.
  rewrite readable_wf in Hl by done.
  rewrite read_at_Ok by (wf_unfold; lia). mred. rewrite E. simpl.
  do 2 f_equal. unfold content, slice. rewrite ztake_ztake by lia. f_equal. lia.
Qed.

Section makeSpace.
Context (b : Buffer) (len : Z).
Hypothesis Hw : wf b.
Hypothesis Hlen : writableBytes b < len.
Hypothesis Hmax : len ≤ max_size.

(** The two branches of [makeSpace]: the vector grows, keeping both indices;
    or the readable bytes move down to [kCheapPrepend] and the size stays. *)
Lemma makeSpace_ok :
  room b len →
  ∃ b', makeSpace b len = Ok b' ∧ wf b' ∧ content b' = content b ∧
    len ≤ writableBytes b' ∧
    vsize b' = (if writableBytes b + m_readerIndex b <? len + kCheapPrepend
                then m_writerIndex b + len else vsize b).
Proof.
  unfold makeSpace, prependableBytes, room. intros Hroom. pose proof (readable_wf b Hw) as Hr.
  pose proof (writable_wf b Hw) as Hwr. rewrite Hwr in *.
  assert (0 ≤ readableBytes b) by (rewrite Hr; wf_unfold; lia).
  rewrite !(u64_small (_ + m_readerIndex b)), (u64_small (len + _)) by (wf_unfold; lia).
  destruct (_ <? _) eqn:E; bprop.
  - rewrite u64_small by (wf_unfold; lia). unfold vector_resize.
    rewrite (proj2 (Z.leb_le _ _)) by lia.
    rewrite (proj2 (Z.leb_gt _ _)) by (wf_unfold; lia). mred.
    set (v := m_buffers b ++ _).
    assert (Hv : zlen v = m_writerIndex b + len)
      by (subst v; wf_unfold; autorewrite with zlist; lia).
    assert (wf (set_bytes b v)) by (wf_unfold; rewrite Hv; lia).
    eexists; split_and!; [done|done| | |].
    + unfold content; simpl. subst v. apply slice_app_l; wf_unfold; lia.
    + rewrite writable_wf by done. wf_unfold. lia.
    + done.
  - rewrite cassert_true by (btrue; wf_unfold; lia). mred.
    rewrite read_at_Ok by (wf_unfold; lia). mred.
    replace (m_readerIndex b + _) with (m_writerIndex b) by lia. fold (content b).
    pose proof (zlen_content b Hw) as Hc. rewrite <- Hc in *.
    rewrite write_at_Ok by (rewrite ?Hr; wf_unfold; lia). mred.
    set (v := ztake kCheapPrepend _ ++ _).
    assert (Hv : zlen v = vsize b) by (apply zlen_write; wf_unfold; lia).
    rewrite (u64_small (kCheapPrepend + _)) by (wf_unfold; lia).
    set (b' := mkBuffer v _ _). assert (wf b') by (subst b'; wf_unfold; rewrite Hv; lia).
    rewrite cassert_true by (rewrite readable_wf by done; subst b'; simpl; btrue).
    eexists; split_and!; [done|done| | |done].
    + subst b' v. unfold content at 1; cbn [m_readerIndex m_writerIndex m_buffers].
      apply slice_write_data; wf_unfold; lia.
    + rewrite writable_wf by done. subst b'. wf_unfold. rewrite Hv. lia.
Qed.

Lemma makeSpace_throws :
  ¬ room b len → makeSpace b len = Fail (FThrow "std::length_error").
Proof.
  unfold makeSpace, prependableBytes, room. intros Hroom.
  pose proof (writable_wf b Hw) as Hwr. rewrite Hwr in *.
  rewrite !(u64_small (_ + m_readerIndex b)), (u64_small (len + _)) by (wf_unfold; lia).
  rewrite (proj2 (Z.ltb_lt _ _)) by lia. rewrite u64_small by (wf_unfold; lia).
  unfold vector_resize. rewrite (proj2 (Z.leb_gt _ _)) by lia. done.
Qed.
End makeSpace.

Lemma ensureWritableBytes_ok (b : Buffer) (len : Z) :
  wf b → len ≤ max_size → room b len →
  ∃ b', ensureWritableBytes b len = Ok b' ∧ wf b' ∧ content b' = content b ∧
    len ≤ writableBytes b'.
Proof.
  intros Hw Hm Hroom. unfold ensureWritableBytes. destruct (_ <? _) eqn:E; bprop.
  - destruct (makeSpace_ok b len) as (b' & -> & ? & ? & ? & _); [done..|].
    exists b'. mred. rewrite cassert_true by btrue. done.
  - exists b. mred. rewrite cassert_true by btrue. done.
Qed.

Lemma store_hasWritten (b : Buffer) (d : list ascii) :
  wf b → zlen d ≤ writableBytes b →
  ∃ b', (v ← write_at (beginWrite b) d (m_buffers b); hasWritten (set_bytes b v) (zlen d))
        = Ok b' ∧ wf b' ∧ content b' = content b ++ d.
Proof.
  intros Hw Hl. pose proof (zlen_nonneg d). rewrite writable_wf in Hl by done.
  unfold beginWrite. rewrite write_at_Ok by (wf_unfold; lia). mred.
  set (v := ztake _ _ ++ _).
  assert (Hv : zlen v = zlen (m_buffers b)) by (apply zlen_write; wf_unfold; lia).
  assert (Hw1 : wf (set_bytes b v)) by (wf_unfold; rewrite Hv; lia).
  unfold hasWritten. rewrite writable_wf by done.
  rewrite cassert_true by (btrue; wf_unfold; lia). mred.
  simpl m_writerIndex. rewrite u64_small by (wf_unfold; lia).
  eexists; split_and!; [done|wf_unfold; rewrite Hv; lia|].
  unfold content; simpl. rewrite (slice_split _ (m_writerIndex b)) by (wf_unfold; lia).
  subst v. f_equal.
  - apply slice_write_before; wf_unfold; lia.
  - apply slice_write_data; wf_unfold; lia.
Qed.

Lemma append_from_ok (b : Buffer) (src : list ascii) (pos len : Z) :
  wf b → 0 ≤ pos → 0 ≤ len ≤ max_size → pos + len ≤ zlen src → room b len →
  ∃ b', append_from b src pos len = Ok b' ∧ wf b' ∧
    content b' = content b ++ slice pos (pos + len) src.
Proof.
  intros Hw Hp Hl Hs Hm. unfold append_from.
  destruct (ensureWritableBytes_ok b len) as (b1 & -> & Hw1 & <- & Hl1); [done|lia|done|].
  mred. rewrite read_at_Ok by lia. mred.
  set (d := slice _ _ src).
  assert (Hd : zlen d = len) by (subst d; rewrite zlen_slice by lia; lia).
  destruct (store_hasWritten b1 d) as (b' & E & ? & ?); [done|lia|].
  rewrite Hd in E. by exists b'.
Qed.

Lemma append_ok (b : Buffer) (d : list ascii) :
  wf b → zlen d ≤ max_size → room b (zlen d) →
  ∃ b', append b d = Ok b' ∧ wf b' ∧ content b' = content b ++ d.
Proof.
  intros Hw Hm Hroom. pose proof (zlen_nonneg d).
  destruct (append_from_ok b d 0 (zlen d)) as (b' & ? & ? & Hc); [done|lia..|done|].
  exists b'. rewrite slice_all in Hc by lia. done.
Qed.

Lemma prepend_ok (b : Buffer) (d : list ascii) :
  wf b → zlen d ≤ prependableBytes b →
  ∃ b', prepend b d = Ok b' ∧ wf b' ∧ content b' = d ++ content b ∧
    m_readerIndex b' = m_readerIndex b - zlen d ∧ m_writerIndex b' = m_writerIndex b.
Proof.
  intros Hw Hl. pose proof (zlen_nonneg d). unfold prependableBytes in *.
  unfold prepend, prependableBytes. rewrite cassert_true by btrue. mred.
  rewrite u64_small by (wf_unfold; lia).
  rewrite write_at_Ok by (wf_unfold; lia). mred.
  set (v := ztake _ _ ++ _).
  assert (Hv : zlen v = zlen (m_buffers b)) by (apply zlen_write; wf_unfold; lia).
  eexists; split_and!; [done|wf_unfold; rewrite Hv; lia| |done|done].
  unfold content; simpl. rewrite (slice_split _ (m_readerIndex b)) by (wf_unfold; lia).
  f_equal.
  - subst v. replace (m_readerIndex b) with (m_readerIndex b - zlen d + zlen d) at 2 by lia.
    apply slice_write_data; wf_unfold; lia.
  - apply slice_write_after; wf_unfold; lia.
Qed.

Lemma unwrite_ok (b : Buffer) (n : Z) :
  wf b → 0 ≤ n ≤ readableBytes b →
  ∃ b', unwrite b n = Ok b' ∧ wf b' ∧
    content b' = ztake (zlen (content b) - n) (content b).
Proof.
  intros Hw Hn. unfold unwrite. rewrite cassert_true by btrue. mred.
  rewrite zlen_content, readable_wf in * by done.
  rewrite u64_small by (wf_unfold; lia).
  eexists; split_and!; [done|wf_unfold; lia|].
  unfold content, slice; simpl. rewrite ztake_ztake by lia. f_equal. lia.
Qed.

Lemma append_throws (b : Buffer) (d : list ascii) :
  wf b → zlen d ≤ max_size → ¬ room b (zlen d) →
  append b d = Fail (FThrow "std::length_error").
Proof.
  intros Hw Hm Hroom. unfold append, append_from, ensureWritableBytes.
  rewrite (proj2 (Z.ltb_lt _ _)) by (unfold room in Hroom; lia).
  by rewrite makeSpace_throws by (try done; unfold room in Hroom; lia).
Qed.

(** [append] succeeds exactly when there is [room]. *)
Lemma append_inv (b b' : Buffer) (d : list ascii) :
  wf b → zlen d ≤ max_size → append b d = Ok b' →
  wf b' ∧ content b' = content b ++ d.
Proof.
  intros Hw Hm E. assert (room b (zlen d) ∨ ¬ room b (zlen d)) as [Hr|Hr]
    by (unfold room; lia).
  - destruct (append_ok b d) as (b1 & E1 & ? & ?); [done..|]. rewrite E in E1. by injection E1 as <-.
  - rewrite append_throws in E by done. done.
Qed.

Lemma room_grow (b : Buffer) (len : Z) : m_writerIndex b + len ≤ max_size → room b len.
Proof. unfold room. lia. Qed.

(** A buffer that holds little has room, whatever its indices. *)
Lemma room_small (b : Buffer) (len : Z) :
  wf b → 0 ≤ len → zlen (content b) + 2 * len + kCheapPrepend ≤ max_size → room b len.
Proof.
  intros Hw Hl Hm. rewrite zlen_content, readable_wf in Hm by done. unfold room.
  rewrite writable_wf by done. wf_unfold. lia.
Qed.

Lemma append_small (b : Buffer) (d : list ascii) :
  wf b → zlen (content b) + 2 * zlen d + kCheapPrepend ≤ max_size →
  ∃ b', append b d = Ok b' ∧ wf b' ∧ content b' = content b ++ d.
Proof.
  intros Hw Hm. pose proof (zlen_nonneg d). pose proof (zlen_nonneg (content b)).
  apply append_ok; [done|unfold kCheapPrepend in Hm; lia|]. by apply room_small.
Qed.

Section shrink.
Context (b : Buffer) (n : Z).
Hypothesis Hw : wf b.
Hypothesis Hn : 0 ≤ n ≤ max_size.

(** [toStringPiece] narrows the length to [int]: a buffer that holds less
    than 2 GiB shrinks to the same content. *)
Lemma shrink_ok :
  readableBytes b < 2 ^ 31 → kCheapPrepend + readableBytes b + n ≤ max_size →
  ∃ b', shrink b n = Ok b' ∧ wf b' ∧ content b' = content b.
Proof.
  intros Hr Hm. pose proof (readable_wf b Hw) as Er. unfold kCheapPrepend, max_size in Hm.
  assert (0 ≤ readableBytes b) by (rewrite Er; wf_unfold; lia).
  unfold shrink. destruct (Buffer_ctor_ok kInitialSize)
    as (o & -> & Ho & Hoc & _ & _ & How); [by vm_compute|].
  mred. rewrite u64_small by lia.
  destruct (ensureWritableBytes_ok o (readableBytes b + n)) as (o1 & E1 & Ho1 & Hc1 & Hl1);
    [done|unfold max_size; lia|apply room_grow; rewrite How; unfold kCheapPrepend, max_size; lia|].
  rewrite E1. mred. unfold append_piece, toStringPiece, peek; simpl.
  rewrite swrap_small by (unfold in_signed; lia). rewrite u64_small in * by lia.
  destruct (append_from_ok o1 (m_buffers b) (m_readerIndex b) (readableBytes b))
    as (o2 & -> & Ho2 & Hc2); try (wf_unfold; lia).
  { unfold room. lia. }
  exists o2. split_and!; [done..|]. rewrite Hc2, Hc1, Hoc. simpl.
  unfold content. f_equal. lia.
Qed.
End shrink.

(** ** Integers *)

Lemma appendInt64_append (b : Buffer) (x : Z) :
  appendInt64 b x = append b (reverse (mem_of 8 x)).
Proof.
  unfold appendInt64, hostToNetwork64. f_equal. apply (wire_bytes 8). lia.
Qed.

Lemma appendInt32_append (b : Buffer) (x : Z) :
  appendInt32 b x = append b (reverse (mem_of 4 x)).
Proof.
  unfold appendInt32, hostToNetwork32. f_equal. apply (wire_bytes 4). lia.
Qed.

Lemma appendInt16_append (b : Buffer) (x : Z) :
  appendInt16 b x = append b (reverse (mem_of 2 x)).
Proof.
  unfold appendInt16, hostToNetwork16. f_equal. apply (wire_bytes 2). lia.
Qed.

(** The first [n] readable bytes, as a read of the vector. *)
Lemma read_peek (b : Buffer) (n : Z) :
  wf b → 0 ≤ n ≤ readableBytes b →
  read_at (peek b) n (m_buffers b) = Ok (ztake n (content b)).
Proof.
  intros Hw Hn. rewrite readable_wf in Hn by done. unfold peek.
  rewrite read_at_Ok by (wf_unfold; lia). f_equal. unfold content, slice.
  rewrite ztake_ztake by lia. f_equal. lia.
Qed.

Lemma length_ztake_nat (n : nat) {A} (l : list A) :
  Z.of_nat n ≤ zlen l → length (ztake (Z.of_nat n) l) = n.
Proof. unfold ztake, zlen. rewrite length_take. lia. Qed.

Section peekInts.
Context (b : Buffer).
Hypothesis Hw : wf b.

Lemma peekInt64_ok : 8 ≤ readableBytes b →
  peekInt64 b = Ok (swrap 64 (be_val (ztake 8 (content b)))).
Proof.
  intros H. unfold peekInt64. rewrite cassert_true by btrue. mred.
  rewrite read_peek by (done || lia). mred. f_equal. unfold networkToHost64.
  apply (wire_value 8); [lia|]. apply (length_ztake_nat 8). rewrite zlen_content by done. lia.
Qed.

Lemma peekInt32_ok : 4 ≤ readableBytes b →
  peekInt32 b = Ok (swrap 32 (be_val (ztake 4 (content b)))).
Proof.
  intros H. unfold peekInt32. rewrite cassert_true by btrue. mred.
  rewrite read_peek by (done || lia). mred. f_equal. unfold networkToHost32.
  apply (wire_value 4); [lia|]. apply (length_ztake_nat 4). rewrite zlen_content by done. lia.
Qed.

Lemma peekInt8_ok : 1 ≤ readableBytes b →
  peekInt8 b = Ok (swrap 8 (be_val (ztake 1 (content b)))).
Proof.
  intros H. unfold peekInt8. rewrite cassert_true by btrue. mred.
  rewrite read_peek by (done || lia). mred. do 2 f_equal.
  pose proof (length_ztake_nat 1 (content b)) as Hl. rewrite zlen_content in Hl by done.
  specialize (Hl H). destruct (ztake _ _) as [|c [|? ?]]; [done| |done]. done.
Qed.

(** The two low bytes of the four that [peekInt16] loads. *)
Lemma peekInt16_cases : 2 ≤ readableBytes b →
  peekInt16 b =
    (if m_readerIndex b + 4 <=? vsize b
     then Ok (swrap 16 (be_val (ztake 2 (content b))))
     else Fail (FUndef "read outside the vector")).
Proof.
  intros H. unfold peekInt16. rewrite cassert_true by btrue. mred. unfold peek.
  destruct (_ <=? _) eqn:E; bprop.
  2:{ unfold read_at. rewrite (proj2 (Z.leb_gt (_ + _) _)) by (unfold vsize in E; lia).
      by rewrite andb_false_r. }
  rewrite read_at_Ok by (wf_unfold; lia). mred. f_equal.
  pose proof (read_peek b 2) as R. unfold peek in R.
  rewrite read_at_Ok in R by (wf_unfold; lia). specialize (R Hw ltac:(lia)).
  injection R as R.
  rewrite (slice_split _ (m_readerIndex b + 2)) by (destruct Hw; lia).
  rewrite R. set (m := ztake 2 _). set (m' := slice _ _ _).
  assert (Hm : length m = 2%nat)
    by (apply (length_ztake_nat 2); rewrite zlen_content by done; lia).
  unfold networkToHost16.
  assert (uwrap 16 (swrap 32 (mem_val (m ++ m'))) = uwrap 16 (swrap 16 (mem_val m))) as ->;
    [|by apply (wire_value 2); [lia|]].
  rewrite !uwrap_swrap_wide by lia. rewrite mem_val_app. unfold zlen. rewrite Hm.
  unfold uwrap. change (256 ^ Z.of_nat 2) with (2 ^ 16).
  by rewrite Z.mul_comm, Z_mod_plus_full.
Qed.
End peekInts.

(** ** Reading integers back *)

Section readInts.
Context (b : Buffer) (s : list ascii).
Hypothesis Hw : wf b.

Lemma content_prefix (n : nat) (l : list ascii) :
  content b = l ++ s → length l = n →
  Z.of_nat n ≤ readableBytes b ∧ ztake (Z.of_nat n) (content b) = l ∧
  zdrop (Z.of_nat n) (content b) = s.
Proof.
  intros Hc <-. rewrite <- zlen_content, Hc by done.
  rewrite zlen_app. pose proof (zlen_nonneg s). unfold zlen in *. split_and!.
  - lia.
  - rewrite ztake_app_l by (unfold zlen; lia). apply ztake_all. unfold zlen. lia.
  - rewrite zdrop_app_r by (unfold zlen; lia). unfold zlen. by rewrite Z.sub_diag.
Qed.

Lemma length_rmem (n : nat) (x : Z) : length (reverse (mem_of n x)) = n.
Proof. by rewrite length_reverse, length_mem_of. Qed.

Lemma readInt64_ok (x : Z) :
  in_signed 64 x → content b = reverse (mem_of 8 x) ++ s →
  ∃ b', readInt64 b = Ok (x, b') ∧ wf b' ∧ content b' = s ∧ vsize b' = vsize b.
Proof.
  intros Hx Hc. destruct (content_prefix 8 _ Hc (length_rmem 8 x)) as (H1 & H2 & H3).
  destruct (retrieve_ok b 8) as (b' & E & ? & Hc' & ?); [done|lia|].
  exists b'. unfold readInt64, retrieveInt64. rewrite peekInt64_ok by done.
  change (Z.of_nat 8) with 8 in *. rewrite H2. mred.
  assert (swrap 64 (be_val (reverse (mem_of 8 x))) = x) as ->
    by (apply (wire_roundtrip 8); [lia|done]).
  rewrite E. split_and!; [done..|congruence|done].
Qed.

Lemma readInt32_ok (x : Z) :
  in_signed 32 x → content b = reverse (mem_of 4 x) ++ s →
  ∃ b', readInt32 b = Ok (x, b') ∧ wf b' ∧ content b' = s ∧ vsize b' = vsize b.
Proof.
  intros Hx Hc. destruct (content_prefix 4 _ Hc (length_rmem 4 x)) as (H1 & H2 & H3).
  destruct (retrieve_ok b 4) as (b' & E & ? & Hc' & ?); [done|lia|].
  exists b'. unfold readInt32, retrieveInt32. rewrite peekInt32_ok by done.
  change (Z.of_nat 4) with 4 in *. rewrite H2. mred.
  assert (swrap 32 (be_val (reverse (mem_of 4 x))) = x) as ->
    by (apply (wire_roundtrip 4); [lia|done]).
  rewrite E. split_and!; [done..|congruence|done].
Qed.

Lemma readInt16_ok (x : Z) :
  in_signed 16 x → content b = reverse (mem_of 2 x) ++ s →
  m_readerIndex b + 4 ≤ vsize b →
  ∃ b', readInt16 b = Ok (x, b') ∧ wf b' ∧ content b' = s ∧ vsize b' = vsize b.
Proof.
  intros Hx Hc Hv. destruct (content_prefix 2 _ Hc (length_rmem 2 x)) as (H1 & H2 & H3).
  destruct (retrieve_ok b 2) as (b' & E & ? & Hc' & ?); [done|lia|].
  exists b'. unfold readInt16, retrieveInt16. rewrite peekInt16_cases by done.
  rewrite (proj2 (Z.leb_le _ _)) by done.
  change (Z.of_nat 2) with 2 in *. rewrite H2. mred.
  assert (swrap 16 (be_val (reverse (mem_of 2 x))) = x) as ->
    by (apply (wire_roundtrip 2); [lia|done]).
  rewrite E. split_and!; [done..|congruence|done].
Qed.

Lemma readInt8_ok (x : Z) :
  in_signed 8 x → content b = reverse (mem_of 1 x) ++ s →
  ∃ b', readInt8 b = Ok (x, b') ∧ wf b' ∧ content b' = s ∧ vsize b' = vsize b.
Proof.
  intros Hx Hc. destruct (content_prefix 1 _ Hc (length_rmem 1 x)) as (H1 & H2 & H3).
  destruct (retrieve_ok b 1) as (b' & E & ? & Hc' & ?); [done|lia|].
  exists b'. unfold readInt8, retrieveInt8. rewrite peekInt8_ok by done.
  change (Z.of_nat 1) with 1 in *. rewrite H2. mred.
  assert (swrap 8 (be_val (reverse (mem_of 1 x))) = x) as ->
    by (apply (wire_roundtrip 1); [lia|done]).
  rewrite E. split_and!; [done..|congruence|done].
Qed.
End readInts.

(** ** Line search *)

(** The first CRLF of a byte string: everything before it, everything after. *)
Definition first_crlf (s line rest : list ascii) : Prop :=
  s = line ++ CRLF ++ rest ∧ ∀ i, (i < length line)%nat → starts CRLF (drop i s) = false.

Definition no_crlf (s : list ascii) : Prop := ∀ i, starts CRLF (drop i s) = false.

Lemma search_crlf_spec (s : list ascii) :
  let i := std_search CRLF s in
  (i < length s)%nat ∧ first_crlf s (take i s) (drop (i + 2) s) ∨
  i = length s ∧ no_crlf s.
Proof.
  cbn zeta. pose proof (std_search_le CRLF s) as Hle.
  destruct (decide (std_search CRLF s < length s)%nat) as [H|H].
  - left. split; [done|]. pose proof (std_search_hit CRLF s H) as [l' Hs]%starts_spec.
    split.
    + rewrite <- drop_drop, Hs. change (drop 2 (CRLF ++ l')) with l'.
      by rewrite <- Hs, take_drop.
    + intros i Hi. apply std_search_first. rewrite length_take in Hi. lia.
  - right. split; [lia|]. intros i.
    destruct (decide (i < std_search CRLF s)%nat); [by apply std_search_first|].
    rewrite drop_ge by lia. done.
Qed.

Lemma findCRLF_spec (b : Buffer) : wf b →
  match findCRLF b with
  | Some p => ∃ line rest, first_crlf (content b) line rest ∧ p = peek b + zlen line
  | None => no_crlf (content b)
  end.
Proof.
  intros Hw. unfold findCRLF, beginWrite, peek. fold (content b).
  pose proof (zlen_content b Hw) as Hl. rewrite readable_wf in Hl by done.
  unfold zlen in Hl. destruct (search_crlf_spec (content b)) as [(Hi & H)|(Hi & H)].
  - rewrite (proj2 (Z.eqb_neq _ _)) by lia. eexists _, _. split; [exact H|].
    unfold zlen. rewrite length_take. lia.
  - rewrite (proj2 (Z.eqb_eq _ _)) by lia. done.
Qed.

(** ** readFd *)

(** readv(2) stores at most as many bytes as the vectors hold. *)
Definition readv_fits (readv : list Z → readv_result) : Prop :=
  ∀ vec data, readv vec = ReadvBytes data → zlen data ≤ foldr Z.add 0 vec.

Lemma readFd_data (readv : list Z → readv_result) (b : Buffer) (data : list ascii) :
  let vec := if writableBytes b <? extrabuf_size
             then [writableBytes b; extrabuf_size] else [writableBytes b] in
  wf b → vsize b + extrabuf_size ≤ max_size ∨ zlen (content b) + 2 * zlen data + kCheapPrepend ≤ max_size →
  readv vec = ReadvBytes data → zlen data ≤ foldr Z.add 0 vec →
  ∃ b', readFd readv b = Ok (zlen data, None, b') ∧ wf b' ∧ content b' = content b ++ data.
Proof.
  cbn zeta. intros Hw Hv Hr Hfit. unfold readFd. rewrite Hr.
  pose proof (writable_wf b Hw) as Ew. pose proof (zlen_nonneg data) as Hn.
  assert (Hfit' : zlen data ≤ writableBytes b + extrabuf_size).
  { unfold extrabuf_size in *. destruct (_ <? _); simpl in Hfit; lia. }
  assert (0 ≤ writableBytes b) by (rewrite Ew; wf_unfold; lia).
  set (d0 := ztake (writableBytes b) data).
  assert (Hd0 : zlen d0 = Z.min (writableBytes b) (zlen data)).
  { subst d0. unfold zlen, ztake. rewrite length_take. unfold zlen in *. lia. }
  destruct (store_hasWritten b d0) as (b1 & E1 & Hw1 & Hc1); [done|lia|].
  apply bind_Ok in E1 as (v & E1 & E2). unfold beginWrite in E1. rewrite E1. mred.
  assert (Hz : zlen v = zlen (m_buffers b)).
  { rewrite write_at_Ok in E1 by (wf_unfold; lia). injection E1 as <-.
    apply zlen_write; wf_unfold; lia. }
  unfold hasWritten in E2. minv E2.
  rewrite (u64_small (zlen data)) by (unfold extrabuf_size in *; wf_unfold; lia).
  clear Hm. unfold extrabuf_size in *.
  change (m_writerIndex (set_bytes b v)) with (m_writerIndex b).
  destruct (zlen data <=? writableBytes b) eqn:E; bprop.
  - eexists; split_and!; [done| |].
    + replace (zlen data) with (zlen d0) by lia. done.
    + replace (zlen data) with (zlen d0) by lia. rewrite Hc1. f_equal.
      subst d0. apply ztake_all. lia.
  - rewrite (u64_small (zlen data - _)) by (wf_unfold; lia).
    change (vsize (set_bytes b v)) with (zlen v).
    assert (Eb : set_writer (set_bytes b v) (zlen v)
      = set_writer (set_bytes b v) (u64 (m_writerIndex b + zlen d0))).
    { f_equal. rewrite u64_small; wf_unfold; lia. }
    rewrite Eb. edestruct append_from_ok as (b3 & -> & Hw3 & Hc3);
      [exact Hw1|..|exists b3; split_and!; [done..|]].
    + lia.
    + unfold max_size. wf_unfold. lia.
    + rewrite zlen_zdrop by lia. lia.
    + destruct Hv as [Hv|Hv].
      * apply room_grow. simpl. rewrite u64_small by (wf_unfold; lia). wf_unfold. lia.
      * apply room_small; [done|lia|]. rewrite Hc1, zlen_app. lia.
    + rewrite Hc3, Hc1, <- app_assoc. f_equal. rewrite slice_all by (rewrite zlen_zdrop by lia; lia).
      apply ztake_zdrop.
Qed.

(** ** Properties *)


(** A small buffer used by the examples: 2 bytes of room after the prepend
    area. *)
Definition tiny : Buffer := mkBuffer (replicate 10 NUL) 8 8.


(** C37.  Total behaviour of [append]: when the bytes fit ([room]: in place,
    after the move-down branch of [makeSpace], or by growing the vector within
    [max_size]) it returns, keeps the invariant and appends exactly the data
    (no assertion of [ensureWritableBytes], [makeSpace] or [hasWritten] can
    fail); otherwise [resize] throws [std::length_error]. *)
Theorem append_total (b : Buffer) (data : list ascii) :
  wf b → zlen data ≤ max_size →
  (room b (zlen data) ∧ ∃ b', append b data = Ok b' ∧ wf b' ∧ content b' = content b ++ data)
  ∨ (¬ room b (zlen data) ∧ append b data = Fail (FThrow "std::length_error")).
Proof.
  intros Hw Hm. assert (room b (zlen data) ∨ ¬ room b (zlen data)) as [Hr|Hr]
    by (unfold room; lia).
  - left. split; [done|]. by apply append_ok.
  - right. split; [done|]. by apply append_throws.
Qed.

Lemma append_total_witness :
  ∃ b', append tiny (chars "hello") = Ok b' ∧ wf b' ∧ content b' = chars "hello".
Proof.
  destruct (append_total tiny (chars "hello")) as [(_ & b' & ?)|(? & H)].
  - zcomp.
  - zcomp.
  - by exists b'.
  - vm_compute in H. discriminate H.
Defined.

(** Round trip in network order: signed integers of the four widths
    appended to an empty buffer are read back, in order, unchanged, and the
    buffer is empty again; [append] lays each of them out most significant
    byte first. *)
Theorem int_roundtrip (b : Buffer) (x16 x8 x32 x64 : Z) :
  wf b → content b = [] →
  in_signed 16 x16 → in_signed 8 x8 → in_signed 32 x32 → in_signed 64 x64 →
  ∃ b4 b', (b1 ← appendInt16 b x16; b2 ← appendInt8 b1 x8;
            b3 ← appendInt32 b2 x32; appendInt64 b3 x64) = Ok b4 ∧
    be_val (content b4) =
      ((uwrap 16 x16 * 2 ^ 8 + uwrap 8 x8) * 2 ^ 32 + uwrap 32 x32) * 2 ^ 64 + uwrap 64 x64 ∧
    ('(y16, c1) ← readInt16 b4; '(y8, c2) ← readInt8 c1;
     '(y32, c3) ← readInt32 c2; '(y64, c4) ← readInt64 c3;
     Ok (y16, y8, y32, y64, c4)) = Ok (x16, x8, x32, x64, b') ∧
    wf b' ∧ content b' = [].
Proof.
  intros Hw Hc H16 H8 H32 H64.
  rewrite appendInt16_append. unfold appendInt8.
  change (mem_of 1 x8) with (reverse (mem_of 1 x8)).
  destruct (append_small b (reverse (mem_of 2 x16))) as (b1 & -> & Hw1 & Hc1);
    [done|rewrite Hc; zcomp|]. mred.
  destruct (append_small b1 (reverse (mem_of 1 x8))) as (b2 & -> & Hw2 & Hc2);
    [done|rewrite Hc1, Hc; zcomp|]. mred. rewrite appendInt32_append.
  destruct (append_small b2 (reverse (mem_of 4 x32))) as (b3 & -> & Hw3 & Hc3);
    [done|rewrite Hc2, Hc1, Hc; zcomp|]. mred. rewrite appendInt64_append.
  destruct (append_small b3 (reverse (mem_of 8 x64))) as (b4 & -> & Hw4 & Hc4);
    [done|rewrite Hc3, Hc2, Hc1, Hc; zcomp|]. mred.
  rewrite Hc3, Hc2, Hc1, Hc, !app_nil_l, <- !app_assoc in Hc4.
  assert (Hl : 4 ≤ readableBytes b4) by (rewrite <- zlen_content, Hc4 by done; zcomp).
  exists b4.
  destruct (readInt16_ok b4 _ Hw4 x16 H16 Hc4) as (c1 & -> & Hv1 & Hd1 & _).
  { rewrite readable_wf in Hl by done. wf_unfold. lia. }
  mred. destruct (readInt8_ok c1 _ Hv1 x8 H8 Hd1) as (c2 & -> & Hv2 & Hd2 & _).
  mred. destruct (readInt32_ok c2 _ Hv2 x32 H32 Hd2) as (c3 & -> & Hv3 & Hd3 & _).
  mred. rewrite <- (app_nil_r (reverse (mem_of 8 x64))) in Hd3.
  destruct (readInt64_ok c3 _ Hv3 x64 H64 Hd3) as (c4 & -> & Hv4 & Hd4 & _).
  exists c4. split_and!; [done| |done..].
  rewrite Hc4. unfold be_val. rewrite !reverse_app, !reverse_involutive.
  rewrite !mem_val_app, !zlen_app, !mem_val_of, !zlen_mem_of, !pow256_bits. unfold uwrap.
  change (2 ^ (8 * Z.of_nat 8)) with (2 ^ 64). change (2 ^ (8 * Z.of_nat 4)) with (2 ^ 32).
  change (2 ^ (8 * Z.of_nat 2)) with (2 ^ 16). change (2 ^ (8 * Z.of_nat 1)) with (2 ^ 8).
  change (256 ^ (Z.of_nat 8 + Z.of_nat 4)) with (2 ^ 32 * 2 ^ 64).
  change (256 ^ (Z.of_nat 8 + Z.of_nat 4 + Z.of_nat 1)) with (2 ^ 8 * 2 ^ 32 * 2 ^ 64). lia.
Qed.

Lemma int_roundtrip_witness :
  ∃ b4 b', (b1 ← appendInt16 tiny (-2); b2 ← appendInt8 b1 7;
            b3 ← appendInt32 b2 (-1000000); appendInt64 b3 (2 ^ 62)) = Ok b4 ∧
    ('(y16, c1) ← readInt16 b4; '(y8, c2) ← readInt8 c1;
     '(y32, c3) ← readInt32 c2; '(y64, c4) ← readInt64 c3;
     Ok (y16, y8, y32, y64, c4)) = Ok (-2, 7, -1000000, 2 ^ 62, b').
Proof.
  destruct (int_roundtrip tiny (-2) 7 (-1000000) (2 ^ 62)) as (b4 & b' & H1 & _ & H2 & _);
    [zcomp..|].
  exists b4, b'. exact (conj H1 H2).
Defined.

(** [peekInt16] on every buffer that passes its assertion: it loads four
    bytes (its local is an [int32_t]), so it returns the 16-bit value only when
    four bytes lie before the end of the vector, and reads outside the vector
    otherwise; a buffer with exactly two bytes at the end of its vector is such
    a case, although the documented requirement holds. *)
Theorem peekInt16_overread (b : Buffer) :
  wf b → 2 ≤ readableBytes b →
  (m_readerIndex b + 4 ≤ vsize b →
     peekInt16 b = Ok (swrap 16 (be_val (ztake 2 (content b))))) ∧
  (vsize b < m_readerIndex b + 4 →
     peekInt16 b = Fail (FUndef "read outside the vector")).
Proof.
  intros Hw H. rewrite peekInt16_cases by done. split; intros Hv.
  - by rewrite (proj2 (Z.leb_le _ _)).
  - by rewrite (proj2 (Z.leb_gt _ _)).
Qed.

Lemma peekInt16_overread_witness :
  ∃ b, append tiny (chars "TT") = Ok b ∧ readableBytes b = 2 ∧
       peekInt16 b = Fail (FUndef "read outside the vector").
Proof.
  eexists. split; [vm_compute; reflexivity|]. split; [vm_compute; reflexivity|].
  apply peekInt16_overread; zcomp.
Defined.

(** [readFd]: whatever the kernel reports within the bounds of the
    vectors it was given, the bytes read (first into the writable area, the
    rest through [extrabuf] and [append]) are appended to the content exactly
    once and in order, and on an error the buffer is untouched and the error
    number is saved. *)
Theorem readFd_appends (readv : list Z → readv_result) (b : Buffer) :
  wf b → vsize b + extrabuf_size ≤ max_size → readv_fits readv →
  (∃ err, readFd readv b = Ok (-1, Some err, b)) ∨
  (∃ data b', readFd readv b = Ok (zlen data, None, b') ∧ wf b' ∧
     content b' = content b ++ data ∧
     zlen data ≤ writableBytes b + extrabuf_size).
Proof.
  intros Hw Hv Hfit.
  destruct (readv (if writableBytes b <? extrabuf_size
                   then [writableBytes b; extrabuf_size] else [writableBytes b]))
    as [err|data] eqn:E.
  - left. exists err. unfold readFd. by rewrite E.
  - right. specialize (Hfit _ _ E).
    destruct (readFd_data readv b data) as (b' & -> & ? & ?); [done|by left|done..|].
    exists data, b'. split_and!; [done..|].
    unfold extrabuf_size in *. destruct (_ <? _); simpl in Hfit; lia.
Qed.

(** A kernel that has the bytes "hello" ready. *)
Definition readv_hello (vec : list Z) : readv_result :=
  if 5 <=? foldr Z.add 0 vec then ReadvBytes (chars "hello") else ReadvErr 11.

Lemma readFd_appends_witness :
  readv_fits readv_hello ∧
  ((∃ err, readFd readv_hello tiny = Ok (-1, Some err, tiny)) ∨
   (∃ data b', readFd readv_hello tiny = Ok (zlen data, None, b') ∧ wf b' ∧
      content b' = data ∧ zlen data ≤ writableBytes tiny + extrabuf_size)).
Proof.
  assert (Hfit : readv_fits readv_hello).
  { intros vec data. unfold readv_hello. destruct (_ <=? _) eqn:E; [|done].
    bprop. intros [= <-]. exact E. }
  split; [exact Hfit|]. apply (readFd_appends readv_hello tiny); [zcomp|zcomp|exact Hfit].
Defined.

(** [findCRLF] returns the position of the first CRLF among the readable
    bytes, and null exactly when they contain none. *)
Theorem findCRLF_first (b : Buffer) :
  wf b →
  match findCRLF b with
  | Some p => ∃ line rest, first_crlf (content b) line rest ∧ p = peek b + zlen line
  | None => no_crlf (content b)
  end.
Proof. apply findCRLF_spec. Qed.

Lemma findCRLF_first_witness :
  ∃ line rest, first_crlf (content (mkBuffer (chars "12345678GET" ++ CRLF) 8 13)) line rest.
Proof.
  pose proof (findCRLF_first (mkBuffer (chars "12345678GET" ++ CRLF) 8 13)) as H.
  destruct H as (line & rest & H & _); [zcomp|]. by exists line, rest.
Defined.
