(* ===== verification/Inet.v ===== *)
(** * Addresses and sockets: src/dc/net/inetAddress.{h,cc}, socketsOps.{h,cc},
      socket.{h,cc}

    An [InetAddress] is a union of a sockaddr_in (16 bytes) and a sockaddr_in6
    (28 bytes); the model keeps its 28 bytes and reads the fields at their
    offsets, so what a constructor leaves unset is what the storage held.
    inet_ntop, inet_pton, gethostbyname_r and the answers of the socket calls
    are parameters. *)

From S2P Require Import Prelude Endian StringPiece.

Open Scope Z_scope.

(** ** Socket addresses *)

Definition AF_INET : Z := 2.
Definition AF_INET6 : Z := 10.
Definition INET_ADDRSTRLEN : Z := 16.
Definition INET6_ADDRSTRLEN : Z := 46.
Definition INADDR_ANY : Z := 0.
Definition INADDR_LOOPBACK : Z := 2130706433.   (* 127.0.0.1 *)

Definition sizeof_in : Z := 16.
Definition sizeof_in6 : Z := 28.

(** The bytes of a struct sockaddr_in6, or of the union. *)
Definition sockaddr : Type := list ascii.

Definition field (off len : Z) (a : sockaddr) : list ascii := slice off (off + len) a.
Definition set_field (off : Z) (d : list ascii) (a : sockaddr) : sockaddr :=
  ztake off a ++ d ++ zdrop (off + zlen d) a.

Definition sin_family (a : sockaddr) : Z := mem_val (field 0 2 a).
Definition sin_port (a : sockaddr) : Z := mem_val (field 2 2 a).
Definition sin_addr (a : sockaddr) : list ascii := field 4 4 a.
Definition sin6_addr (a : sockaddr) : list ascii := field 8 16 a.

(** memZero *)
Definition memZero (n : Z) (a : sockaddr) : sockaddr := set_field 0 (replicate (Z.to_nat n) NUL) a.

(** in6addr_any, in6addr_loopback *)
Definition in6addr_any : list ascii := replicate 16 NUL.
Definition in6addr_loopback : list ascii := replicate 15 NUL ++ [char_of 1].

(** [InetAddress(uint16_t port, bool loopbackOnly, bool ipv6)], in storage that
    holds [init]. *)
Definition InetAddress_port (init : sockaddr) (portArg : Z) (loopbackOnly ipv6 : bool) : sockaddr :=
  if ipv6 then
    let a := set_field 0 (mem_of 2 AF_INET6) (memZero sizeof_in6 init) in
    let a := set_field 2 (mem_of 2 (hostToNetwork16 portArg)) a in
    set_field 8 (if loopbackOnly then in6addr_loopback else in6addr_any) a
  else
    let a := set_field 0 (mem_of 2 AF_INET) (memZero sizeof_in init) in
    let a := set_field 2 (mem_of 2 (hostToNetwork16 portArg)) a in
    let ip := if loopbackOnly then INADDR_LOOPBACK else INADDR_ANY in
    set_field 4 (mem_of 4 (hostToNetwork32 ip)) a.

Definition family (a : sockaddr) : Z := sin_family a.
Definition portNetEndian (a : sockaddr) : Z := sin_port a.
Definition port (a : sockaddr) : Z := networkToHost16 (portNetEndian a).
Definition ipv4NetEndian (a : sockaddr) : res Z :=
  cassert (family a =? AF_INET) "family() == AF_INET";;
  Ok (mem_val (sin_addr a)).
Definition setScopeId (a : sockaddr) (scope_id : Z) : sockaddr :=
  if family a =? AF_INET6 then set_field 24 (mem_of 4 scope_id) a else a.
Definition setSockAddrInet6 (a addr6 : sockaddr) : sockaddr := addr6.

Section Text.

(** inet_ntop writes the text of an address (4 or 16 bytes) when it and its
    terminator fit; inet_pton gives back the bytes of a text, or fails. *)
Context (inet_ntop : Z → list ascii → list ascii).
Context (inet_pton : Z → list ascii → option (list ascii)).

(** [sockets::fromIpPort], both overloads: a text that is no address is logged
    and leaves the address bytes alone. *)
Definition fromIpPort4 (ip : list ascii) (p : Z) (a : sockaddr) : sockaddr :=
  let a := set_field 0 (mem_of 2 AF_INET) a in
  let a := set_field 2 (mem_of 2 (hostToNetwork16 p)) a in
  match inet_pton AF_INET ip with Some b => set_field 4 b a | None => a end.

Definition fromIpPort6 (ip : list ascii) (p : Z) (a : sockaddr) : sockaddr :=
  let a := set_field 0 (mem_of 2 AF_INET6) a in
  let a := set_field 2 (mem_of 2 (hostToNetwork16 p)) a in
  match inet_pton AF_INET6 ip with Some b => set_field 8 b a | None => a end.

(** [InetAddress(StringArg ip, uint16_t port, bool ipv6)] *)
Definition InetAddress_ip (init : sockaddr) (ip : list ascii) (portArg : Z) (ipv6 : bool) : sockaddr :=
  if ipv6 || bool_decide (":"%char ∈ ip) then fromIpPort6 ip portArg (memZero sizeof_in6 init)
  else fromIpPort4 ip portArg (memZero sizeof_in init).

(** The bytes of [inet_ntop(af, src, buf + off, size)]. *)
Definition ntop_at (af : Z) (src buf : list ascii) (off size : Z) : res (list ascii) :=
  let text := inet_ntop af src in
  if zlen text <? size then write_at off (text ++ [NUL]) buf else Ok buf.

(** [sockets::toIp(buf + off, size, addr)] *)
Definition sockets_toIp (buf : list ascii) (off size : Z) (addr : sockaddr) : res (list ascii) :=
  if sin_family addr =? AF_INET6 then
    cassert (INET6_ADDRSTRLEN <=? size) "size >= INET6_ADDRSTRLEN";;
    ntop_at AF_INET6 (sin6_addr addr) buf off size
  else if sin_family addr =? AF_INET then
    cassert (INET_ADDRSTRLEN <=? size) "size >= INET_ADDRSTRLEN";;
    ntop_at AF_INET (sin_addr addr) buf off size
  else Ok buf.

(** [snprintf(buf + off, size, ...)] of a text. *)
Definition snprintf_at (buf : list ascii) (off size : Z) (text : list ascii) : res (list ascii) :=
  write_at off (snprintf (Z.to_nat size) text ++ [NUL]) buf.

(** [sockets::toIpPort(buf, size, addr)] *)
Definition sockets_toIpPort (buf : list ascii) (size : Z) (addr : sockaddr) : res (list ascii) :=
  if sin_family addr =? AF_INET6 then
    b0 ← write_at 0 ["["%char] buf;
    b1 ← sockets_toIp b0 1 (size - 1) addr;
    endp ← strlen (At b1 0);
    let p := networkToHost16 (sin_port addr) in
    cassert (endp <? size) "size > end";;
    snprintf_at b1 endp (size - endp) (chars "]:" ++ decimal p)
  else
    b1 ← sockets_toIp buf 0 size addr;
    endp ← strlen (At b1 0);
    let p := networkToHost16 (sin_port addr) in
    cassert (endp <? size) "size > end";;
    snprintf_at b1 endp (size - endp) (chars ":" ++ decimal p).

(** The std::string made of a char array. *)
Definition cstring (buf : list ascii) : res (list ascii) :=
  n ← strlen (At buf 0); Ok (ztake n buf).

(** [char buf[64] = ""] *)
Definition empty64 : list ascii := replicate 64 NUL.

Definition toIp (a : sockaddr) : res (list ascii) :=
  b ← sockets_toIp empty64 0 64 a; cstring b.
Definition toIpPort (a : sockaddr) : res (list ascii) :=
  b ← sockets_toIpPort empty64 64 a; cstring b.

(** ** What an address denotes *)

Definition storage (a : sockaddr) : Prop := zlen a = sizeof_in6.

(** The end point: family, port and address bytes. *)
Definition ip_bytes (a : sockaddr) : list ascii :=
  if sin_family a =? AF_INET6 then sin6_addr a else sin_addr a.
Definition endpoint (a : sockaddr) : Z * Z * list ascii := (family a, port a, ip_bytes a).

(** The text of an address fits the array its documentation asks for, and has
    no NUL. *)
Definition text_ok (af : Z) (src : list ascii) : Prop :=
  zlen (inet_ntop af src) < (if af =? AF_INET6 then INET6_ADDRSTRLEN else INET_ADDRSTRLEN) ∧
  NUL ∉ inet_ntop af src.

Definition endpoint_text (a : sockaddr) : list ascii :=
  let t := inet_ntop (family a) (ip_bytes a) in
  (if family a =? AF_INET6 then chars "[" ++ t ++ chars "]:" else t ++ chars ":") ++ decimal (port a).

End Text.

(** ** Lemmas on fields and C strings *)

Lemma field_set_same off d a n : 0 ≤ off → off + zlen d ≤ zlen a → n = zlen d → field off n (set_field off d a) = d.
Proof. intros H1 H2 ->. by apply slice_write_data. Qed.

Lemma field_set_other off d a o n : 0 ≤ off → off + zlen d ≤ zlen a → 0 ≤ o → o + n ≤ off ∨ off + zlen d ≤ o →
  field o n (set_field off d a) = field o n a.
Proof.
  intros H1 H2 H3 [H|H]; [by apply slice_write_before|by apply slice_write_after].
Qed.

Lemma zlen_set_field off d a : 0 ≤ off → off + zlen d ≤ zlen a → zlen (set_field off d a) = zlen a.
Proof. intros. by apply zlen_write. Qed.

Lemma zlen_memZero n a : 0 ≤ n ≤ zlen a → zlen (memZero n a) = zlen a.
Proof. intros. apply zlen_set_field; [lia|]. rewrite zlen_replicate; lia. Qed.

Lemma strlen_app t r : NUL ∉ t → strlen (At (t ++ NUL :: r) 0) = Ok (zlen t).
Proof.
  intros H. unfold strlen. rewrite zdrop_0, std_find_app by done. rewrite zlen_app, zlen_cons.
  pose proof (zlen_nonneg r). rewrite (proj2 (Z.ltb_lt _ _)) by (unfold zlen in *; lia). done.
Qed.

Lemma cstring_app t r : NUL ∉ t → cstring (t ++ NUL :: r) = Ok t.
Proof.
  intros H. unfold cstring. rewrite strlen_app by done. mred. by rewrite ztake_app_l, ztake_all by lia.
Qed.

(** A network-order port reads back. *)
Lemma networkToHost16_mem p : 0 ≤ p < 2 ^ 16 → networkToHost16 (mem_val (mem_of 2 (hostToNetwork16 p))) = p.
Proof.
  intros Hp. unfold hostToNetwork16, networkToHost16. rewrite (uwrap_small 16 p), mem_val_of by done.
  rewrite (Z.mod_small (bswap 2 p)) by apply bswap_range.
  rewrite uwrap_small by apply bswap_range. rewrite bswap_bswap. by apply Z.mod_small.
Qed.

Lemma port_range a : 0 ≤ port a < 2 ^ 16.
Proof. apply (bswap_range 2). Qed.

Lemma port_decimal a : zlen (decimal (port a)) ≤ 5.
Proof. pose proof (port_range a). pose proof (decimal_length 5 (port a)). unfold zlen. lia. Qed.

(** The two steps every [toIpPort] makes behind an address text. *)
Lemma port_suffix pre r suf (size : Z) :
  NUL ∉ pre → zlen suf + 1 ≤ zlen r → zlen pre + zlen r = size → r !! 0%nat = Some NUL →
  ∃ r', (endp ← strlen (At (pre ++ r) 0); cassert (endp <? size) "size > end";;
         snprintf_at (pre ++ r) endp (size - endp) suf) = Ok (pre ++ suf ++ NUL :: r').
Proof.
  intros Hn Hl Hs Hr. destruct r as [|c r]; [done|]. injection Hr as ->.
  rewrite strlen_app by done. mred. pose proof (zlen_nonneg suf). rewrite zlen_cons in *.
  rewrite (proj2 (Z.ltb_lt _ _)) by lia. mred. unfold snprintf_at, snprintf.
  rewrite take_ge by (unfold zlen in *; lia).
  rewrite write_at_app by (autorewrite with zlist; lia). eexists. by rewrite <- app_assoc.
Qed.

Lemma zlen_zeros m : zlen (replicate m NUL) = Z.of_nat m.
Proof. unfold zlen. by rewrite length_replicate. Qed.

Section AddressText.
Context (inet_ntop : Z → list ascii → list ascii).
Context (inet_pton : Z → list ascii → option (list ascii)).

Lemma ntop_zeros af src pre n size :
  NUL ∉ inet_ntop af src → zlen (inet_ntop af src) < size → size = Z.of_nat n →
  ∃ m, ntop_at inet_ntop af src (pre ++ replicate n NUL) (zlen pre) size =
       Ok (pre ++ inet_ntop af src ++ NUL :: replicate m NUL) ∧ zlen (inet_ntop af src) + 1 + Z.of_nat m = size.
Proof.
  intros Hn Hs ->. unfold ntop_at. rewrite (proj2 (Z.ltb_lt _ _)) by done. pose proof (zlen_nonneg (inet_ntop af src)).
  rewrite write_at_app by (rewrite zlen_app; unfold zlen in *; rewrite length_replicate; simpl; lia).
  exists (n - S (length (inet_ntop af src)))%nat. split; [|unfold zlen in *; lia].
  rewrite <- app_assoc. do 4 f_equal. unfold zdrop. rewrite drop_replicate. f_equal.
  unfold zlen in *. rewrite length_app. simpl. lia.
Qed.

(** The same into an array of zeros. *)
Lemma ntop_empty64 af src :
  NUL ∉ inet_ntop af src → zlen (inet_ntop af src) < 64 →
  ∃ m, ntop_at inet_ntop af src empty64 0 64 = Ok (inet_ntop af src ++ NUL :: replicate m NUL) ∧
       zlen (inet_ntop af src) + 1 + Z.of_nat m = 64.
Proof. intros Hn Hl. exact (ntop_zeros af src [] 64 64 Hn Hl eq_refl). Qed.

Lemma toIp_text a : family a = AF_INET ∨ family a = AF_INET6 → text_ok inet_ntop (family a) (ip_bytes a) →
  toIp inet_ntop a = Ok (inet_ntop (family a) (ip_bytes a)).
Proof.
  intros Hf [Hl Hn]. unfold toIp, sockets_toIp, family, ip_bytes in *.
  assert (H64 : zlen (inet_ntop (sin_family a) (if sin_family a =? AF_INET6 then sin6_addr a else sin_addr a)) < 64)
    by (destruct (sin_family a =? AF_INET6); unfold INET_ADDRSTRLEN, INET6_ADDRSTRLEN in Hl; lia).
  destruct Hf as [Hf|Hf]; rewrite Hf in *; cbn [Z.eqb Pos.eqb AF_INET AF_INET6] in *;
    [change (cassert (INET_ADDRSTRLEN <=? 64) _) with (Ok tt)|change (cassert (INET6_ADDRSTRLEN <=? 64) _) with (Ok tt)];
    mred; destruct (ntop_empty64 _ _ Hn H64) as (m & -> & _); mred; by apply cstring_app.
Qed.

Lemma toIpPort_text a : family a = AF_INET ∨ family a = AF_INET6 → text_ok inet_ntop (family a) (ip_bytes a) →
  toIpPort inet_ntop a = Ok (endpoint_text inet_ntop a).
Proof.
  intros Hf [Hl Hn]. pose proof (port_decimal a). pose proof (zlen_nonneg (inet_ntop (family a) (ip_bytes a))).
  pose proof (decimal_no_nul (port a) ltac:(pose proof (port_range a); lia)) as Hd.
  unfold toIpPort, sockets_toIpPort, endpoint_text, family, ip_bytes, sockets_toIp in *.
  change (networkToHost16 (sin_port a)) with (port a).
  pose proof (bool_decide_unpack (NUL ∉ chars ":") I). pose proof (bool_decide_unpack (NUL ∉ chars "]:") I).
  pose proof (bool_decide_unpack (NUL ∉ ["["%char]) I).
  destruct Hf as [Hf|Hf]; rewrite Hf in *; cbn [Z.eqb Pos.eqb AF_INET AF_INET6] in *; cbn zeta.
  - change (cassert (INET_ADDRSTRLEN <=? 64) _) with (Ok tt). mred. unfold INET_ADDRSTRLEN in *.
    destruct (ntop_empty64 AF_INET (sin_addr a)) as (m & -> & Hm); [done|lia|]. mred.
    destruct (port_suffix (inet_ntop AF_INET (sin_addr a)) (NUL :: replicate m NUL) (chars ":" ++ decimal (port a)) 64)
      as (r' & E); [done| | |done|].
    1-2: rewrite !zlen_cons, zlen_zeros; rewrite ?zlen_app; change (zlen (chars ":")) with 1; lia.
    rewrite E. mred. rewrite <- (app_assoc (inet_ntop _ _) (chars ":")), (app_assoc (inet_ntop _ _)). apply cstring_app.
    rewrite !elem_of_app. by intros [?|[?|?]].
  - change (write_at 0 ["["%char] empty64) with (Ok (["["%char] ++ replicate 63 NUL)). mred.
    change (cassert (INET6_ADDRSTRLEN <=? 64 - 1) _) with (Ok tt). mred. unfold INET6_ADDRSTRLEN in *.
    destruct (ntop_zeros AF_INET6 (sin6_addr a) ["["%char] 63 63) as (m & E1 & Hm); [done|lia|done|].
    change (64 - 1) with 63. change (zlen ["["%char]) with 1 in E1. rewrite E1. mred. rewrite app_assoc.
    destruct (port_suffix (["["%char] ++ inet_ntop AF_INET6 (sin6_addr a)) (NUL :: replicate m NUL) (chars "]:" ++ decimal (port a)) 64)
      as (r' & E); [by rewrite elem_of_app; intros [?|?]| | |done|].
    1-2: rewrite !zlen_cons, zlen_zeros; rewrite ?zlen_app; change (zlen (chars "]:")) with 2; change (zlen ["["%char]) with 1; lia.
    rewrite E. mred. change (chars "[") with ["["%char].
    trans (Ok ((["["%char] ++ inet_ntop AF_INET6 (sin6_addr a)) ++ chars "]:" ++ decimal (port a)));
      [|by rewrite <- !app_assoc].
    rewrite (app_assoc _ _ (NUL :: r')). apply cstring_app.
    rewrite !elem_of_app. by intros [[?|?]|[?|?]].
Qed.
End AddressText.

(** Filling in family, port and address bytes gives that end point. *)
Lemma endpoint_filled af p off d b :
  storage b → 0 ≤ p < 2 ^ 16 →
  (af = AF_INET ∧ off = 4 ∧ zlen d = 4) ∨ (af = AF_INET6 ∧ off = 8 ∧ zlen d = 16) →
  let a := set_field off d (set_field 2 (mem_of 2 (hostToNetwork16 p)) (set_field 0 (mem_of 2 af) b)) in
  storage a ∧ endpoint a = (af, p, d).
Proof.
  intros Hb Hp Hc a. unfold storage, sizeof_in6 in *.
  assert (Hd : 0 ≤ off ∧ 4 ≤ off ∧ off + zlen d ≤ 28) by lia.
  pose proof (zlen_mem_of 2 af) as H1. pose proof (zlen_mem_of 2 (hostToNetwork16 p)) as H2.
  set (b1 := set_field 0 (mem_of 2 af) b) in *. assert (Hb1 : zlen b1 = 28) by (unfold b1; rewrite zlen_set_field; lia).
  set (b2 := set_field 2 _ b1) in *. assert (Hb2 : zlen b2 = 28) by (unfold b2; rewrite zlen_set_field; lia).
  assert (Ha : zlen a = 28) by (unfold a; rewrite zlen_set_field; lia).
  assert (Hf : sin_family a = af).
  { unfold sin_family, a. rewrite field_set_other by lia. unfold b2. rewrite field_set_other by lia.
    unfold b1. rewrite field_set_same by lia.
    rewrite mem_val_of. destruct Hc as [(-> & _)|(-> & _)]; done. }
  split; [done|]. unfold endpoint, family, ip_bytes, port, portNetEndian. rewrite Hf.
  assert (sin_port a = mem_val (mem_of 2 (hostToNetwork16 p))) as ->.
  { unfold sin_port, a. rewrite field_set_other by lia. unfold b2. by rewrite field_set_same by lia. }
  rewrite networkToHost16_mem by done. f_equal.
  destruct Hc as [(-> & -> & Hd')|(-> & -> & Hd')]; cbn [Z.eqb Pos.eqb AF_INET AF_INET6]; by apply field_set_same; lia.
Qed.

(** The constructor from a port. *)
Lemma InetAddress_port_endpoint init p loopbackOnly ipv6 :
  storage init → 0 ≤ p < 2 ^ 16 →
  storage (InetAddress_port init p loopbackOnly ipv6) ∧
  endpoint (InetAddress_port init p loopbackOnly ipv6) =
    (if ipv6 then (AF_INET6, p, if loopbackOnly then in6addr_loopback else in6addr_any)
     else (AF_INET, p, if loopbackOnly then [char_of 127; NUL; NUL; char_of 1] else [NUL; NUL; NUL; NUL])).
Proof.
  intros Hi Hp. unfold InetAddress_port. destruct ipv6; cbn zeta.
  - apply endpoint_filled; [unfold storage, sizeof_in6 in *; rewrite zlen_memZero; lia|done|].
    right. destruct loopbackOnly; done.
  - replace (if loopbackOnly then _ else [NUL; NUL; NUL; NUL])
      with (mem_of 4 (hostToNetwork32 (if loopbackOnly then INADDR_LOOPBACK else INADDR_ANY)))
      by (destruct loopbackOnly; by vm_compute).
    apply endpoint_filled; [unfold storage, sizeof_in, sizeof_in6 in *; rewrite zlen_memZero; lia|done|].
    left. by rewrite zlen_mem_of.
Qed.

Section Roundtrip.
Context (inet_ntop : Z → list ascii → list ascii).
Context (inet_pton : Z → list ascii → option (list ascii)).

(** C39.  Address text: for every IPv4 or IPv6 address whose text inet_ntop gives
    within its documented size, toIp and toIpPort return the whole text (the
    64-byte array is never too short, no assertion fails) and, when inet_pton
    reads the text back, an InetAddress made of the text and the port is the
    same end point, whatever its storage held before. *)
Theorem inet_text_roundtrip (a init : sockaddr) :
  storage a → storage init → family a = AF_INET ∨ family a = AF_INET6 →
  text_ok inet_ntop (family a) (ip_bytes a) →
  inet_pton (family a) (inet_ntop (family a) (ip_bytes a)) = Some (ip_bytes a) →
  (family a = AF_INET → ":"%char ∉ inet_ntop (family a) (ip_bytes a)) →
  ∃ ip, toIp inet_ntop a = Ok ip ∧ toIpPort inet_ntop a = Ok (endpoint_text inet_ntop a) ∧
    let a' := InetAddress_ip inet_pton init ip (port a) (family a =? AF_INET6) in
    storage a' ∧ endpoint a' = endpoint a ∧ toIpPort inet_ntop a' = toIpPort inet_ntop a.
Proof.
  intros Ha Hi Hf Ht Hr Hc. exists (inet_ntop (family a) (ip_bytes a)).
  split; [by apply toIp_text|]. split; [by apply toIpPort_text|]. intros a'.
  assert (storage a' ∧ endpoint a' = endpoint a) as [Hs He].
  { unfold a', InetAddress_ip, fromIpPort4, fromIpPort6. unfold storage, sizeof_in6 in *.
    pose proof (port_range a). unfold endpoint at 2.
    destruct Hf as [Hf|Hf]; rewrite Hf in *; cbn [Z.eqb Pos.eqb AF_INET AF_INET6 orb] in *.
    - rewrite bool_decide_eq_false_2 by auto. rewrite Hr. apply endpoint_filled; [|done|].
      + unfold storage, sizeof_in, sizeof_in6 in *. rewrite zlen_memZero; lia.
      + left. split_and!; try done. unfold ip_bytes, family in *. rewrite Hf. unfold sin_addr, field.
        cbn [Z.eqb Pos.eqb AF_INET AF_INET6]. rewrite zlen_slice; lia.
    - rewrite Hr. apply endpoint_filled; [|done|].
      + unfold storage, sizeof_in6 in *. rewrite zlen_memZero; lia.
      + right. split_and!; try done. unfold ip_bytes, family in *. rewrite Hf. unfold sin6_addr, field.
        cbn [Z.eqb Pos.eqb AF_INET AF_INET6]. rewrite zlen_slice; lia. }
  split_and!; [done..|]. unfold endpoint in He. injection He as E1 E2 E3.
  rewrite !toIpPort_text; try (done || by rewrite ?E1, ?E3). unfold endpoint_text. by rewrite E1, E2, E3.
Qed.
End Roundtrip.

(** ** Well-formed addresses *)

Definition well_formed (a : sockaddr) : Prop := storage a ∧ (family a = AF_INET ∨ family a = AF_INET6).

(** Bytes from the fourth on are neither family nor port. *)
Lemma kept_fields off d a :
  storage a → 4 ≤ off → off + zlen d ≤ 28 →
  storage (set_field off d a) ∧ family (set_field off d a) = family a ∧ port (set_field off d a) = port a.
Proof.
  intros Ha H1 H2. unfold storage, sizeof_in6 in *. split; [by rewrite zlen_set_field; lia|].
  unfold port, portNetEndian, family, sin_family, sin_port. by rewrite !field_set_other by lia.
Qed.

Lemma filled_fields af p b :
  storage b → 0 ≤ p < 2 ^ 16 → af = AF_INET ∨ af = AF_INET6 →
  let a := set_field 2 (mem_of 2 (hostToNetwork16 p)) (set_field 0 (mem_of 2 af) b) in
  storage a ∧ family a = af ∧ port a = p.
Proof.
  intros Hb Hp Haf a. unfold storage, sizeof_in6 in *.
  pose proof (zlen_mem_of 2 af) as H1. pose proof (zlen_mem_of 2 (hostToNetwork16 p)) as H2.
  assert (Hb1 : zlen (set_field 0 (mem_of 2 af) b) = 28) by (rewrite zlen_set_field; lia).
  split_and!.
  - unfold a. rewrite zlen_set_field; lia.
  - unfold family, sin_family, a. rewrite field_set_other, field_set_same, mem_val_of by lia.
    by destruct Haf as [-> | ->].
  - unfold port, portNetEndian, sin_port, a. rewrite field_set_same by lia. by apply networkToHost16_mem.
Qed.

Lemma field_memZero o k n a : 0 ≤ o → 0 ≤ k → o + k ≤ n ≤ zlen a → field o k (memZero n a) = replicate (Z.to_nat k) NUL.
Proof.
  intros Ho Hk Hn. unfold memZero, set_field, field, slice, ztake, zdrop, zlen in *.
  rewrite take_0. simpl. rewrite drop_app_le by (rewrite length_replicate; lia).
  rewrite take_app_le by (rewrite length_drop, length_replicate; lia).
  rewrite drop_replicate, take_replicate. f_equal. lia.
Qed.

(** ** Socket calls (socketsOps.cc) *)

(** A call that returns a descriptor or status, with the errno of a failure. *)
Record sys_ret : Type := mkRet { ret : Z; errno : Z }.

Definition createNonblockingOrDie (r : sys_ret) : res Z :=
  if ret r <? 0 then Fail (FAbort "sockets::createNonblockingOrDie") else Ok (ret r).
Definition bindOrDie (r : sys_ret) : res unit :=
  if ret r <? 0 then Fail (FAbort "sockets::bindOrDie") else Ok tt.
Definition listenOrDie (r : sys_ret) : res unit :=
  if ret r <? 0 then Fail (FAbort "sockets::listenOrDie") else Ok tt.

Definition EPERM : Z := 1.
Definition EINTR : Z := 4.
Definition EAGAIN : Z := 11.
Definition EMFILE : Z := 24.
Definition EPROTO : Z := 71.
Definition ECONNABORTED : Z := 103.

(** The cases of the switch in [sockets::accept] that return. *)
Definition accept_returns (saveErrno : Z) : bool :=
  bool_decide (saveErrno ∈ [EAGAIN; ECONNABORTED; EINTR; EPROTO; EPERM; EMFILE]).

(** [sockets::accept]: the descriptor, errno, and the address accept4 stored
    ([peer], when it returned a descriptor). *)
Definition accept (r : sys_ret) (addr peer : sockaddr) : res (sys_ret * sockaddr) :=
  if ret r <? 0 then
    let saveErrno := errno r in
    if accept_returns saveErrno then Ok (mkRet (ret r) saveErrno, addr)
    else Fail (FAbort "unexpected or unknown error of ::accept")
  else Ok (r, peer).

(** [Socket::accept] *)
Definition Socket_accept (r : sys_ret) (peeraddr peer : sockaddr) : res (sys_ret * sockaddr) :=
  '(r', addr) ← accept r (replicate 28 NUL) peer;
  Ok (r', if 0 <=? ret r' then setSockAddrInet6 peeraddr addr else peeraddr).

(** [sockets::getSocketError] *)
Definition getSocketError (r : sys_ret) (optval : Z) : Z := if ret r <? 0 then errno r else optval.

(** [sockets::getLocalAddr], [getPeerAddr]: getsockname and getpeername store
    the bytes of the address into zeroed storage, or fail. *)
Definition getLocalAddr (stored : option (list ascii)) : sockaddr :=
  let localaddr := memZero sizeof_in6 (replicate 28 NUL) in
  match stored with Some d => set_field 0 d localaddr | None => localaddr end.
Definition getPeerAddr (stored : option (list ascii)) : sockaddr :=
  let peeraddr := memZero sizeof_in6 (replicate 28 NUL) in
  match stored with Some d => set_field 0 d peeraddr | None => peeraddr end.

(** [sockets::isSelfConnect] *)
Definition isSelfConnect (local peer : option (list ascii)) : bool :=
  let localaddr := getLocalAddr local in
  let peeraddr := getPeerAddr peer in
  if sin_family localaddr =? AF_INET then
    (sin_port localaddr =? sin_port peeraddr) &&
    (mem_val (sin_addr localaddr) =? mem_val (sin_addr peeraddr))
  else if sin_family localaddr =? AF_INET6 then
    (sin_port localaddr =? sin_port peeraddr) &&
    (memcmp_bytes (sin6_addr localaddr) (sin6_addr peeraddr) =? 0)
  else false.

(** [InetAddress::resolve]: gethostbyname_r returns its status and, when a
    host was found, the address family, length and bytes. *)
Definition resolve (status : Z) (he : option (Z * Z * list ascii)) (result : sockaddr) : res (bool * sockaddr) :=
  match he with
  | Some (h_addrtype, h_length, h_addr) =>
      if status =? 0 then
        cassert ((h_addrtype =? AF_INET) && (h_length =? 4)) "he->h_addrtype == AF_INET && he->h_length == 4";;
        Ok (true, set_field 4 (ztake 4 h_addr) result)
      else Ok (false, result)
  | None => Ok (false, result)
  end.

(** One branch of the constructor from a text. *)
Lemma ip_filled af off k z init p (r : option (list ascii)) :
  (af = AF_INET ∧ off = 4 ∧ k = 4%nat ∧ z = sizeof_in) ∨ (af = AF_INET6 ∧ off = 8 ∧ k = 16%nat ∧ z = sizeof_in6) →
  storage init → 0 ≤ p < 2 ^ 16 → (∀ b, r = Some b → zlen b = Z.of_nat k) →
  let a := set_field 2 (mem_of 2 (hostToNetwork16 p)) (set_field 0 (mem_of 2 af) (memZero z init)) in
  let a' := match r with Some b => set_field off b a | None => a end in
  storage a' ∧ endpoint a' = (af, p, default (replicate k NUL) r).
Proof.
  intros Hc Hi Hp Hr a a'.
  assert (Hz : storage (memZero z init)).
  { unfold storage, sizeof_in6, sizeof_in in *. rewrite zlen_memZero; lia. }
  destruct r as [b|].
  - apply endpoint_filled; [done..|]. specialize (Hr b eq_refl). destruct Hc as [(-> & -> & -> & _)|(-> & -> & -> & _)]; auto.
  - assert (Haf : af = AF_INET ∨ af = AF_INET6) by tauto.
    destruct (filled_fields af p _ Hz Hp Haf) as (H1 & H2 & H3). fold a in H1, H2, H3. split; [done|].
    unfold endpoint. unfold a'. rewrite H2, H3. f_equal. unfold ip_bytes. fold (family a). rewrite H2. simpl default.
    pose proof (zlen_mem_of 2 af) as L1. pose proof (zlen_mem_of 2 (hostToNetwork16 p)) as L2.
    unfold storage, sizeof_in6, sizeof_in in *.
    assert (zlen (set_field 0 (mem_of 2 af) (memZero z init)) = 28) by (rewrite zlen_set_field; lia).
    destruct Hc as [(-> & _ & -> & ->)|(-> & _ & -> & ->)]; cbn [Z.eqb Pos.eqb AF_INET AF_INET6];
      unfold sin_addr, sin6_addr, a; rewrite !field_set_other by lia; apply field_memZero; lia.
Qed.

Section Typed.
Context (inet_pton : Z → list ascii → option (list ascii)).

End Typed.

(** ** Socket options (socket.cc): the arguments of setsockopt *)

Record sockopt : Type := mkOpt { o_fd : Z; o_level : Z; o_name : Z; o_val : Z }.
Definition IPPROTO_TCP : Z := 6.
Definition TCP_NODELAY : Z := 1.
Definition SOL_SOCKET : Z := 1.
Definition SO_REUSEADDR : Z := 2.
Definition SO_KEEPALIVE : Z := 9.
Definition SO_REUSEPORT : Z := 15.

Definition setTcpNoDelay (fd : Z) (on : bool) : sockopt := mkOpt fd IPPROTO_TCP TCP_NODELAY (if on then 1 else 0).
Definition setReuseAddr (fd : Z) (on : bool) : sockopt := mkOpt fd SOL_SOCKET SO_REUSEADDR (if on then 1 else 0).
Definition setKeepAlive (fd : Z) (on : bool) : sockopt := mkOpt fd SOL_SOCKET SO_KEEPALIVE (if on then 1 else 0).
(** The second component: whether the failure is logged. *)
Definition setReusePort (fd : Z) (on : bool) (r : Z) : sockopt * bool :=
  (mkOpt fd SOL_SOCKET SO_REUSEPORT (if on then 1 else 0), (r <? 0) && on).

(** [Socket::getTcpInfoString] on an array of [len] bytes, for the values of
    struct tcp_info in the order of the format. *)
Definition tcp_info_labels : list string :=
  ["unrecovered="; "rot="; " ato="; " snd_mss="; " rcv_mss="; " lost="; " retrans="; " rtt="; " rttvar=";
   " sshthresh="; " cwnd="; " total_retrans="].
Definition tcp_info_text (vals : list Z) : list ascii :=
  concat (zip_with (λ l v, chars l ++ decimal v) tcp_info_labels vals).
Definition getTcpInfoString (ok : bool) (vals : list Z) (len : nat) : option (list ascii) :=
  if ok then Some (snprintf len (tcp_info_text vals)) else None.

(** ** Theorems on socket calls *)

Lemma memcmp_same_length a : ∀ b, length a = length b → (memcmp_bytes a b =? 0) = bool_decide (a = b).
Proof.
  induction a as [|x a IH]; intros [|y b] H; simplify_eq/=; [done|].
  destruct (Z.ltb_spec (char_val x) (char_val y)) as [E|E].
  { rewrite bool_decide_eq_false_2; [done|]. intros [= -> _]. lia. }
  destruct (Z.ltb_spec (char_val y) (char_val x)) as [E'|E'].
  { rewrite bool_decide_eq_false_2; [done|]. intros [= -> _]. lia. }
  assert (x = y) as -> by (apply char_val_inj; lia). rewrite IH by done. apply bool_decide_ext. naive_solver.
Qed.

Lemma mem_val_inj a b : length a = length b → mem_val a = mem_val b → a = b.
Proof. intros Hl E. by rewrite <- (mem_of_val a), E, Hl, mem_of_val. Qed.

Lemma port_inj a b : storage a → storage b → (sin_port a =? sin_port b) = bool_decide (port a = port b).
Proof.
  intros Ha Hb. assert (R : ∀ x, storage x → 0 ≤ sin_port x < 2 ^ 16).
  { intros x Hx. pose proof (mem_val_range (field 2 2 x)) as H. unfold field, storage, sizeof_in6 in *.
    rewrite zlen_slice in H by lia. exact H. }
  assert (I : ∀ x, storage x → bswap 2 (port x) = sin_port x).
  { intros x Hx. unfold port, networkToHost16, portNetEndian. rewrite bswap_bswap, (uwrap_small 16) by auto.
    apply Z.mod_small. change (256 ^ Z.of_nat 2) with (2 ^ 16). auto. }
  destruct (Z.eqb_spec (sin_port a) (sin_port b)) as [E|E]; symmetry.
  - apply bool_decide_eq_true. unfold port, portNetEndian. by rewrite E.
  - apply bool_decide_eq_false. intros Hp. apply E. by rewrite <- (I a), <- (I b), Hp.
Qed.

Lemma stored_storage d : zlen d ≤ 28 → storage (getLocalAddr (Some d)) ∧ getPeerAddr (Some d) = getLocalAddr (Some d).
Proof.
  intros H. split; [|done]. unfold storage, getLocalAddr. rewrite zlen_set_field; [done|lia|]. exact H.
Qed.

(** Self connection: for a connected socket, whose two addresses are of one
    family, isSelfConnect holds exactly when the local and the peer address
    are the same end point; a socket that is not connected to anything, so
    that both calls fail, is not self-connected. *)
Theorem self_connect (l p : list ascii) :
  zlen l ≤ 28 → zlen p ≤ 28 →
  let la := getLocalAddr (Some l) in let pa := getPeerAddr (Some p) in
  family la = AF_INET ∨ family la = AF_INET6 → family pa = family la →
  isSelfConnect (Some l) (Some p) = bool_decide (endpoint la = endpoint pa) ∧
  isSelfConnect None None = false.
Proof.
  intros Hl Hp la pa Hf Hff. split; [|done].
  destruct (stored_storage l Hl) as [Sl _]. destruct (stored_storage p Hp) as [Sp Ep]. rewrite <- Ep in Sp.
  unfold isSelfConnect. fold la pa in Sl, Sp |- *. rewrite (port_inj la pa) by done.
  assert (L4 : ∀ x, storage x → length (sin_addr x) = 4%nat ∧ length (sin6_addr x) = 16%nat).
  { intros x Hx. unfold storage, sizeof_in6 in Hx.
    assert (H4 : zlen (slice 4 (4 + 4) x) = 4) by (rewrite zlen_slice; lia).
    assert (H6 : zlen (slice 8 (8 + 16) x) = 16) by (rewrite zlen_slice; lia).
    unfold zlen, sin_addr, sin6_addr, field in *. lia. }
  destruct (L4 la Sl) as [A1 A2], (L4 pa Sp) as [B1 B2].
  assert (E : endpoint la = endpoint pa ↔ port la = port pa ∧ ip_bytes la = ip_bytes pa)
    by (unfold endpoint; rewrite Hff; split; [by intros [= -> ->]|by intros [-> ->]]).
  rewrite (bool_decide_ext _ _ E). unfold family, ip_bytes in *. rewrite Hff.
  destruct Hf as [Hf|Hf]; rewrite Hf; cbn [Z.eqb Pos.eqb AF_INET AF_INET6]; rewrite bool_decide_and; f_equal.
  - destruct (Z.eqb_spec (mem_val (sin_addr la)) (mem_val (sin_addr pa))) as [Em|Em]; symmetry.
    + apply bool_decide_eq_true, mem_val_inj; congruence.
    + apply bool_decide_eq_false. congruence.
  - apply memcmp_same_length. congruence.
Qed.

(** [sockets::accept] on failure: it returns the error, with errno kept, for
    the transient errors and for EMFILE, which Acceptor::handleRead looks for;
    every other error ends the process.  The peer address is assigned exactly
    when a descriptor is returned. *)
Theorem accept_errors (r : sys_ret) (peeraddr peer : sockaddr) :
  (ret r < 0 → errno r ∈ [EAGAIN; ECONNABORTED; EINTR; EPROTO; EPERM; EMFILE] →
     Socket_accept r peeraddr peer = Ok (r, peeraddr)) ∧
  (ret r < 0 → errno r ∉ [EAGAIN; ECONNABORTED; EINTR; EPROTO; EPERM; EMFILE] →
     ∃ w, Socket_accept r peeraddr peer = Fail (FAbort w)) ∧
  (0 ≤ ret r → Socket_accept r peeraddr peer = Ok (r, peer)).
Proof.
  unfold Socket_accept, accept, accept_returns. split_and!.
  - intros Hr He. rewrite (proj2 (Z.ltb_lt _ _) Hr), bool_decide_eq_true_2 by done. mred. cbn [ret].
    rewrite (proj2 (Z.leb_gt _ _)) by lia. by destruct r.
  - intros Hr He. rewrite (proj2 (Z.ltb_lt _ _) Hr), bool_decide_eq_false_2 by done. eauto.
  - intros Hr. rewrite (proj2 (Z.ltb_ge _ _) Hr). mred. by rewrite (proj2 (Z.leb_le _ _) Hr).
Qed.

(** The text of the connection's statistics fits the 1024 bytes of
    TcpConnection::getTcpInfoString. *)
Lemma tcp_info_fits (vals : list Z) :
  length vals = 12%nat → Forall (λ v, 0 ≤ v < 2 ^ 32) vals →
  getTcpInfoString true vals 1024 = Some (tcp_info_text vals).
Proof.
  intros Hl Hv. unfold getTcpInfoString, snprintf. f_equal. apply take_ge. unfold tcp_info_text, tcp_info_labels.
  do 12 (destruct vals as [|? vals]; [done|]). destruct vals; [|done].
  repeat (apply Forall_cons in Hv as [? Hv]).
  cbn [zip_with concat]. rewrite !length_app, !chars_length. cbn [String.length length].
  assert (D : ∀ v, 0 ≤ v < 2 ^ 32 → (length (decimal v) ≤ 10)%nat)
    by (intros v Hv'; apply (decimal_length 10); [lia|lia]).
  repeat match goal with H : 0 ≤ ?v < 2 ^ 32 |- _ => apply D in H end. lia.
Qed.

(** ** An instance of the address text *)

Fixpoint dotted (b : list ascii) : list ascii :=
  match b with [] => [] | [c] => decimal (char_val c) | c :: b' => decimal (char_val c) ++ "."%char :: dotted b' end.
Fixpoint undotted (cur : Z) (t : list ascii) : list ascii :=
  match t with
  | [] => [char_of cur]
  | c :: t' => if bool_decide (c = "."%char) then char_of cur :: undotted 0 t' else undotted (10 * cur + (char_val c - 48)) t'
  end.
Definition demo_ntop (af : Z) (b : list ascii) : list ascii := dotted b.
Definition demo_pton (af : Z) (t : list ascii) : option (list ascii) := Some (undotted 0 t).

Definition demo_addr : sockaddr := InetAddress_port (replicate 28 NUL) 8080 true false.

Lemma inet_text_roundtrip_witness :
  ∃ ip, toIp demo_ntop demo_addr = Ok ip ∧ toIpPort demo_ntop demo_addr = Ok (endpoint_text demo_ntop demo_addr) ∧
    let a' := InetAddress_ip demo_pton (replicate 28 "x"%char) ip (port demo_addr) (family demo_addr =? AF_INET6) in
    storage a' ∧ endpoint a' = endpoint demo_addr ∧ toIpPort demo_ntop a' = toIpPort demo_ntop demo_addr.
Proof.
  apply (inet_text_roundtrip demo_ntop demo_pton); [done|done|by left|split; [done|]|done|intros _].
  all: by apply (bool_decide_unpack _); vm_compute.
Defined.

Lemma self_connect_witness :
  let a := take 16 demo_addr in
  isSelfConnect (Some a) (Some a) = bool_decide (endpoint (getLocalAddr (Some a)) = endpoint (getPeerAddr (Some a))) ∧
  isSelfConnect None None = false.
Proof. intros a. apply (self_connect a a); [done|done|by left|done]. Defined.

(** An inet_pton that accepts texts of the right number of bytes. *)
Definition strict_pton (af : Z) (t : list ascii) : option (list ascii) :=
  let b := undotted 0 t in
  if zlen b =? (if af =? AF_INET then 4 else 16) then Some b else None.

