(* ===== verification/Channel.v ===== *)
(** * Channel: src/dc/net/channel.h, src/dc/net/channel.cc

    A [Channel] is the interest of one descriptor and its callbacks.  Channels
    are shared through pointers (the poller's map, the active list, their
    owners), so the model keeps them in a heap: [gmap cid Channel], where a
    [cid] is the address of the object.  A callback is an argument of
    [handleEvent]: it may change the whole state, the channel itself
    included. *)

From S2P Require Import Prelude.

Open Scope Z_scope.

(** ** poll(2) event bits *)
Definition POLLIN : Z := 1.
Definition POLLPRI : Z := 2.
Definition POLLOUT : Z := 4.
Definition POLLERR : Z := 8.
Definition POLLHUP : Z := 16.
Definition POLLNVAL : Z := 32.
Definition POLLRDHUP : Z := 8192.

Definition kNoneEvent : Z := 0.
Definition kReadEvent : Z := Z.lor POLLIN POLLPRI.
Definition kWriteEvent : Z := POLLOUT.

(** The truth value of [x & mask]. *)
Definition has (x mask : Z) : bool := negb (Z.land x mask =? 0).

(** ** Data *)

Definition cid : Type := nat.

Record Channel : Type := mkChannel {
  m_fd : Z;
  m_events : Z;
  m_revents : Z;
  m_index : Z;
  is_loghup : bool;
  is_tied : bool;
  is_eventHandling : bool;
  is_addedToLoop : bool;
  m_readCallback : bool;   (* the std::function is not empty *)
  m_writeCallback : bool;
  m_closeCallback : bool;
  m_errorCallback : bool;
}.

(** [Channel::Channel(loop, fd)] *)
Definition Channel_ctor (fd : Z) : Channel :=
  mkChannel fd 0 0 (-1) true false false false false false false false.

Definition setReadCallback (c : Channel) : Channel :=
  mkChannel (m_fd c) (m_events c) (m_revents c) (m_index c) (is_loghup c) (is_tied c)
    (is_eventHandling c) (is_addedToLoop c) true (m_writeCallback c) (m_closeCallback c)
    (m_errorCallback c).
Definition setWriteCallback (c : Channel) : Channel :=
  mkChannel (m_fd c) (m_events c) (m_revents c) (m_index c) (is_loghup c) (is_tied c)
    (is_eventHandling c) (is_addedToLoop c) (m_readCallback c) true (m_closeCallback c)
    (m_errorCallback c).
Definition setCloseCallback (c : Channel) : Channel :=
  mkChannel (m_fd c) (m_events c) (m_revents c) (m_index c) (is_loghup c) (is_tied c)
    (is_eventHandling c) (is_addedToLoop c) (m_readCallback c) (m_writeCallback c) true
    (m_errorCallback c).
Definition setErrorCallback (c : Channel) : Channel :=
  mkChannel (m_fd c) (m_events c) (m_revents c) (m_index c) (is_loghup c) (is_tied c)
    (is_eventHandling c) (is_addedToLoop c) (m_readCallback c) (m_writeCallback c)
    (m_closeCallback c) true.

Definition set_events (c : Channel) (ev : Z) : Channel :=
  mkChannel (m_fd c) ev (m_revents c) (m_index c) (is_loghup c) (is_tied c)
    (is_eventHandling c) (is_addedToLoop c) (m_readCallback c) (m_writeCallback c)
    (m_closeCallback c) (m_errorCallback c).
Definition set_revents (c : Channel) (revt : Z) : Channel :=
  mkChannel (m_fd c) (m_events c) revt (m_index c) (is_loghup c) (is_tied c)
    (is_eventHandling c) (is_addedToLoop c) (m_readCallback c) (m_writeCallback c)
    (m_closeCallback c) (m_errorCallback c).
Definition set_index (c : Channel) (idx : Z) : Channel :=
  mkChannel (m_fd c) (m_events c) (m_revents c) idx (is_loghup c) (is_tied c)
    (is_eventHandling c) (is_addedToLoop c) (m_readCallback c) (m_writeCallback c)
    (m_closeCallback c) (m_errorCallback c).
Definition doNotLogHup (c : Channel) : Channel :=
  mkChannel (m_fd c) (m_events c) (m_revents c) (m_index c) false (is_tied c)
    (is_eventHandling c) (is_addedToLoop c) (m_readCallback c) (m_writeCallback c)
    (m_closeCallback c) (m_errorCallback c).
(** [Channel::tie]; whether the tied object is still alive is asked of the
    state when an event arrives. *)
Definition tie (c : Channel) : Channel :=
  mkChannel (m_fd c) (m_events c) (m_revents c) (m_index c) (is_loghup c) true
    (is_eventHandling c) (is_addedToLoop c) (m_readCallback c) (m_writeCallback c)
    (m_closeCallback c) (m_errorCallback c).
Definition set_eventHandling (c : Channel) (b : bool) : Channel :=
  mkChannel (m_fd c) (m_events c) (m_revents c) (m_index c) (is_loghup c) (is_tied c)
    b (is_addedToLoop c) (m_readCallback c) (m_writeCallback c) (m_closeCallback c)
    (m_errorCallback c).
Definition set_addedToLoop (c : Channel) (b : bool) : Channel :=
  mkChannel (m_fd c) (m_events c) (m_revents c) (m_index c) (is_loghup c) (is_tied c)
    (is_eventHandling c) b (m_readCallback c) (m_writeCallback c) (m_closeCallback c)
    (m_errorCallback c).

Definition isNoneEvent (c : Channel) : bool := m_events c =? kNoneEvent.
Definition isWriting (c : Channel) : bool := has (m_events c) kWriteEvent.
Definition isReading (c : Channel) : bool := has (m_events c) kReadEvent.

(** The five changes of interest, as the new value of [m_events]. *)
Inductive chg : Type :=
  | EnableReading | DisableReading | EnableWriting | DisableWriting | DisableAll.

Definition new_events (g : chg) (ev : Z) : Z :=
  match g with
  | EnableReading => Z.lor ev kReadEvent
  | DisableReading => Z.land ev (Z.lnot kReadEvent)
  | EnableWriting => Z.lor ev kWriteEvent
  | DisableWriting => Z.land ev (Z.lnot kWriteEvent)
  | DisableAll => kNoneEvent
  end.

(** [Channel::eventsToString(fd, ev)], given how [oss << fd] prints. *)
Definition eventsToString (show_int : Z → list ascii) (fd ev : Z) : list ascii :=
  show_int fd ++ chars ": " ++
  (if has ev POLLIN then chars "IN " else []) ++
  (if has ev POLLOUT then chars "OUT " else []) ++
  (if has ev POLLPRI then chars "PRI " else []) ++
  (if has ev POLLHUP then chars "HUP " else []) ++
  (if has ev POLLRDHUP then chars "RDHUP " else []) ++
  (if has ev POLLERR then chars "ERR " else []) ++
  (if has ev POLLNVAL then chars "NVAL " else []).

(** ** Event dispatch *)

Inductive cb_kind : Type := CbClose | CbError | CbRead | CbWrite.

#[global] Instance cb_kind_eq_dec : EqDecision cb_kind.
Proof. solve_decision. Defined.

(** The channel's owner is reached through the whole state [S]; [run] is what
    the four callbacks do, [alive] whether [m_tie.lock()] succeeds. *)
Section dispatch.
Context {S : Type} (chans : S → gmap cid Channel) (set_chans : S → gmap cid Channel → S)
  (run : cid → cb_kind → S → res S) (alive : cid → S → bool).

Definition get_chan (s : S) (c : cid) : res Channel :=
  match chans s !! c with
  | Some ch => Ok ch
  | None => Fail (FUndef "use of a destroyed channel")
  end.

Definition upd_chan (s : S) (c : cid) (f : Channel → Channel) : res S :=
  ch ← get_chan s c; Ok (set_chans s (<[c := f ch]> (chans s))).

(** [if (cond) { if (cb) cb(); }], reading the channel before the test. *)
Definition fire (c : cid) (k : cb_kind) (cond set : Channel → bool) (s : S) : res S :=
  ch ← get_chan s c;
  if cond ch && set ch then run c k s else Ok s.

Definition handleEventWithGuard (c : cid) (s : S) : res S :=
  s0 ← upd_chan s c (λ ch, set_eventHandling ch true);
  s1 ← fire c CbClose
         (λ ch, has (m_revents ch) POLLHUP && negb (has (m_revents ch) POLLIN))
         m_closeCallback s0;
  s2 ← fire c CbError (λ ch, has (m_revents ch) (Z.lor POLLERR POLLNVAL)) m_errorCallback s1;
  s3 ← fire c CbRead (λ ch, has (m_events ch) (Z.lor POLLIN (Z.lor POLLPRI POLLRDHUP)))
         m_readCallback s2;
  s4 ← fire c CbWrite (λ ch, has (m_events ch) POLLOUT) m_writeCallback s3;
  upd_chan s4 c (λ ch, set_eventHandling ch false).

Definition handleEvent (c : cid) (s : S) : res S :=
  ch ← get_chan s c;
  if is_tied ch then
    if alive c s then handleEventWithGuard c s else Ok s
  else handleEventWithGuard c s.
End dispatch.

(** ** A recording client

    A state that lists the callbacks that ran: with callbacks that do not
    touch the channel, what [handleEvent] calls is a function of the event
    masks. *)
Record trace_state : Type := mkTrace {
  t_chans : gmap cid Channel;
  t_log : list (cid * cb_kind);
}.

Definition trace_set (s : trace_state) (m : gmap cid Channel) : trace_state :=
  mkTrace m (t_log s).
Definition trace_run (c : cid) (k : cb_kind) (s : trace_state) : res trace_state :=
  Ok (mkTrace (t_chans s) (t_log s ++ [(c, k)])).

(** The callbacks the dispatcher is meant to run for the returned events (the
    masks poll(2) reported), and the ones it runs. *)
Definition meant (ch : Channel) : list cb_kind :=
  (if has (m_revents ch) POLLHUP && negb (has (m_revents ch) POLLIN) && m_closeCallback ch
   then [CbClose] else []) ++
  (if has (m_revents ch) (Z.lor POLLERR POLLNVAL) && m_errorCallback ch then [CbError] else []) ++
  (if has (m_revents ch) (Z.lor POLLIN (Z.lor POLLPRI POLLRDHUP)) && m_readCallback ch
   then [CbRead] else []) ++
  (if has (m_revents ch) POLLOUT && m_writeCallback ch then [CbWrite] else []).

Definition dispatched (ch : Channel) : list cb_kind :=
  (if has (m_revents ch) POLLHUP && negb (has (m_revents ch) POLLIN) && m_closeCallback ch
   then [CbClose] else []) ++
  (if has (m_revents ch) (Z.lor POLLERR POLLNVAL) && m_errorCallback ch then [CbError] else []) ++
  (if has (m_events ch) (Z.lor POLLIN (Z.lor POLLPRI POLLRDHUP)) && m_readCallback ch
   then [CbRead] else []) ++
  (if has (m_events ch) POLLOUT && m_writeCallback ch then [CbWrite] else []).

(** ** Lemmas *)

(** The values [m_events] takes: only the five operations change it, starting
    from 0. *)
Definition interest (ev : Z) : Prop := ev = 0 ∨ ev = 3 ∨ ev = 4 ∨ ev = 7.

Lemma interest_new (g : chg) (ev : Z) : interest ev → interest (new_events g ev).
Proof. unfold interest. intros [->|[->|[->| ->]]]; destruct g; vm_compute; tauto. Qed.

Lemma set_events_fd (c : Channel) (ev : Z) : m_fd (set_events c ev) = m_fd c.
Proof. done. Qed.

Section dispatch_lemmas.
Context {S : Type} (chans : S → gmap cid Channel) (set_chans : S → gmap cid Channel → S).
Context (get_set : ∀ s m, chans (set_chans s m) = m).
Context (run : cid → cb_kind → S → res S).

Lemma get_chan_Some s c ch : chans s !! c = Some ch → get_chan chans s c = Ok ch.
Proof. intros H. unfold get_chan. by rewrite H. Qed.

Lemma upd_chan_Some s c ch f :
  chans s !! c = Some ch →
  upd_chan chans set_chans s c f = Ok (set_chans s (<[c := f ch]> (chans s))).
Proof. intros H. unfold upd_chan. by rewrite (get_chan_Some _ _ _ H). Qed.

Lemma fire_Some s c ch k cond set :
  chans s !! c = Some ch →
  fire chans run c k cond set s = (if cond ch && set ch then run c k s else Ok s).
Proof. intros H. unfold fire. by rewrite (get_chan_Some _ _ _ H). Qed.
End dispatch_lemmas.

(** One test of the dispatcher, with a recording callback. *)
Lemma fire_trace (s : trace_state) c ch k cond set :
  t_chans s !! c = Some ch →
  fire t_chans trace_run c k cond set s =
    Ok (mkTrace (t_chans s) (t_log s ++ map (pair c) (if cond ch && set ch then [k] else []))).
Proof.
  intros H. rewrite (fire_Some _ _ _ _ _ _ _ _ H). destruct (_ && _); simpl; [done|].
  rewrite app_nil_r. by destruct s.
Qed.

Lemma handleEventWithGuard_trace (s : trace_state) c ch :
  t_chans s !! c = Some ch →
  handleEventWithGuard t_chans trace_set trace_run c s =
    Ok (mkTrace (<[c := set_eventHandling ch false]> (t_chans s))
                (t_log s ++ map (pair c) (dispatched ch))).
Proof.
  intros H. unfold handleEventWithGuard.
  rewrite (upd_chan_Some _ _ _ _ _ _ H). mred. simpl trace_set.
  set (ch0 := set_eventHandling ch true). set (s0 := trace_set s _).
  assert (H0 : ∀ l, t_chans (mkTrace (t_chans s0) l) !! c = Some ch0)
    by (intros; subst s0; simpl; apply lookup_insert_eq).
  destruct s0 as [m0 l0] eqn:Es0. simpl in H0.
  rewrite (fire_trace _ _ ch0) by apply (H0 []). mred.
  rewrite (fire_trace _ _ ch0) by apply (H0 []). mred.
  rewrite (fire_trace _ _ ch0) by apply (H0 []). mred.
  rewrite (fire_trace _ _ ch0) by apply (H0 []). mred. simpl t_chans. simpl t_log.
  rewrite (upd_chan_Some _ _ _ _ ch0) by apply (H0 []). f_equal. injection Es0 as <- <-.
  unfold trace_set; cbn [t_chans t_log]. f_equal.
  - by rewrite insert_insert_eq.
  - unfold dispatched. rewrite !map_app, <- !app_assoc. done.
Qed.

(** ** Properties *)

(** Dispatch: when an event is delivered to a channel whose owner is alive
    (or that is not tied), [handleEvent] returns, resets [is_eventHandling],
    and runs the callbacks of [dispatched] in the order close, error, read,
    write.  The read and write callbacks are chosen by the interest mask
    [m_events], not by the returned mask [m_revents]: the two lists agree when
    poll reported every kind of event the channel asked for. *)
Theorem handleEvent_dispatch (s : trace_state) (c : cid) (ch : Channel)
    (alive : cid → trace_state → bool) :
  t_chans s !! c = Some ch →
  handleEvent t_chans trace_set trace_run alive c s =
    (if negb (is_tied ch) || alive c s
     then Ok (mkTrace (<[c := set_eventHandling ch false]> (t_chans s))
                      (t_log s ++ map (pair c) (dispatched ch)))
     else Ok s) ∧
  (has (m_revents ch) POLLOUT = has (m_events ch) POLLOUT →
   has (m_revents ch) (Z.lor POLLIN (Z.lor POLLPRI POLLRDHUP))
     = has (m_events ch) (Z.lor POLLIN (Z.lor POLLPRI POLLRDHUP)) →
   dispatched ch = meant ch).
Proof.
  intros H. split.
  - unfold handleEvent. rewrite (get_chan_Some _ _ _ _ H). mred.
    destruct (is_tied ch), (alive c s); simpl; try done; by apply handleEventWithGuard_trace.
  - intros E1 E2. unfold dispatched, meant. by rewrite E1, E2.
Qed.

(** A connection's channel that wants to read and to write. *)
Definition both_channel (revt : Z) : Channel :=
  set_revents (set_events (setReadCallback (setWriteCallback (Channel_ctor 5)))
                 (Z.lor kReadEvent kWriteEvent)) revt.

Lemma handleEvent_dispatch_witness :
  handleEvent t_chans trace_set trace_run (λ _ _, true) 0%nat
    (mkTrace {[0%nat := both_channel (Z.lor POLLIN POLLOUT)]} [])
  = Ok (mkTrace (<[0%nat := set_eventHandling (both_channel (Z.lor POLLIN POLLOUT)) false]>
                   {[0%nat := both_channel (Z.lor POLLIN POLLOUT)]})
          ([] ++ map (pair 0%nat) (dispatched (both_channel (Z.lor POLLIN POLLOUT))))).
Proof.
  refine (proj1 (handleEvent_dispatch
    (mkTrace {[0%nat := both_channel (Z.lor POLLIN POLLOUT)]} []) 0%nat
    (both_channel (Z.lor POLLIN POLLOUT)) (λ _ _, true) _)).
  reflexivity.
Defined.

(** The divergence between the two masks: a channel that is interested in
    reading and writing, and for which poll reports that it is only writable,
    has its read callback run as well (and its write callback when it is only
    readable). *)
Theorem handleEvent_spurious :
  dispatched (both_channel POLLOUT) = [CbRead; CbWrite] ∧
  meant (both_channel POLLOUT) = [CbWrite] ∧
  dispatched (both_channel POLLIN) = [CbRead; CbWrite] ∧
  meant (both_channel POLLIN) = [CbRead] ∧
  handleEvent t_chans trace_set trace_run (λ _ _, true) 0%nat
    (mkTrace {[0%nat := both_channel POLLOUT]} [])
  = Ok (mkTrace {[0%nat := both_channel POLLOUT]} [(0%nat, CbRead); (0%nat, CbWrite)]).
Proof. vm_compute. done. Qed.
