(* ===== verification/Poller.v ===== *)
(** * Pollers: src/dc/net/poller.h, poller.cc, poller/epollPoller.cc,
      poller/pollPoller.cc, poller/defaultPoller.cc

    The abstract class Poller is the type class [PollerOps]; what an event
    loop relies on is [PollerLaws].  EpollPoller and PollPoller are its two
    instances.  The kernel side of epoll is an argument ([EpollKernel]: the
    documented behaviour of epoll_ctl(2)); what poll(2) and epoll_wait(2)
    report is an argument of [poll]. *)

From S2P Require Import Prelude Channel.

Open Scope Z_scope.

Abbreviation heap := (gmap cid Channel).

Definition deref (H : heap) (c : cid) : res Channel :=
  match H !! c with
  | Some ch => Ok ch
  | None => Fail (FUndef "use of a destroyed channel")
  end.

(** [m_ownerLoop->assertInLoopThread()]: LOG_FATAL when called from another
    thread. *)
Definition assertInLoopThread (inLoop : bool) : res unit :=
  if inLoop then Ok tt else Fail (FAbort "EventLoop::abortNotInLoopThread").

(** [Poller::hasChannel] *)
Definition hasChannel (inLoop : bool) (m_channels : gmap Z cid) (H : heap) (c : cid) : res bool :=
  assertInLoopThread inLoop;;
  ch ← deref H c;
  Ok (bool_decide (m_channels !! m_fd ch = Some c)).

(** ** The interface *)

(** What the channels of the map ask for: non-empty interest masks. *)
Definition wanted (m : gmap Z cid) (H : heap) : gmap Z (cid * Z) :=
  map_imap (λ fd c, ch ← H !! c; if m_events ch =? 0 then None else Some (c, m_events ch)) m.

(** Two heaps that agree on what a poller reads of the channels in its map:
    descriptor, interest, index. *)
Definition reg (ch : Channel) : Z * Z * Z := (m_fd ch, m_events ch, m_index ch).
Definition same_reg (m : gmap Z cid) (H1 H2 : heap) : Prop :=
  ∀ fd c, m !! fd = Some c → reg <$> H1 !! c = reg <$> H2 !! c.

(** Two heaps that differ at most in the indices of the channels in a map. *)
Definition same_but_index (m : gmap Z cid) (H1 H2 : heap) : Prop :=
  (∀ c, (λ ch, set_index ch 0) <$> H1 !! c = (λ ch, set_index ch 0) <$> H2 !! c) ∧
  (∀ c, (∀ fd, m !! fd ≠ Some c) → H1 !! c = H2 !! c).

Class PollerOps (P : Type) : Type := {
  p_channels : P → gmap Z cid;
  (** the descriptors the kernel is asked to watch, with a non-empty mask *)
  p_watch : P → gmap Z (cid * Z);
  p_update : bool → P → heap → cid → res (P * heap);
  p_remove : bool → P → heap → cid → res (P * heap);
}.

(** A channel may be handed to [updateChannel] when it is registered, or new
    and its descriptor is not registered. *)
Definition acceptable {P} `{PollerOps P} (p : P) (c : cid) (ch : Channel) : Prop :=
  p_channels p !! m_fd ch = Some c ∨
  (m_index ch = -1 ∧ p_channels p !! m_fd ch = None ∧ 0 ≤ m_fd ch).

Class PollerLaws (P : Type) `{PollerOps P} : Type := {
  p_inv : P → heap → Prop;
  p_removable : P → heap → cid → Prop;
  p_ext p H1 H2 : same_reg (p_channels p) H1 H2 → p_inv p H1 → p_inv p H2;
  p_removable_ext p H1 H2 c : same_reg (p_channels p) H1 H2 → p_removable p H1 c → p_removable p H2 c;
  (** the kernel watches what the channels want *)
  p_exact p H : p_inv p H → p_watch p = wanted (p_channels p) H;
  p_update_ok p H c ch ch1 :
    p_inv p H → H !! c = Some ch → acceptable p c ch →
    m_fd ch1 = m_fd ch → m_index ch1 = m_index ch → interest (m_events ch1) →
    (∃ what, p_update true p (<[c := ch1]> H) c = Fail (FAbort what)) ∨
    ∃ p' i, let H' := <[c := set_index ch1 i]> H in
      p_update true p (<[c := ch1]> H) c = Ok (p', H') ∧ p_inv p' H' ∧
      p_channels p' = <[m_fd ch := c]> (p_channels p) ∧
      (p_channels p !! m_fd ch = Some c → m_events ch1 = 0 → p_removable p' H' c) ∧
      (∀ c', c' ≠ c → p_removable p H c' → p_removable p' H' c');
  p_remove_ok p H c ch :
    p_inv p H → H !! c = Some ch → p_removable p H c →
    ∃ p' H', p_remove true p H c = Ok (p', H') ∧ p_inv p' H' ∧
      p_channels p' = delete (m_fd ch) (p_channels p) ∧ same_but_index (p_channels p) H H' ∧
      (∀ c', c' ≠ c → p_removable p H c' → p_removable p' H' c');
}.

(** ** EpollPoller *)

Definition kNew : Z := -1.
Definition kAdded : Z := 1.
Definition kDeleted : Z := 2.
Definition kInitEventListSize : Z := 16.

Inductive ctl_op : Type := EPOLL_CTL_ADD | EPOLL_CTL_MOD | EPOLL_CTL_DEL.

(** [EpollPoller::operationToString] *)
Definition operationToString (op : ctl_op) : string :=
  match op with
  | EPOLL_CTL_ADD => "ADD"
  | EPOLL_CTL_MOD => "MOD"
  | EPOLL_CTL_DEL => "DEL"
  end.

(** epoll_ctl(2): the interest list of the epoll instance; a call that fails
    leaves it unchanged, one that succeeds has the named effect, and removing
    a registered descriptor succeeds. *)
Class EpollKernel (K : Type) : Type := {
  k_interest : K → gmap Z (Z * cid);
  epoll_ctl : K → ctl_op → Z → Z → cid → Z * K;
  ctl_fail k op fd ev c : (epoll_ctl k op fd ev c).1 < 0 →
    k_interest (epoll_ctl k op fd ev c).2 = k_interest k;
  ctl_add k fd ev c : 0 ≤ (epoll_ctl k EPOLL_CTL_ADD fd ev c).1 →
    k_interest (epoll_ctl k EPOLL_CTL_ADD fd ev c).2 = <[fd := (ev, c)]> (k_interest k);
  ctl_mod k fd ev c : 0 ≤ (epoll_ctl k EPOLL_CTL_MOD fd ev c).1 →
    k_interest (epoll_ctl k EPOLL_CTL_MOD fd ev c).2 = <[fd := (ev, c)]> (k_interest k);
  ctl_del k fd ev c : 0 ≤ (epoll_ctl k EPOLL_CTL_DEL fd ev c).1 →
    k_interest (epoll_ctl k EPOLL_CTL_DEL fd ev c).2 = delete fd (k_interest k);
  ctl_del_registered k fd ev c : is_Some (k_interest k !! fd) →
    0 ≤ (epoll_ctl k EPOLL_CTL_DEL fd ev c).1;
}.

Record EpollPoller (K : Type) : Type := mkEpoll {
  ep_channels : gmap Z cid;
  ep_events_size : Z;      (* m_events.size() *)
  ep_kernel : K;           (* the instance behind m_epollfd *)
}.
Arguments mkEpoll {K}.
Arguments ep_channels {K}.
Arguments ep_events_size {K}.
Arguments ep_kernel {K}.

(** What epoll_wait(2) reports: an error, or the ready entries. *)
Inductive wait_result : Type :=
  | WaitErr (err : Z)
  | WaitEvents (ready : list (Z * cid)).   (* events, data.ptr *)

Section epoll.
Context {K : Type} {EK : EpollKernel K}.

Definition EpollPoller_ctor (k : K) : EpollPoller K := mkEpoll ∅ kInitEventListSize k.

(** [EpollPoller::update] *)
Definition ep_ctl (op : ctl_op) (p : EpollPoller K) (ch : Channel) (c : cid) : res (EpollPoller K) :=
  let '(r, k') := epoll_ctl (ep_kernel p) op (m_fd ch) (m_events ch) c in
  let p' := mkEpoll (ep_channels p) (ep_events_size p) k' in
  if r <? 0 then
    match op with
    | EPOLL_CTL_DEL => Ok p'
    | _ => Fail (FAbort "epoll_ctl op")
    end
  else Ok p'.

(** [EpollPoller::updateChannel] *)
Definition ep_updateChannel (inLoop : bool) (p : EpollPoller K) (H : heap) (c : cid) :
    res (EpollPoller K * heap) :=
  assertInLoopThread inLoop;;
  ch ← deref H c;
  let index := m_index ch in
  let fd := m_fd ch in
  if (index =? kNew) || (index =? kDeleted) then
    p1 ← (if index =? kNew then
            cassert (bool_decide (ep_channels p !! fd = None)) "m_channels.find(fd) == m_channels.end()";;
            Ok (mkEpoll (<[fd := c]> (ep_channels p)) (ep_events_size p) (ep_kernel p))
          else
            cassert (bool_decide (ep_channels p !! fd = Some c)) "m_channels[fd] == channel";;
            Ok p);
    let ch' := set_index ch kAdded in
    p2 ← ep_ctl EPOLL_CTL_ADD p1 ch' c;
    Ok (p2, <[c := ch']> H)
  else
    cassert (bool_decide (ep_channels p !! fd = Some c)) "m_channels[fd] == channel";;
    cassert (index =? kAdded) "index == kAdded";;
    if isNoneEvent ch then
      p1 ← ep_ctl EPOLL_CTL_DEL p ch c;
      Ok (p1, <[c := set_index ch kDeleted]> H)
    else
      p1 ← ep_ctl EPOLL_CTL_MOD p ch c;
      Ok (p1, H).

(** [EpollPoller::removeChannel] *)
Definition ep_removeChannel (inLoop : bool) (p : EpollPoller K) (H : heap) (c : cid) :
    res (EpollPoller K * heap) :=
  assertInLoopThread inLoop;;
  ch ← deref H c;
  let fd := m_fd ch in
  cassert (bool_decide (ep_channels p !! fd = Some c)) "m_channels[fd] == channel";;
  cassert (isNoneEvent ch) "channel->isNoneEvent()";;
  let index := m_index ch in
  cassert ((index =? kAdded) || (index =? kDeleted)) "index == kAdded || index == kDeleted";;
  let p1 := mkEpoll (delete fd (ep_channels p)) (ep_events_size p) (ep_kernel p) in
  p2 ← (if index =? kAdded then ep_ctl EPOLL_CTL_DEL p1 ch c else Ok p1);
  Ok (p2, <[c := set_index ch kNew]> H).

(** [EpollPoller::fillActiveChannels], one entry of the loop. *)
Definition ep_fill1 (p : EpollPoller K) (st : heap * list cid) (e : Z * cid) :
    res (heap * list cid) :=
  let '(H, active) := st in
  let '(ev, c) := e in
  ch ← deref H c;
  cassert (bool_decide (ep_channels p !! m_fd ch = Some c)) "it->second == channel";;
  Ok (<[c := set_revents ch ev]> H, active ++ [c]).

Definition ep_fillActiveChannels (p : EpollPoller K) (H : heap) (ready : list (Z * cid))
    (active : list cid) : res (heap * list cid) :=
  cassert (zlen ready <=? ep_events_size p) "numEvents <= m_events.size()";;
  foldM (ep_fill1 p) (H, active) ready.

(** [EpollPoller::poll] *)
Definition ep_poll (epoll_wait : K → Z → wait_result) (p : EpollPoller K) (H : heap)
    (active : list cid) : res (EpollPoller K * heap * list cid) :=
  match epoll_wait (ep_kernel p) (ep_events_size p) with
  | WaitErr _ => Ok (p, H, active)
  | WaitEvents ready =>
      if 0 <? zlen ready then
        '(H', active') ← ep_fillActiveChannels p H ready active;
        let p' := if zlen ready =? ep_events_size p
                  then mkEpoll (ep_channels p) (ep_events_size p * 2) (ep_kernel p) else p in
        Ok (p', H', active')
      else Ok (p, H, active)
  end.

#[global] Instance epoll_ops : PollerOps (EpollPoller K) := {|
  p_channels := ep_channels;
  p_watch p := omap (λ '(ev, c), if ev =? 0 then None else Some (c, ev)) (k_interest (ep_kernel p));
  p_update := ep_updateChannel;
  p_remove := ep_removeChannel;
|}.
End epoll.

(** ** PollPoller *)

Record pollfd : Type := mkPollfd { pfd_fd : Z; pfd_events : Z; pfd_revents : Z }.

Record PollPoller : Type := mkPoll {
  pp_channels : gmap Z cid;
  m_pollfds : list pollfd;
}.

Definition PollPoller_ctor : PollPoller := mkPoll ∅ [].

(** [PollPoller::updateChannel] *)
Definition pp_updateChannel (inLoop : bool) (p : PollPoller) (H : heap) (c : cid) :
    res (PollPoller * heap) :=
  assertInLoopThread inLoop;;
  ch ← deref H c;
  if m_index ch <? 0 then
    cassert (bool_decide (pp_channels p !! m_fd ch = None)) "m_channels.find(channel->fd()) == m_channels.end()";;
    let pfd := mkPollfd (m_fd ch) (swrap 16 (m_events ch)) 0 in
    let fds := m_pollfds p ++ [pfd] in
    let idx := zlen fds - 1 in
    Ok (mkPoll (<[m_fd ch := c]> (pp_channels p)) fds, <[c := set_index ch idx]> H)
  else
    cassert (bool_decide (pp_channels p !! m_fd ch = Some c)) "m_channels[channel->fd()] == channel";;
    let idx := m_index ch in
    cassert ((0 <=? idx) && (idx <? zlen (m_pollfds p))) "0 <= idx && idx < m_pollfds.size()";;
    match m_pollfds p !! Z.to_nat idx with
    | None => Fail (FUndef "m_pollfds[idx]")
    | Some pfd =>
        cassert ((pfd_fd pfd =? m_fd ch) || (pfd_fd pfd =? - m_fd ch - 1)) "pfd.fd == channel->fd()";;
        let fd' := if isNoneEvent ch then - m_fd ch - 1 else m_fd ch in
        Ok (mkPoll (pp_channels p)
              (<[Z.to_nat idx := mkPollfd fd' (swrap 16 (m_events ch)) 0]> (m_pollfds p)), H)
    end.

(** [PollPoller::removeChannel] *)
Definition pp_removeChannel (inLoop : bool) (p : PollPoller) (H : heap) (c : cid) :
    res (PollPoller * heap) :=
  assertInLoopThread inLoop;;
  ch ← deref H c;
  cassert (bool_decide (pp_channels p !! m_fd ch = Some c)) "m_channels[channel->fd()] == channel";;
  cassert (isNoneEvent ch) "channel->isNoneEvent()";;
  let idx := m_index ch in
  cassert ((0 <=? idx) && (idx <? zlen (m_pollfds p))) "0 <= idx && idx < m_pollfds.size()";;
  match m_pollfds p !! Z.to_nat idx, m_pollfds p !! (length (m_pollfds p) - 1)%nat with
  | Some pfd, Some back =>
      cassert ((pfd_fd pfd =? - m_fd ch - 1) && (pfd_events pfd =? m_events ch)) "pfd.fd == -channel->fd() - 1";;
      let chans := delete (m_fd ch) (pp_channels p) in
      let n := length (m_pollfds p) in
      if idx =? zlen (m_pollfds p) - 1 then
        Ok (mkPoll chans (take (n - 1) (m_pollfds p)), H)
      else
        let channelAtEnd := if pfd_fd back <? 0 then - pfd_fd back - 1 else pfd_fd back in
        let swapped := <[(n - 1)%nat := pfd]> (<[Z.to_nat idx := back]> (m_pollfds p)) in
        match chans !! channelAtEnd with
        | None => Fail (FUndef "m_channels[channelAtEnd] is a null pointer")
        | Some c2 =>
            ch2 ← deref H c2;
            Ok (mkPoll chans (take (n - 1) swapped), <[c2 := set_index ch2 idx]> H)
        end
  | _, _ => Fail (FUndef "m_pollfds[idx]")
  end.

(** [PollPoller::fillActiveChannels] *)
Fixpoint pp_fill (chans : gmap Z cid) (numEvents : Z) (fds : list pollfd) (H : heap)
    (active : list cid) : res (heap * list cid) :=
  match fds with
  | [] => Ok (H, active)
  | pfd :: fds' =>
      if 0 <? numEvents then
        if 0 <? pfd_revents pfd then
          match chans !! pfd_fd pfd with
          | None => Fail (FAssert "ch != m_channels.end()")
          | Some c =>
              ch ← deref H c;
              cassert (m_fd ch =? pfd_fd pfd) "channel->fd() == pfd->fd";;
              pp_fill chans (numEvents - 1) fds' (<[c := set_revents ch (pfd_revents pfd)]> H)
                (active ++ [c])
          end
        else pp_fill chans numEvents fds' H active
      else Ok (H, active)
  end.

(** What poll(2) reports: an error, or the number of ready entries and the
    [revents] it stored into the array. *)
Inductive poll_result : Type :=
  | PollErr (err : Z)
  | PollReady (numEvents : Z) (revents : list Z).

Definition store_revents (fds : list pollfd) (revents : list Z) : list pollfd :=
  zip_with (λ pfd r, mkPollfd (pfd_fd pfd) (pfd_events pfd) r) fds revents.

(** [PollPoller::poll] *)
Definition pp_poll (sys_poll : list pollfd → poll_result) (p : PollPoller) (H : heap)
    (active : list cid) : res (PollPoller * heap * list cid) :=
  match sys_poll (m_pollfds p) with
  | PollErr _ => Ok (p, H, active)
  | PollReady numEvents revents =>
      let p' := mkPoll (pp_channels p) (store_revents (m_pollfds p) revents) in
      if 0 <? numEvents then
        '(H', active') ← pp_fill (pp_channels p') numEvents (m_pollfds p') H active;
        Ok (p', H', active')
      else Ok (p', H, active)
  end.

(** The interest poll(2) sees for a descriptor. *)
Fixpoint pfd_find (fd : Z) (l : list pollfd) : option Z :=
  match l with
  | [] => None
  | pfd :: l' => if pfd_fd pfd =? fd then Some (pfd_events pfd) else pfd_find fd l'
  end.

#[global] Instance poll_ops : PollerOps PollPoller := {|
  p_channels := pp_channels;
  p_watch p := map_imap (λ fd c, ev ← pfd_find fd (m_pollfds p);
                                 if ev =? 0 then None else Some (c, ev)) (pp_channels p);
  p_update := pp_updateChannel;
  p_remove := pp_removeChannel;
|}.

(** [Poller::newDefaultPoller]: which implementation an event loop gets. *)
Inductive poller_kind : Type := UsePoll | UseEpoll.
Definition newDefaultPoller (DC_USE_POLL : option string) : poller_kind :=
  match DC_USE_POLL with
  | Some _ => UsePoll
  | None => UseEpoll
  end.

(** ** Lemmas shared by the two pollers *)

Lemma deref_Some (H : heap) (c : cid) (ch : Channel) : H !! c = Some ch → deref H c = Ok ch.
Proof. unfold deref. by intros ->. Qed.

Lemma set_index_same (ch : Channel) : set_index ch (m_index ch) = ch.
Proof. by destruct ch. Qed.

Lemma lookup_wanted (m : gmap Z cid) (H : heap) (fd : Z) :
  wanted m H !! fd =
    (c ← m !! fd; ch ← H !! c; if m_events ch =? 0 then None else Some (c, m_events ch)).
Proof. unfold wanted. by rewrite map_lookup_imap. Qed.

Lemma same_reg_lookup m (H1 H2 : heap) (fd : Z) (c : cid) (ch1 : Channel) :
  same_reg m H1 H2 → m !! fd = Some c → H1 !! c = Some ch1 →
  ∃ ch2, H2 !! c = Some ch2 ∧ reg ch2 = reg ch1.
Proof.
  intros Hs Hm H. specialize (Hs _ _ Hm). rewrite H in Hs. simpl in Hs.
  destruct (H2 !! c) as [ch2|]; [|done]. injection Hs as ?. exists ch2. unfold reg. by split; [|congruence].
Qed.

#[global] Instance same_reg_equiv m : Equivalence (same_reg m).
Proof.
  split; [done|by intros H1 H2 E fd c Hc; rewrite (E fd c Hc)|].
  intros H1 H2 H3 E1 E2 fd c Hc. by rewrite (E1 fd c Hc), (E2 fd c Hc).
Qed.

#[global] Instance same_but_index_equiv m : Equivalence (same_but_index m).
Proof.
  split; [done|intros H1 H2 [E E']; split; intros; symmetry; auto|].
  intros H1 H2 H3 [E1 E1'] [E2 E2']. split; intros.
  - by rewrite E1, E2.
  - by rewrite E1', E2'.
Qed.

Lemma same_but_index_insert m (H : heap) (fd : Z) (c : cid) (ch : Channel) (i : Z) :
  m !! fd = Some c → H !! c = Some ch → same_but_index m H (<[c := set_index ch i]> H).
Proof.
  intros Hm Hc. split; intros c'; destruct (decide (c = c')) as [<-|Hne].
  - by rewrite lookup_insert_eq, Hc.
  - by rewrite lookup_insert_ne.
  - intros Hno. by destruct (Hno fd).
  - by rewrite lookup_insert_ne.
Qed.

(** ** The epoll instance *)

Section epoll_laws.
Context {K : Type} {EK : EpollKernel K}.
Implicit Types (p : EpollPoller K) (H : heap).

(** A registered channel is in the interest list with its mask when its index
    is [kAdded], and absent (asking for nothing) when it is [kDeleted]. *)
Definition ep_entry p H (fd : Z) (c : cid) : Prop :=
  ∃ ch, H !! c = Some ch ∧ m_fd ch = fd ∧ interest (m_events ch) ∧
    ((m_index ch = kAdded ∧ k_interest (ep_kernel p) !! fd = Some (m_events ch, c)) ∨
     (m_index ch = kDeleted ∧ m_events ch = 0 ∧ k_interest (ep_kernel p) !! fd = None)).

Definition ep_inv p H : Prop :=
  (∀ fd c, ep_channels p !! fd = Some c → ep_entry p H fd c) ∧
  (∀ fd, ep_channels p !! fd = None → k_interest (ep_kernel p) !! fd = None).

Definition ep_removable p H (c : cid) : Prop :=
  ∃ ch, H !! c = Some ch ∧ ep_channels p !! m_fd ch = Some c ∧ m_events ch = 0.

Lemma ep_ext p H1 H2 : same_reg (p_channels p) H1 H2 → ep_inv p H1 → ep_inv p H2.
Proof.
  intros Hs [Hi1 Hi2]. split; [|done]. intros fd c Hc.
  destruct (Hi1 fd c Hc) as (ch & Hch & Hfd & Hint & Hk).
  destruct (same_reg_lookup _ _ _ _ _ _ Hs Hc Hch) as (ch2 & Hch2 & [= E1 E2 E3]).
  exists ch2. rewrite E1, E2, E3. done.
Qed.

Lemma ep_removable_ext p H1 H2 c :
  same_reg (ep_channels p) H1 H2 → ep_removable p H1 c → ep_removable p H2 c.
Proof.
  intros Hs (ch & Hch & Hm & He).
  destruct (same_reg_lookup _ _ _ _ _ _ Hs Hm Hch) as (ch2 & Hch2 & [= E1 E2 E3]).
  exists ch2. by rewrite E1, E2.
Qed.

Lemma ep_exact p H : ep_inv p H → p_watch p = wanted (ep_channels p) H.
Proof.
  intros [Hi1 Hi2]. apply map_eq. intros fd. rewrite lookup_wanted. simpl.
  rewrite lookup_omap. destruct (ep_channels p !! fd) as [c|] eqn:Ec.
  - destruct (Hi1 fd c Ec) as (ch & Hch & _ & _ & [(_ & ->)|(_ & E & ->)]);
      simpl; rewrite Hch; simpl; [by destruct (_ =? _)|by rewrite E].
  - by rewrite Hi2.
Qed.

(** Changing the entry of one descriptor keeps the invariant for the others. *)
Lemma ep_inv_upd p p' H fd c ch :
  ep_inv p H →
  ep_channels p' = <[fd := c]> (ep_channels p) →
  (∀ fd', fd' ≠ fd → k_interest (ep_kernel p') !! fd' = k_interest (ep_kernel p) !! fd') →
  (∀ fd', ep_channels p !! fd' = Some c → fd' = fd) →
  ep_entry p' (<[c := ch]> H) fd c →
  ep_inv p' (<[c := ch]> H).
Proof.
  intros [Hi1 Hi2] Hch Hk Hu He. split.
  - intros fd' c'. rewrite Hch. destruct (decide (fd = fd')) as [<-|Hne].
    + rewrite lookup_insert_eq. by intros [= <-].
    + rewrite lookup_insert_ne by done. intros Hc'.
      destruct (Hi1 fd' c' Hc') as (ch' & Hc & Hrest). exists ch'.
      rewrite lookup_insert_ne by (intros ->; by apply Hne, eq_sym, Hu).
      rewrite Hk by done. done.
  - intros fd'. rewrite Hch. destruct (decide (fd = fd')) as [<-|Hne].
    + by rewrite lookup_insert_eq.
    + rewrite lookup_insert_ne, Hk by done. apply Hi2.
Qed.

(** Under the invariant a channel is registered under its own descriptor. *)
Lemma ep_inv_fd p H fd c ch :
  ep_inv p H → ep_channels p !! fd = Some c → H !! c = Some ch → m_fd ch = fd.
Proof.
  intros [Hi _] Hc Hch. destruct (Hi fd c Hc) as (ch' & E & Hfd & _). congruence.
Qed.

(** The three uses of epoll_ctl. *)
Lemma ep_ctl_add p ch c :
  (∃ what, ep_ctl EPOLL_CTL_ADD p ch c = Fail (FAbort what)) ∨
  ∃ k, ep_ctl EPOLL_CTL_ADD p ch c = Ok (mkEpoll (ep_channels p) (ep_events_size p) k) ∧
       k_interest k = <[m_fd ch := (m_events ch, c)]> (k_interest (ep_kernel p)).
Proof.
  unfold ep_ctl. pose proof (ctl_add (ep_kernel p) (m_fd ch) (m_events ch) c) as Ha.
  destruct (epoll_ctl _ _ _ _ _) as [r k]. simpl in Ha. destruct (r <? 0) eqn:E; bprop; eauto.
Qed.

Lemma ep_ctl_mod p ch c :
  (∃ what, ep_ctl EPOLL_CTL_MOD p ch c = Fail (FAbort what)) ∨
  ∃ k, ep_ctl EPOLL_CTL_MOD p ch c = Ok (mkEpoll (ep_channels p) (ep_events_size p) k) ∧
       k_interest k = <[m_fd ch := (m_events ch, c)]> (k_interest (ep_kernel p)).
Proof.
  unfold ep_ctl. pose proof (ctl_mod (ep_kernel p) (m_fd ch) (m_events ch) c) as Ha.
  destruct (epoll_ctl _ _ _ _ _) as [r k]. simpl in Ha. destruct (r <? 0) eqn:E; bprop; eauto.
Qed.

Lemma ep_ctl_del p ch c :
  is_Some (k_interest (ep_kernel p) !! m_fd ch) →
  ∃ k, ep_ctl EPOLL_CTL_DEL p ch c = Ok (mkEpoll (ep_channels p) (ep_events_size p) k) ∧
       k_interest k = delete (m_fd ch) (k_interest (ep_kernel p)).
Proof.
  intros Hs. unfold ep_ctl. pose proof (ctl_del (ep_kernel p) (m_fd ch) (m_events ch) c) as Ha.
  pose proof (ctl_del_registered (ep_kernel p) (m_fd ch) (m_events ch) c Hs) as Hr.
  destruct (epoll_ctl _ _ _ _ _) as [r k]. simpl in *.
  rewrite (proj2 (Z.ltb_ge _ _)) by done. eauto.
Qed.

Section update.
Context (p : EpollPoller K) (H : heap) (c : cid) (ch ch1 : Channel).
Hypothesis Hinv : ep_inv p H.
Hypothesis Hc : H !! c = Some ch.
Hypothesis Hfd : m_fd ch1 = m_fd ch.
Hypothesis Hidx : m_index ch1 = m_index ch.
Hypothesis Hint : interest (m_events ch1).

(** The conclusion of [p_update_ok] for a poller [p'] and an index [i]. *)
Definition ep_updated (p' : EpollPoller K) (i : Z) : Prop :=
  let H' := <[c := set_index ch1 i]> H in
  ep_updateChannel true p (<[c := ch1]> H) c = Ok (p', H') ∧ ep_inv p' H' ∧
  ep_channels p' = <[m_fd ch := c]> (ep_channels p) ∧
  (ep_channels p !! m_fd ch = Some c → m_events ch1 = 0 → ep_removable p' H' c) ∧
  (∀ c', c' ≠ c → ep_removable p H c' → ep_removable p' H' c').

Lemma ep_updated_intro (p' : EpollPoller K) (i : Z) :
  ep_updateChannel true p (<[c := ch1]> H) c = Ok (p', <[c := set_index ch1 i]> H) →
  ep_channels p' = <[m_fd ch := c]> (ep_channels p) →
  (∀ c', c' ≠ c → ep_channels p !! m_fd ch ≠ Some c') →
  (∀ fd', fd' ≠ m_fd ch →
     k_interest (ep_kernel p') !! fd' = k_interest (ep_kernel p) !! fd') →
  ep_entry p' (<[c := set_index ch1 i]> H) (m_fd ch) c →
  ep_updated p' i.
Proof.
  intros Hu Hch Hother Hk He. split_and!; [done| |done| |].
  - eapply ep_inv_upd; [done..| |done]. intros fd' E. by rewrite (ep_inv_fd _ _ _ _ _ Hinv E Hc).
  - intros _ H0. exists (set_index ch1 i). rewrite lookup_insert_eq, Hch.
    simpl. by rewrite Hfd, lookup_insert_eq.
  - intros c' Hne (ch' & Hc' & Hm & H0). exists ch'.
    rewrite lookup_insert_ne by done. split_and!; [done| |done].
    rewrite Hch, lookup_insert_ne; [done|]. intros E. rewrite <- E in Hm. by apply (Hother c').
Qed.

Lemma ep_entry_added p' :
  k_interest (ep_kernel p') !! m_fd ch = Some (m_events ch1, c) →
  ep_entry p' (<[c := set_index ch1 kAdded]> H) (m_fd ch) c.
Proof.
  intros E. exists (set_index ch1 kAdded). rewrite lookup_insert_eq. split_and!; try done.
  left. done.
Qed.

(** What [updateChannel] does in each state of the index. *)
Lemma ep_eq_add p1 :
  (m_index ch = kNew ∧ ep_channels p !! m_fd ch = None ∧
     p1 = mkEpoll (<[m_fd ch := c]> (ep_channels p)) (ep_events_size p) (ep_kernel p)) ∨
  (m_index ch = kDeleted ∧ ep_channels p !! m_fd ch = Some c ∧ p1 = p) →
  ep_updateChannel true p (<[c := ch1]> H) c =
    (p2 ← ep_ctl EPOLL_CTL_ADD p1 (set_index ch1 kAdded) c;
     Ok (p2, <[c := set_index ch1 kAdded]> H)).
Proof.
  intros Hcase. unfold ep_updateChannel. rewrite (deref_Some _ _ ch1) by apply lookup_insert_eq.
  mred. rewrite !insert_insert_eq, Hidx, Hfd.
  destruct Hcase as [(-> & ? & ->)|(-> & ? & ->)]; simpl; by rewrite bool_decide_true.
Qed.

Lemma ep_eq_added :
  m_index ch = kAdded → ep_channels p !! m_fd ch = Some c →
  ep_updateChannel true p (<[c := ch1]> H) c =
    (if isNoneEvent ch1
     then p1 ← ep_ctl EPOLL_CTL_DEL p ch1 c; Ok (p1, <[c := set_index ch1 kDeleted]> H)
     else p1 ← ep_ctl EPOLL_CTL_MOD p ch1 c; Ok (p1, <[c := set_index ch1 kAdded]> H)).
Proof.
  intros Hi Hreg. unfold ep_updateChannel.
  rewrite (deref_Some _ _ ch1) by apply lookup_insert_eq.
  rewrite <- Hi, <- Hidx, set_index_same. mred. rewrite !insert_insert_eq, Hidx, Hfd, Hi. simpl.
  by rewrite bool_decide_true.
Qed.

Lemma ep_finish_add p1 :
  ep_channels p1 = <[m_fd ch := c]> (ep_channels p) → ep_kernel p1 = ep_kernel p →
  (∀ c', c' ≠ c → ep_channels p !! m_fd ch ≠ Some c') →
  ep_updateChannel true p (<[c := ch1]> H) c =
    (p2 ← ep_ctl EPOLL_CTL_ADD p1 (set_index ch1 kAdded) c;
     Ok (p2, <[c := set_index ch1 kAdded]> H)) →
  (∃ what, ep_updateChannel true p (<[c := ch1]> H) c = Fail (FAbort what)) ∨
  ∃ p' i, ep_updated p' i.
Proof.
  intros E1 E2 Hne E3.
  destruct (ep_ctl_add p1 (set_index ch1 kAdded) c) as [(w & E)|(k & E & Hk)];
    rewrite E in E3; [left; eauto|right].
  eexists _, kAdded. apply ep_updated_intro; [exact E3|done|done|..].
  - intros fd' Hne'. simpl. rewrite Hk, E2. apply lookup_insert_ne. simpl. congruence.
  - apply ep_entry_added. simpl. rewrite Hk. simpl. rewrite Hfd. apply lookup_insert_eq.
Qed.

Lemma ep_finish_added :
  m_index ch = kAdded → ep_channels p !! m_fd ch = Some c →
  k_interest (ep_kernel p) !! m_fd ch = Some (m_events ch, c) →
  (∃ what, ep_updateChannel true p (<[c := ch1]> H) c = Fail (FAbort what)) ∨
  ∃ p' i, ep_updated p' i.
Proof.
  intros Hi Hreg Hk. pose proof (ep_eq_added Hi Hreg) as E0. unfold isNoneEvent, kNoneEvent in E0.
  assert (<[m_fd ch := c]> (ep_channels p) = ep_channels p) as Hsame by by apply insert_id.
  destruct (m_events ch1 =? 0) eqn:Ez; bprop.
  - right. destruct (ep_ctl_del p ch1 c) as (k & E & Hk'); [rewrite Hfd; eauto|].
    rewrite E in E0. eexists _, kDeleted.
    apply ep_updated_intro; [exact E0|done|intros; congruence|..].
    + intros fd' Hne'. simpl. rewrite Hk', Hfd. by apply lookup_delete_ne.
    + exists (set_index ch1 kDeleted). rewrite lookup_insert_eq. split_and!; try done.
      right. split_and!; [done..|]. simpl. rewrite Hk', Hfd. apply lookup_delete_eq.
  - destruct (ep_ctl_mod p ch1 c) as [(w & E)|(k & E & Hk')]; rewrite E in E0;
      [left; eauto|right]. eexists _, kAdded.
    apply ep_updated_intro; [exact E0|done|intros; congruence|..].
    + intros fd' Hne'. simpl. rewrite Hk', Hfd. by apply lookup_insert_ne.
    + apply ep_entry_added. simpl. rewrite Hk', Hfd. apply lookup_insert_eq.
Qed.

Lemma ep_update_ok :
  acceptable p c ch →
  (∃ what, ep_updateChannel true p (<[c := ch1]> H) c = Fail (FAbort what)) ∨
  ∃ p' i, ep_updated p' i.
Proof.
  intros [Hreg|(Hi & Hnone & _)].
  - destruct (proj1 Hinv _ _ Hreg) as (ch' & Hc' & _ & _ & Hk).
    assert (ch' = ch) as -> by congruence. simpl in Hreg.
    destruct Hk as [(Hi & Hk)|(Hi & H0 & Hk)]; [by apply ep_finish_added|].
    apply (ep_finish_add p); [by rewrite insert_id|done|intros; congruence|].
    apply ep_eq_add. by right.
  - simpl in Hnone. eapply ep_finish_add; [| | |apply ep_eq_add; left; split_and!; done].
    + done.
    + done.
    + intros. congruence.
Qed.
End update.

Lemma ep_remove_ok p H c ch :
  ep_inv p H → H !! c = Some ch → ep_removable p H c →
  ∃ p' H', ep_removeChannel true p H c = Ok (p', H') ∧ ep_inv p' H' ∧
    ep_channels p' = delete (m_fd ch) (ep_channels p) ∧ same_but_index (ep_channels p) H H' ∧
    (∀ c', c' ≠ c → ep_removable p H c' → ep_removable p' H' c').
Proof.
  intros Hinv Hc (ch0 & Hc0 & Hreg & H0). assert (ch0 = ch) as -> by congruence.
  destruct (proj1 Hinv _ _ Hreg) as (ch' & Hc' & _ & _ & Hk). assert (ch' = ch) as -> by congruence.
  set (p1 := mkEpoll (delete (m_fd ch) (ep_channels p)) (ep_events_size p) (ep_kernel p)).
  assert (∃ k, (if m_index ch =? kAdded then ep_ctl EPOLL_CTL_DEL p1 ch c else Ok p1)
      = Ok (mkEpoll (delete (m_fd ch) (ep_channels p)) (ep_events_size p) k) ∧
      k_interest k = delete (m_fd ch) (k_interest (ep_kernel p))) as (k & E & Ek).
  { destruct Hk as [(-> & Hk)|(-> & _ & Hk)]; simpl.
    - by apply (ep_ctl_del p1); eauto.
    - exists (ep_kernel p). split; [done|]. symmetry. by apply delete_id. }
  eexists _, (<[c := set_index ch kNew]> H). split_and!.
  - unfold ep_removeChannel. rewrite (deref_Some _ _ _ Hc). mred.
    rewrite bool_decide_true by done. unfold isNoneEvent. rewrite H0. mred. simpl.
    rewrite cassert_true by (destruct Hk as [(-> & _)|(-> & _)]; done). mred. fold p1.
    rewrite E. done.
  - split; simpl.
    + intros fd c' Hc2. apply lookup_delete_Some in Hc2 as [Hne Hc2].
      destruct (proj1 Hinv _ _ Hc2) as (ch2 & ? & ? & Hrest). exists ch2.
      rewrite lookup_insert_ne by congruence. simpl. rewrite Ek, lookup_delete_ne by done. done.
    + intros fd Hnone. rewrite Ek. destruct (decide (fd = m_fd ch)) as [->|Hne];
        [apply lookup_delete_eq|].
      rewrite lookup_delete_ne in Hnone by done. rewrite lookup_delete_ne by done. by apply (proj2 Hinv).
  - done.
  - by eapply same_but_index_insert.
  - intros c' Hne (ch2 & ? & ? & ?). exists ch2. rewrite lookup_insert_ne by done.
    simpl. rewrite lookup_delete_ne by congruence. done.
Qed.

#[global] Instance epoll_laws : PollerLaws (EpollPoller K) := {|
  p_inv := ep_inv;
  p_removable := ep_removable;
  p_ext := ep_ext;
  p_removable_ext := ep_removable_ext;
  p_exact := ep_exact;
  p_update_ok p H c ch ch1 Hi Hc Ha E1 E2 E3 := ep_update_ok p H c ch ch1 Hi Hc E1 E2 E3 Ha;
  p_remove_ok := ep_remove_ok;
|}.
End epoll_laws.

(** ** The poll instance *)

(** Slot [i] of the array stands for the channel [ch]: same mask, and the
    descriptor itself, or its complement when the channel asks for nothing. *)
Definition pp_slot (fds : list pollfd) (ch : Channel) (i : nat) (pfd : pollfd) : Prop :=
  fds !! i = Some pfd ∧ m_index ch = Z.of_nat i ∧ 0 ≤ m_fd ch ∧ interest (m_events ch) ∧
  pfd_events pfd = m_events ch ∧
  (pfd_fd pfd = m_fd ch ∨ (pfd_fd pfd = - m_fd ch - 1 ∧ m_events ch = 0)).

Definition pp_entry (p : PollPoller) (H : heap) (fd : Z) (c : cid) (i : nat) (pfd : pollfd) : Prop :=
  ∃ ch, H !! c = Some ch ∧ m_fd ch = fd ∧ pp_slot (m_pollfds p) ch i pfd.

(** Every registered channel has its slot, every slot has its channel. *)
Definition pp_inv (p : PollPoller) (H : heap) : Prop :=
  (∀ fd c, pp_channels p !! fd = Some c → ∃ i pfd, pp_entry p H fd c i pfd) ∧
  (∀ i, (i < length (m_pollfds p))%nat →
     ∃ fd c pfd, pp_channels p !! fd = Some c ∧ pp_entry p H fd c i pfd).

Definition pp_removable (p : PollPoller) (H : heap) (c : cid) : Prop :=
  ∃ ch i pfd, H !! c = Some ch ∧ pp_channels p !! m_fd ch = Some c ∧
    pp_slot (m_pollfds p) ch i pfd ∧ pfd_fd pfd = - m_fd ch - 1.

Lemma pp_slot_reg fds ch1 ch2 i pfd : reg ch2 = reg ch1 → pp_slot fds ch1 i pfd → pp_slot fds ch2 i pfd.
Proof. intros [= E1 E2 E3]. unfold pp_slot. by rewrite E1, E2, E3. Qed.

Lemma pp_ext p H1 H2 : same_reg (p_channels p) H1 H2 → pp_inv p H1 → pp_inv p H2.
Proof.
  intros Hs [Hi1 Hi2].
  assert (He : ∀ fd c i pfd, pp_channels p !! fd = Some c →
    pp_entry p H1 fd c i pfd → pp_entry p H2 fd c i pfd).
  { intros fd c i pfd Hm (ch & Hc & Hfd & Hsl).
    destruct (same_reg_lookup _ _ _ _ _ _ Hs Hm Hc) as (ch2 & Hc2 & E). exists ch2.
    split_and!; [done|by injection E as E _ _; rewrite E|by eapply pp_slot_reg]. }
  split.
  - intros fd c Hc. destruct (Hi1 fd c Hc) as (i & pfd & ?). eauto.
  - intros i Hi. destruct (Hi2 i Hi) as (fd & c & pfd & ? & ?). eauto 10.
Qed.

Lemma pp_removable_ext p H1 H2 c :
  same_reg (pp_channels p) H1 H2 → pp_removable p H1 c → pp_removable p H2 c.
Proof.
  intros Hs (ch & i & pfd & Hc & Hm & Hsl & Hp).
  destruct (same_reg_lookup _ _ _ _ _ _ Hs Hm Hc) as (ch2 & Hc2 & E). exists ch2, i, pfd.
  pose proof (pp_slot_reg _ _ _ _ _ E Hsl). injection E as E _ _. by rewrite E.
Qed.

(** Two channels that share a slot have the same descriptor. *)
Lemma pp_slot_inj fds ch1 ch2 i pfd1 pfd2 :
  pp_slot fds ch1 i pfd1 → pp_slot fds ch2 i pfd2 → m_fd ch1 = m_fd ch2.
Proof. unfold pp_slot. intros (E1 & ?) (E2 & ?). assert (pfd1 = pfd2) as -> by congruence. lia. Qed.

Lemma pfd_find_slot (fd : Z) (fds : list pollfd) (i : nat) (pfd : pollfd) :
  fds !! i = Some pfd →
  (∀ j pfd', fds !! j = Some pfd' → pfd_fd pfd' = fd → j = i) →
  pfd_find fd fds = (if pfd_fd pfd =? fd then Some (pfd_events pfd) else None).
Proof.
  revert i; induction fds as [|x fds IH]; intros [|i]; simpl; [done..| |].
  - intros [= ->] Hu. destruct (_ =? _) eqn:E; [done|]. bprop. clear IH.
    assert (∀ j pfd', fds !! j = Some pfd' → pfd_fd pfd' ≠ fd) as Hn.
    { intros j pfd' Hj Hf. by specialize (Hu (S j) pfd' Hj Hf). }
    clear Hu E. induction fds as [|y fds IH]; simpl; [done|].
    rewrite (proj2 (Z.eqb_neq _ _)) by by apply (Hn 0%nat).
    apply IH. intros j pfd' Hj. by apply (Hn (S j)).
  - intros Hi Hu. destruct (pfd_fd x =? fd) eqn:E; bprop.
    + by specialize (Hu 0%nat x eq_refl E).
    + apply (IH i Hi). intros j pfd' Hj Hf. specialize (Hu (S j) pfd' Hj Hf). lia.
Qed.

Lemma pp_exact p H : pp_inv p H → p_watch p = wanted (pp_channels p) H.
Proof.
  intros [Hi1 Hi2]. apply map_eq. intros fd. rewrite lookup_wanted. simpl.
  rewrite map_lookup_imap. destruct (pp_channels p !! fd) as [c|] eqn:Ec; [|done]. simpl.
  destruct (Hi1 fd c Ec) as (i & pfd & ch & Hc & Hfd & Hsl). rewrite Hc. simpl.
  rewrite (pfd_find_slot fd _ i pfd).
  - destruct Hsl as (_ & _ & ? & _ & -> & [E|[E E0]]); rewrite E.
    + by rewrite (proj2 (Z.eqb_eq _ _)).
    + rewrite E0, (proj2 (Z.eqb_neq _ _)) by lia. done.
  - apply Hsl.
  - intros j pfd' Hj Hf. destruct (Hi2 j) as (fd' & c' & pfd2 & Hc' & ch' & Hch' & Hfd' & Hsl').
    { by apply lookup_lt_Some in Hj. }
    assert (pfd2 = pfd') as -> by (destruct Hsl' as [E _]; congruence).
    assert (0 ≤ m_fd ch) by apply Hsl.
    assert (fd' = fd) as -> by (destruct Hsl' as (_ & _ & ? & _ & _ & [?|[? ?]]); lia).
    assert (c' = c) as -> by congruence. assert (ch' = ch) as -> by congruence.
    destruct Hsl as (_ & E1 & _), Hsl' as (_ & E2 & _). lia.
Qed.

(** Entries of other descriptors survive an operation on [fd], slot [j]
    moving to slot [f j]. *)
Definition pp_keeps (p : PollPoller) (H : heap) (p' : PollPoller) (H' : heap) (fd : Z) (f : nat → nat) :=
  ∀ fd' c' j x, fd' ≠ fd → pp_channels p !! fd' = Some c' →
    pp_entry p H fd' c' j x → pp_entry p' H' fd' c' (f j) x.

Lemma pp_removable_keeps p H p' H' fd c f c' :
  pp_keeps p H p' H' fd f →
  (∀ fd', fd' ≠ fd → pp_channels p' !! fd' = pp_channels p !! fd') →
  (pp_channels p !! fd = Some c ∨ pp_channels p !! fd = None) →
  c' ≠ c → pp_removable p H c' → pp_removable p' H' c'.
Proof.
  intros Hk Hch Hown Hne (ch & i & pfd & Hc & Hm & Hsl & Hp).
  assert (m_fd ch ≠ fd) as Hfd by (intros E; rewrite E in Hm; destruct Hown; congruence).
  destruct (Hk (m_fd ch) c' i pfd Hfd Hm) as (ch' & Hc' & E & Hsl'); [by exists ch|].
  exists ch', (f i), pfd. rewrite E, Hch by done. done.
Qed.

Lemma pp_rebuild p H p' H' fd c i pfd :
  pp_inv p H → pp_channels p' = <[fd := c]> (pp_channels p) → pp_entry p' H' fd c i pfd →
  pp_keeps p H p' H' fd id →
  (∀ c2 j x, pp_channels p !! fd = Some c2 → pp_entry p H fd c2 j x → j = i) →
  (∀ j, (j < length (m_pollfds p'))%nat → j = i ∨ (j < length (m_pollfds p))%nat) →
  pp_inv p' H'.
Proof.
  intros [Hi1 Hi2] Hch He Hk Hown Hlen. split.
  - intros fd' c'. rewrite Hch. destruct (decide (fd' = fd)) as [->|Hne].
    + rewrite lookup_insert_eq. intros [= <-]. eauto.
    + rewrite lookup_insert_ne by done. intros Hc'. destruct (Hi1 _ _ Hc') as (j & x & Hj).
      exists j, x. by apply (Hk fd' c' j x).
  - intros j Hj. rewrite Hch. destruct (decide (j = i)) as [->|Hne].
    + exists fd, c, pfd. by rewrite lookup_insert_eq.
    + destruct (Hi2 j) as (fd' & c' & x & Hc' & Hx); [destruct (Hlen j Hj); [done|lia]|].
      assert (fd' ≠ fd) by (intros ->; apply Hne; by eapply Hown).
      exists fd', c', x. rewrite lookup_insert_ne by done. split; [done|]. by apply (Hk fd' c' j x).
Qed.

Lemma swrap16_interest ev : interest ev → swrap 16 ev = ev.
Proof. by intros [-> | [-> | [-> | ->]]]. Qed.

Section pp_update.
Variables (p : PollPoller) (H : heap) (c : cid) (ch ch1 : Channel).
Hypothesis Hinv : pp_inv p H.
Hypothesis Hc : H !! c = Some ch.
Hypothesis Hfd : m_fd ch1 = m_fd ch.
Hypothesis Hidx : m_index ch1 = m_index ch.
Hypothesis Hint : interest (m_events ch1).

Definition pp_updated (p' : PollPoller) (i : Z) : Prop :=
  let H' := <[c := set_index ch1 i]> H in
  pp_updateChannel true p (<[c := ch1]> H) c = Ok (p', H') ∧ pp_inv p' H' ∧
  pp_channels p' = <[m_fd ch := c]> (pp_channels p) ∧
  (pp_channels p !! m_fd ch = Some c → m_events ch1 = 0 → pp_removable p' H' c) ∧
  (∀ c', c' ≠ c → pp_removable p H c' → pp_removable p' H' c').

(** Slots are kept when the array grows or another slot is overwritten. *)
Lemma pp_keeps_update p' i :
  (∀ j x, m_pollfds p !! j = Some x → m_index ch ≠ Z.of_nat j → m_pollfds p' !! j = Some x) →
  (∀ fd' c' j x ch', fd' ≠ m_fd ch → pp_channels p !! fd' = Some c' → H !! c' = Some ch' →
     m_fd ch' = fd' → pp_slot (m_pollfds p) ch' j x → m_index ch ≠ Z.of_nat j) →
  pp_keeps p H p' (<[c := set_index ch1 i]> H) (m_fd ch) id.
Proof.
  intros Hs Hd fd' c' j x Hne Hc' (ch' & Hch' & Hf & Hsl).
  exists ch'. rewrite lookup_insert_ne by congruence. split_and!; [done..|].
  pose proof (Hd _ _ _ _ _ Hne Hc' Hch' Hf Hsl). destruct Hsl as (Hj & Hsl).
  split; [|done]. by apply Hs.
Qed.

Lemma pp_update_registered :
  pp_channels p !! m_fd ch = Some c → ∃ p' i, pp_updated p' i.
Proof.
  intros Hreg. destruct (proj1 Hinv _ _ Hreg) as (i & pfd & ch' & Hc' & _ & Hsl).
  assert (ch' = ch) as -> by congruence.
  set (x := mkPollfd (if isNoneEvent ch1 then - m_fd ch - 1 else m_fd ch) (m_events ch1) 0).
  set (p' := mkPoll (pp_channels p) (<[i := x]> (m_pollfds p))).
  assert (Hlt : (i < length (m_pollfds p))%nat) by by destruct Hsl as [?%lookup_lt_Some _].
  assert (Hnew : pp_slot (m_pollfds p') (set_index ch1 (m_index ch)) i x).
  { destruct Hsl as (_ & Hi & Hpos & _). unfold pp_slot, x, p', isNoneEvent, kNoneEvent. simpl.
    rewrite list_lookup_insert_eq by done. rewrite Hfd. split_and!; try done.
    destruct (_ =? _) eqn:E; bprop; auto. }
  assert (Hk : pp_keeps p H p' (<[c := set_index ch1 (m_index ch)]> H) (m_fd ch) id).
  { apply pp_keeps_update.
    - intros j y Hj Hne. unfold p'. simpl. rewrite list_lookup_insert_ne; [done|].
      destruct Hsl as (_ & Hi & _). congruence.
    - intros fd' c' j y ch' Hne _ _ Hf Hsl' Hij. apply Hne. rewrite <- Hf.
      assert (j = i) as -> by (destruct Hsl as (_ & Hi & _); lia). by eapply pp_slot_inj. }
  exists p', (m_index ch). split_and!.
  - unfold pp_updateChannel. rewrite (deref_Some _ _ ch1) by apply lookup_insert_eq. mred.
    destruct Hsl as (Hl & Hi & _ & _ & _ & Hf). rewrite Hidx, Hi, Hfd.
    rewrite (proj2 (Z.ltb_ge _ _)) by lia. rewrite bool_decide_true by done. mred.
    rewrite cassert_true by (unfold zlen; btrue; lia). mred. rewrite Nat2Z.id, Hl.
    rewrite cassert_true by (destruct Hf as [->|[-> _]]; btrue; lia). mred.
    rewrite swrap16_interest by done. rewrite <- Hi, <- Hidx, set_index_same. done.
  - eapply (pp_rebuild p H p'); [done| |by exists (set_index ch1 (m_index ch)); rewrite lookup_insert_eq|done|..].
    + simpl. by rewrite insert_id.
    + intros c2 j y Hc2 (ch2 & Hch2 & _ & Hsl2). assert (ch2 = ch) as -> by congruence.
      destruct Hsl2 as (_ & E & _), Hsl as (_ & E' & _). lia.
    + intros j. simpl. rewrite length_insert. auto.
  - simpl. by rewrite insert_id.
  - intros _ H0. exists (set_index ch1 (m_index ch)), i, x. rewrite lookup_insert_eq.
    split_and!; [done|simpl; congruence|done|]. simpl. unfold isNoneEvent, kNoneEvent. rewrite H0, Hfd. done.
  - intros c' Hne. by eapply (pp_removable_keeps p H p'); [done| |left|].
Qed.

Lemma pp_update_fresh :
  m_index ch = -1 → pp_channels p !! m_fd ch = None → 0 ≤ m_fd ch → ∃ p' i, pp_updated p' i.
Proof.
  intros Hi Hnone Hpos. set (n := length (m_pollfds p)).
  set (x := mkPollfd (m_fd ch) (m_events ch1) 0).
  set (p' := mkPoll (<[m_fd ch := c]> (pp_channels p)) (m_pollfds p ++ [x])).
  assert (Hk : pp_keeps p H p' (<[c := set_index ch1 (Z.of_nat n)]> H) (m_fd ch) id).
  { apply pp_keeps_update; [|intros; lia].
    intros j y Hj _. simpl. by apply lookup_app_l_Some. }
  exists p', (Z.of_nat n). split_and!.
  - unfold pp_updateChannel. rewrite (deref_Some _ _ ch1) by apply lookup_insert_eq. mred.
    rewrite Hidx, Hi, Hfd. simpl. rewrite bool_decide_true by done. mred.
    rewrite swrap16_interest, insert_insert_eq by done. fold x.
    assert (zlen (m_pollfds p ++ [x]) - 1 = Z.of_nat n) as -> by (unfold zlen, n; rewrite length_app; simpl; lia).
    done.
  - eapply (pp_rebuild p H p' _ _ _ n x); [done|done| |done|congruence|].
    + exists (set_index ch1 (Z.of_nat n)). rewrite lookup_insert_eq. split_and!; [done..|].
      unfold pp_slot. simpl. rewrite Hfd. split_and!; try done; [|by left].
      unfold n. by rewrite lookup_app_r, Nat.sub_diag by lia.
    + intros j. simpl. rewrite length_app. simpl. lia.
  - done.
  - congruence.
  - intros c' Hne. eapply (pp_removable_keeps p H p'); [done| |by right|done].
    intros. by apply lookup_insert_ne.
Qed.
End pp_update.

(** [channels_.erase], swap with the back, [pop_back]: the array without slot [i]. *)
Definition pp_drop (fds : list pollfd) (i : nat) (pfd back : pollfd) : list pollfd :=
  take (length fds - 1) (<[(length fds - 1)%nat := pfd]> (<[i := back]> fds)).

Lemma pp_drop_lookup fds i pfd back j :
  (i < length fds - 1)%nat → fds !! (length fds - 1)%nat = Some back →
  (j < length fds)%nat → j ≠ i →
  pp_drop fds i pfd back !! (if decide (j = length fds - 1)%nat then i else j) = fds !! j.
Proof.
  intros Hi Hb Hj Hne. unfold pp_drop. rewrite take_insert_ge by lia.
  destruct (decide _) as [->|].
  - rewrite lookup_take_lt, list_lookup_insert_eq by lia. done.
  - rewrite lookup_take_lt, list_lookup_insert_ne by lia. done.
Qed.

Lemma pp_drop_last (fds : list pollfd) j :
  (j < length fds)%nat → j ≠ (length fds - 1)%nat →
  take (length fds - 1) fds !! j = fds !! j.
Proof. intros. apply lookup_take_lt. lia. Qed.

(** The array shrinks by the slot of [fd], its last entry moving to slot [i]. *)
Lemma pp_shrink p H p' H' fd c i pfd ch :
  pp_inv p H → pp_channels p !! fd = Some c → H !! c = Some ch →
  m_fd ch = fd → pp_slot (m_pollfds p) ch i pfd →
  pp_channels p' = delete fd (pp_channels p) →
  S (length (m_pollfds p')) = length (m_pollfds p) →
  pp_keeps p H p' H' fd (λ j, if decide (j = length (m_pollfds p) - 1)%nat then i else j) →
  pp_inv p' H'.
Proof.
  intros [Hi1 Hi2] Hreg Hc Hfd Hsl Hch Hlen Hk. split.
  - intros fd' c'. rewrite Hch, lookup_delete_Some. intros [Hne Hc'].
    destruct (Hi1 _ _ Hc') as (j & x & Hj). eexists _, x. by apply (Hk fd' c' j x).
  - intros j Hj. set (j0 := if decide (j = i) then (length (m_pollfds p) - 1)%nat else j).
    destruct (Hi2 j0) as (fd' & c' & x & Hc' & Hx); [unfold j0; case_decide; lia|].
    assert (fd' ≠ fd) as Hne.
    { intros ->. assert (c' = c) as -> by congruence. destruct Hx as (ch' & Hch' & _ & Hsl').
      assert (ch' = ch) as -> by congruence.
      destruct Hsl as (_ & E & _), Hsl' as (_ & E' & _). unfold j0 in E'. case_decide; lia. }
    exists fd', c', x. rewrite Hch, lookup_delete_ne by done. split; [done|].
    pose proof (Hk fd' c' j0 x (not_eq_sym (not_eq_sym Hne)) Hc' Hx) as Hr.
    assert ((if decide (j0 = length (m_pollfds p) - 1)%nat then i else j0) = j) as E
      by (unfold j0; repeat case_decide; lia).
    cbn beta in Hr. by rewrite E in Hr.
Qed.

Section pp_remove.
Variables (p : PollPoller) (H : heap) (c : cid) (ch : Channel) (i : nat) (pfd : pollfd).
Hypothesis Hinv : pp_inv p H.
Hypothesis Hc : H !! c = Some ch.
Hypothesis Hreg : pp_channels p !! m_fd ch = Some c.
Hypothesis Hsl : pp_slot (m_pollfds p) ch i pfd.
Hypothesis Hoff : pfd_fd pfd = - m_fd ch - 1.

Definition pp_removed : Prop :=
  ∃ p' H', pp_removeChannel true p H c = Ok (p', H') ∧ pp_inv p' H' ∧
    pp_channels p' = delete (m_fd ch) (pp_channels p) ∧ same_but_index (pp_channels p) H H' ∧
    (∀ c', c' ≠ c → pp_removable p H c' → pp_removable p' H' c').

Lemma pp_removed_intro p' H' :
  pp_removeChannel true p H c = Ok (p', H') →
  pp_channels p' = delete (m_fd ch) (pp_channels p) → same_but_index (pp_channels p) H H' →
  S (length (m_pollfds p')) = length (m_pollfds p) →
  pp_keeps p H p' H' (m_fd ch) (λ j, if decide (j = length (m_pollfds p) - 1)%nat then i else j) →
  pp_removed.
Proof.
  intros E Hch Hs Hlen Hk. exists p', H'. split_and!; [done| |done|done|].
  - by eapply (pp_shrink p H p').
  - intros c' Hne. eapply pp_removable_keeps; [done| |by left|done].
    intros. rewrite Hch. by apply lookup_delete_ne.
Qed.

Lemma pp_other_slot fd' c' j x ch' :
  fd' ≠ m_fd ch → H !! c' = Some ch' → m_fd ch' = fd' → pp_slot (m_pollfds p) ch' j x →
  j ≠ i ∧ (j < length (m_pollfds p))%nat.
Proof.
  intros Hne Hc' Hf Hsl'. split.
  - intros ->. apply Hne. rewrite <- Hf. by eapply pp_slot_inj.
  - destruct Hsl' as [?%lookup_lt_Some _]. done.
Qed.

Lemma pp_remove_last : i = (length (m_pollfds p) - 1)%nat → pp_removed.
Proof.
  intros Hi. pose proof Hsl as (Hl & Hx & Hpos & Hint & Hev & Hf).
  pose proof (lookup_lt_Some _ _ _ Hl) as Hlt.
  assert (m_events ch = 0) as H0 by (destruct Hf as [?|[_ ?]]; [lia|done]).
  eapply pp_removed_intro.
  - unfold pp_removeChannel. rewrite (deref_Some _ _ _ Hc). mred.
    rewrite bool_decide_true by done. unfold isNoneEvent, kNoneEvent. rewrite H0. mred. rewrite Hx.
    rewrite cassert_true by (unfold zlen; btrue; lia). mred. rewrite Nat2Z.id, <- Hi, Hl.
    rewrite cassert_true by (rewrite Hev, H0, Hoff; btrue; lia). mred.
    rewrite (proj2 (Z.eqb_eq _ _)) by (unfold zlen; lia). done.
  - done.
  - done.
  - simpl. rewrite length_take. lia.
  - intros fd' c' j x Hne Hc' (ch' & Hch' & Hfd' & Hsl').
    destruct (pp_other_slot _ _ _ _ _ Hne Hch' Hfd' Hsl') as [Hji Hj].
    rewrite decide_False by lia. exists ch'. split_and!; [done..|].
    destruct Hsl' as [E Hr]. split; [|done]. simpl. rewrite Hi, lookup_take_lt by lia. done.
Qed.

Lemma pp_remove_mid : i ≠ (length (m_pollfds p) - 1)%nat → pp_removed.
Proof.
  intros Hi. pose proof Hsl as (Hl & Hx & Hpos & Hint & Hev & Hf).
  pose proof (lookup_lt_Some _ _ _ Hl) as Hlt.
  assert (m_events ch = 0) as H0 by (destruct Hf as [?|[_ ?]]; [lia|done]).
  destruct (proj2 Hinv (length (m_pollfds p) - 1)%nat) as (fd2 & c2 & back & Hc2 & ch2 & Hch2 & Hfd2 & Hs2);
    [lia|].
  assert (fd2 ≠ m_fd ch) as Hne2.
  { intros E. assert (c2 = c) as -> by congruence. assert (ch2 = ch) as -> by congruence.
    destruct Hs2 as (_ & E2 & _). lia. }
  pose proof Hs2 as (Hb & Hx2 & Hpos2 & _ & _ & Hf2).
  assert ((if pfd_fd back <? 0 then - pfd_fd back - 1 else pfd_fd back) = fd2) as Hend.
  { destruct (_ <? _) eqn:E; bprop; destruct Hf2 as [|[? _]]; lia. }
  apply (pp_removed_intro (mkPoll (delete (m_fd ch) (pp_channels p)) (pp_drop (m_pollfds p) i pfd back))
           (<[c2 := set_index ch2 (Z.of_nat i)]> H)).
  - unfold pp_removeChannel. rewrite (deref_Some _ _ _ Hc). mred.
    rewrite bool_decide_true by done. unfold isNoneEvent, kNoneEvent. rewrite H0. mred. rewrite Hx.
    rewrite cassert_true by (unfold zlen; btrue; lia). mred. rewrite Nat2Z.id, Hl, Hb.
    rewrite cassert_true by (rewrite Hev, H0, Hoff; btrue; lia). mred.
    rewrite (proj2 (Z.eqb_neq _ _)) by (unfold zlen; lia).
    rewrite Hend, lookup_delete_ne, Hc2, (deref_Some _ _ _ Hch2) by done. done.
  - done.
  - by eapply same_but_index_insert.
  - simpl. unfold pp_drop. rewrite length_take, !length_insert. lia.
  - intros fd' c' j x Hne Hc' (ch' & Hch' & Hfd' & Hsl').
    destruct (pp_other_slot _ _ _ _ _ Hne Hch' Hfd' Hsl') as [Hji Hj].
    assert (pp_drop (m_pollfds p) i pfd back !!
      (if decide (j = length (m_pollfds p) - 1)%nat then i else j) = Some x) as Hd.
    { rewrite pp_drop_lookup by (done || lia). apply Hsl'. }
    case_decide as Hjl.
    + subst j. assert (fd' = fd2) as -> by (rewrite <- Hfd', <- Hfd2; by eapply pp_slot_inj).
      assert (c' = c2) as -> by congruence. assert (ch' = ch2) as -> by congruence.
      exists (set_index ch2 (Z.of_nat i)). rewrite lookup_insert_eq. split_and!; [done..|].
      destruct Hsl' as (_ & _ & Hr). split; [exact Hd|]. done.
    + exists ch'. rewrite lookup_insert_ne.
      2:{ intros ->. assert (ch' = ch2) as -> by congruence. destruct Hsl' as (_ & E & _). lia. }
      split_and!; [done..|]. destruct Hsl' as (_ & Hr). split; [exact Hd|done].
Qed.
End pp_remove.

Lemma pp_remove_ok p H c ch :
  pp_inv p H → H !! c = Some ch → pp_removable p H c → pp_removed p H c ch.
Proof.
  intros Hinv Hc (ch' & i & pfd & Hc' & Hreg & Hsl & Hoff). assert (ch' = ch) as -> by congruence.
  destruct (decide (i = length (m_pollfds p) - 1)%nat).
  - by eapply pp_remove_last.
  - by eapply pp_remove_mid.
Qed.

Lemma pp_update_ok p H c ch ch1 :
  pp_inv p H → H !! c = Some ch → acceptable p c ch →
  m_fd ch1 = m_fd ch → m_index ch1 = m_index ch → interest (m_events ch1) →
  (∃ what, pp_updateChannel true p (<[c := ch1]> H) c = Fail (FAbort what)) ∨
  ∃ p' i, pp_updated p H c ch ch1 p' i.
Proof.
  intros Hinv Hc [Hreg|(Hi & Hn & Hpos)] E1 E2 E3; right.
  - by apply pp_update_registered.
  - by apply pp_update_fresh.
Qed.

#[global] Instance poll_laws : PollerLaws PollPoller := {|
  p_inv := pp_inv;
  p_removable := pp_removable;
  p_ext := pp_ext;
  p_removable_ext := pp_removable_ext;
  p_exact := pp_exact;
  p_update_ok := pp_update_ok;
  p_remove_ok := pp_remove_ok;
|}.

(** ** Reporting events *)

(** The channels [cs] get the masks [evs], in order. *)
Definition store_events (H : heap) (es : list (Z * cid)) : heap :=
  foldl (λ H '(ev, c), match H !! c with Some ch => <[c := set_revents ch ev]> H | None => H end) H es.

Lemma store_events_other es : ∀ H c, c ∉ es.*2 → store_events H es !! c = H !! c.
Proof.
  induction es as [|[ev c'] es IH]; intros H c Hc; [done|].
  simpl in *. apply not_elem_of_cons in Hc as [Hne Hc]. unfold store_events in *. simpl.
  rewrite IH by done. case_match; [by rewrite lookup_insert_ne|done].
Qed.

Lemma store_events_hit es : ∀ H ev c ch,
  NoDup (es.*2) → (ev, c) ∈ es → H !! c = Some ch →
  store_events H es !! c = Some (set_revents ch ev).
Proof.
  induction es as [|[ev' c'] es IH]; intros H ev c ch Hnd Hin Hc; [by apply elem_of_nil in Hin|].
  simpl in Hnd. apply list.NoDup_cons in Hnd as [Hni Hnd]. unfold store_events in *. simpl.
  apply elem_of_cons in Hin as [[= -> ->]|Hin].
  - rewrite Hc. pose proof (store_events_other es (<[c' := set_revents ch ev']> H) c' Hni) as E.
    unfold store_events in E. rewrite E. apply lookup_insert_eq.
  - assert (c ≠ c') by (intros ->; apply Hni, list_elem_of_fmap; by exists (ev, c')).
    apply IH; [done..|]. case_match; [by rewrite lookup_insert_ne|done].
Qed.

(** The pointers a poller reports belong to registered channels. *)
Definition reported (m : gmap Z cid) (H : heap) (es : list (Z * cid)) : Prop :=
  ∀ ev c, (ev, c) ∈ es → ∃ ch, H !! c = Some ch ∧ m !! m_fd ch = Some c.

Lemma reported_insert m H es c ch ev :
  H !! c = Some ch → reported m H es → reported m (<[c := set_revents ch ev]> H) es.
Proof.
  intros Hc Hr ev' c' Hin. destruct (Hr _ _ Hin) as (ch' & Hc' & Hm).
  destruct (decide (c = c')) as [<-|Hne].
  - exists (set_revents ch ev). rewrite lookup_insert_eq. simpl. split; [done|].
    by assert (ch' = ch) as -> by congruence.
  - exists ch'. by rewrite lookup_insert_ne.
Qed.

Section epoll_report.
Context {K : Type} {EK : EpollKernel K}.

Lemma ep_fill_ok (p : EpollPoller K) ready : ∀ H active,
  reported (ep_channels p) H ready →
  foldM (ep_fill1 p) (H, active) ready = Ok (store_events H ready, active ++ ready.*2).
Proof.
  induction ready as [|[ev c] ready IH]; intros H active Hr; simpl.
  { by rewrite app_nil_r. }
  destruct (Hr ev c) as (ch & Hc & Hm); [by left|].
  rewrite (deref_Some _ _ _ Hc). mred. rewrite bool_decide_true by done. simpl.
  rewrite IH.
  - unfold store_events. simpl. rewrite Hc, <- app_assoc. done.
  - apply reported_insert; [done|]. intros ev' c' Hin. apply (Hr ev' c'). by right.
Qed.
End epoll_report.

(** EpollPoller::poll: when epoll_wait reports registered channels, at
    most as many as the event array holds and each once, poll appends exactly
    those channels to the active list in the reported order, stores in each
    the mask that was reported, leaves every other channel alone, and doubles
    the event array exactly when it was filled. *)
Theorem ep_poll_reports {K} {EK : EpollKernel K} (epoll_wait : K → Z → wait_result)
    (p : EpollPoller K) (H : heap) (active : list cid) (ready : list (Z * cid)) :
  epoll_wait (ep_kernel p) (ep_events_size p) = WaitEvents ready →
  zlen ready ≤ ep_events_size p → 0 < ep_events_size p → NoDup (ready.*2) →
  (∀ ev c, (ev, c) ∈ ready → ∃ ch, H !! c = Some ch ∧ ep_channels p !! m_fd ch = Some c) →
  ∃ p' H', ep_poll epoll_wait p H active = Ok (p', H', active ++ ready.*2) ∧
    (∀ ev c ch, (ev, c) ∈ ready → H !! c = Some ch → H' !! c = Some (set_revents ch ev)) ∧
    (∀ c, c ∉ ready.*2 → H' !! c = H !! c) ∧
    ep_channels p' = ep_channels p ∧ ep_kernel p' = ep_kernel p ∧
    ep_events_size p' = (if zlen ready =? ep_events_size p then 2 * ep_events_size p else ep_events_size p).
Proof.
  intros Ew Hlen Hpos Hnd Hrep. unfold ep_poll. rewrite Ew.
  destruct (0 <? zlen ready) eqn:E0; bprop.
  - unfold ep_fillActiveChannels. rewrite cassert_true by (btrue; lia). mred.
    rewrite (ep_fill_ok p ready H active Hrep). mred.
    eexists _, _. split; [done|]. split_and!.
    + intros. by apply store_events_hit.
    + intros. by apply store_events_other.
    + by destruct (_ =? _).
    + by destruct (_ =? _).
    + destruct (_ =? _); simpl; lia.
  - assert (ready = []) as -> by (destruct ready; [done|unfold zlen in E0; simpl in E0; lia]).
    exists p, H. rewrite fmap_nil, app_nil_r. split_and!; try done.
    { intros ev c ch Hin. by apply elem_of_nil in Hin. }
    rewrite (proj2 (Z.eqb_neq _ _)) by (unfold zlen; simpl; lia). done.
Qed.

(** A kernel whose epoll_ctl never fails: the interest list itself. *)
Definition good_ctl (k : gmap Z (Z * cid)) (op : ctl_op) (fd ev : Z) (c : cid) : Z * gmap Z (Z * cid) :=
  match op with
  | EPOLL_CTL_ADD | EPOLL_CTL_MOD => (0, <[fd := (ev, c)]> k)
  | EPOLL_CTL_DEL => (0, delete fd k)
  end.

#[global] Instance good_kernel : EpollKernel (gmap Z (Z * cid)).
Proof.
  refine {| k_interest := λ k, k; epoll_ctl := good_ctl |}; simpl; try done.
  intros k [] fd ev c; simpl; lia.
Defined.

Lemma ep_poll_reports_witness :
  ∃ p' H', ep_poll (λ _ _, WaitEvents [(POLLOUT, 1%nat)])
      (mkEpoll {[6 := 1%nat]} 1 ({[6 := (4, 1%nat)]} : gmap Z (Z * cid)))
      {[1%nat := Channel_ctor 6]} [] = Ok (p', H', [1%nat]) ∧
    (∀ ev c ch, (ev, c) ∈ [(POLLOUT, 1%nat)] → ({[1%nat := Channel_ctor 6]} : heap) !! c = Some ch →
       H' !! c = Some (set_revents ch ev)) ∧
    (∀ c, c ∉ [1%nat] → H' !! c = ({[1%nat := Channel_ctor 6]} : heap) !! c) ∧
    ep_channels p' = {[6 := 1%nat]} ∧ ep_kernel p' = ({[6 := (4, 1%nat)]} : gmap Z (Z * cid)) ∧
    ep_events_size p' = 2.
Proof.
  refine (ep_poll_reports (λ _ _, WaitEvents [(POLLOUT, 1%nat)])
    (mkEpoll {[6 := 1%nat]} 1 ({[6 := (4, 1%nat)]} : gmap Z (Z * cid))) {[1%nat := Channel_ctor 6]} []
    [(POLLOUT, 1%nat)] eq_refl _ _ _ _); [vm_compute; discriminate|reflexivity| |].
  - repeat constructor. apply not_elem_of_nil.
  - intros ev c Hin. apply list_elem_of_singleton in Hin as [= -> ->]. by exists (Channel_ctor 6).
Defined.

(** ** poll(2) *)

(** The entries of the array with a report. *)
Definition pp_ready (fds : list pollfd) : list pollfd := filter (λ pfd, 0 < pfd_revents pfd) fds.

(** The channels behind the entries. *)
Definition pp_events (chans : gmap Z cid) (fds : list pollfd) : list (Z * cid) :=
  omap (λ pfd, pair (pfd_revents pfd) <$> chans !! pfd_fd pfd) (pp_ready fds).

Lemma pp_fill_ok chans fds : ∀ H active n,
  n = zlen (pp_ready fds) →
  (∀ pfd, pfd ∈ pp_ready fds → ∃ c ch, chans !! pfd_fd pfd = Some c ∧ H !! c = Some ch ∧ m_fd ch = pfd_fd pfd) →
  pp_fill chans n fds H active =
    Ok (store_events H (pp_events chans fds), active ++ (pp_events chans fds).*2).
Proof.
  unfold pp_events, pp_ready.
  induction fds as [|pfd fds IH]; intros H active n Hn Hr; simpl.
  { by rewrite app_nil_r. }
  rewrite filter_cons in *. destruct (decide (0 < pfd_revents pfd)) as [Hp|Hp].
  - destruct (Hr pfd) as (c & ch & Hm & Hc & Hfd); [by left|].
    rewrite (proj2 (Z.ltb_lt 0 n)) by (subst n; rewrite zlen_cons; pose proof (zlen_nonneg
      (filter (λ x, 0 < pfd_revents x) fds)); lia).
    rewrite (proj2 (Z.ltb_lt _ _)) by done. rewrite Hm, (deref_Some _ _ _ Hc). mred.
    rewrite cassert_true by (by apply Z.eqb_eq). mred. rewrite IH.
    + simpl. rewrite Hm. simpl. unfold store_events. simpl. by rewrite Hc, <- app_assoc.
    + subst n. rewrite zlen_cons. lia.
    + intros pfd' Hin. destruct (Hr pfd') as (c' & ch' & Hm' & Hc' & Hfd'); [by right|].
      destruct (decide (c = c')) as [<-|Hne].
      * exists c, (set_revents ch (pfd_revents pfd)). rewrite lookup_insert_eq.
        assert (ch' = ch) as -> by congruence. done.
      * exists c', ch'. by rewrite lookup_insert_ne.
  - rewrite (proj2 (Z.ltb_ge 0 (pfd_revents pfd))) by lia.
    destruct (0 <? n) eqn:E; bprop; [by apply IH|].
    destruct (filter _ fds) as [|x l] eqn:Ef; [simpl; by rewrite app_nil_r|].
    subst n. rewrite zlen_cons in E. pose proof (zlen_nonneg l). lia.
Qed.

Lemma store_revents_lookup fds revents i pfd :
  length revents = length fds → fds !! i = Some pfd →
  ∃ r, revents !! i = Some r ∧
    store_revents fds revents !! i = Some (mkPollfd (pfd_fd pfd) (pfd_events pfd) r).
Proof.
  intros Hl Hi. destruct (lookup_lt_is_Some_2 revents i) as [r Hr].
  { rewrite Hl. by eapply lookup_lt_Some. }
  exists r. split; [done|]. unfold store_revents. rewrite lookup_zip_with, Hi. simpl. by rewrite Hr.
Qed.

(** Entries with a report are those of channels that asked for something. *)
Lemma pp_ready_channel p H revents pfd :
  pp_inv p H → length revents = length (m_pollfds p) →
  (∀ i x r, m_pollfds p !! i = Some x → revents !! i = Some r → pfd_fd x < 0 → r = 0) →
  pfd ∈ pp_ready (store_revents (m_pollfds p) revents) →
  ∃ c ch, pp_channels p !! pfd_fd pfd = Some c ∧ H !! c = Some ch ∧ m_fd ch = pfd_fd pfd.
Proof.
  intros Hinv Hl Hneg Hin. apply list_elem_of_filter in Hin as [Hpos Hin].
  apply list_elem_of_lookup in Hin as [i Hi]. unfold store_revents in Hi.
  rewrite lookup_zip_with in Hi. destruct (m_pollfds p !! i) as [x|] eqn:Ex; [|done]. simpl in Hi.
  destruct (revents !! i) as [r|] eqn:Er; [|done]. injection Hi as <-. simpl in *.
  destruct (proj2 Hinv i) as (fd & c & y & Hc & ch & Hch & Hfd & Hsl); [by eapply lookup_lt_Some|].
  assert (y = x) as -> by (destruct Hsl as [E _]; congruence).
  destruct Hsl as (_ & _ & Hp & _ & _ & [E|[E _]]).
  - exists c, ch. by rewrite E, Hfd.
  - rewrite (Hneg i x r Ex Er) in Hpos by lia. lia.
Qed.

(** PollPoller::poll: when poll(2) stores one [revents] per entry, none for
    the entries whose descriptor is negative, and returns the number of
    entries with a report, the active list grows by the channels of exactly
    those entries, in the order of the array, and the assertions of
    fillActiveChannels hold. *)
Theorem pp_poll_reports (sys_poll : list pollfd → poll_result) (p : PollPoller) (H : heap)
    (active : list cid) (revents : list Z) :
  pp_inv p H → length revents = length (m_pollfds p) →
  (∀ i x r, m_pollfds p !! i = Some x → revents !! i = Some r → pfd_fd x < 0 → r = 0) →
  let fds' := store_revents (m_pollfds p) revents in
  sys_poll (m_pollfds p) = PollReady (zlen (pp_ready fds')) revents →
  pp_poll sys_poll p H active =
    Ok (mkPoll (pp_channels p) fds', store_events H (pp_events (pp_channels p) fds'),
        active ++ (pp_events (pp_channels p) fds').*2) ∧
  length (pp_events (pp_channels p) fds') = length (pp_ready fds').
Proof.
  intros Hinv Hl Hneg fds' Es.
  assert (Hr : ∀ pfd, pfd ∈ pp_ready fds' → ∃ c ch, pp_channels p !! pfd_fd pfd = Some c ∧
    H !! c = Some ch ∧ m_fd ch = pfd_fd pfd) by (intros pfd; by apply pp_ready_channel).
  split.
  - unfold pp_poll. rewrite Es. simpl m_pollfds. simpl pp_channels. fold fds'.
    destruct (0 <? zlen (pp_ready fds')) eqn:E0; bprop.
    + by rewrite (pp_fill_ok _ _ _ _ _ eq_refl Hr).
    + unfold pp_events. destruct (pp_ready fds') as [|x l] eqn:Ef; [by rewrite app_nil_r|].
      rewrite zlen_cons in E0. pose proof (zlen_nonneg l). lia.
  - clear Es. unfold pp_events. induction (pp_ready fds') as [|x l IH]; [done|].
    destruct (Hr x) as (c & ch & Hm & _); [by left|]. simpl. rewrite Hm. simpl. f_equal.
    apply IH. intros pfd Hin. apply Hr. by right.
Qed.

(** Two registered descriptors, one of them disabled. *)
Definition demo_poll : PollPoller :=
  mkPoll {[5 := 0%nat; 6 := 1%nat]} [mkPollfd (-6) 0 0; mkPollfd 6 3 0].
Definition demo_heap : heap :=
  {[0%nat := set_index (Channel_ctor 5) 0; 1%nat := set_index (set_events (Channel_ctor 6) 3) 1]}.

Lemma demo_poll_inv : pp_inv demo_poll demo_heap.
Proof.
  assert (H0 : pp_entry demo_poll demo_heap 5 0%nat 0 (mkPollfd (-6) 0 0)).
  { exists (set_index (Channel_ctor 5) 0). split_and!; [done..|]. unfold pp_slot, interest. simpl. split_and!; auto; lia. }
  assert (H1 : pp_entry demo_poll demo_heap 6 1%nat 1 (mkPollfd 6 3 0)).
  { exists (set_index (set_events (Channel_ctor 6) 3) 1). split_and!; [done..|]. unfold pp_slot, interest. simpl. split_and!; auto; lia. }
  split.
  - intros fd c. unfold demo_poll; simpl. rewrite lookup_insert_Some, lookup_singleton_Some.
    intros [[<- <-]|[_ [<- <-]]]; eauto.
  - intros [|[|i]] Hi; [by exists 5, 0%nat, (mkPollfd (-6) 0 0)|by exists 6, 1%nat, (mkPollfd 6 3 0)|].
    simpl in Hi. lia.
Qed.

Lemma pp_poll_reports_witness :
  pp_poll (λ _, PollReady 1 [0; 1]) demo_poll demo_heap [] =
    Ok (mkPoll (pp_channels demo_poll) [mkPollfd (-6) 0 0; mkPollfd 6 3 1],
        store_events demo_heap [(1, 1%nat)], [1%nat]).
Proof.
  refine (proj1 (pp_poll_reports (λ _, PollReady 1 [0; 1]) demo_poll demo_heap [] [0; 1] demo_poll_inv
    eq_refl _ eq_refl)).
  intros [|[|i]] x r; simpl; try done; intros [= <-] [= <-]; simpl; lia.
Defined.
