(* ===== verification/EventLoop.v ===== *)
(** * EventLoop: src/dc/net/eventLoop.h, src/dc/net/eventLoop.cc, and the
      registration half of src/dc/net/channel.cc

    The state of one loop is the record [loop_state]: the flags, the poller
    (any instance of [PollerOps]), the heap of its channels, the active list,
    the queue [m_pendingFunctors], the counter of the eventfd behind
    [m_wakeupFd] and the state [X] of everything the callbacks own.  A
    std::function is a value of a type [F] of closures, given its meaning by
    [call].  The first part is the sequential code of the loop thread; the
    second a step relation that interleaves it with threads that call
    [queueInLoop] and [quit]. *)

From S2P Require Import Prelude Channel Poller.

Open Scope Z_scope.

Record loop_state (P F X : Type) : Type := mkLoop {
  is_looping : bool;
  is_quit : bool;
  l_eventHandling : bool;
  is_callingPendingFunctors : bool;
  m_iteration : Z;
  m_poller : P;
  l_heap : heap;
  m_activeChannels : list cid;
  m_currentActiveChannel : option cid;
  m_pendingFunctors : list F;
  m_wakeupCount : Z;
  l_user : X;
}.
Arguments mkLoop {P F X}.
Arguments is_looping {P F X}.
Arguments is_quit {P F X}.
Arguments l_eventHandling {P F X}.
Arguments is_callingPendingFunctors {P F X}.
Arguments m_iteration {P F X}.
Arguments m_poller {P F X}.
Arguments l_heap {P F X}.
Arguments m_activeChannels {P F X}.
Arguments m_currentActiveChannel {P F X}.
Arguments m_pendingFunctors {P F X}.
Arguments m_wakeupCount {P F X}.
Arguments l_user {P F X}.

Section eventloop.
Context {P F X : Type} {PO : PollerOps P}.
Local Abbreviation loop := (loop_state P F X).

Definition set_flags (l : loop) (looping quit handling calling : bool) : loop :=
  mkLoop looping quit handling calling (m_iteration l) (m_poller l) (l_heap l)
    (m_activeChannels l) (m_currentActiveChannel l) (m_pendingFunctors l) (m_wakeupCount l) (l_user l).
Definition set_looping (l : loop) (b : bool) : loop :=
  set_flags l b (is_quit l) (l_eventHandling l) (is_callingPendingFunctors l).
Definition set_quit (l : loop) (b : bool) : loop :=
  set_flags l (is_looping l) b (l_eventHandling l) (is_callingPendingFunctors l).
Definition set_handling (l : loop) (b : bool) : loop :=
  set_flags l (is_looping l) (is_quit l) b (is_callingPendingFunctors l).
Definition set_calling (l : loop) (b : bool) : loop :=
  set_flags l (is_looping l) (is_quit l) (l_eventHandling l) b.
Definition set_iteration (l : loop) (i : Z) : loop :=
  mkLoop (is_looping l) (is_quit l) (l_eventHandling l) (is_callingPendingFunctors l) i (m_poller l)
    (l_heap l) (m_activeChannels l) (m_currentActiveChannel l) (m_pendingFunctors l) (m_wakeupCount l)
    (l_user l).
Definition set_poller (l : loop) (p : P) (H : heap) : loop :=
  mkLoop (is_looping l) (is_quit l) (l_eventHandling l) (is_callingPendingFunctors l) (m_iteration l) p
    H (m_activeChannels l) (m_currentActiveChannel l) (m_pendingFunctors l) (m_wakeupCount l) (l_user l).
Definition set_heap (l : loop) (H : heap) : loop := set_poller l (m_poller l) H.
Definition set_active (l : loop) (a : list cid) : loop :=
  mkLoop (is_looping l) (is_quit l) (l_eventHandling l) (is_callingPendingFunctors l) (m_iteration l)
    (m_poller l) (l_heap l) a (m_currentActiveChannel l) (m_pendingFunctors l) (m_wakeupCount l)
    (l_user l).
Definition set_current (l : loop) (c : option cid) : loop :=
  mkLoop (is_looping l) (is_quit l) (l_eventHandling l) (is_callingPendingFunctors l) (m_iteration l)
    (m_poller l) (l_heap l) (m_activeChannels l) c (m_pendingFunctors l) (m_wakeupCount l) (l_user l).
Definition set_pending (l : loop) (q : list F) : loop :=
  mkLoop (is_looping l) (is_quit l) (l_eventHandling l) (is_callingPendingFunctors l) (m_iteration l)
    (m_poller l) (l_heap l) (m_activeChannels l) (m_currentActiveChannel l) q (m_wakeupCount l)
    (l_user l).
Definition set_wakeups (l : loop) (n : Z) : loop :=
  mkLoop (is_looping l) (is_quit l) (l_eventHandling l) (is_callingPendingFunctors l) (m_iteration l)
    (m_poller l) (l_heap l) (m_activeChannels l) (m_currentActiveChannel l) (m_pendingFunctors l) n
    (l_user l).
Definition set_user (l : loop) (x : X) : loop :=
  mkLoop (is_looping l) (is_quit l) (l_eventHandling l) (is_callingPendingFunctors l) (m_iteration l)
    (m_poller l) (l_heap l) (m_activeChannels l) (m_currentActiveChannel l) (m_pendingFunctors l)
    (m_wakeupCount l) x.

(** ** Channels of the loop *)

(** [EventLoop::updateChannel] *)
Definition updateChannel (inLoop : bool) (l : loop) (c : cid) : res loop :=
  assertInLoopThread inLoop;;
  '(p, H) ← p_update inLoop (m_poller l) (l_heap l) c;
  Ok (set_poller l p H).

(** [EventLoop::removeChannel] *)
Definition removeChannel (inLoop : bool) (l : loop) (c : cid) : res loop :=
  assertInLoopThread inLoop;;
  (if l_eventHandling l then
     cassert (bool_decide (m_currentActiveChannel l = Some c) || negb (bool_decide (c ∈ m_activeChannels l)))
       "m_currentActiveChannel == channel || not active"
   else Ok tt);;
  '(p, H) ← p_remove inLoop (m_poller l) (l_heap l) c;
  Ok (set_poller l p H).

(** [EventLoop::hasChannel] *)
Definition loop_hasChannel (inLoop : bool) (l : loop) (c : cid) : res bool :=
  assertInLoopThread inLoop;; hasChannel inLoop (p_channels (m_poller l)) (l_heap l) c.

Definition modify (l : loop) (c : cid) (f : Channel → Channel) : res loop :=
  ch ← deref (l_heap l) c; Ok (set_heap l (<[c := f ch]> (l_heap l))).

(** [Channel::update], with the change of interest that calls it:
    [enableReading], [disableReading], [enableWriting], [disableWriting],
    [disableAll]. *)
Definition Channel_update (inLoop : bool) (l : loop) (c : cid) (g : chg) : res loop :=
  l1 ← modify l c (λ ch, set_addedToLoop (set_events ch (new_events g (m_events ch))) true);
  updateChannel inLoop l1 c.

(** [Channel::remove] *)
Definition Channel_remove (inLoop : bool) (l : loop) (c : cid) : res loop :=
  ch ← deref (l_heap l) c;
  cassert (isNoneEvent ch) "isNoneEvent()";;
  l1 ← modify l c (λ ch, set_addedToLoop ch false);
  removeChannel inLoop l1 c.

(** [new Channel(loop, fd)] at a free address, and [Channel::~Channel]. *)
Definition Channel_new (l : loop) (c : cid) (fd : Z) : loop :=
  set_heap l (<[c := Channel_ctor fd]> (l_heap l)).

Definition Channel_dtor (inLoop : bool) (l : loop) (c : cid) : res loop :=
  ch ← deref (l_heap l) c;
  cassert (negb (is_eventHandling ch)) "!is_eventHandling";;
  cassert (negb (is_addedToLoop ch)) "!is_addedToLoop";;
  (if inLoop then
     b ← loop_hasChannel inLoop l c; cassert (negb b) "!m_loop->hasChannel(this)"
   else Ok tt);;
  Ok (set_heap l (delete c (l_heap l))).

(** ** Queue and wakeup *)

(** An eventfd write adds to the 64-bit counter, and fails with EAGAIN when
    the counter is at its maximum 2^64 - 2; a read takes the whole value. *)
Definition eventfd_max : Z := 2 ^ 64 - 2.

(** [EventLoop::wakeup] *)
Definition wakeup (l : loop) : loop :=
  if m_wakeupCount l <? eventfd_max then set_wakeups l (m_wakeupCount l + 1) else l.

(** [EventLoop::handleRead] *)
Definition handleRead (l : loop) : loop := set_wakeups l 0.

(** [EventLoop::queueInLoop]: the push under the mutex, then the wakeup. *)
Definition queue_push (l : loop) (f : F) : loop := set_pending l (m_pendingFunctors l ++ [f]).

Definition queueInLoop (inLoop : bool) (l : loop) (f : F) : loop :=
  let l1 := queue_push l f in
  if negb inLoop || is_callingPendingFunctors l1 then wakeup l1 else l1.

Definition queueSize (l : loop) : Z := zlen (m_pendingFunctors l).

(** [EventLoop::quit] *)
Definition quit (inLoop : bool) (l : loop) : loop :=
  let l1 := set_quit l true in
  if negb inLoop then wakeup l1 else l1.

(** ** The loop *)
Section run.
Context (call : F → loop → res loop) (run : cid → cb_kind → loop → res loop)
  (alive : cid → loop → bool).

(** [EventLoop::runInLoop] *)
Definition runInLoop (inLoop : bool) (l : loop) (f : F) : res loop :=
  if inLoop then call f l else Ok (queueInLoop inLoop l f).

(** [EventLoop::doPendingFunctors] *)
Definition doPendingFunctors (l : loop) : res loop :=
  let l1 := set_calling l true in
  let functors := m_pendingFunctors l1 in
  let l2 := set_pending l1 [] in
  l3 ← foldM (λ l f, call f l) l2 functors;
  Ok (set_calling l3 false).

(** The range-for over [m_activeChannels]. *)
Definition handle_one (l : loop) (c : cid) : res loop :=
  handleEvent l_heap set_heap run alive c (set_current l (Some c)).

(** The body of the while loop of [EventLoop::loop]. *)
Definition loop_body (poll : P → heap → list cid → res (P * heap * list cid)) (l : loop) : res loop :=
  let l0 := set_active l [] in
  '(p, H, active) ← poll (m_poller l0) (l_heap l0) (m_activeChannels l0);
  let l1 := set_active (set_poller l0 p H) active in
  let l2 := set_handling (set_iteration l1 (m_iteration l1 + 1)) true in
  l3 ← foldM handle_one l2 (m_activeChannels l2);
  doPendingFunctors (set_handling (set_current l3 None) false).

(** [EventLoop::loop], one poll result per iteration; it returns when
    [is_quit] is seen, or when no poll result is left. *)
Fixpoint loop_while (polls : list (P → heap → list cid → res (P * heap * list cid))) (l : loop) :
    res (loop * bool) :=
  if is_quit l then Ok (l, true)
  else match polls with
       | [] => Ok (l, false)
       | poll :: polls' => l1 ← loop_body poll l; loop_while polls' l1
       end.

Definition EventLoop_loop (inLoop : bool) (polls : list (P → heap → list cid → res (P * heap * list cid)))
    (l : loop) : res (loop * bool) :=
  cassert (negb (is_looping l)) "!is_looping";;
  assertInLoopThread inLoop;;
  r ← loop_while polls (set_quit (set_looping l true) false);
  let '(l1, stopped) := r : loop * bool in
  Ok (if stopped then set_looping l1 false else l1, stopped).
End run.

(** [EventLoop::EventLoop]: the wakeup channel at address [c], descriptor
    [m_wakeupFd]. *)
Definition EventLoop_ctor (p : P) (x : X) (c : cid) (m_wakeupFd : Z) : res loop :=
  let l : loop := mkLoop false false false false 0 p ∅ [] None [] 0 x in
  l1 ← modify (Channel_new l c m_wakeupFd) c setReadCallback;
  Channel_update true l1 c EnableReading.

(** [EventLoop::~EventLoop] and the destruction of [m_wakeupChannel]. *)
Definition EventLoop_dtor (l : loop) (c : cid) : res loop :=
  l1 ← Channel_update true l c DisableAll;
  l2 ← Channel_remove true l1 c;
  Channel_dtor true l2 c.
End eventloop.

(** ** The registry of channels

    What the channels of a loop promise to their owners: a registry of
    descriptors and interest masks.  A channel is opened on a free address and
    a descriptor no other channel has, its interest is changed any number of
    times, and it is closed (removed and destroyed) after an update that left
    it without interest. *)
Inductive phase : Type := Fresh | On | Off.

Record entry : Type := mkEntry { e_fd : Z; e_events : Z; e_phase : phase }.

Inductive chan_op : Type :=
  | OpenC (c : cid) (fd : Z)
  | ChangeC (c : cid) (g : chg)
  | CloseC (c : cid).

Definition next_phase (ph : phase) (ev : Z) : phase :=
  match ph with Fresh => On | _ => if ev =? 0 then Off else On end.

Definition spec_step (R : gmap cid entry) (o : chan_op) : option (gmap cid entry) :=
  match o with
  | OpenC c fd =>
      if bool_decide (R !! c = None) && (0 <=? fd) && bool_decide (map_Forall (λ _ e, e_fd e ≠ fd) R)
      then Some (<[c := mkEntry fd 0 Fresh]> R) else None
  | ChangeC c g =>
      e ← R !! c;
      let ev := new_events g (e_events e) in
      Some (<[c := mkEntry (e_fd e) ev (next_phase (e_phase e) ev)]> R)
  | CloseC c =>
      e ← R !! c;
      match e_phase e with Off => Some (delete c R) | _ => None end
  end.

Fixpoint spec_run (R : gmap cid entry) (os : list chan_op) : option (gmap cid entry) :=
  match os with
  | [] => Some R
  | o :: os' => R' ← spec_step R o; spec_run R' os'
  end.

Section registry.
Context {P F X : Type} {PO : PollerOps P}.
Local Abbreviation loop := (loop_state P F X).

Definition chan_step (l : loop) (o : chan_op) : res loop :=
  match o with
  | OpenC c fd => Ok (Channel_new l c fd)
  | ChangeC c g => Channel_update true l c g
  | CloseC c => l1 ← Channel_remove true l c; Channel_dtor true l1 c
  end.

Context {PL : PollerLaws P}.

(** The heap holds the registry's channels, the poller the updated ones. *)
Definition chan_matches (p : P) (H : heap) (c : cid) (e : entry) : Prop :=
  ∃ ch, H !! c = Some ch ∧ m_fd ch = e_fd e ∧ m_events ch = e_events e ∧ interest (e_events e) ∧
    is_eventHandling ch = false ∧
    match e_phase e with
    | Fresh => m_index ch = -1 ∧ 0 ≤ e_fd e ∧ e_events e = 0 ∧ p_channels p !! e_fd e = None
    | On => p_channels p !! e_fd e = Some c
    | Off => p_channels p !! e_fd e = Some c ∧ e_events e = 0 ∧ p_removable p H c
    end.

Definition registry_rel (R : gmap cid entry) (l : loop) : Prop :=
  p_inv (m_poller l) (l_heap l) ∧ l_eventHandling l = false ∧
  (∀ c e, R !! c = Some e → chan_matches (m_poller l) (l_heap l) c e) ∧
  (∀ fd c, p_channels (m_poller l) !! fd = Some c → ∃ e, R !! c = Some e ∧ e_fd e = fd ∧ e_phase e ≠ Fresh) ∧
  (∀ c1 c2 e1 e2, R !! c1 = Some e1 → R !! c2 = Some e2 → e_fd e1 = e_fd e2 → c1 = c2).

Lemma registry_unregistered R l c fd :
  registry_rel R l → R !! c = None → p_channels (m_poller l) !! fd ≠ Some c.
Proof. intros (_ & _ & _ & Hr & _) Hn Hfd. destruct (Hr _ _ Hfd) as (e & ? & _). congruence. Qed.

Lemma registry_insert R l l' c e' :
  registry_rel R l →
  (∀ c2 e2, c2 ≠ c → R !! c2 = Some e2 → e_fd e2 ≠ e_fd e') →
  p_inv (m_poller l') (l_heap l') → l_eventHandling l' = false →
  chan_matches (m_poller l') (l_heap l') c e' →
  (∀ c2 e2, c2 ≠ c → R !! c2 = Some e2 → chan_matches (m_poller l') (l_heap l') c2 e2) →
  (∀ fd c2, p_channels (m_poller l') !! fd = Some c2 →
     (c2 = c ∧ fd = e_fd e' ∧ e_phase e' ≠ Fresh) ∨ (c2 ≠ c ∧ p_channels (m_poller l) !! fd = Some c2)) →
  registry_rel (<[c := e']> R) l'.
Proof.
  intros (_ & _ & _ & Hr & Hu) Hfree Hinv Hh Hc Ho Hch. split_and!; [done|done|..].
  - intros c2 e2. destruct (decide (c2 = c)) as [->|Hne].
    + rewrite lookup_insert_eq. by intros [= <-].
    + rewrite lookup_insert_ne by done. by apply Ho.
  - intros fd c2 Hfd. destruct (Hch _ _ Hfd) as [(-> & -> & Hp)|(Hne & Hfd')].
    + exists e'. by rewrite lookup_insert_eq.
    + rewrite lookup_insert_ne by done. by apply Hr.
  - intros c1 c2 e1 e2 H1 H2 E. destruct (decide (c1 = c)) as [->|H1c], (decide (c2 = c)) as [->|H2c];
      try done; rewrite ?lookup_insert_eq, ?lookup_insert_ne in * by done.
    + injection H1 as <-. by destruct (Hfree c2 e2).
    + injection H2 as <-. by destruct (Hfree c1 e1).
    + by eapply Hu.
Qed.

(** The channel of another entry is untouched. *)
Lemma matches_other p H p' H' c2 e2 :
  chan_matches p H c2 e2 →
  (∀ ch, H !! c2 = Some ch → ∃ ch', H' !! c2 = Some ch' ∧ set_index ch' 0 = set_index ch 0 ∧
     (m_index ch = -1 → p_channels p !! m_fd ch = None → m_index ch' = -1)) →
  p_channels p' !! e_fd e2 = p_channels p !! e_fd e2 →
  (p_removable p H c2 → p_removable p' H' c2) →
  chan_matches p' H' c2 e2.
Proof.
  intros (ch & Hc & Hfd & Hev & Hint & Hh & Hph) Hcell Hch Hrem.
  destruct (Hcell ch Hc) as (ch' & Hc' & [= E1 E2 E3 E4 E5 E6 E7 E8 E9 E10 E11] & Hi).
  exists ch'. rewrite E1, E2, E6, Hch. split_and!; try done.
  destruct (e_phase e2); [|done|].
  - destruct Hph as (Hi' & ? & ? & Hn). rewrite <- Hfd in *. auto.
  - destruct Hph as (? & ? & ?). auto.
Qed.

Lemma chan_open R R' l c fd :
  registry_rel R l → spec_step R (OpenC c fd) = Some R' → registry_rel R' (Channel_new l c fd).
Proof.
  intros HR Hs. simpl in Hs. case_match eqn:E; [|done]. injection Hs as <-. bprop.
  rename H into Hn, H1 into Hpos, H0 into Hfree. pose proof HR as (Hinv & Hh & Hm & Hr & Hu).
  assert (Hreg : ∀ c2 fd2, p_channels (m_poller l) !! fd2 = Some c2 → c2 ≠ c)
    by (intros c2 fd2 H2 ->; by eapply registry_unregistered in H2).
  assert (Hs : same_reg (p_channels (m_poller l)) (l_heap l) (<[c := Channel_ctor fd]> (l_heap l)))
    by (intros fd2 c2 H2; rewrite lookup_insert_ne; [done|by intros ->; eapply Hreg]).
  apply (registry_insert R l); [done| |by eapply p_ext|done|..].
  - intros c2 e2 _ H2. by apply (Hfree c2 e2).
  - exists (Channel_ctor fd). simpl. rewrite lookup_insert_eq. split_and!; try done; [by left|].
    destruct (p_channels (m_poller l) !! fd) as [c2|] eqn:E; [|done].
    destruct (Hr _ _ E) as (e2 & H2 & Hf & _). by destruct (Hfree c2 e2).
  - intros c2 e2 Hne H2. eapply matches_other; [by apply Hm| |done|by apply p_removable_ext].
    intros ch Hch. exists ch. simpl. by rewrite lookup_insert_ne.
  - intros fd2 c2 H2. right. split; [by eapply Hreg|done].
Qed.

Lemma chan_change R R' l c g :
  registry_rel R l → spec_step R (ChangeC c g) = Some R' →
  (∃ what, Channel_update true l c g = Fail (FAbort what)) ∨
  ∃ l', Channel_update true l c g = Ok l' ∧ registry_rel R' l'.
Proof.
  intros HR Hs. pose proof HR as (Hinv & Hh & Hm & Hr & Hu). simpl in Hs.
  destruct (R !! c) as [e|] eqn:Ec; [|done]. injection Hs as <-.
  destruct (Hm _ _ Ec) as (ch & Hc & Hfd & Hev & Hint & Hch & Hph).
  set (ev := new_events g (e_events e)).
  set (ch1 := set_addedToLoop (set_events ch ev) true).
  assert (acceptable (m_poller l) c ch) as Hacc.
  { unfold acceptable. rewrite Hfd. destruct (e_phase e); [right|left|left]; tauto. }
  destruct (p_update_ok (m_poller l) (l_heap l) c ch ch1 Hinv Hc Hacc eq_refl eq_refl
    (interest_new g _ Hint)) as [(w & E)|(p' & i & E & Hinv' & Hchs & Hrm & Hro)];
    unfold Channel_update, modify; rewrite (deref_Some _ _ _ Hc); mred;
    unfold updateChannel; simpl m_poller; simpl l_heap; rewrite Hev; fold ev ch1; rewrite E; mred.
  - left. eauto.
  - right. eexists. split; [done|]. rewrite Hfd in *.
    assert (Hother : ∀ fd2 c2, fd2 ≠ e_fd e → p_channels (m_poller l) !! fd2 = Some c2 → c2 ≠ c).
    { intros fd2 c2 Hne H2 ->. destruct (Hr _ _ H2) as (e2 & ? & ? & _). congruence. }
    apply (registry_insert R l); [done| |done|done|..].
    + intros c2 e2 Hne H2 E2. apply Hne. by eapply (Hu c2 c e2 e).
    + exists (set_index ch1 i). simpl. rewrite lookup_insert_eq. split_and!; try done;
        [by apply interest_new|]. unfold next_phase.
      destruct (e_phase e) eqn:Eph; [by rewrite Hchs, lookup_insert_eq|..];
      (destruct (ev =? 0) eqn:E0; bprop; rewrite Hchs, lookup_insert_eq; [|done];
       split_and!; [done|done|apply Hrm; [tauto|done]]).
    + intros c2 e2 Hne H2. eapply matches_other; [by apply Hm| | |by apply Hro].
      * intros ch2 Hch2. exists ch2. simpl. by rewrite lookup_insert_ne.
      * simpl. rewrite Hchs, lookup_insert_ne; [done|]. intros E2. apply Hne. by eapply (Hu c2 c e2 e).
    + simpl. intros fd2 c2. rewrite Hchs. destruct (decide (fd2 = e_fd e)) as [->|Hne].
      * rewrite lookup_insert_eq. intros [= <-]. left. split_and!; [done..|].
        simpl. unfold next_phase. by destruct (e_phase e), (ev =? 0).
      * rewrite lookup_insert_ne by done. intros H2. right. split; [by eapply Hother|done].
Qed.

Lemma registry_delete R l l' c e :
  registry_rel R l → R !! c = Some e →
  p_inv (m_poller l') (l_heap l') → l_eventHandling l' = false →
  (∀ c2 e2, c2 ≠ c → R !! c2 = Some e2 → chan_matches (m_poller l') (l_heap l') c2 e2) →
  p_channels (m_poller l') = delete (e_fd e) (p_channels (m_poller l)) →
  registry_rel (delete c R) l'.
Proof.
  intros (_ & _ & _ & Hr & Hu) Hc Hinv Hh Ho Hch. split_and!; [done|done|..].
  - intros c2 e2. rewrite lookup_delete_Some. intros [Hne H2]. by apply Ho.
  - intros fd c2. rewrite Hch, lookup_delete_Some. intros [Hne Hfd].
    destruct (Hr _ _ Hfd) as (e2 & H2 & E & Hp). exists e2. rewrite lookup_delete_ne by congruence. done.
  - intros c1 c2 e1 e2. rewrite !lookup_delete_Some. intros [_ H1] [_ H2]. by eapply Hu.
Qed.

Lemma same_but_index_lookup m H H' c ch :
  same_but_index m H H' → H !! c = Some ch →
  ∃ ch', H' !! c = Some ch' ∧ set_index ch' 0 = set_index ch 0.
Proof.
  intros [Hs _] Hc. specialize (Hs c). rewrite Hc in Hs. simpl in Hs.
  destruct (H' !! c) as [ch'|]; [|done]. simpl in Hs. exists ch'. split; [done|]. congruence.
Qed.

Lemma chan_close R R' l c :
  registry_rel R l → spec_step R (CloseC c) = Some R' →
  ∃ l', chan_step l (CloseC c) = Ok l' ∧ registry_rel R' l'.
Proof.
  intros HR Hs. pose proof HR as (Hinv & Hh & Hm & Hr & Hu). simpl in Hs.
  destruct (R !! c) as [e|] eqn:Ec; [|done]. simpl in Hs.
  destruct (e_phase e) eqn:Eph; try done. injection Hs as <-.
  destruct (Hm _ _ Ec) as (ch & Hc & Hfd & Hev & Hint & Hch & Hph). rewrite Eph in Hph.
  destruct Hph as (Hreg & H0 & Hrem). set (ch1 := set_addedToLoop ch false).
  set (H1 := <[c := ch1]> (l_heap l)).
  assert (Hsr : same_reg (p_channels (m_poller l)) (l_heap l) H1).
  { intros fd2 c2 _. unfold H1. destruct (decide (c = c2)) as [<-|Hne].
    - by rewrite lookup_insert_eq, Hc.
    - by rewrite lookup_insert_ne. }
  destruct (p_remove_ok (m_poller l) H1 c ch1) as (p' & H' & E & Hinv' & Hchs & Hsb & Hro);
    [by eapply p_ext|apply lookup_insert_eq|by eapply p_removable_ext|].
  assert (m_fd ch1 = e_fd e) as Hfd1 by done. rewrite Hfd1 in Hchs.
  destruct (same_but_index_lookup _ _ _ c ch1 Hsb (lookup_insert_eq _ _ _))
    as (ch' & Hc' & [= E1 E2 E3 E4 E5 E6 E7 E8 E9 E10 E11]).
  set (l2 := set_poller l p' H').
  exists (set_heap l2 (delete c H')). split.
  - simpl. unfold Channel_remove. rewrite (deref_Some _ _ _ Hc). mred. unfold isNoneEvent, kNoneEvent.
    rewrite Hev, H0. mred. unfold modify. rewrite (deref_Some _ _ _ Hc). mred.
    unfold removeChannel. mred. simpl l_eventHandling. rewrite Hh. mred. simpl m_poller. simpl l_heap.
    fold ch1 H1. rewrite E. rewrite cassert_true by done. simpl. unfold Channel_dtor. simpl l_heap. rewrite (deref_Some _ _ _ Hc'). mred.
    rewrite E6, E7, Hch. mred. unfold loop_hasChannel, hasChannel. mred. simpl l_heap.
    rewrite (deref_Some _ _ _ Hc'). mred. simpl m_poller. rewrite E1, Hfd, Hchs, lookup_delete_eq.
    done.
  - eapply (registry_delete R l); [done|done| |done| |done].
    + eapply p_ext; [|exact Hinv']. intros fd2 c2. simpl. rewrite Hchs, lookup_delete_Some. intros [Hne H2].
      rewrite lookup_delete_ne; [done|]. intros <-. destruct (Hr _ _ H2) as (e2 & ? & ? & _). congruence.
    + intros c2 e2 Hne H2. apply (matches_other (m_poller l) (l_heap l)); [by apply Hm|..].
      * intros ch2 Hch2. simpl. rewrite lookup_delete_ne by done.
        assert (H1 !! c2 = Some ch2) as Hch2' by (unfold H1; by rewrite lookup_insert_ne).
        destruct (same_but_index_lookup _ _ _ c2 ch2 Hsb Hch2') as (ch2' & E' & Es).
        exists ch2'. split_and!; [done..|]. intros Hi Hn.
        assert (H1 !! c2 = H' !! c2) as Esame.
        { apply (proj2 Hsb). intros fd2 Hfd2. destruct (Hr _ _ Hfd2) as (e3 & He3 & Hf3 & _).
          destruct (Hm _ _ He3) as (ch3 & ? & ? & _). congruence. }
        congruence.
      * simpl. rewrite Hchs, lookup_delete_ne; [done|]. intros E3'. apply Hne. by eapply (Hu c2 c e2 e).
      * intros Hr2. eapply p_removable_ext; [|apply Hro; [done|by eapply p_removable_ext]].
        intros fd2 c3. simpl. rewrite Hchs, lookup_delete_Some. intros [Hne3 H3].
        rewrite lookup_delete_ne; [done|]. intros <-. destruct (Hr _ _ H3) as (e3 & ? & ? & _). congruence.
Qed.

Lemma registry_step R R' l o :
  registry_rel R l → spec_step R o = Some R' →
  (∃ what, chan_step l o = Fail (FAbort what)) ∨ ∃ l', chan_step l o = Ok l' ∧ registry_rel R' l'.
Proof.
  intros HR Hs. destruct o as [c fd|c g|c].
  - right. eexists. split; [done|]. by eapply chan_open.
  - by eapply chan_change.
  - right. by eapply chan_close.
Qed.

Lemma registry_run R R' l os :
  registry_rel R l → spec_run R os = Some R' →
  (∃ what, foldM chan_step l os = Fail (FAbort what)) ∨
  ∃ l', foldM chan_step l os = Ok l' ∧ registry_rel R' l'.
Proof.
  revert R l. induction os as [|o os IH]; intros R l HR Hs; simpl in *.
  - injection Hs as <-. right. eauto.
  - destruct (spec_step R o) as [R1|] eqn:E; [|done]. simpl in Hs.
    destruct (registry_step _ _ _ _ HR E) as [(w & E1)|(l1 & E1 & HR1)]; rewrite E1; mred.
    + left. eauto.
    + by apply (IH R1).
Qed.

Lemma registry_watch R l fd c ev :
  registry_rel R l →
  p_watch (m_poller l) !! fd = Some (c, ev) ↔
  ∃ e, R !! c = Some e ∧ e_fd e = fd ∧ e_events e = ev ∧ ev ≠ 0.
Proof.
  intros (Hinv & _ & Hm & Hr & _). rewrite (p_exact _ _ Hinv), lookup_wanted. split.
  - destruct (p_channels (m_poller l) !! fd) as [c'|] eqn:Ec; [|done]. simpl.
    destruct (Hr _ _ Ec) as (e & He & Hf & _). destruct (Hm _ _ He) as (ch & Hc & _ & Hev & _).
    rewrite Hc. simpl. case_match eqn:E0; [done|]. intros [= <- <-]. bprop. exists e. by rewrite <- Hev.
  - intros (e & He & <- & <- & Hne). destruct (Hm _ _ He) as (ch & Hc & Hfd & Hev & _ & _ & Hph).
    assert (p_channels (m_poller l) !! e_fd e = Some c) as ->.
    { destruct (e_phase e); [|done|]; tauto. }
    simpl. rewrite Hc. simpl. rewrite Hev. by rewrite (proj2 (Z.eqb_neq _ _)).
Qed.
End registry.

(** ** Tasks

    A closed family of functors to run the queue with: a task logs its number
    and then runs other tasks at once ([runInLoop] in the loop thread) or
    queues them ([queueInLoop]). *)
Inductive task : Type := Task (id : nat) (acts : actions)
with actions : Type :=
  | NoAct
  | RunNow (t : task) (acts : actions)
  | QueueIt (t : task) (acts : actions).

Scheme task_mut := Induction for task Sort Prop
with actions_mut := Induction for actions Sort Prop.

(** What a task logs, and what it leaves in the queue. *)
Fixpoint task_log (t : task) : list nat :=
  match t with Task id acts => [id] ++ acts_log acts end
with acts_log (acts : actions) : list nat :=
  match acts with
  | NoAct => []
  | RunNow t acts' => task_log t ++ acts_log acts'
  | QueueIt _ acts' => acts_log acts'
  end.

Fixpoint task_later (t : task) : list task :=
  match t with Task _ acts => acts_later acts end
with acts_later (acts : actions) : list task :=
  match acts with
  | NoAct => []
  | RunNow t acts' => task_later t ++ acts_later acts'
  | QueueIt t acts' => [t] ++ acts_later acts'
  end.

Section tasks.
Context {P : Type} {PO : PollerOps P}.
Local Abbreviation loop := (loop_state P task (list nat)).

Fixpoint call_task (t : task) (l : loop) : res loop :=
  match t with Task id acts => call_acts acts (set_user l (l_user l ++ [id])) end
with call_acts (acts : actions) (l : loop) : res loop :=
  match acts with
  | NoAct => Ok l
  | RunNow t acts' => l1 ← call_task t l; call_acts acts' l1
  | QueueIt t acts' => call_acts acts' (queueInLoop true l t)
  end.

(** While functors are being called: the log and the queue grow, a queued task
    leaves the eventfd readable, nothing else changes. *)
Definition grown (l l' : loop) (ids : list nat) (q : list task) : Prop :=
  l' = set_user (set_wakeups (set_pending l (m_pendingFunctors l ++ q)) (m_wakeupCount l'))
         (l_user l ++ ids) ∧
  m_wakeupCount l ≤ m_wakeupCount l' ∧ (q ≠ [] → 0 < m_wakeupCount l').

Lemma grown_refl l : grown l l [] [].
Proof. split_and!; [|lia|done]. destruct l; simpl. by rewrite !app_nil_r. Qed.

Lemma grown_trans l l1 l2 ids1 ids2 q1 q2 :
  grown l l1 ids1 q1 → grown l1 l2 ids2 q2 → grown l l2 (ids1 ++ ids2) (q1 ++ q2).
Proof.
  intros (E1 & L1 & W1) (E2 & L2 & W2). split_and!; [|lia|].
  - rewrite E1 in E2. rewrite E2. simpl. by rewrite <- !app_assoc.
  - intros Hq. destruct q2; [|by apply W2]. destruct q1; [done|].
    assert (0 < m_wakeupCount l1) by by apply W1. lia.
Qed.

Lemma grown_queue l t :
  is_callingPendingFunctors l = true → 0 ≤ m_wakeupCount l → grown l (queueInLoop true l t) [] [t].
Proof.
  intros Hc Hw. unfold grown, queueInLoop, wakeup, eventfd_max. simpl. rewrite Hc, app_nil_r.
  destruct (_ <? _) eqn:E; bprop; simpl; (split_and!; [by destruct l|lia|lia]).
Qed.

Lemma grown_calling l l' ids q :
  grown l l' ids q → is_callingPendingFunctors l = true → 0 ≤ m_wakeupCount l →
  is_callingPendingFunctors l' = true ∧ 0 ≤ m_wakeupCount l'.
Proof. intros (E & Hle & _) Hc Hw. split; [by rewrite E|lia]. Qed.

Lemma call_task_ok t l :
  is_callingPendingFunctors l = true → 0 ≤ m_wakeupCount l →
  ∃ l', call_task t l = Ok l' ∧ grown l l' (task_log t) (task_later t).
Proof.
  revert t l. apply (task_mut
    (λ t, ∀ l, is_callingPendingFunctors l = true → 0 ≤ m_wakeupCount l →
       ∃ l', call_task t l = Ok l' ∧ grown l l' (task_log t) (task_later t))
    (λ acts, ∀ l, is_callingPendingFunctors l = true → 0 ≤ m_wakeupCount l →
       ∃ l', call_acts acts l = Ok l' ∧ grown l l' (acts_log acts) (acts_later acts))).
  - intros id acts IH l Hc Hw. cbn -[app].
    destruct (IH (set_user l (l_user l ++ [id])) Hc Hw) as (l' & E & G). exists l'. split; [done|].
    apply (grown_trans _ (set_user l (l_user l ++ [id])) _ [id] _ [] _); [|done].
    split_and!; simpl; [|lia|done]. rewrite app_nil_r. by destruct l.
  - intros l _ _. exists l. split; [done|apply grown_refl].
  - intros t IHt acts IHa l Hc Hw. cbn -[app]. destruct (IHt l Hc Hw) as (l1 & E1 & G1).
    destruct (grown_calling _ _ _ _ G1 Hc Hw) as [Hc1 Hw1].
    destruct (IHa l1 Hc1 Hw1) as (l' & E & G). exists l'. rewrite E1. split; [done|].
    by eapply grown_trans.
  - intros t _ acts IHa l Hc Hw. cbn -[app queueInLoop]. pose proof (grown_queue l t Hc Hw) as G1.
    destruct (grown_calling _ _ _ _ G1 Hc Hw) as [Hc1 Hw1].
    destruct (IHa _ Hc1 Hw1) as (l' & E & G). exists l'. split; [done|].
    apply (grown_trans _ _ _ [] _ [t] _ G1 G).
Qed.

Lemma call_tasks_ok ts : ∀ l,
  is_callingPendingFunctors l = true → 0 ≤ m_wakeupCount l →
  ∃ l', foldM (λ l t, call_task t l) l ts = Ok l' ∧
    grown l l' (concat (map task_log ts)) (concat (map task_later ts)).
Proof.
  induction ts as [|t ts IH]; intros l Hc Hw; simpl.
  { exists l. split; [done|apply grown_refl]. }
  destruct (call_task_ok t l Hc Hw) as (l1 & E1 & G1). rewrite E1. mred.
  destruct (grown_calling _ _ _ _ G1 Hc Hw) as [Hc1 Hw1].
  destruct (IH l1 Hc1 Hw1) as (l' & E & G).
  exists l'. split; [done|]. by eapply grown_trans.
Qed.
End tasks.


Definition empty_loop {P} (p : P) : loop_state P Empty_set unit :=
  mkLoop false false false false 0 p ∅ [] None [] 0 ().

Lemma registry_empty {P} {PO : PollerOps P} {PL : PollerLaws P} (p : P) :
  p_inv p ∅ → p_channels p = ∅ → registry_rel ∅ (empty_loop p).
Proof.
  intros Hi Hp. split_and!; try done.
  - simpl. rewrite Hp. done.
Qed.

(** Two channels; one is closed again, under the poll poller its slot is taken
    by the other. *)
Definition demo_ops : list chan_op :=
  [OpenC 0%nat 5; OpenC 1%nat 6; ChangeC 0%nat EnableReading; ChangeC 1%nat EnableReading; ChangeC 1%nat EnableWriting;
   ChangeC 0%nat DisableAll; CloseC 0%nat; ChangeC 1%nat DisableReading].


(** The two pollers differ on a channel that is removed and used again:
    EpollPoller::removeChannel resets the index, PollPoller::removeChannel
    leaves the old slot number, so that a later enableReading fails the
    assertion that the channel is registered.  They differ as well on a
    channel whose first update is disableAll: PollPoller stores the
    descriptor itself and removeChannel then fails its assertion. *)
Theorem poll_reuse_aborts :
  let reuse := [ChangeC 0%nat EnableReading; ChangeC 0%nat DisableAll] in
  (l1 ← foldM chan_step (Channel_new (empty_loop PollPoller_ctor) 0%nat 5) reuse;
   l2 ← Channel_remove true l1 0%nat;
   Channel_update true l2 0%nat EnableReading)
    = Fail (FAssert "m_channels[channel->fd()] == channel") ∧
  (∃ l, (l1 ← foldM chan_step (Channel_new (empty_loop (EpollPoller_ctor (∅ : gmap Z (Z * cid)))) 0%nat 5) reuse;
         l2 ← Channel_remove true l1 0%nat;
         Channel_update true l2 0%nat EnableReading) = Ok l) ∧
  (l1 ← Channel_update true (Channel_new (empty_loop PollPoller_ctor) 0%nat 5) 0%nat DisableAll;
   Channel_remove true l1 0%nat)
    = Fail (FAssert "pfd.fd == -channel->fd() - 1") ∧
  (∃ l, (l1 ← Channel_update true
                (Channel_new (empty_loop (EpollPoller_ctor (∅ : gmap Z (Z * cid)))) 0%nat 5) 0%nat DisableAll;
         Channel_remove true l1 0%nat) = Ok l).
Proof. split_and!; [vm_compute; reflexivity|eexists; vm_compute; reflexivity|vm_compute; reflexivity|
  eexists; vm_compute; reflexivity]. Qed.

(** doPendingFunctors runs the functors that were queued when it was
    called, each once and in order (with everything they run at once through
    runInLoop), leaves in the queue exactly what they queued, in order, clears
    [is_callingPendingFunctors], and leaves the eventfd readable when the
    queue is not empty, so that the next poll returns at once. *)
Theorem doPendingFunctors_fifo {P} {PO : PollerOps P} (l : loop_state P task (list nat)) :
  0 ≤ m_wakeupCount l →
  ∃ l', doPendingFunctors call_task l = Ok l' ∧
    l_user l' = l_user l ++ concat (map task_log (m_pendingFunctors l)) ∧
    m_pendingFunctors l' = concat (map task_later (m_pendingFunctors l)) ∧
    is_callingPendingFunctors l' = false ∧
    (m_pendingFunctors l' ≠ [] → 0 < m_wakeupCount l') ∧
    m_poller l' = m_poller l ∧ l_heap l' = l_heap l.
Proof.
  intros Hw. unfold doPendingFunctors.
  destruct (call_tasks_ok (m_pendingFunctors l) (set_pending (set_calling l true) []) eq_refl Hw)
    as (l' & E & G). simpl m_pendingFunctors. rewrite E. mred. eexists. split; [done|].
  destruct G as (E' & _ & Hq). rewrite E'. simpl. split_and!; try done.
Qed.

Lemma doPendingFunctors_fifo_witness :
  let l := mkLoop true false false false 0 PollPoller_ctor ∅ [] None
             [Task 1 (QueueIt (Task 2 NoAct) (RunNow (Task 3 NoAct) NoAct)); Task 4 NoAct] 0 [] in
  ∃ l', doPendingFunctors call_task l = Ok l' ∧
    l_user l' = l_user l ++ concat (map task_log (m_pendingFunctors l)) ∧
    m_pendingFunctors l' = concat (map task_later (m_pendingFunctors l)) ∧
    is_callingPendingFunctors l' = false ∧
    (m_pendingFunctors l' ≠ [] → 0 < m_wakeupCount l') ∧
    m_poller l' = m_poller l ∧ l_heap l' = l_heap l.
Proof. intros l. apply (doPendingFunctors_fifo l). simpl. lia. Defined.

(** ** The loop and other threads

    [PcPoll]: blocked in poll; [PcHandle b]: in the for loop over the active
    channels, [b] when the wakeup channel is still to be handled;
    [PcRun rest]: in doPendingFunctors with [rest] still to be called;
    [PcDone]: loop() has left the while loop.  [s_owed] counts the threads
    that have pushed a functor, or set [is_quit], and not yet written to the
    eventfd.  The steps of the loop thread that call user code may call
    [queueInLoop] and [quit] of the loop itself. *)
Inductive pc (F : Type) : Type := PcPoll | PcHandle (ready : bool) | PcRun (rest : list F) | PcDone.
Arguments PcPoll {F}.
Arguments PcHandle {F}.
Arguments PcRun {F}.
Arguments PcDone {F}.

Section threads.
Context {P F X : Type}.
Local Abbreviation loop := (loop_state P F X).

Record sys : Type := mkSys {
  s_pc : pc F;
  s_loop : loop;
  s_owed : nat;
  s_ran : list F;     (* the functors called so far *)
  s_sent : list F;    (* the functors queued so far *)
}.

Inductive step : sys → sys → Prop :=
  | S_push k l n ran sent f :     (* another thread: the push of queueInLoop *)
      step (mkSys k l n ran sent) (mkSys k (queue_push l f) (S n) ran (sent ++ [f]))
  | S_quit k l n ran sent :       (* another thread: the store of quit *)
      step (mkSys k l n ran sent) (mkSys k (set_quit l true) (S n) ran sent)
  | S_wake k l n ran sent :       (* another thread: the wakeup of either *)
      step (mkSys k l (S n) ran sent) (mkSys k (wakeup l) n ran sent)
  | S_poll_ready l n ran sent :   (* poll reports the eventfd readable *)
      0 < m_wakeupCount l →
      step (mkSys PcPoll l n ran sent) (mkSys (PcHandle true) l n ran sent)
  | S_poll_other l n ran sent :   (* poll times out or reports other descriptors *)
      m_wakeupCount l = 0 →
      step (mkSys PcPoll l n ran sent) (mkSys (PcHandle false) l n ran sent)
  | S_handle_read l n ran sent :
      step (mkSys (PcHandle true) l n ran sent) (mkSys (PcHandle false) (handleRead l) n ran sent)
  | S_handle_queue b l n ran sent f :
      step (mkSys (PcHandle b) l n ran sent) (mkSys (PcHandle b) (queueInLoop true l f) n ran (sent ++ [f]))
  | S_handle_quit b l n ran sent :
      step (mkSys (PcHandle b) l n ran sent) (mkSys (PcHandle b) (quit true l) n ran sent)
  | S_swap l n ran sent :
      step (mkSys (PcHandle false) l n ran sent)
           (mkSys (PcRun (m_pendingFunctors l)) (set_pending (set_calling l true) []) n ran sent)
  | S_call f rest l n ran sent :
      step (mkSys (PcRun (f :: rest)) l n ran sent) (mkSys (PcRun rest) l n (ran ++ [f]) sent)
  | S_run_queue rest l n ran sent f :
      step (mkSys (PcRun rest) l n ran sent) (mkSys (PcRun rest) (queueInLoop true l f) n ran (sent ++ [f]))
  | S_run_quit rest l n ran sent :
      step (mkSys (PcRun rest) l n ran sent) (mkSys (PcRun rest) (quit true l) n ran sent)
  | S_again l n ran sent :
      step (mkSys (PcRun []) l n ran sent)
           (mkSys (if is_quit l then PcDone else PcPoll) (set_calling l false) n ran sent).

(** loop() has just been entered: nothing has been queued in the loop thread
    before (what is queued there before loop() is called writes no wakeup). *)
Definition started (s : sys) : Prop :=
  s_pc s = PcPoll ∧ is_callingPendingFunctors (s_loop s) = false ∧ is_quit (s_loop s) = false ∧
  m_pendingFunctors (s_loop s) = [] ∧ m_wakeupCount (s_loop s) = 0 ∧ s_owed s = 0%nat ∧
  s_ran s = [] ∧ s_sent s = [].

Definition in_hand (k : pc F) : list F := match k with PcRun rest => rest | _ => [] end.
Definition calling (k : pc F) : bool := match k with PcRun _ => true | _ => false end.

(** The next poll will return: the eventfd is readable, or a thread is about
    to make it so. *)
Definition will_wake (s : sys) : Prop := 0 < m_wakeupCount (s_loop s) ∨ (0 < s_owed s)%nat.

Definition sys_inv (s : sys) : Prop :=
  0 ≤ m_wakeupCount (s_loop s) ∧
  is_callingPendingFunctors (s_loop s) = calling (s_pc s) ∧
  s_sent s = s_ran s ++ in_hand (s_pc s) ++ m_pendingFunctors (s_loop s) ∧
  match s_pc s with
  | PcPoll => (m_pendingFunctors (s_loop s) ≠ [] ∨ is_quit (s_loop s) = true) → will_wake s
  | PcRun _ => m_pendingFunctors (s_loop s) ≠ [] → will_wake s
  | _ => True
  end.

Lemma wakeup_count (l : loop) : 0 ≤ m_wakeupCount l → 0 < m_wakeupCount (wakeup l).
Proof. unfold wakeup, eventfd_max. intros. destruct (_ <? _) eqn:E; bprop; simpl; lia. Qed.

Lemma wakeup_same (l : loop) :
  is_callingPendingFunctors (wakeup l) = is_callingPendingFunctors l ∧
  m_pendingFunctors (wakeup l) = m_pendingFunctors l ∧ is_quit (wakeup l) = is_quit l.
Proof. unfold wakeup. by destruct (_ <? _). Qed.

Lemma sys_started_inv s : started s → sys_inv s.
Proof.
  destruct s as [k l n ran sent]. unfold started, sys_inv. simpl.
  intros (-> & -> & -> & -> & -> & -> & -> & ->). split_and!; [lia|done|done|].
  by intros [?|?].
Qed.

Lemma sys_step_inv s s' : sys_inv s → step s s' → sys_inv s'.
Proof.
  intros (Hw & Hc & Hs & Hp) Hst. unfold sys_inv, will_wake in *.
  destruct Hst; simpl in *; subst sent.
  - split_and!; [done|done|by rewrite <- !app_assoc|]. destruct k; auto; right; lia.
  - split_and!; [done..|]. destruct k; auto; right; lia.
  - pose proof (wakeup_count l Hw). destruct (wakeup_same l) as (-> & -> & ->).
    split_and!; [lia|done|done|]. destruct k; auto.
  - done.
  - split_and!; try done.
  - split_and!; try done.
  - unfold queueInLoop. simpl. rewrite Hc. simpl. split_and!; try done. by rewrite <- !app_assoc.
  - split_and!; try done.
  - split_and!; try done. by rewrite app_nil_r.
  - split_and!; try done. simpl in *. by rewrite <- !app_assoc.
  - unfold queueInLoop. simpl. rewrite Hc. simpl.
    pose proof (wakeup_count (queue_push l f) Hw). pose proof (wakeup_same (queue_push l f)) as (E1 & E2 & E3).
    rewrite E1, E2. split_and!; [lia|done|simpl; by rewrite <- !app_assoc|auto].
  - split_and!; try done.
  - destruct (is_quit l) eqn:Eq; split_and!; try done. intros [?|?]; [auto|congruence].
Qed.

Lemma steps_inv s s' : sys_inv s → rtc step s s' → sys_inv s'.
Proof. intros H Hr. induction Hr; [done|]. eauto using sys_step_inv. Qed.

(** Calling what is in hand. *)
Lemma drain l n ran sent rest :
  rtc step (mkSys (PcRun rest) l n ran sent) (mkSys (PcRun []) l n (ran ++ rest) sent).
Proof.
  revert ran. induction rest as [|f rest IH]; intros ran; [by rewrite app_nil_r|].
  eapply rtc_l; [apply S_call|]. specialize (IH (ran ++ [f])). by rewrite <- app_assoc in IH.
Qed.
End threads.
Arguments sys : clear implicits.

(** C4.  Cross-thread calls: in every interleaving of the loop with threads
    that call queueInLoop and quit, the functors are called in the order in
    which they were queued, none lost and none twice (what was queued is what
    was called, then what is in hand, then what is pending); and whenever the
    loop is blocked in poll with a functor pending or a quit requested, the
    eventfd is readable or the thread that asked is about to write it. *)
Theorem queueInLoop_no_lost_wakeup {P F X} (s0 s : sys P F X) :
  started s0 → rtc step s0 s →
  s_sent s = s_ran s ++ in_hand (s_pc s) ++ m_pendingFunctors (s_loop s) ∧
  (s_pc s = PcPoll → m_pendingFunctors (s_loop s) ≠ [] ∨ is_quit (s_loop s) = true →
   0 < m_wakeupCount (s_loop s) ∨ (0 < s_owed s)%nat).
Proof.
  intros H0 Hr. destruct (steps_inv _ _ (sys_started_inv _ H0) Hr) as (_ & _ & Hs & Hp).
  split; [done|]. intros E. by rewrite E in Hp.
Qed.

Definition demo_sys : sys unit nat unit :=
  mkSys PcPoll (mkLoop true false false false 0 () ∅ [] None [] 0 ()) 0 [] [].

Lemma queueInLoop_no_lost_wakeup_witness :
  let s := mkSys PcPoll (queue_push (s_loop demo_sys) 7%nat) 1 [] [7%nat] in
  started demo_sys ∧ rtc step demo_sys s ∧
  s_sent s = s_ran s ++ in_hand (s_pc s) ++ m_pendingFunctors (s_loop s) ∧
  (s_pc s = PcPoll → m_pendingFunctors (s_loop s) ≠ [] ∨ is_quit (s_loop s) = true →
   0 < m_wakeupCount (s_loop s) ∨ (0 < s_owed s)%nat).
Proof.
  intros s. assert (Hr : rtc step demo_sys s) by (apply rtc_once, (S_push PcPoll (s_loop demo_sys) 0 [] [] 7%nat)).
  assert (H0 : started demo_sys) by (split_and!; reflexivity).
  exact (conj H0 (conj Hr (queueInLoop_no_lost_wakeup demo_sys s H0 Hr))).
Defined.


