(* ===== verification/TimerQueue.v ===== *)
(** * Timers: src/dc/net/timer.h, timer.cc, timerId.h, timerQueue.h,
      timerQueue.cc, and the Timestamp arithmetic of src/dc/base/timeStamp.h

    A timer lives at an address; [TimerQueue] orders the scheduled ones by
    expiration in [m_timers] (a std::set of pairs, here a list kept strictly
    sorted) and finds them by address and sequence number in
    [m_activeTimers].  Addresses are given out by an allocator that may reuse
    them; the sequence number tells an old [TimerId] from the timer that now
    lives at its address.  A callback is a number: [script] says which
    add/cancel calls it makes on the queue when it runs. *)

From Stdlib Require Import Sorted.
From S2P Require Import Prelude.

Open Scope Z_scope.

(** ** Timestamp *)

Definition kMicroSecondsPerSecond : Z := 1000 * 1000.

Definition Timestamp_valid (us : Z) : bool := 0 <? us.
Definition secondsSinceEpoch (us : Z) : Z := Z.quot us kMicroSecondsPerSecond.
Definition fromUnixTime (t microseconds : Z) : Z := t * kMicroSecondsPerSecond + microseconds.

(** [addTime], given [seconds] already scaled and truncated to microseconds. *)
Definition addTime (timestamp delta : Z) : Z := timestamp + delta.

(** [howMuchTimeFromNow]: at least 100 microseconds, as seconds and nanoseconds. *)
Definition howMuchTimeFromNow (when_ now : Z) : Z * Z :=
  let microseconds := when_ - now in
  let microseconds := if microseconds <? 100 then 100 else microseconds in
  (Z.quot microseconds kMicroSecondsPerSecond, Z.rem microseconds kMicroSecondsPerSecond * 1000).

(** ** Data *)

Record Timer : Type := mkTimer {
  m_callback : nat;
  m_expiration : Z;
  m_interval : Z;      (* in microseconds *)
  is_repeat : bool;
  m_sequence : Z;
}.

(** [Timer::restart] *)
Definition Timer_restart (t : Timer) (now : Z) : Timer :=
  mkTimer (m_callback t) (if is_repeat t then addTime now (m_interval t) else 0)
    (m_interval t) (is_repeat t) (m_sequence t).

Definition Entry : Type := Z * Z.          (* expiration, Timer* *)
Definition ActiveTimer : Type := Z * Z.    (* Timer*, sequence *)

Definition UINTPTR_MAX : Z := 2 ^ 64 - 1.

(** The order of std::pair<Timestamp, Timer*>. *)
Definition entry_ltb (a b : Entry) : bool :=
  (a.1 <? b.1) || ((a.1 =? b.1) && (a.2 <? b.2)).

(** std::set<Entry>: insertion, removal, lower_bound. *)
Fixpoint set_insert (e : Entry) (s : list Entry) : list Entry :=
  match s with
  | [] => [e]
  | x :: s' => if entry_ltb e x then e :: s
               else if entry_ltb x e then x :: set_insert e s' else s
  end.

Definition set_erase (e : Entry) (s : list Entry) : list Entry :=
  filter (λ x, x ≠ e) s.

Fixpoint lower_bound (e : Entry) (s : list Entry) : list Entry * list Entry :=
  match s with
  | [] => ([], [])
  | x :: s' => if entry_ltb x e then let '(a, b) := lower_bound e s' in (x :: a, b) else ([], s)
  end.

Record TimerQueue : Type := mkTQ {
  m_timers : list Entry;
  m_activeTimers : gset ActiveTimer;
  is_callingExpiredTimers : bool;
  m_cancelingTimers : gset ActiveTimer;
  tq_heap : gmap Z Timer;
  s_numCreated : Z;
  tq_armed : option Z;     (* the expiration the timerfd was last set for *)
  tq_log : list nat;       (* the callbacks that ran *)
}.

Definition TimerQueue_ctor (numCreated : Z) : TimerQueue := mkTQ [] ∅ false ∅ ∅ numCreated None [].

(** ** Operations *)
Section operations.
(** The allocator behind [new Timer]. *)
Context (alloc : gmap Z Timer → option Z).

Definition get_timer (q : TimerQueue) (p : Z) : res Timer :=
  match tq_heap q !! p with Some t => Ok t | None => Fail (FUndef "use of a deleted timer") end.

Definition sizes_agree (q : TimerQueue) : bool :=
  Nat.eqb (length (m_timers q)) (size (m_activeTimers q)).

(** [TimerQueue::insert] *)
Definition tq_insert (q : TimerQueue) (p : Z) : res (TimerQueue * bool) :=
  timer ← get_timer q p;
  cassert (sizes_agree q) "m_timers.size() == m_activeTimers.size()";;
  let when_ := m_expiration timer in
  let earliestChanged := match m_timers q with [] => true | it :: _ => when_ <? it.1 end in
  cassert (bool_decide ((p, m_sequence timer) ∉ m_activeTimers q)) "result.second";;
  cassert (bool_decide ((when_, p) ∉ m_timers q)) "result.second";;
  let q' := mkTQ (set_insert (when_, p) (m_timers q)) ({[(p, m_sequence timer)]} ∪ m_activeTimers q)
              (is_callingExpiredTimers q) (m_cancelingTimers q) (tq_heap q) (s_numCreated q)
              (tq_armed q) (tq_log q) in
  cassert (sizes_agree q') "m_timers.size() == m_activeTimers.size()";;
  Ok (q', earliestChanged).

(** [resetTimerfd] *)
Definition resetTimerfd (q : TimerQueue) (expiration : Z) : TimerQueue :=
  mkTQ (m_timers q) (m_activeTimers q) (is_callingExpiredTimers q) (m_cancelingTimers q) (tq_heap q)
    (s_numCreated q) (Some expiration) (tq_log q).

(** [TimerQueue::addTimerInLoop] *)
Definition addTimerInLoop (q : TimerQueue) (p : Z) : res TimerQueue :=
  '(q1, earliestChanged) ← tq_insert q p;
  timer ← get_timer q1 p;
  Ok (if earliestChanged : bool then resetTimerfd q1 (m_expiration timer) else q1).

(** [new Timer(cb, when, interval)] *)
Definition new_timer (q : TimerQueue) (cb : nat) (when_ interval : Z) (repeat : bool) :
    res (TimerQueue * Z) :=
  match alloc (tq_heap q) with
  | None => Fail (FThrow "std::bad_alloc")
  | Some p =>
      let seq := s_numCreated q + 1 in
      Ok (mkTQ (m_timers q) (m_activeTimers q) (is_callingExpiredTimers q) (m_cancelingTimers q)
            (<[p := mkTimer cb when_ interval repeat seq]> (tq_heap q)) seq (tq_armed q) (tq_log q), p)
  end.

(** [TimerQueue::addTimer], called in the loop thread: the queue and the
    [TimerId]. *)
Definition addTimer (q : TimerQueue) (cb : nat) (when_ interval : Z) (repeat : bool) :
    res (TimerQueue * ActiveTimer) :=
  '(q1, p) ← new_timer q cb when_ interval repeat;
  q2 ← addTimerInLoop q1 p;
  timer ← get_timer q2 p;
  Ok (q2, (p, m_sequence timer)).

(** [TimerQueue::cancelInLoop] *)
Definition cancelInLoop (q : TimerQueue) (timerId : ActiveTimer) : res TimerQueue :=
  cassert (sizes_agree q) "m_timers.size() == m_activeTimers.size()";;
  if bool_decide (timerId ∈ m_activeTimers q) then
    timer ← get_timer q timerId.1;
    let e := (m_expiration timer, timerId.1) in
    cassert (bool_decide (e ∈ m_timers q)) "n == 1";;
    let q' := mkTQ (set_erase e (m_timers q)) (m_activeTimers q ∖ {[timerId]})
                (is_callingExpiredTimers q) (m_cancelingTimers q) (delete timerId.1 (tq_heap q))
                (s_numCreated q) (tq_armed q) (tq_log q) in
    cassert (sizes_agree q') "m_timers.size() == m_activeTimers.size()";; Ok q'
  else if is_callingExpiredTimers q then
    Ok (mkTQ (m_timers q) (m_activeTimers q) (is_callingExpiredTimers q)
          ({[timerId]} ∪ m_cancelingTimers q) (tq_heap q) (s_numCreated q) (tq_armed q) (tq_log q))
  else Ok q.

Definition set_timers (q : TimerQueue) (s : list Entry) (a : gset ActiveTimer) : TimerQueue :=
  mkTQ s a (is_callingExpiredTimers q) (m_cancelingTimers q) (tq_heap q) (s_numCreated q)
    (tq_armed q) (tq_log q).

(** The removal of one expired timer from [m_activeTimers]. *)
Definition erase_active (q : TimerQueue) (it : Entry) : res TimerQueue :=
  timer ← get_timer q it.2;
  let a := (it.2, m_sequence timer) in
  cassert (bool_decide (a ∈ m_activeTimers q)) "n == 1";;
  Ok (set_timers q (m_timers q) (m_activeTimers q ∖ {[a]})).

(** [TimerQueue::getExpired] *)
Definition getExpired (q : TimerQueue) (now : Z) : res (TimerQueue * list Entry) :=
  cassert (sizes_agree q) "m_timers.size() == m_activeTimers.size()";;
  let '(expired, rest) := lower_bound (now, UINTPTR_MAX) (m_timers q) in
  (match expired, rest with
   | _ :: _, _ => Ok tt
   | [], [] => Fail (FUndef "end->first with end == m_timers.end()")
   | [], e :: _ => cassert (now <? e.1) "end != m_timers.begin() || now < end->first"
   end);;
  q1 ← foldM erase_active (set_timers q rest (m_activeTimers q)) expired;
  cassert (sizes_agree q1) "m_timers.size() == m_activeTimers.size()";;
  Ok (q1, expired).

(** One timer of [TimerQueue::reset]. *)
Definition reset1 (now : Z) (q : TimerQueue) (it : Entry) : res TimerQueue :=
  timer ← get_timer q it.2;
  if is_repeat timer && negb (bool_decide ((it.2, m_sequence timer) ∈ m_cancelingTimers q)) then
    let q1 := mkTQ (m_timers q) (m_activeTimers q) (is_callingExpiredTimers q) (m_cancelingTimers q)
                (<[it.2 := Timer_restart timer now]> (tq_heap q)) (s_numCreated q) (tq_armed q) (tq_log q) in
    '(q2, _) ← tq_insert q1 it.2; Ok q2
  else
    Ok (mkTQ (m_timers q) (m_activeTimers q) (is_callingExpiredTimers q) (m_cancelingTimers q)
          (delete it.2 (tq_heap q)) (s_numCreated q) (tq_armed q) (tq_log q)).

(** [TimerQueue::reset] *)
Definition tq_reset (q : TimerQueue) (expired : list Entry) (now : Z) : res TimerQueue :=
  q1 ← foldM (reset1 now) q expired;
  match m_timers q1 with
  | [] => Ok q1
  | e :: _ =>
      timer ← get_timer q1 e.2;
      Ok (if Timestamp_valid (m_expiration timer) then resetTimerfd q1 (m_expiration timer) else q1)
  end.

(** The calls a callback makes. *)
Inductive tq_op : Type :=
  | OpAdd (cb : nat) (when_ interval : Z) (repeat : bool)
  | OpCancel (timerId : ActiveTimer).

Definition run_op (q : TimerQueue) (o : tq_op) : res TimerQueue :=
  match o with
  | OpAdd cb when_ interval repeat => '(q', _) ← addTimer q cb when_ interval repeat; Ok q'
  | OpCancel id => cancelInLoop q id
  end.

Context (script : nat → list tq_op).

(** [it.second->run()] *)
Definition run_timer (q : TimerQueue) (it : Entry) : res TimerQueue :=
  timer ← get_timer q it.2;
  foldM run_op (mkTQ (m_timers q) (m_activeTimers q) (is_callingExpiredTimers q) (m_cancelingTimers q)
                  (tq_heap q) (s_numCreated q) (tq_armed q) (tq_log q ++ [m_callback timer]))
    (script (m_callback timer)).

Definition set_callingExpired (q : TimerQueue) (b : bool) (c : gset ActiveTimer) : TimerQueue :=
  mkTQ (m_timers q) (m_activeTimers q) b c (tq_heap q) (s_numCreated q) (tq_armed q) (tq_log q).

(** [TimerQueue::handleRead]: the timerfd has fired, [now] is the time. *)
Definition tq_handleRead (q : TimerQueue) (now : Z) : res TimerQueue :=
  '(q1, expired) ← getExpired q now;
  q2 ← foldM run_timer (set_callingExpired q1 true ∅) expired;
  tq_reset (set_callingExpired q2 false (m_cancelingTimers q2)) expired now.
End operations.

#[global] Instance tq_op_eq_dec : EqDecision tq_op.
Proof. solve_decision. Defined.

(** ** The ordered set *)

Definition entry_lt (a b : Entry) : Prop := a.1 < b.1 ∨ (a.1 = b.1 ∧ a.2 < b.2).

Lemma entry_ltb_lt a b : entry_ltb a b = true ↔ entry_lt a b.
Proof.
  unfold entry_ltb, entry_lt. rewrite orb_true_iff, andb_true_iff, !Z.ltb_lt, Z.eqb_eq. done.
Qed.

Lemma entry_ltb_ge a b : entry_ltb a b = false ↔ ¬ entry_lt a b.
Proof. rewrite <- entry_ltb_lt. by destruct (entry_ltb a b). Qed.

Lemma entry_lt_trans a b c : entry_lt a b → entry_lt b c → entry_lt a c.
Proof. unfold entry_lt. lia. Qed.

Lemma entry_lt_irrefl a : ¬ entry_lt a a.
Proof. unfold entry_lt. lia. Qed.

Lemma entry_antisym a b : ¬ entry_lt a b → ¬ entry_lt b a → a = b.
Proof. destruct a, b. unfold entry_lt. simpl. intros. f_equal; lia. Qed.

Lemma entry_le_first a b : ¬ entry_lt b a → a.1 ≤ b.1.
Proof. unfold entry_lt. lia. Qed.

Lemma elem_of_set_insert x e s : x ∈ set_insert e s ↔ x = e ∨ x ∈ s.
Proof.
  induction s as [|y s IH]; simpl; [by rewrite list_elem_of_singleton, elem_of_nil; tauto|].
  destruct (entry_ltb e y) eqn:E1; [by rewrite elem_of_cons|].
  destruct (entry_ltb y e) eqn:E2; rewrite !elem_of_cons; [rewrite IH; tauto|].
  apply entry_ltb_ge in E1, E2. pose proof (entry_antisym _ _ E1 E2). subst. tauto.
Qed.

Lemma set_insert_sorted e s : StronglySorted entry_lt s → StronglySorted entry_lt (set_insert e s).
Proof.
  induction 1 as [|y s Hs IH Hall]; simpl; [by repeat constructor|].
  destruct (entry_ltb e y) eqn:E1; [|destruct (entry_ltb y e) eqn:E2].
  - apply entry_ltb_lt in E1. constructor; [by constructor|]. constructor; [done|].
    eapply Forall_impl; [done|]. intros z. by apply entry_lt_trans.
  - apply entry_ltb_lt in E2. constructor; [done|]. apply Forall_forall. intros z.
    rewrite elem_of_set_insert. intros [->|Hz]; [done|]. by eapply Forall_forall in Hall.
  - by constructor.
Qed.

Lemma set_insert_length e s : e ∉ s → length (set_insert e s) = S (length s).
Proof.
  induction s as [|y s IH]; simpl; [done|]. rewrite not_elem_of_cons. intros [Hne Hs].
  destruct (entry_ltb e y) eqn:E1; [done|]. destruct (entry_ltb y e) eqn:E2; simpl; [by rewrite IH|].
  apply entry_ltb_ge in E1, E2. by pose proof (entry_antisym _ _ E1 E2).
Qed.

Lemma sorted_nodup s : StronglySorted entry_lt s → base.NoDup s.
Proof.
  induction 1 as [|y s Hs IH Hall]; [constructor|]. constructor; [|done].
  intros Hy. eapply Forall_forall in Hall; [|done]. by apply entry_lt_irrefl in Hall.
Qed.

Lemma elem_of_set_erase x e s : x ∈ set_erase e s ↔ x ≠ e ∧ x ∈ s.
Proof. unfold set_erase. by rewrite list_elem_of_filter. Qed.

Lemma filter_sorted (f : Entry → Prop) `{∀ x, Decision (f x)} s :
  StronglySorted entry_lt s → StronglySorted entry_lt (filter f s).
Proof.
  induction 1 as [|y s Hs IH Hall]; [constructor|]. rewrite filter_cons. case_decide; [|done].
  constructor; [done|]. apply Forall_forall. intros z [_ Hz]%list_elem_of_filter.
  by eapply Forall_forall in Hall.
Qed.

Lemma set_erase_length e s : base.NoDup s → e ∈ s → S (length (set_erase e s)) = length s.
Proof.
  unfold set_erase. induction 1 as [|y s Hy Hnd IH]; [by intros ?%elem_of_nil|].
  rewrite elem_of_cons, filter_cons. intros Hin. case_decide as Hye; simpl.
  - destruct Hin; [congruence|]. by rewrite IH.
  - subst y. f_equal. clear IH Hin Hnd.
    induction s as [|z s IHs]; [done|]. apply not_elem_of_cons in Hy as [Hne Hy].
    rewrite filter_cons, decide_True by done. simpl. by rewrite IHs.
Qed.

Lemma lower_bound_split e s a b :
  StronglySorted entry_lt s → lower_bound e s = (a, b) →
  s = a ++ b ∧ Forall (λ x, entry_lt x e) a ∧ Forall (λ x, ¬ entry_lt x e) b.
Proof.
  intros Hs. revert a b. induction Hs as [|y s Hs IH Hall]; intros a b; simpl.
  { intros [= <- <-]. by repeat constructor. }
  destruct (entry_ltb y e) eqn:E.
  - destruct (lower_bound e s) as [a' b'] eqn:El. intros [= <- <-].
    destruct (IH _ _ eq_refl) as (-> & Ha & Hb). split_and!; [done| |done].
    constructor; [by apply entry_ltb_lt|done].
  - intros [= <- <-]. apply entry_ltb_ge in E. split_and!; [done|constructor|]. constructor; [done|].
    eapply Forall_impl; [done|]. intros z Hz Hze. apply E. by eapply entry_lt_trans.
Qed.

Lemma sorted_app_r s1 s2 : StronglySorted entry_lt (s1 ++ s2) → StronglySorted entry_lt s2.
Proof. induction s1; [done|]. simpl. inversion 1. auto. Qed.

Lemma sorted_app_l s1 s2 : StronglySorted entry_lt (s1 ++ s2) → StronglySorted entry_lt s1.
Proof.
  induction s1 as [|x s1 IH]; [constructor|]. simpl. intros Hs. apply StronglySorted_inv in Hs as [Hs Hall].
  constructor; [auto|]. by apply Forall_app in Hall as [? _].
Qed.

(** ** The invariant *)

Definition scheduled (q : TimerQueue) (p : Z) (t : Timer) : Prop :=
  tq_heap q !! p = Some t ∧ (m_expiration t, p) ∈ m_timers q.

Record wf (q : TimerQueue) : Prop := mkWf {
  wf_sorted : StronglySorted entry_lt (m_timers q);
  wf_timers e : e ∈ m_timers q →
    ∃ t, tq_heap q !! e.2 = Some t ∧ m_expiration t = e.1 ∧ (e.2, m_sequence t) ∈ m_activeTimers q;
  wf_active a : a ∈ m_activeTimers q →
    ∃ t, tq_heap q !! a.1 = Some t ∧ m_sequence t = a.2 ∧ (m_expiration t, a.1) ∈ m_timers q;
  wf_sizes : length (m_timers q) = size (m_activeTimers q);
  wf_seq p t : tq_heap q !! p = Some t → m_sequence t ≤ s_numCreated q;
  wf_addr p t : tq_heap q !! p = Some t → 0 < p < UINTPTR_MAX;
}.

Lemma wf_sizes_agree q : wf q → sizes_agree q = true.
Proof. intros H. unfold sizes_agree. apply Nat.eqb_eq, H. Qed.

Lemma get_timer_Some q p t : tq_heap q !! p = Some t → get_timer q p = Ok t.
Proof. intros H. unfold get_timer. by rewrite H. Qed.

Lemma wf_scheduled q p t : wf q → scheduled q p t ↔ tq_heap q !! p = Some t ∧ (p, m_sequence t) ∈ m_activeTimers q.
Proof.
  intros Hw. split; intros [Hp Hin]; split; try done.
  - destruct (wf_timers _ Hw _ Hin) as (t' & Hp' & _ & Ha). simpl in *. congruence.
  - destruct (wf_active _ Hw _ Hin) as (t' & Hp' & _ & Ha). simpl in *. congruence.
Qed.

(** A timer in the heap that is not in the queue may be inserted. *)
Lemma tq_insert_ok q p t :
  wf q → tq_heap q !! p = Some t → (p, m_sequence t) ∉ m_activeTimers q →
  ∃ q', tq_insert q p = Ok (q', match m_timers q with [] => true | it :: _ => m_expiration t <? it.1 end) ∧
    wf q' ∧ q' = set_timers q (set_insert (m_expiration t, p) (m_timers q))
                   ({[(p, m_sequence t)]} ∪ m_activeTimers q).
Proof.
  intros Hw Hp Hna.
  assert ((m_expiration t, p) ∉ m_timers q) as Hnt.
  { intros Hin. destruct (wf_timers _ Hw _ Hin) as (t' & Hp' & _ & Ha). simpl in *. congruence. }
  set (q' := set_timers q (set_insert (m_expiration t, p) (m_timers q))
                   ({[(p, m_sequence t)]} ∪ m_activeTimers q)).
  assert (wf q') as Hw'.
  { split; simpl.
    - apply set_insert_sorted, Hw.
    - intros e He. apply elem_of_set_insert in He as [->|He]; simpl.
      + exists t. split_and!; [done..|]. set_solver.
      + destruct (wf_timers _ Hw _ He) as (t' & ? & ? & ?). exists t'. split_and!; [done..|]. set_solver.
    - intros a Ha. apply elem_of_union in Ha as [->%elem_of_singleton|Ha]; simpl.
      + exists t. split_and!; [done..|]. apply elem_of_set_insert. by left.
      + destruct (wf_active _ Hw _ Ha) as (t' & ? & ? & ?). exists t'. split_and!; [done..|].
        apply elem_of_set_insert. by right.
    - rewrite set_insert_length, size_union, size_singleton by (done || set_solver). by rewrite (wf_sizes _ Hw).
    - apply Hw.
    - apply Hw. }
  exists q'. split_and!; [|done|done]. unfold tq_insert. rewrite (get_timer_Some _ _ _ Hp). mred.
  rewrite (wf_sizes_agree q Hw), !bool_decide_true by done. simpl.
  pose proof (wf_sizes_agree q' Hw') as E. unfold q', set_timers in E. by rewrite E.
Qed.

Lemma list_filter_iff_elem {A} (f g : A → Prop) `{∀ x, Decision (f x)} `{∀ x, Decision (g x)} (l : list A) :
  (∀ x, x ∈ l → f x ↔ g x) → filter f l = filter g l.
Proof.
  induction l as [|x l IH]; intros Hfg; [done|]. rewrite !filter_cons, IH by (intros; apply Hfg; by right).
  destruct (Hfg x) as [H1 H2]; [by left|]. repeat case_decide; tauto.
Qed.

Lemma cancel_ok q id :
  wf q →
  ∃ q', cancelInLoop q id = Ok q' ∧ wf q' ∧
    q' = if bool_decide (id ∈ m_activeTimers q)
         then mkTQ (filter (λ e, e.2 ≠ id.1) (m_timers q)) (m_activeTimers q ∖ {[id]})
                (is_callingExpiredTimers q) (m_cancelingTimers q) (delete id.1 (tq_heap q))
                (s_numCreated q) (tq_armed q) (tq_log q)
         else if is_callingExpiredTimers q
         then set_callingExpired q true ({[id]} ∪ m_cancelingTimers q) else q.
Proof.
  intros Hw. unfold cancelInLoop. rewrite (wf_sizes_agree q Hw). simpl.
  destruct (bool_decide (id ∈ m_activeTimers q)) eqn:Ea; bprop.
  2:{ destruct (is_callingExpiredTimers q) eqn:Ec; eexists; (split_and!; [done| |]); try done.
      destruct Hw. by split. }
  destruct (wf_active _ Hw _ Ea) as (t & Ht & Hs & Hin). rewrite (get_timer_Some _ _ _ Ht). mred.
  rewrite bool_decide_true by done. simpl.
  assert (Her : set_erase (m_expiration t, id.1) (m_timers q) = filter (λ e, e.2 ≠ id.1) (m_timers q)).
  { unfold set_erase. apply list_filter_iff_elem. intros [w p] He. simpl. split; [|congruence].
    intros Hne ->. apply Hne. destruct (wf_timers _ Hw _ He) as (t' & Ht' & E & _). simpl in *.
    congruence. }
  rewrite Her. set (q' := mkTQ (filter _ _) _ _ _ _ _ _ _).
  assert (wf q') as Hw'.
  { split; simpl.
    - apply filter_sorted, Hw.
    - intros e [Hne He]%list_elem_of_filter. destruct (wf_timers _ Hw _ He) as (t' & Ht' & ? & Ha).
      exists t'. rewrite lookup_delete_ne by done. split_and!; [done..|].
      apply elem_of_difference. split; [done|]. intros E%elem_of_singleton. by apply Hne; rewrite <- E.
    - intros a [Ha Hne]%elem_of_difference. destruct (wf_active _ Hw _ Ha) as (t' & Ht' & Hs' & ?).
      assert (a.1 ≠ id.1) as Hd.
      { intros E. apply Hne, elem_of_singleton. destruct a, id; simpl in *. subst. congruence. }
      exists t'. rewrite lookup_delete_ne by done. split_and!; [done..|]. by apply list_elem_of_filter.
    - rewrite size_difference, size_singleton by set_solver.
      rewrite <- (wf_sizes _ Hw), <- Her. pose proof (set_erase_length _ _ (sorted_nodup _ (wf_sorted _ Hw)) Hin).
      lia.
    - intros p' t'. rewrite lookup_delete_Some. intros [_ ?]. by eapply (wf_seq _ Hw).
    - intros p' t'. rewrite lookup_delete_Some. intros [_ ?]. by eapply (wf_addr _ Hw). }
  pose proof (wf_sizes_agree _ Hw') as Esz. rewrite Esz. exists q'. done.
Qed.
Section with_alloc.
Context (alloc : gmap Z Timer → option Z).
Context (alloc_ok : ∀ H p, alloc H = Some p → H !! p = None ∧ 0 < p < UINTPTR_MAX).

Lemma wf_new_timer q q' p cb when_ interval repeat :
  wf q → new_timer alloc q cb when_ interval repeat = Ok (q', p) →
  wf q' ∧ tq_heap q !! p = None ∧
  q' = mkTQ (m_timers q) (m_activeTimers q) (is_callingExpiredTimers q) (m_cancelingTimers q)
         (<[p := mkTimer cb when_ interval repeat (s_numCreated q + 1)]> (tq_heap q))
         (s_numCreated q + 1) (tq_armed q) (tq_log q).
Proof.
  intros Hw. unfold new_timer. destruct (alloc (tq_heap q)) as [p'|] eqn:Ea; [|done].
  intros [= <- <-]. destruct (alloc_ok _ _ Ea) as [Hfree Hr]. split_and!; [|done|done].
  split; simpl; [apply Hw| | |apply Hw| |].
  - intros e He. destruct (wf_timers _ Hw _ He) as (t & Ht & ?). exists t.
    rewrite lookup_insert_ne by congruence. done.
  - intros a Ha. destruct (wf_active _ Hw _ Ha) as (t & Ht & ?). exists t.
    rewrite lookup_insert_ne by congruence. done.
  - intros p t. rewrite lookup_insert_Some. intros [[<- <-]|[_ Ht]]; simpl; [lia|].
    pose proof (wf_seq _ Hw _ _ Ht). lia.
  - intros p t. rewrite lookup_insert_Some. intros [[<- <-]|[_ Ht]]; [done|]. by eapply (wf_addr _ Hw).
Qed.
Lemma addTimer_ok q cb when_ interval repeat :
  wf q →
  (∃ w, addTimer alloc q cb when_ interval repeat = Fail (FThrow w)) ∨
  ∃ q' p, addTimer alloc q cb when_ interval repeat = Ok (q', (p, s_numCreated q + 1)) ∧ wf q' ∧
    tq_heap q !! p = None ∧
    q' = mkTQ (set_insert (when_, p) (m_timers q)) ({[(p, s_numCreated q + 1)]} ∪ m_activeTimers q)
           (is_callingExpiredTimers q) (m_cancelingTimers q)
           (<[p := mkTimer cb when_ interval repeat (s_numCreated q + 1)]> (tq_heap q))
           (s_numCreated q + 1)
           (if match m_timers q with [] => true | it :: _ => when_ <? it.1 end
            then Some when_ else tq_armed q) (tq_log q).
Proof.
  intros Hw. unfold addTimer.
  destruct (new_timer alloc q cb when_ interval repeat) as [[q1 p]|f] eqn:En; mred.
  - right. destruct (wf_new_timer _ _ _ _ _ _ _ Hw En) as (Hw1 & Hfree & ->).
    set (t := mkTimer cb when_ interval repeat (s_numCreated q + 1)) in *.
    edestruct tq_insert_ok as (q2 & E & Hw2 & E2); [exact Hw1|apply lookup_insert_eq|..].
    { simpl. intros Ha. destruct (wf_active _ Hw _ Ha) as (t' & Ht' & _). simpl in Ht'. congruence. }
    unfold addTimerInLoop. rewrite E. mred. subst q2. simpl in *.
    rewrite (get_timer_Some _ p t) by apply lookup_insert_eq. mred.
    eexists _, p. split; [rewrite (get_timer_Some _ p t); [done|]|].
    { destruct (match m_timers q with [] => true | it :: _ => when_ <? it.1 end); apply lookup_insert_eq. }
    split_and!; [|done|].
    + destruct (match m_timers q with [] => true | it :: _ => when_ <? it.1 end); [|done].
      destruct Hw2. by split.
    + by destruct (match m_timers q with [] => true | it :: _ => when_ <? it.1 end).
  - left. unfold new_timer in En. destruct (alloc _); [done|]. injection En as <-. eauto.
Qed.

(** What the calls of a callback leave alone: the timers that are not in the
    queue, that is those that expired in this round (a cancel of one of those
    is remembered), and the timers in the queue that they do not cancel. *)
Definition frame (ops : list tq_op) (q q' : TimerQueue) : Prop :=
  is_callingExpiredTimers q' = is_callingExpiredTimers q ∧
  (∀ p t, tq_heap q !! p = Some t → (p, m_sequence t) ∉ m_activeTimers q →
    tq_heap q' !! p = Some t ∧ (p, m_sequence t) ∉ m_activeTimers q' ∧
    ((p, m_sequence t) ∈ m_cancelingTimers q' ↔
     ((p, m_sequence t) ∈ m_cancelingTimers q ∨ OpCancel (p, m_sequence t) ∈ ops))) ∧
  (∀ p t, tq_heap q !! p = Some t → (p, m_sequence t) ∈ m_activeTimers q →
    OpCancel (p, m_sequence t) ∉ ops →
    tq_heap q' !! p = Some t ∧ (p, m_sequence t) ∈ m_activeTimers q').

Lemma frame_trans ops1 ops2 q q1 q2 :
  frame ops1 q q1 → frame ops2 q1 q2 → frame (ops1 ++ ops2) q q2.
Proof.
  intros (C1 & F1 & G1) (C2 & F2 & G2). split_and!; [congruence|..]; intros p t Hp Ha.
  - destruct (F1 p t Hp Ha) as (Hp1 & Ha1 & E1). destruct (F2 p t Hp1 Ha1) as (Hp2 & Ha2 & E2).
    split_and!; [done..|]. rewrite E2, E1, elem_of_app. tauto.
  - rewrite not_elem_of_app. intros [N1 N2]. destruct (G1 p t Hp Ha N1) as [Hp1 Ha1]. by apply G2.
Qed.

Lemma frame_refl q : frame [] q q.
Proof. split_and!; [done| |done]. intros. rewrite elem_of_nil. tauto. Qed.

Lemma run_op_ok q o :
  wf q → is_callingExpiredTimers q = true →
  (∃ w, run_op alloc q o = Fail (FThrow w)) ∨
  ∃ q', run_op alloc q o = Ok q' ∧ wf q' ∧ frame [o] q q' ∧ tq_log q' = tq_log q.
Proof.
  intros Hw Hc. destruct o as [cb when_ interval repeat|id]; simpl.
  - destruct (addTimer_ok q cb when_ interval repeat Hw) as [(w & E)|(q' & p & E & Hw' & Hfree & Eq)];
      rewrite E; mred; [left; eauto|right]. exists q'. split_and!; [done..| |by rewrite Eq].
    rewrite Eq. split_and!; [done|..]; simpl; intros p' t' Hp' Ha';
      (assert (p' ≠ p) by congruence); rewrite lookup_insert_ne by done.
    + rewrite elem_of_union, elem_of_singleton, list_elem_of_singleton.
      split_and!; [done|intros [[= ? _]|?]; done|]. split; [by left|by intros [?|?]].
    + intros _. split; [done|]. apply elem_of_union. by right.
  - right. destruct (cancel_ok q id Hw) as (q' & E & Hw' & Eq). exists q'.
    rewrite E. destruct (bool_decide (id ∈ m_activeTimers q)) eqn:Ea; bprop; subst q'.
    + assert (Hid : ∀ p' t', tq_heap q !! p' = Some t' → p' = id.1 → id = (p', m_sequence t')).
      { intros p' t' Hp' ->. destruct (wf_active _ Hw _ Ea) as (t & ? & E2 & _).
        assert (t' = t) as -> by congruence. rewrite E2. by destruct id. }
      split_and!; [done..| |done]. split_and!; [done|..]; simpl; intros p' t' Hp' Ha'.
      * assert (p' ≠ id.1) by (intros E1; rewrite <- (Hid p' t' Hp' E1) in Ha'; done).
        rewrite lookup_delete_ne, list_elem_of_singleton by done. split_and!; [done|set_solver|].
        split; [by left|]. intros [?|[= <-]]; done.
      * rewrite list_elem_of_singleton. intros Hne.
        assert (p' ≠ id.1) by (intros E1; apply Hne; by rewrite <- (Hid p' t' Hp' E1)).
        rewrite lookup_delete_ne by done. split; [done|]. apply elem_of_difference. split; [done|].
        intros E1%elem_of_singleton. by rewrite E1 in Hne.
    + rewrite Hc in *. split_and!; [done..| |done]. split_and!; [done|..]; simpl; intros p' t' Hp' Ha'; [|done].
      rewrite elem_of_union, elem_of_singleton, list_elem_of_singleton. split_and!; [done..|].
      split; [intros [E1|?]; [right; by rewrite E1|by left]|intros [?|[= <-]]; [by right|by left]].
Qed.

Lemma run_ops_ok ops : ∀ q,
  wf q → is_callingExpiredTimers q = true →
  (∃ w, foldM (run_op alloc) q ops = Fail (FThrow w)) ∨
  ∃ q', foldM (run_op alloc) q ops = Ok q' ∧ wf q' ∧ frame ops q q' ∧ tq_log q' = tq_log q.
Proof.
  induction ops as [|o ops IH]; intros q Hw Hc; simpl.
  { right. exists q. split_and!; try done. apply frame_refl. }
  destruct (run_op_ok q o Hw Hc) as [(w & E)|(q1 & E & Hw1 & F1 & L1)]; rewrite E; mred; [left; eauto|].
  destruct (IH q1 Hw1) as [(w & E2)|(q2 & E2 & Hw2 & F2 & L2)]; [destruct F1; congruence|left; eauto|right].
  exists q2. split_and!; [done..| |congruence]. by apply (frame_trans [o] ops q q1).
Qed.

Context (script : nat → list tq_op).

(** The timers of a list of entries that are held outside the queue. *)
Definition held (q : TimerQueue) (es : list Entry) : Prop :=
  ∀ e, e ∈ es → ∃ t, tq_heap q !! e.2 = Some t ∧ (e.2, m_sequence t) ∉ m_activeTimers q.

Definition cb_of (q : TimerQueue) (e : Entry) : list nat :=
  match tq_heap q !! e.2 with Some t => [m_callback t] | None => [] end.

Lemma held_frame ops q q' es : held q es → frame ops q q' → held q' es ∧ ∀ e, e ∈ es → cb_of q' e = cb_of q e.
Proof.
  intros Hh (_ & F & _). split; intros e He; destruct (Hh e He) as (t & Ht & Ha);
    destruct (F _ _ Ht Ha) as (Ht' & Ha' & _).
  - eauto.
  - unfold cb_of. by rewrite Ht, Ht'.
Qed.

Lemma run_timer_ok q e t :
  wf q → is_callingExpiredTimers q = true → tq_heap q !! e.2 = Some t →
  (∃ w, run_timer alloc script q e = Fail (FThrow w)) ∨
  ∃ q', run_timer alloc script q e = Ok q' ∧ wf q' ∧ frame (script (m_callback t)) q q' ∧
    tq_log q' = tq_log q ++ [m_callback t].
Proof.
  intros Hw Hc Ht. unfold run_timer. rewrite (get_timer_Some _ _ _ Ht). mred.
  set (q0 := mkTQ _ _ _ _ _ _ _ _).
  assert (wf q0) as Hw0 by (destruct Hw; by split).
  destruct (run_ops_ok (script (m_callback t)) q0 Hw0 Hc) as [?|(q' & E & Hw' & F & L)]; [by left|right].
  exists q'. done.
Qed.

Lemma run_timers_ok es : ∀ q,
  wf q → is_callingExpiredTimers q = true → held q es →
  (∃ w, foldM (run_timer alloc script) q es = Fail (FThrow w)) ∨
  ∃ q', foldM (run_timer alloc script) q es = Ok q' ∧ wf q' ∧
    frame (concat (map script (concat (map (cb_of q) es)))) q q' ∧
    tq_log q' = tq_log q ++ concat (map (cb_of q) es).
Proof.
  induction es as [|e es IH]; intros q Hw Hc Hh; simpl.
  { right. exists q. rewrite app_nil_r. split_and!; try done. apply frame_refl. }
  destruct (Hh e) as (t & Ht & Ha); [by left|].
  destruct (run_timer_ok q e t Hw Hc Ht) as [(w & E)|(q1 & E & Hw1 & F1 & L1)]; rewrite E; mred; [left; eauto|].
  assert (held q es) as Hh' by (intros e' He'; apply Hh; by right).
  destruct (held_frame _ _ _ _ Hh' F1) as [Hh1 Ecb].
  assert (map (cb_of q1) es = map (cb_of q) es) as Em.
  { apply map_ext_in. intros e' He'. by apply Ecb, list_elem_of_In. }
  destruct (IH q1 Hw1) as [(w & E2)|(q2 & E2 & Hw2 & F2 & L2)]; [by destruct F1; congruence|done|left; eauto|right].
  rewrite Em in F2, L2. exists q2. unfold cb_of at 1 3. rewrite Ht, L2, L1, <- app_assoc. split_and!; [done..| |done].
  simpl. by eapply frame_trans.
Qed.
End with_alloc.

(** ** Expiry *)

Lemma set_timers_id q : set_timers q (m_timers q) (m_activeTimers q) = q.
Proof. by destruct q. Qed.

Lemma erase_actives_ok es : ∀ q,
  base.NoDup es.*2 →
  (∀ e, e ∈ es → ∃ t, tq_heap q !! e.2 = Some t ∧ (e.2, m_sequence t) ∈ m_activeTimers q) →
  (∀ a, a ∈ m_activeTimers q → ∃ t, tq_heap q !! a.1 = Some t ∧ m_sequence t = a.2) →
  ∃ A, foldM erase_active q es = Ok (set_timers q (m_timers q) A) ∧
    (∀ a, a ∈ A ↔ a ∈ m_activeTimers q ∧ a.1 ∉ es.*2) ∧
    (size A + length es = size (m_activeTimers q))%nat.
Proof.
  induction es as [|e es IH]; intros q Hnd Hin Hdet; cbn [foldM fmap list_fmap length].
  { exists (m_activeTimers q). rewrite set_timers_id. split_and!; [done| |lia].
    intros a. rewrite elem_of_nil. tauto. }
  apply NoDup_cons in Hnd as [Hni Hnd]. destruct (Hin e) as (t & Ht & Ha); [by left|].
  set (q1 := set_timers q (m_timers q) (m_activeTimers q ∖ {[(e.2, m_sequence t)]})).
  assert (erase_active q e = Ok q1) as ->.
  { unfold erase_active. rewrite (get_timer_Some _ _ _ Ht). mred. by rewrite bool_decide_true. }
  cbn [mbind res_bind].
  destruct (IH q1 Hnd) as (A & E & HA & Hsz).
  - intros e' He'. destruct (Hin e') as (t' & Ht' & Ha'); [by right|]. exists t'. split; [done|].
    simpl. apply elem_of_difference. split; [done|]. intros [= E _]%elem_of_singleton.
    apply Hni. rewrite <- E. by apply list_elem_of_fmap_2.
  - simpl. intros a [Ha' _]%elem_of_difference. by apply Hdet.
  - exists A. split_and!; [exact E| |].
    + intros a. rewrite HA. simpl. rewrite elem_of_difference, elem_of_singleton, not_elem_of_cons.
      split; [|intros (H1 & H2 & H3); split_and!; [done| |done]; by intros ->].
      intros ((H1 & H2) & H3). split_and!; [done| |done]. intros E1. apply H2.
      destruct (Hdet a H1) as (t' & Ht' & Hs). destruct a as [p s0]. simpl in *. subst p. congruence.
    + simpl in Hsz. rewrite size_difference, size_singleton in Hsz by set_solver.
      assert (0 < size (m_activeTimers q))%nat by (apply Nat.neq_0_lt_0; intros ?%size_empty_inv; set_solver).
      lia.
Qed.

(** Entries of the queue have different timers. *)
Lemma wf_nodup_addr q es : wf q → base.NoDup es → (∀ e, e ∈ es → e ∈ m_timers q) → base.NoDup es.*2.
Proof.
  intros Hw Hnd Hsub. apply NoDup_fmap_2_strong; [|done]. intros [t1 p1] [t2 p2] H1 H2 E. simpl in E. subst p2.
  destruct (wf_timers _ Hw _ (Hsub _ H1)) as (x & Hx & E1 & _).
  destruct (wf_timers _ Hw _ (Hsub _ H2)) as (y & Hy & E2 & _). simpl in *. congruence.
Qed.

Lemma filter_all {A} (f : A → Prop) `{∀ x, Decision (f x)} l : Forall f l → filter f l = l.
Proof. induction 1; [done|]. rewrite filter_cons, decide_True by done. by f_equal. Qed.

Lemma filter_none {A} (f : A → Prop) `{∀ x, Decision (f x)} l : Forall (λ x, ¬ f x) l → filter f l = [].
Proof. induction 1; [done|]. by rewrite filter_cons, decide_False. Qed.

(** The split of the set at the sentry is the split by expiration. *)
Lemma lower_bound_now q now a b :
  wf q → lower_bound (now, UINTPTR_MAX) (m_timers q) = (a, b) →
  m_timers q = a ++ b ∧ Forall (λ e, e.1 ≤ now) a ∧ Forall (λ e, ¬ e.1 ≤ now) b.
Proof.
  intros Hw E. destruct (lower_bound_split _ _ _ _ (wf_sorted _ Hw) E) as (Es & Ha & Hb).
  split_and!; [done|..].
  - eapply Forall_impl; [done|]. intros [w p]. unfold entry_lt. simpl. lia.
  - apply Forall_forall. intros e He. pose proof (proj1 (Forall_forall _ _) Hb e He) as Hn. simpl in Hn.
    destruct (wf_timers _ Hw e) as (t & Ht & _); [rewrite Es; apply elem_of_app; by right|].
    pose proof (wf_addr _ Hw _ _ Ht). unfold entry_lt in Hn. simpl in Hn. lia.
Qed.

Lemma wf_erased q a b A :
  wf q → m_timers q = a ++ b →
  (∀ x, x ∈ A ↔ x ∈ m_activeTimers q ∧ x.1 ∉ a.*2) → (size A + length a = size (m_activeTimers q))%nat →
  wf (set_timers q b A).
Proof.
  intros Hw Es HA Hsz.
  assert (Hnd : base.NoDup (a ++ b)) by (rewrite <- Es; apply sorted_nodup, Hw).
  split; simpl; [..|apply Hw|apply Hw].
  - eapply sorted_app_r. rewrite <- Es. apply Hw.
  - intros e He. destruct (wf_timers _ Hw e) as (t & Ht & E1 & E2); [rewrite Es; apply elem_of_app; by right|].
    exists t. split_and!; [done..|]. apply HA. split; [done|]. intros ((w & p) & Ep & Hin)%list_elem_of_fmap.
    simpl in Ep. subst p. destruct (wf_timers _ Hw (w, e.2)) as (t' & Ht' & E3 & _); [rewrite Es; apply elem_of_app; by left|].
    simpl in *. assert (t' = t) as -> by congruence. apply NoDup_app in Hnd as (_ & Hd & _).
    apply (Hd (w, e.2) Hin). destruct e as [w' p]. simpl in *. by assert (w = w') as -> by congruence.
  - intros x [Hx Hxa]%HA. destruct (wf_active _ Hw _ Hx) as (t & Ht & Hs & Hin). exists t. split_and!; [done..|].
    rewrite Es in Hin. apply elem_of_app in Hin as [Hin|]; [|done]. destruct Hxa.
    apply list_elem_of_fmap. by eexists (_, _).
  - pose proof (wf_sizes _ Hw) as E. rewrite Es, length_app in E. lia.
Qed.

Lemma getExpired_ok q now :
  wf q → m_timers q ≠ [] →
  ∃ A, let expired := filter (λ e, e.1 ≤ now) (m_timers q) in
    let q' := set_timers q (filter (λ e, ¬ e.1 ≤ now) (m_timers q)) A in
    getExpired q now = Ok (q', expired) ∧ wf q' ∧ held q' expired ∧ base.NoDup expired.*2.
Proof.
  intros Hw Hne. unfold getExpired. rewrite (wf_sizes_agree q Hw). simpl.
  destruct (lower_bound (now, UINTPTR_MAX) (m_timers q)) as [a b] eqn:El.
  destruct (lower_bound_now _ _ _ _ Hw El) as (Es & Ha & Hb).
  assert (filter (λ e, e.1 ≤ now) (m_timers q) = a) as Efa.
  { rewrite Es, filter_app, filter_all by done. rewrite filter_none by done. by rewrite app_nil_r. }
  assert (filter (λ e, ¬ e.1 ≤ now) (m_timers q) = b) as Efb.
  { rewrite Es, filter_app, filter_none, filter_all by (done || by eapply Forall_impl; [done|]; auto). done. }
  assert (Hin : ∀ e, e ∈ a → e ∈ m_timers q) by (intros; rewrite Es; apply elem_of_app; by left).
  assert (Hnd : base.NoDup a.*2).
  { eapply wf_nodup_addr; [done| |done]. pose proof (sorted_nodup _ (wf_sorted _ Hw)) as Hn.
    rewrite Es in Hn. by apply NoDup_app in Hn as (? & _). }
  destruct (erase_actives_ok a (set_timers q b (m_activeTimers q)) Hnd) as (A & E & HA & Hsz).
  { intros e He. destruct (wf_timers _ Hw e (Hin e He)) as (t & ? & _ & ?). eauto. }
  { intros x Hx. destruct (wf_active _ Hw x Hx) as (t & ? & ? & _). eauto. }
  simpl in HA, Hsz. assert (Hw' : wf (set_timers q b A)) by by eapply wf_erased.
  exists A. rewrite Efa, Efb. split_and!; [|done| |done].
  - assert ((match a, b with
      | _ :: _, _ => Ok tt | [], [] => Fail (FUndef "end->first with end == m_timers.end()")
      | [], e :: _ => cassert (now <? e.1) "end != m_timers.begin() || now < end->first" end) = Ok tt) as ->.
    { destruct a; [|done]. destruct b as [|e b]; [done|]. apply cassert_true. inversion Hb; subst. btrue. }
    mred. rewrite E. mred. simpl. pose proof (wf_sizes_agree _ Hw') as Esz. unfold set_timers in *. simpl in *.
    rewrite Esz. done.
  - intros e He. destruct (wf_timers _ Hw e (Hin e He)) as (t & Ht & _). exists t. split; [done|].
    simpl. intros [_ Hx]%HA. apply Hx. simpl. by apply list_elem_of_fmap_2.
Qed.

(** ** Re-arming *)

(** Which of the expired timers go back into the queue. *)
Definition goes_on (q : TimerQueue) (e : Entry) (t : Timer) : bool :=
  is_repeat t && negb (bool_decide ((e.2, m_sequence t) ∈ m_cancelingTimers q)).

(** Nothing else of the queue changes. *)
Definition same_side (q q' : TimerQueue) : Prop :=
  is_callingExpiredTimers q' = is_callingExpiredTimers q ∧ m_cancelingTimers q' = m_cancelingTimers q ∧
  s_numCreated q' = s_numCreated q ∧ tq_log q' = tq_log q.

Lemma reset1_ok q now e t :
  wf q → tq_heap q !! e.2 = Some t → (e.2, m_sequence t) ∉ m_activeTimers q →
  ∃ q', reset1 now q e = Ok q' ∧ wf q' ∧ same_side q q' ∧
    (if goes_on q e t then scheduled q' e.2 (Timer_restart t now) else tq_heap q' !! e.2 = None) ∧
    (∀ p, p ≠ e.2 → tq_heap q' !! p = tq_heap q !! p) ∧
    (∀ p n, p ≠ e.2 → (p, n) ∈ m_activeTimers q' ↔ (p, n) ∈ m_activeTimers q).
Proof.
  intros Hw Ht Ha. unfold reset1. rewrite (get_timer_Some _ _ _ Ht). mred. fold (goes_on q e t).
  assert (Hn : ∀ x, x ∈ m_activeTimers q → x.1 ≠ e.2).
  { intros x Hx E. destruct (wf_active _ Hw _ Hx) as (t' & Ht' & Hs & _). apply Ha. destruct x. simpl in *.
    congruence. }
  assert (Hn' : ∀ x, x ∈ m_timers q → x.2 ≠ e.2).
  { intros x Hx E. destruct (wf_timers _ Hw _ Hx) as (t' & Ht' & Hs & Ha'). by apply Hn in Ha'. }
  destruct (goes_on q e t).
  - set (q1 := mkTQ _ _ _ _ _ _ _ _).
    assert (wf q1) as Hw1.
    { split; simpl; try apply Hw.
      - intros x Hx. rewrite lookup_insert_ne by (apply not_eq_sym; auto). by apply (wf_timers _ Hw).
      - intros x Hx. rewrite lookup_insert_ne by (apply not_eq_sym; auto). by apply (wf_active _ Hw).
      - intros p t'. rewrite lookup_insert_Some. intros [[<- <-]|[_ ?]]; [exact (wf_seq _ Hw _ _ Ht)|by eapply (wf_seq _ Hw)].
      - intros p t'. rewrite lookup_insert_Some. intros [[<- <-]|[_ ?]]; [exact (wf_addr _ Hw _ _ Ht)|by eapply (wf_addr _ Hw)]. }
    destruct (tq_insert_ok q1 e.2 (Timer_restart t now) Hw1) as (q2 & E & Hw2 & ->);
      [apply lookup_insert_eq|done|]. rewrite E. mred. eexists. split_and!; try done; simpl.
    + split; simpl; [apply lookup_insert_eq|]. apply elem_of_set_insert. by left.
    + intros p Hp. by apply lookup_insert_ne.
    + intros p n Hp. rewrite elem_of_union, elem_of_singleton. split; [intros [[= ->]|]; done|by right].
  - eexists. split_and!; try done; simpl.
    + split; simpl; try apply Hw.
      * intros x Hx. rewrite lookup_delete_ne by (apply not_eq_sym; auto). by apply (wf_timers _ Hw).
      * intros x Hx. rewrite lookup_delete_ne by (apply not_eq_sym; auto). by apply (wf_active _ Hw).
      * intros p t'. rewrite lookup_delete_Some. intros [_ ?]. by eapply (wf_seq _ Hw).
      * intros p t'. rewrite lookup_delete_Some. intros [_ ?]. by eapply (wf_addr _ Hw).
    + apply lookup_delete_eq.
    + intros p Hp. by apply lookup_delete_ne.
Qed.

(** The fate of an expired timer. *)
Definition fate (q q' : TimerQueue) (now : Z) (e : Entry) (t : Timer) : Prop :=
  if goes_on q e t then scheduled q' e.2 (Timer_restart t now) else tq_heap q' !! e.2 = None.

Lemma resets_ok now es : ∀ q,
  wf q → held q es → base.NoDup es.*2 →
  ∃ q', foldM (reset1 now) q es = Ok q' ∧ wf q' ∧ same_side q q' ∧
    (∀ e t, e ∈ es → tq_heap q !! e.2 = Some t → fate q q' now e t) ∧
    (∀ p, p ∉ es.*2 → tq_heap q' !! p = tq_heap q !! p) ∧
    (∀ p n, p ∉ es.*2 → (p, n) ∈ m_activeTimers q' ↔ (p, n) ∈ m_activeTimers q).
Proof.
  induction es as [|e es IH]; intros q Hw Hh Hnd; cbn [foldM fmap list_fmap].
  { exists q. split_and!; try done. by intros e t He%elem_of_nil. }
  apply NoDup_cons in Hnd as [Hni Hnd]. destruct (Hh e) as (t & Ht & Ha); [by left|].
  destruct (reset1_ok q now e t Hw Ht Ha) as (q1 & E1 & Hw1 & S1 & F1 & O1 & A1). rewrite E1. cbn [mbind res_bind].
  assert (Hne : ∀ e', e' ∈ es → e'.2 ≠ e.2) by (intros e' He' E; apply Hni; rewrite <- E; by apply list_elem_of_fmap_2).
  destruct (IH q1) as (q' & E & Hw' & S' & F' & O' & A'); [done| |done|].
  { intros e' He'. destruct (Hh e') as (t' & Ht' & Ha'); [by right|]. exists t'.
    rewrite O1 by auto. split; [done|]. by rewrite A1 by auto. }
  destruct S1 as (C1 & C2 & C3 & C4), S' as (D1 & D2 & D3 & D4).
  exists q'. split_and!; [done|done|split_and!; congruence|..].
  - intros e' t' [->|He']%elem_of_cons Ht'.
    + assert (t' = t) as -> by congruence. unfold fate. destruct (goes_on q e t).
      * apply (wf_scheduled _ _ _ Hw1) in F1 as [F1 F2]. apply (wf_scheduled _ _ _ Hw').
        by rewrite O', A'.
      * by rewrite O'.
    + unfold fate, goes_on in *. rewrite <- C2. apply F'; [done|]. rewrite O1 by auto. done.
  - intros p [Hp1 Hp2]%not_elem_of_cons. by rewrite O', O1.
  - intros p n [Hp1 Hp2]%not_elem_of_cons. by rewrite A', A1.
Qed.

Lemma tq_reset_ok q es now :
  wf q → held q es → base.NoDup es.*2 →
  ∃ q', tq_reset q es now = Ok q' ∧ wf q' ∧ same_side q q' ∧
    (∀ e t, e ∈ es → tq_heap q !! e.2 = Some t → fate q q' now e t) ∧
    (∀ p t, p ∉ es.*2 → tq_heap q !! p = Some t → (p, m_sequence t) ∈ m_activeTimers q → scheduled q' p t) ∧
    (∀ e r, m_timers q' = e :: r → 0 < e.1 → tq_armed q' = Some e.1).
Proof.
  intros Hw Hh Hnd. unfold tq_reset.
  destruct (resets_ok now es q Hw Hh Hnd) as (q1 & E & Hw1 & S1 & F1 & O1 & A1). rewrite E. mred.
  assert (Hsch : ∀ p t, p ∉ es.*2 → tq_heap q !! p = Some t → (p, m_sequence t) ∈ m_activeTimers q → scheduled q1 p t).
  { intros p t Hp Ht Ha. apply (wf_scheduled _ _ _ Hw1). by rewrite O1, A1. }
  destruct (m_timers q1) as [|e r] eqn:Em.
  { exists q1. split_and!; try done. by rewrite Em. }
  destruct (wf_timers _ Hw1 e) as (t & Ht & He & _); [rewrite Em; by left|].
  rewrite (get_timer_Some _ _ _ Ht). mred. rewrite He. unfold Timestamp_valid.
  destruct (0 <? e.1) eqn:E0; bprop; eexists; (split_and!; [done|..]); try done.
  - destruct Hw1. by split.
  - simpl. rewrite Em. by intros e' r' [= <- <-].
  - rewrite Em. intros e' r' [= <- <-] ?. lia.
Qed.

(** ** Properties *)

(** The calls the callbacks of the due timers make, in order. *)
Definition due (q : TimerQueue) (now : Z) : list Entry := filter (λ e, e.1 ≤ now) (m_timers q).
Definition due_callbacks (q : TimerQueue) (now : Z) : list nat := concat (map (cb_of q) (due q now)).


(** An allocator: the first free address. *)
Definition first_free (H : gmap Z Timer) : option Z :=
  snd <$> list_find (λ p, H !! p = None) (map Z.of_nat (seq 1 4096)).

Lemma first_free_ok H p : first_free H = Some p → H !! p = None ∧ 0 < p < UINTPTR_MAX.
Proof.
  unfold first_free. intros ((i & p') & Hf & E)%fmap_Some. simpl in E. subst p'.
  apply list_find_Some in Hf as (Hi & Hn & _). split; [done|].
  apply list_elem_of_lookup_2, list_elem_of_fmap in Hi as (n & -> & Hn'%elem_of_seq). unfold UINTPTR_MAX. lia.
Qed.

Lemma wf_empty n : wf (TimerQueue_ctor n).
Proof.
  split; simpl.
  - constructor.
  - by intros e ?%elem_of_nil.
  - by intros a ?%elem_of_empty.
  - done.
  - intros p t. by rewrite lookup_empty.
  - intros p t. by rewrite lookup_empty.
Qed.

(** The timerfd is set no later than the earliest timer. *)
Definition armed_in_time (q : TimerQueue) : Prop :=
  ∀ e, e ∈ m_timers q → ∃ a, tq_armed q = Some a ∧ a ≤ e.1.

Lemma sorted_head_le x s e : StronglySorted entry_lt (x :: s) → e ∈ x :: s → x.1 ≤ e.1.
Proof.
  intros Hs [->|He]%elem_of_cons; [done|]. apply StronglySorted_inv in Hs as [_ Hall].
  pose proof (proj1 (Forall_forall _ _) Hall e He). unfold entry_lt in *. lia.
Qed.

Lemma run_op_armed alloc q o :
  (∀ H p, alloc H = Some p → H !! p = None ∧ 0 < p < UINTPTR_MAX) →
  wf q → armed_in_time q →
  (∃ w, run_op alloc q o = Fail (FThrow w)) ∨
  ∃ q', run_op alloc q o = Ok q' ∧ wf q' ∧ armed_in_time q'.
Proof.
  intros Hal Hw Harm. destruct o as [cb when_ interval repeat|id]; simpl.
  - destruct (addTimer_ok alloc Hal q cb when_ interval repeat Hw)
      as [(w & E)|(q' & p & E & Hw' & _ & Eq)]; rewrite E; mred; [left; eauto|right].
    exists q'. split_and!; [done..|]. rewrite Eq. unfold armed_in_time. simpl.
    destruct (m_timers q) as [|x s] eqn:Em.
    { intros e ->%list_elem_of_singleton. by exists when_. }
    destruct (Harm x) as (a & Ha & Hle); [rewrite Em; by left|].
    intros e He. assert (e = (when_, p) ∨ x.1 ≤ e.1) as Hcase.
    { apply (elem_of_set_insert e (when_, p) (x :: s)) in He as [->|He]; [by left|right].
      eapply sorted_head_le; [|done]. rewrite <- Em. apply Hw. }
    destruct (when_ <? x.1) eqn:E1; bprop.
    + exists when_. split; [done|]. destruct Hcase as [->|?]; simpl; lia.
    + exists a. split; [done|]. destruct Hcase as [->|?]; simpl; lia.
  - right. destruct (cancel_ok q id Hw) as (q' & E & Hw' & Eq). exists q'. split_and!; [done..|].
    rewrite Eq. destruct (bool_decide _); [|destruct (is_callingExpiredTimers q); done].
    intros e [_ He]%list_elem_of_filter. by apply Harm.
Qed.


Definition demo_timer_ops : list tq_op :=
  [OpAdd 1%nat 500 0 false; OpAdd 2%nat 300 100 true; OpAdd 3%nat 300 0 false; OpCancel (1, 1)].


(** TimerQueue::cancelInLoop removes exactly the timer its TimerId names:
    afterwards a timer is scheduled if and only if it was scheduled and is not
    that one.  An id whose timer is gone removes nothing, also when a newer
    timer lives at the same address. *)
Theorem cancel_exact (q : TimerQueue) (id : ActiveTimer) :
  wf q →
  ∃ q', cancelInLoop q id = Ok q' ∧ wf q' ∧
    ∀ p t, scheduled q' p t ↔ scheduled q p t ∧ (p, m_sequence t) ≠ id.
Proof.
  intros Hw. destruct (cancel_ok q id Hw) as (q' & E & Hw' & Eq). exists q'. split_and!; [done..|].
  intros p t. rewrite (wf_scheduled _ _ _ Hw), (wf_scheduled _ _ _ Hw'), Eq.
  destruct (bool_decide (id ∈ m_activeTimers q)) eqn:Ea; bprop.
  - simpl. rewrite elem_of_difference, elem_of_singleton, lookup_delete_Some. split; [tauto|].
    intros ((Ht & Ha) & Hne). split_and!; [|done|done|done]. intros Ep.
    destruct (wf_active _ Hw _ Ea) as (t' & Ht' & Hs & _). apply Hne. destruct id as [p' n']. simpl in *. congruence.
  - assert (Hne : (p, m_sequence t) ∈ m_activeTimers q → (p, m_sequence t) ≠ id) by (intros ? <-; done).
    destruct (is_callingExpiredTimers q); simpl; tauto.
Qed.

(** Two timers; the second one lives at the address of a cancelled one. *)
Definition demo_queue : TimerQueue :=
  mkTQ [(300, 1)] {[(1, 2)]} false ∅ {[1 := mkTimer 2 300 100 true 2]} 2 (Some 300) [].

Lemma demo_queue_wf : wf demo_queue.
Proof.
  split; simpl.
  - repeat constructor.
  - intros e ->%list_elem_of_singleton. by exists (mkTimer 2 300 100 true 2).
  - intros a ->%elem_of_singleton. exists (mkTimer 2 300 100 true 2). split_and!; [done..|]. by left.
  - done.
  - intros p t [<- <-]%lookup_singleton_Some. done.
  - intros p t [<- <-]%lookup_singleton_Some. unfold UINTPTR_MAX. lia.
Qed.

Lemma cancel_exact_witness :
  ∃ q', cancelInLoop demo_queue (1, 1) = Ok q' ∧ wf q' ∧
    ∀ p t, scheduled q' p t ↔ scheduled demo_queue p t ∧ (p, m_sequence t) ≠ (1, 1).
Proof. exact (cancel_exact demo_queue (1, 1) demo_queue_wf). Defined.


(** When the timerfd fires while no timer is scheduled (a timer was added
    and cancelled; cancel does not disarm the timerfd), getExpired evaluates
    its assertion on [m_timers.end()], which is undefined behaviour. *)
Theorem cancelled_timer_fires_undefined :
  ∃ q, foldM (run_op first_free) (TimerQueue_ctor 0) [OpAdd 1%nat 500 0 false; OpCancel (1, 1)] = Ok q ∧
    tq_armed q = Some 500 ∧ m_timers q = [] ∧
    ∀ script now, tq_handleRead first_free script q now
      = Fail (FUndef "end->first with end == m_timers.end()").
Proof. eexists. split_and!; [vm_compute; reflexivity|done|done|]. done. Qed.

(** howMuchTimeFromNow: the relative time given to timerfd_settime is a
    valid timespec, never zero (which would disarm the timer): it is the
    distance to the expiration, raised to 100 microseconds. *)
Theorem howMuchTimeFromNow_valid (when_ now : Z) :
  let '(sec, nsec) := howMuchTimeFromNow when_ now in
  0 ≤ sec ∧ 0 ≤ nsec < 10 ^ 9 ∧
  sec * 10 ^ 9 + nsec = Z.max 100 (when_ - now) * 1000.
Proof.
  unfold howMuchTimeFromNow, kMicroSecondsPerSecond.
  assert ((if when_ - now <? 100 then 100 else when_ - now) = Z.max 100 (when_ - now)) as ->
    by (destruct (_ <? _) eqn:E; bprop; lia).
  set (us := Z.max 100 (when_ - now)). assert (100 ≤ us) by lia.
  rewrite Z.quot_div_nonneg, Z.rem_mod_nonneg by lia.
  change (1000 * 1000) with 1000000. change (10 ^ 9) with 1000000000.
  pose proof (Z.div_mod us 1000000 ltac:(lia)). pose proof (Z.mod_pos_bound us 1000000 ltac:(lia)).
  split_and!; [apply Z.div_pos|..]; lia.
Qed.
