(* ===== verification/Timers.v ===== *)
(** * Timers of a loop: EventLoop::runAt, runAfter, runEvery, cancel
      (src/dc/net/eventLoop.cc) and the life of a timer in
      src/dc/net/timerQueue.cc

    addTimer and cancel may be called in any thread: the call that changes the
    queue is handed over by runInLoop, so a timer exists before the queue
    knows it.  The state here is the queue with the calls that wait in the
    loop; TimerQueue's destructor deletes the timers that are scheduled. *)

From S2P Require Import Prelude TimerQueue.

Open Scope Z_scope.

(** ** Operations *)

(** The functors that runInLoop queues. *)
Inductive tq_functor : Type := FAddTimer (timer : Z) | FCancel (timerId : ActiveTimer).

Record LoopTimers : Type := mkTimers {
  t_queue : TimerQueue;
  t_pending : list tq_functor;
}.

Definition LoopTimers_ctor (numCreated : Z) : LoopTimers := mkTimers (TimerQueue_ctor numCreated) [].

Section operations.
Context (alloc : gmap Z Timer → option Z).

(** The functor when its turn comes. *)
Definition run_functor (q : TimerQueue) (f : tq_functor) : res TimerQueue :=
  match f with FAddTimer p => addTimerInLoop q p | FCancel id => cancelInLoop q id end.

(** [runInLoop]: at once in the loop thread, queued otherwise. *)
Definition timers_runInLoop (inLoop : bool) (s : LoopTimers) (f : tq_functor) : res LoopTimers :=
  if inLoop then q ← run_functor (t_queue s) f; Ok (mkTimers q (t_pending s))
  else Ok (mkTimers (t_queue s) (t_pending s ++ [f])).

(** [TimerQueue::addTimer] up to its return statement: the timer's address.
    The statement then reads the sequence number of the timer ([timer_id]). *)
Definition post_timer (inLoop : bool) (s : LoopTimers) (cb : nat) (when_ interval : Z) : res (LoopTimers * Z) :=
  '(q, p) ← new_timer alloc (t_queue s) cb when_ interval (0 <? interval);
  s1 ← timers_runInLoop inLoop (mkTimers q (t_pending s)) (FAddTimer p);
  Ok (s1, p).

Definition timer_id (s : LoopTimers) (p : Z) : res ActiveTimer :=
  timer ← get_timer (t_queue s) p;
  Ok (p, m_sequence timer).

(** [EventLoop::runAt], [runAfter], [runEvery]: [now] is Timestamp::now(). *)
Definition runAt (inLoop : bool) (s : LoopTimers) (time : Z) (cb : nat) : res (LoopTimers * Z) :=
  post_timer inLoop s cb time 0.
Definition runAfter (inLoop : bool) (s : LoopTimers) (now delay : Z) (cb : nat) : res (LoopTimers * Z) :=
  runAt inLoop s (addTime now delay) cb.
Definition runEvery (inLoop : bool) (s : LoopTimers) (now interval : Z) (cb : nat) : res (LoopTimers * Z) :=
  post_timer inLoop s cb (addTime now interval) interval.

(** [EventLoop::cancel] and [TimerQueue::cancel] *)
Definition cancel (inLoop : bool) (s : LoopTimers) (timerId : ActiveTimer) : res LoopTimers :=
  timers_runInLoop inLoop s (FCancel timerId).

(** The loop calls the queued functors. *)
Definition run_pending (s : LoopTimers) : res LoopTimers :=
  q ← foldM run_functor (t_queue s) (t_pending s);
  Ok (mkTimers q []).

(** [delete timer] *)
Definition delete_timer (heap : gmap Z Timer) (e : Entry) : res (gmap Z Timer) :=
  match heap !! e.2 with Some _ => Ok (delete e.2 heap) | None => Fail (FUndef "delete of a deleted timer") end.

(** [TimerQueue::~TimerQueue]: the timers that still exist afterwards. *)
Definition TimerQueue_dtor (q : TimerQueue) : res (gmap Z Timer) := foldM delete_timer (tq_heap q) (m_timers q).

Context (script : nat → list tq_op).

Inductive timers_event : Type :=
  | EvRunAt (inLoop : bool) (time : Z) (cb : nat)
  | EvRunAfter (inLoop : bool) (now delay : Z) (cb : nat)
  | EvRunEvery (inLoop : bool) (now interval : Z) (cb : nat)
  | EvCancel (inLoop : bool) (timerId : ActiveTimer)
  | EvPending                     (* doPendingFunctors *)
  | EvExpired (now : Z).          (* the timerfd is readable *)

Definition timers_step (s : LoopTimers) (v : timers_event) : res LoopTimers :=
  match v with
  | EvRunAt inLoop time cb => '(s1, _) ← runAt inLoop s time cb; Ok s1
  | EvRunAfter inLoop now delay cb => '(s1, _) ← runAfter inLoop s now delay cb; Ok s1
  | EvRunEvery inLoop now interval cb => '(s1, _) ← runEvery inLoop s now interval cb; Ok s1
  | EvCancel inLoop id => cancel inLoop s id
  | EvPending => run_pending s
  | EvExpired now => q ← tq_handleRead alloc script (t_queue s) now; Ok (mkTimers q (t_pending s))
  end.
End operations.

(** ** Ownership of timers *)

(** The timers that exist and are not in the queue are those of [E]. *)
Record loose (E : gset Z) (q : TimerQueue) : Prop := mkLoose {
  loose_wf : wf q;
  loose_out p : p ∈ E → ∃ t, tq_heap q !! p = Some t ∧ (p, m_sequence t) ∉ m_activeTimers q;
  loose_owned p t : tq_heap q !! p = Some t → (p, m_sequence t) ∈ m_activeTimers q ∨ p ∈ E;
}.

Lemma loose_empty n : loose ∅ (TimerQueue_ctor n).
Proof. split; [apply wf_empty|set_solver|]. intros p t. simpl. by rewrite lookup_empty. Qed.

(** A timer of [E] enters the queue. *)
Lemma addTimerInLoop_loose E q p :
  loose E q → p ∈ E → ∃ q', addTimerInLoop q p = Ok q' ∧ loose (E ∖ {[p]}) q'.
Proof.
  intros HE Hp. destruct (loose_out _ _ HE _ Hp) as (t & Ht & Ha).
  destruct (tq_insert_ok q p t (loose_wf _ _ HE) Ht Ha) as (q1 & E1 & Hw1 & Eq). unfold addTimerInLoop.
  rewrite E1. mred. subst q1. rewrite (get_timer_Some _ p t) by done. mred. eexists. split; [done|].
  set (q2 := set_timers q _ _) in *.
  assert (H2 : loose (E ∖ {[p]}) q2).
  { split; [done|..]; simpl.
    - intros p' [Hin Hne]%elem_of_difference. destruct (loose_out _ _ HE _ Hin) as (t' & Ht' & Ha').
      exists t'. split; [done|]. rewrite elem_of_union, elem_of_singleton. intros [[= -> _]|?]; set_solver.
    - intros p' t' Ht'. rewrite elem_of_union, elem_of_singleton. destruct (decide (p' = p)) as [->|Hne].
      + left. left. congruence.
      + destruct (loose_owned _ _ HE _ _ Ht'); [tauto|set_solver]. }
  destruct (match m_timers q with [] => _ | _ => _ end); [|done].
  destruct H2 as [[] H2 H3]. split; [by split|done..].
Qed.

Lemma cancelInLoop_loose E q id : loose E q → ∃ q', cancelInLoop q id = Ok q' ∧ loose E q'.
Proof.
  intros HE. destruct (cancel_ok q id (loose_wf _ _ HE)) as (q' & E' & Hw & Eq). exists q'. split; [done|].
  split; [done|..]; rewrite Eq; destruct (bool_decide (id ∈ m_activeTimers q)) eqn:Ea; bprop;
    try (destruct (is_callingExpiredTimers q); simpl; apply HE); simpl.
  - intros p Hp. destruct (loose_out _ _ HE _ Hp) as (t & Ht & Ha).
    destruct (wf_active _ (loose_wf _ _ HE) _ Ea) as (t' & Ht' & Hs & _).
    exists t. rewrite lookup_delete_ne; [split; [done|set_solver]|].
    intros E0. apply Ha. assert (t' = t) as -> by congruence. destruct id. simpl in *. by subst.
  - intros p t [Hne Ht]%lookup_delete_Some. destruct (loose_owned _ _ HE _ _ Ht) as [Ha|]; [left|by right].
    apply elem_of_difference. split; [done|]. rewrite elem_of_singleton. intros <-. by simpl in Hne.
Qed.

(** What a step does: it returns a good state, or the allocator fails. *)
Definition returns {A} (P : A → Prop) (r : res A) : Prop :=
  match r with Ok a => P a | Fail (FThrow _) => True | Fail _ => False end.

Lemma returns_bind {A B} (P : A → Prop) (Q : B → Prop) (r : res A) (f : A → res B) :
  returns P r → (∀ a, P a → returns Q (f a)) → returns Q (r ≫= f).
Proof. destruct r as [a|[]]; simpl; auto. Qed.

Lemma returns_foldM {A S} (P : S → Prop) (f : S → A → res S) (l : list A) : ∀ s,
  P s → (∀ s a, a ∈ l → P s → returns P (f s a)) → returns P (foldM f s l).
Proof.
  induction l as [|a l IH]; intros s Hs Hf; [done|]. cbn [foldM]. eapply returns_bind; [apply (Hf s a); [by left|done]|].
  intros s' Hs'. apply IH; [done|]. intros s1 b Hb. apply Hf. by right.
Qed.

Section ownership.
Context (alloc : gmap Z Timer → option Z).
Hypothesis Hal : ∀ H p, alloc H = Some p → H !! p = None ∧ 0 < p < UINTPTR_MAX.

Lemma new_timer_loose E q q' p cb when_ interval repeat :
  loose E q → new_timer alloc q cb when_ interval repeat = Ok (q', p) → loose ({[p]} ∪ E) q' ∧ p ∉ E.
Proof.
  intros HE En. destruct (wf_new_timer alloc Hal _ _ _ _ _ _ _ (loose_wf _ _ HE) En) as (Hw & Hfree & ->).
  assert (p ∉ E) as Hp by (intros Hin; destruct (loose_out _ _ HE _ Hin) as (t & Ht & _); congruence).
  split; [|done]. split; [done|..]; simpl.
  - intros p'. destruct (decide (p' = p)) as [->|Hne].
    + intros _. rewrite lookup_insert_eq. eexists. split; [done|]. simpl. intros Ha.
      destruct (wf_active _ (loose_wf _ _ HE) _ Ha) as (t' & Ht' & _). simpl in Ht'. congruence.
    + rewrite lookup_insert_ne by done. intros [?|Hin]%elem_of_union; [set_solver|]. by apply (loose_out _ _ HE).
  - intros p' t'. rewrite lookup_insert_Some. intros [[<- <-]|[Hne Ht]]; [set_solver|].
    destruct (loose_owned _ _ HE _ _ Ht); [by left|set_solver].
Qed.

Lemma run_op_loose E q o : loose E q → returns (loose E) (run_op alloc q o).
Proof.
  intros HE. destruct o as [cb when_ interval repeat|id]; simpl.
  2:{ destruct (cancelInLoop_loose E q id HE) as (q' & -> & ?). done. }
  unfold addTimer. destruct (new_timer alloc q cb when_ interval repeat) as [[q1 p]|f] eqn:En; mred.
  - destruct (new_timer_loose _ _ _ _ _ _ _ _ HE En) as [H1 Hp].
    destruct (addTimerInLoop_loose _ q1 p H1) as (q2 & E2 & H2); [set_solver|]. rewrite E2. mred.
    replace (({[p]} ∪ E) ∖ {[p]}) with E in H2 by set_solver.
    unfold get_timer. destruct (tq_heap q2 !! p) as [t|] eqn:Et; simpl; [done|]. exfalso.
    unfold addTimerInLoop in E2. apply bind_Ok in E2 as ([q3 ec] & E3 & E2). cbn beta iota in E2. minv E2.
    unfold get_timer in Hm. assert (tq_heap q3 !! p = None) as Eh by by destruct ec. by rewrite Eh in Hm.
  - unfold new_timer in En. destruct (alloc (tq_heap q)); [done|]. by injection En as <-.
Qed.

Context (script : nat → list tq_op).

Lemma loose_log E q l : loose E q → loose E (mkTQ (m_timers q) (m_activeTimers q) (is_callingExpiredTimers q)
  (m_cancelingTimers q) (tq_heap q) (s_numCreated q) (tq_armed q) l).
Proof. intros [[] H1 H2]. split; [by split|done..]. Qed.

Lemma loose_calling E q b c : loose E q → loose E (set_callingExpired q b c).
Proof. intros [[] H1 H2]. split; [by split|done..]. Qed.

Lemma loose_armed E q w : loose E q → loose E (resetTimerfd q w).
Proof. intros [[] H1 H2]. split; [by split|done..]. Qed.

Lemma run_timer_loose E q e : loose E q → e.2 ∈ E → returns (loose E) (run_timer alloc script q e).
Proof.
  intros HE He. unfold run_timer. destruct (loose_out _ _ HE _ He) as (t & Ht & _).
  rewrite (get_timer_Some _ _ _ Ht). mred. apply returns_foldM; [by apply loose_log|].
  intros s o _. apply run_op_loose.
Qed.

Lemma getExpired_loose E q now :
  loose E q → m_timers q ≠ [] →
  ∃ q' es, getExpired q now = Ok (q', es) ∧ loose (list_to_set es.*2 ∪ E) q' ∧ base.NoDup es.*2 ∧
    ∀ p, p ∈ es.*2 → p ∉ E.
Proof.
  intros HE Hne. pose proof (loose_wf _ _ HE) as Hw. destruct (getExpired_ok q now Hw Hne) as (A & E1 & Hw1 & Hh & Hnd).
  set (es := filter (λ e, e.1 ≤ now) (m_timers q)) in *. set (q1 := set_timers q _ A) in *.
  assert (Hdis : ∀ p, p ∈ es.*2 → p ∉ E).
  { intros p (e & -> & He)%list_elem_of_fmap Hp. apply list_elem_of_filter in He as [_ He].
    destruct (wf_timers _ Hw _ He) as (t & Ht & _ & Ha). destruct (loose_out _ _ HE _ Hp) as (t' & Ht' & Ha').
    assert (t' = t) as -> by congruence. done. }
  exists q1, es. split_and!; [done| |done|done]. split; [done|..].
  - intros p [Hp|Hp]%elem_of_union.
    + apply elem_of_list_to_set, list_elem_of_fmap in Hp as (e & -> & He). by apply Hh.
    + destruct (loose_out _ _ HE _ Hp) as (t & Ht & Ha). exists t. split; [done|]. intros Ha1.
      destruct (wf_active _ Hw1 _ Ha1) as (t' & Ht' & _ & Hin). simpl in *.
      apply list_elem_of_filter in Hin as [_ Hin]. destruct (wf_timers _ Hw _ Hin) as (t2 & Ht2 & _ & Ha2). simpl in *.
      assert (t2 = t) as -> by congruence. done.
  - intros p t Ht. destruct (loose_owned _ _ HE _ _ Ht) as [Ha|]; [|set_solver].
    destruct (wf_active _ Hw _ Ha) as (t' & Ht' & _ & Hin). assert (t' = t) as -> by (simpl in *; congruence).
    destruct (decide (m_expiration t ≤ now)) as [Hle|Hgt].
    + right. apply elem_of_union_l, elem_of_list_to_set, list_elem_of_fmap. exists (m_expiration t, p). split; [done|].
      by apply list_elem_of_filter.
    + left. assert ((m_expiration t, p) ∈ m_timers q1) as Hin1 by by apply list_elem_of_filter.
      destruct (wf_timers _ Hw1 _ Hin1) as (t2 & Ht2 & _ & Ha2). simpl in *. congruence.
Qed.

Lemma reset1_loose E q now e :
  loose ({[e.2]} ∪ E) q → e.2 ∉ E → ∃ q', reset1 now q e = Ok q' ∧ loose E q'.
Proof.
  intros HE He. destruct (loose_out _ _ HE e.2) as (t & Ht & Ha); [set_solver|].
  destruct (reset1_ok q now e t (loose_wf _ _ HE) Ht Ha) as (q' & E' & Hw' & _ & Hfate & Hh & Hact).
  exists q'. split; [done|]. split; [done|..].
  - intros p Hp. assert (p ≠ e.2) by set_solver. destruct (loose_out _ _ HE p) as (t' & Ht' & Ha'); [set_solver|].
    exists t'. by rewrite Hh, Hact.
  - intros p t' Ht'. destruct (decide (p = e.2)) as [->|Hne].
    + destruct (goes_on q e t); [|congruence]. apply (wf_scheduled _ _ _ Hw') in Hfate as [H1 H2]. left. congruence.
    + rewrite Hh in Ht' by done. rewrite Hact by done. destruct (loose_owned _ _ HE _ _ Ht'); [by left|set_solver].
Qed.

Lemma tq_reset_loose now es : ∀ E q,
  loose (list_to_set es.*2 ∪ E) q → base.NoDup es.*2 → (∀ p, p ∈ es.*2 → p ∉ E) →
  ∃ q', foldM (reset1 now) q es = Ok q' ∧ loose E q'.
Proof.
  induction es as [|e es IH]; intros E q HE Hnd Hdis; cbn [foldM fmap list_fmap] in *.
  - exists q. split; [done|]. by replace (list_to_set [] ∪ E) with E in HE by set_solver.
  - apply NoDup_cons in Hnd as [Hni Hnd]. cbn [list_to_set foldr] in HE.
    destruct (reset1_loose (list_to_set es.*2 ∪ E) q now e) as (q1 & E1 & H1).
    + by replace ({[e.2]} ∪ (list_to_set es.*2 ∪ E)) with ({[e.2]} ∪ list_to_set es.*2 ∪ E) by set_solver.
    + intros [?%elem_of_list_to_set|?]%elem_of_union; [done|]. by apply (Hdis e.2); [left|].
    + rewrite E1. mred. apply IH; [done..|]. intros p Hp. apply Hdis. by right.
Qed.

Lemma handleRead_loose E q now :
  loose E q → m_timers q ≠ [] → returns (loose E) (tq_handleRead alloc script q now).
Proof.
  intros HE Hne. unfold tq_handleRead. destruct (getExpired_loose E q now HE Hne) as (q1 & es & -> & H1 & Hnd & Hdis). mred.
  eapply (returns_bind (loose (list_to_set es.*2 ∪ E))).
  - apply returns_foldM; [by apply loose_calling|]. intros s e He Hs. apply run_timer_loose; [done|].
    apply elem_of_union_l, elem_of_list_to_set, list_elem_of_fmap. eauto.
  - intros q2 H2. unfold tq_reset.
    destruct (tq_reset_loose now es E _ (loose_calling _ _ false (m_cancelingTimers q2) H2) Hnd Hdis) as (q3 & -> & H3). mred.
    destruct (m_timers q3) as [|e r] eqn:Em; [done|].
    destruct (wf_timers _ (loose_wf _ _ H3) e) as (t & Ht & _); [rewrite Em; by left|].
    rewrite (get_timer_Some _ _ _ Ht). mred. destruct (Timestamp_valid _); [by apply loose_armed|done].
Qed.
End ownership.

(** ** The loop's timers *)

(** The timers that wait to be inserted. *)
Definition posted (fs : list tq_functor) : list Z :=
  omap (λ f, match f with FAddTimer p => Some p | FCancel _ => None end) fs.

Definition timers_ok (s : LoopTimers) : Prop :=
  loose (list_to_set (posted (t_pending s))) (t_queue s) ∧ base.NoDup (posted (t_pending s)).

Lemma posted_app fs gs : posted (fs ++ gs) = posted fs ++ posted gs.
Proof. apply omap_app. Qed.

Lemma elem_of_posted p fs : p ∈ posted fs ↔ FAddTimer p ∈ fs.
Proof.
  unfold posted. rewrite list_elem_of_omap. split; [|intros H; by exists (FAddTimer p)].
  intros ([p'|id] & Hin & E); [|done]. by injection E as ->.
Qed.

(** What the timerfd of an empty queue runs into. *)
Definition empty_expiry : fault := FUndef "end->first with end == m_timers.end()".

Section timers.
Context (alloc : gmap Z Timer → option Z).
Hypothesis Hal : ∀ H p, alloc H = Some p → H !! p = None ∧ 0 < p < UINTPTR_MAX.
Context (script : nat → list tq_op).

Lemma run_pending_ok fs : ∀ q,
  loose (list_to_set (posted fs)) q → base.NoDup (posted fs) → ∃ q', foldM run_functor q fs = Ok q' ∧ loose ∅ q'.
Proof.
  induction fs as [|f fs IH]; intros q Hq Hnd; [by exists q|]. cbn [foldM]. destruct f as [p|id]; simpl in *.
  - apply NoDup_cons in Hnd as [Hni Hnd].
    destruct (addTimerInLoop_loose _ q p Hq) as (q1 & -> & H1); [set_solver|]. mred. apply IH; [|done].
    by replace (({[p]} ∪ list_to_set (posted fs)) ∖ {[p]}) with (list_to_set (posted fs) : gset Z) in H1 by set_solver.
  - destruct (cancelInLoop_loose _ q id Hq) as (q1 & -> & H1). mred. by apply IH.
Qed.

Lemma post_timer_ok inLoop s cb when_ interval :
  timers_ok s → returns (λ r, timers_ok r.1) (post_timer alloc inLoop s cb when_ interval).
Proof.
  intros [Hq Hnd]. unfold post_timer.
  destruct (new_timer alloc (t_queue s) cb when_ interval (0 <? interval)) as [[q p]|f] eqn:En; mred.
  2:{ unfold new_timer in En. destruct (alloc _); [done|]. by injection En as <-. }
  destruct (new_timer_loose alloc Hal _ _ _ _ _ _ _ _ Hq En) as [H1 Hp]. rewrite elem_of_list_to_set in Hp.
  unfold timers_runInLoop. destruct inLoop; cbn [run_functor t_queue t_pending].
  - destruct (addTimerInLoop_loose _ q p H1) as (q2 & -> & H2); [set_solver|]. mred. split; [|done].
    by replace (({[p]} ∪ list_to_set (posted (t_pending s))) ∖ {[p]})
      with (list_to_set (posted (t_pending s)) : gset Z) in H2 by set_solver.
  - mred. split; simpl; rewrite posted_app; simpl.
    + by replace (list_to_set (posted (t_pending s) ++ [p]) : gset Z) with ({[p]} ∪ list_to_set (posted (t_pending s)) : gset Z) by set_solver.
    + apply NoDup_app. split_and!; [done| |apply NoDup_singleton]. intros x Hx ->%list_elem_of_singleton. done.
Qed.

Lemma cancel_timers_ok inLoop s id : timers_ok s → ∃ s', cancel inLoop s id = Ok s' ∧ timers_ok s'.
Proof.
  intros [Hq Hnd]. unfold cancel, timers_runInLoop. destruct inLoop.
  - simpl. destruct (cancelInLoop_loose _ _ id Hq) as (q' & -> & H'). by eexists.
  - eexists. split; [done|]. split; simpl; rewrite posted_app, app_nil_r; done.
Qed.

Lemma empty_expires q now : wf q → m_timers q = [] → tq_handleRead alloc script q now = Fail empty_expiry.
Proof.
  intros Hw Hm. unfold tq_handleRead, getExpired. rewrite (wf_sizes_agree q Hw), Hm. done.
Qed.

Lemma timers_step_ok s v :
  timers_ok s → returns timers_ok (timers_step alloc script s v) ∨ timers_step alloc script s v = Fail empty_expiry.
Proof.
  intros Hs. assert (Hpost : ∀ inLoop cb when_ interval,
    returns timers_ok ('(s1, _) ← post_timer alloc inLoop s cb when_ interval; Ok s1)).
  { intros. eapply returns_bind; [by apply post_timer_ok|]. by intros [s1 p]. }
  destruct v as [inLoop time cb|inLoop now delay cb|inLoop now interval cb|inLoop id| |now]; cbn [timers_step].
  1-3: left; apply Hpost.
  - left. destruct (cancel_timers_ok inLoop s id Hs) as (s' & -> & ?). done.
  - left. destruct Hs as [Hq Hnd]. unfold run_pending. destruct (run_pending_ok _ _ Hq Hnd) as (q' & -> & H'). mred.
    split; [done|apply NoDup_nil_2].
  - destruct Hs as [Hq Hnd]. destruct (decide (m_timers (t_queue s) = [])) as [Em|Hne].
    + right. by rewrite (empty_expires _ _ (loose_wf _ _ Hq) Em).
    + left. eapply returns_bind; [by apply handleRead_loose|]. intros q H'. by split.
Qed.
End timers.

(** Deleting what is scheduled leaves what is not. *)
Lemma deletes_ok es : ∀ heap : gmap Z Timer,
  base.NoDup es.*2 → (∀ e, e ∈ es → is_Some (heap !! e.2)) →
  ∃ heap', foldM delete_timer heap es = Ok heap' ∧ ∀ p, heap' !! p = if decide (p ∈ es.*2) then None else heap !! p.
Proof.
  induction es as [|e es IH]; intros heap Hnd Hin; cbn [foldM fmap list_fmap] in *.
  - exists heap. split; [done|]. intros p. by rewrite decide_False by apply not_elem_of_nil.
  - apply NoDup_cons in Hnd as [Hni Hnd]. destruct (Hin e) as [t Ht]; [by left|].
    assert (delete_timer heap e = Ok (delete e.2 heap)) as -> by (unfold delete_timer; by rewrite Ht). mred.
    destruct (IH (delete e.2 heap) Hnd) as (heap' & E & Hh).
    { intros e' He'. rewrite lookup_delete_ne; [apply Hin; by right|]. intros E. apply Hni. rewrite E. by apply list_elem_of_fmap_2. }
    exists heap'. split; [done|]. intros p. rewrite Hh. destruct (decide (p = e.2)) as [->|Hne].
    + rewrite decide_False, decide_True by (done || by left). apply lookup_delete_eq.
    + rewrite lookup_delete_ne by done.
      destruct (decide (p ∈ es.*2)), (decide (p ∈ e.2 :: es.*2)) as [H|H]; try done; exfalso; set_solver.
Qed.

Lemma dtor_ok E q :
  loose E q → ∃ heap, TimerQueue_dtor q = Ok heap ∧ ∀ p, is_Some (heap !! p) ↔ p ∈ E.
Proof.
  intros HE. pose proof (loose_wf _ _ HE) as Hw.
  destruct (deletes_ok (m_timers q) (tq_heap q)) as (heap & E1 & Hh).
  - apply (wf_nodup_addr q); [done|apply sorted_nodup, Hw|done].
  - intros e He. destruct (wf_timers _ Hw _ He) as (t & Ht & _). eauto.
  - exists heap. split; [done|]. intros p. rewrite Hh. destruct (decide (p ∈ (m_timers q).*2)) as [Hp|Hp]; split.
    + by intros [? ?].
    + intros Hin. apply list_elem_of_fmap in Hp as (e & -> & He). destruct (wf_timers _ Hw _ He) as (t & Ht & _ & Ha).
      destruct (loose_out _ _ HE _ Hin) as (t' & Ht' & Ha'). assert (t' = t) as -> by congruence. done.
    + intros [t Ht]. destruct (loose_owned _ _ HE _ _ Ht) as [Ha|]; [|done].
      destruct (wf_active _ Hw _ Ha) as (t' & _ & _ & Hin). destruct Hp. apply list_elem_of_fmap. by exists (m_expiration t', p).
    + intros Hin. destruct (loose_out _ _ HE _ Hin) as (t & Ht & _). eauto.
Qed.

(** ** Properties *)


(** A one-shot timer fires while a repeating one, added in another thread, is
    cancelled by its callback. *)
Definition demo_script (cb : nat) : list tq_op := if Nat.eqb cb 1 then [OpCancel (2, 2)] else [].
Definition demo_events : list timers_event :=
  [EvRunAt true 500 1%nat; EvRunEvery false 100 50 2%nat; EvPending; EvExpired 160; EvExpired 500; EvRunAfter false 600 5 3%nat].


(** addTimer called in another thread reads the sequence number of the timer
    after it has handed the timer to the loop: when the loop has run the
    timer by then, the timer is deleted. *)
Theorem posted_id_dangles :
  ∃ s p s', runAt first_free false (LoopTimers_ctor 0) 100 1%nat = Ok (s, p) ∧
    foldM (timers_step first_free (λ _, [])) s [EvPending; EvExpired 200] = Ok s' ∧
    timer_id s' p = Fail (FUndef "use of a deleted timer").
Proof. eexists _, _, _. split_and!; vm_compute; reflexivity. Qed.
