(* ===== verification/TcpConnection.v ===== *)
(** * TcpConnection: src/dc/net/tcpConnection.h, src/dc/net/tcpConnection.cc

    One connection: its state, its channel, its two buffers.  What a handler
    does to the outside is recorded in order in [c_trace]: changes of the
    channel's registration, bytes accepted by the socket, user callbacks,
    functors given to the loop.  What the kernel answers to write(2) and
    readv(2) is an argument of the handler.  The user callbacks that the code
    calls as the last thing of a handler may take data from the input buffer
    and call the public methods again; in the model those calls are the next
    operations of the run. *)

From S2P Require Import Prelude Buffer Channel Poller EventLoop.

Open Scope Z_scope.

Inductive StateE : Type := kDisconnected | kConnecting | kConnected | kDisconnecting.

#[global] Instance StateE_eq_dec : EqDecision StateE.
Proof. solve_decision. Defined.

Inductive effect : Type :=
  | EUpdate (g : chg)                 (* m_channel->enableReading() ... disableAll() *)
  | ERemove                           (* m_channel->remove() *)
  | EWire (bytes : list ascii)        (* bytes the socket accepted *)
  | EShutdownWrite                    (* m_socket->shutdownWrite() *)
  | EConnectionCb (up : bool)
  | EMessageCb
  | ECloseCb
  | EQueueWriteComplete               (* functors queued in the loop *)
  | EQueueHighWaterMark (len : Z)
  | EQueueForceClose
  | ERunAfterForceClose
  | EQueueSend (message : list ascii) (* calls handed over from another thread *)
  | EQueueShutdown
  | EQueueStartRead
  | EQueueStopRead.

Record TcpConnection : Type := mkConn {
  m_state : StateE;
  c_reading : bool;                   (* is_reading *)
  m_channel : Channel;
  m_inputBuffer : Buffer;
  m_outputBuffer : Buffer;
  m_highWaterMark : Z;
  m_writeCompleteCallback : bool;     (* the std::function is not empty *)
  m_highWaterMarkCallback : bool;
  c_trace : list effect;
}.

Definition kHighWaterMark : Z := 64 * 1024 * 1024.

(** [TcpConnection::TcpConnection] *)
Definition TcpConnection_ctor (sockfd : Z) (wcb hwcb : bool) : res TcpConnection :=
  b1 ← Buffer_ctor kInitialSize;
  b2 ← Buffer_ctor kInitialSize;
  Ok (mkConn kConnecting false
        (setErrorCallback (setCloseCallback (setWriteCallback (setReadCallback (Channel_ctor sockfd)))))
        b1 b2 kHighWaterMark wcb hwcb []).

Definition emit (c : TcpConnection) (e : effect) : TcpConnection :=
  mkConn (m_state c) (c_reading c) (m_channel c) (m_inputBuffer c) (m_outputBuffer c)
    (m_highWaterMark c) (m_writeCompleteCallback c) (m_highWaterMarkCallback c) (c_trace c ++ [e]).
Definition setState (c : TcpConnection) (s : StateE) : TcpConnection :=
  mkConn s (c_reading c) (m_channel c) (m_inputBuffer c) (m_outputBuffer c)
    (m_highWaterMark c) (m_writeCompleteCallback c) (m_highWaterMarkCallback c) (c_trace c).
Definition set_reading (c : TcpConnection) (b : bool) : TcpConnection :=
  mkConn (m_state c) b (m_channel c) (m_inputBuffer c) (m_outputBuffer c)
    (m_highWaterMark c) (m_writeCompleteCallback c) (m_highWaterMarkCallback c) (c_trace c).
Definition set_channel (c : TcpConnection) (ch : Channel) : TcpConnection :=
  mkConn (m_state c) (c_reading c) ch (m_inputBuffer c) (m_outputBuffer c)
    (m_highWaterMark c) (m_writeCompleteCallback c) (m_highWaterMarkCallback c) (c_trace c).
Definition set_input (c : TcpConnection) (b : Buffer) : TcpConnection :=
  mkConn (m_state c) (c_reading c) (m_channel c) b (m_outputBuffer c)
    (m_highWaterMark c) (m_writeCompleteCallback c) (m_highWaterMarkCallback c) (c_trace c).
Definition set_output (c : TcpConnection) (b : Buffer) : TcpConnection :=
  mkConn (m_state c) (c_reading c) (m_channel c) (m_inputBuffer c) b
    (m_highWaterMark c) (m_writeCompleteCallback c) (m_highWaterMarkCallback c) (c_trace c).

Definition connected (c : TcpConnection) : bool := bool_decide (m_state c = kConnected).
Definition disconnected (c : TcpConnection) : bool := bool_decide (m_state c = kDisconnected).

(** [TcpConnection::stateToString] *)
Definition stateToString (c : TcpConnection) : string :=
  match m_state c with
  | kDisconnected => "kDisconncted"
  | kConnecting => "kConnecting"
  | kConnected => "kConnected"
  | kDisconnecting => "kDisconnecting"
  end.

(** [m_channel->enableReading()] and the like. *)
Definition change (c : TcpConnection) (g : chg) : TcpConnection :=
  let ch := m_channel c in
  emit (set_channel c (set_addedToLoop (set_events ch (new_events g (m_events ch))) true)) (EUpdate g).

Definition EWOULDBLOCK : Z := 11.
Definition EPIPE : Z := 32.
Definition ECONNRESET : Z := 104.

(** What write(2) answers: the number of bytes taken, or errno. *)
Inductive write_result : Type := Wrote (n : Z) | WriteErr (err : Z).

(** [TcpConnection::sendInLoop(const void*, size_t)] *)
Definition sendInLoop (inLoop : bool) (write : list ascii → write_result) (c : TcpConnection)
    (data : list ascii) : res TcpConnection :=
  assertInLoopThread inLoop;;
  let len := zlen data in
  if disconnected c then Ok c
  else
    let '(c1, nwrote, remaining, faultError) :=
      if negb (isWriting (m_channel c)) && (readableBytes (m_outputBuffer c) =? 0) then
        match write data with
        | Wrote n =>
            let remaining := u64 (len - n) in
            let c0 := emit c (EWire (ztake n data)) in
            (if (remaining =? 0) && m_writeCompleteCallback c then emit c0 EQueueWriteComplete else c0,
             n, remaining, false)
        | WriteErr err =>
            (c, 0, len,
             if negb (err =? EWOULDBLOCK) then (err =? EPIPE) || (err =? ECONNRESET) else false)
        end
      else (c, 0, len, false) in
    cassert (remaining <=? len) "remaining <= len";;
    if negb faultError && (0 <? remaining) then
      let oldlen := readableBytes (m_outputBuffer c1) in
      let c2 := if (m_highWaterMark c1 <=? u64 (oldlen + remaining)) && (oldlen <? m_highWaterMark c1)
                   && m_highWaterMarkCallback c1
                then emit c1 (EQueueHighWaterMark (u64 (oldlen + remaining))) else c1 in
      b ← append_from (m_outputBuffer c2) data nwrote remaining;
      let c3 := set_output c2 b in
      Ok (if negb (isWriting (m_channel c3)) then change c3 EnableWriting else c3)
    else Ok c1.

(** [TcpConnection::send(const StringPiece&)]; send(string&&), send(const
    void*, int) and, with the buffer's content, send(Buffer* buf) do the same. *)
Definition send (inLoop : bool) (write : list ascii → write_result) (c : TcpConnection)
    (message : list ascii) : res TcpConnection :=
  if connected c then
    if inLoop then sendInLoop inLoop write c message
    else Ok (emit c (EQueueSend message))
  else Ok c.

(** [TcpConnection::send(Buffer* buf)]: the connection and the caller's buffer. *)
Definition send_buffer (inLoop : bool) (write : list ascii → write_result) (c : TcpConnection)
    (buf : Buffer) : res (TcpConnection * Buffer) :=
  if connected c then
    if inLoop then
      data ← read_at (peek buf) (readableBytes buf) (m_buffers buf);
      c1 ← sendInLoop inLoop write c data;
      Ok (c1, retrieveAll buf)
    else
      '(message, buf') ← retrieveAllAsString buf;
      Ok (emit c (EQueueSend message), buf')
  else Ok (c, buf).

(** [TcpConnection::shutdownInLoop] *)
Definition shutdownInLoop (inLoop : bool) (c : TcpConnection) : res TcpConnection :=
  assertInLoopThread inLoop;;
  Ok (if negb (isWriting (m_channel c)) then emit c EShutdownWrite else c).

(** [TcpConnection::shutdown] *)
Definition shutdown (inLoop : bool) (c : TcpConnection) : res TcpConnection :=
  if connected c then
    let c1 := setState c kDisconnecting in
    if inLoop then shutdownInLoop inLoop c1 else Ok (emit c1 EQueueShutdown)
  else Ok c.

Definition open_state (c : TcpConnection) : bool :=
  bool_decide (m_state c = kConnected) || bool_decide (m_state c = kDisconnecting).

(** [TcpConnection::handleClose] *)
Definition handleClose (inLoop : bool) (c : TcpConnection) : res TcpConnection :=
  assertInLoopThread inLoop;;
  cassert (open_state c) "m_state == kConnected || m_state == kDisconnecting";;
  let c1 := change (setState c kDisconnected) DisableAll in
  Ok (emit (emit c1 (EConnectionCb false)) ECloseCb).

(** [TcpConnection::forceClose], [forceCloseWithDelay], [forceCloseInLoop] *)
Definition forceClose (c : TcpConnection) : TcpConnection :=
  if open_state c then emit (setState c kDisconnecting) EQueueForceClose else c.

Definition forceCloseWithDelay (c : TcpConnection) : TcpConnection :=
  if open_state c then emit (setState c kDisconnecting) ERunAfterForceClose else c.

Definition forceCloseInLoop (inLoop : bool) (c : TcpConnection) : res TcpConnection :=
  assertInLoopThread inLoop;;
  if open_state c then handleClose inLoop c else Ok c.

(** [TcpConnection::startReadInLoop], [stopReadInLoop] *)
Definition startReadInLoop (inLoop : bool) (c : TcpConnection) : res TcpConnection :=
  assertInLoopThread inLoop;;
  Ok (if negb (c_reading c) || negb (isReading (m_channel c))
      then set_reading (change c EnableReading) true else c).

Definition stopReadInLoop (inLoop : bool) (c : TcpConnection) : res TcpConnection :=
  assertInLoopThread inLoop;;
  Ok (if c_reading c || isReading (m_channel c)
      then set_reading (change c DisableReading) false else c).

Definition startRead (inLoop : bool) (c : TcpConnection) : res TcpConnection :=
  if inLoop then startReadInLoop inLoop c else Ok (emit c EQueueStartRead).
Definition stopRead (inLoop : bool) (c : TcpConnection) : res TcpConnection :=
  if inLoop then stopReadInLoop inLoop c else Ok (emit c EQueueStopRead).

(** [TcpConnection::connectEstablished] *)
Definition connectEstablished (inLoop : bool) (c : TcpConnection) : res TcpConnection :=
  assertInLoopThread inLoop;;
  cassert (bool_decide (m_state c = kConnecting)) "m_state == kConnecting";;
  let c1 := setState c kConnected in
  let c2 := set_channel c1 (tie (m_channel c1)) in
  Ok (emit (change c2 EnableReading) (EConnectionCb true)).

(** [TcpConnection::connectDestroyed] *)
Definition connectDestroyed (inLoop : bool) (c : TcpConnection) : res TcpConnection :=
  assertInLoopThread inLoop;;
  let c1 := if connected c
            then emit (change (setState c kDisconnected) DisableAll) (EConnectionCb false)
            else c in
  cassert (isNoneEvent (m_channel c1)) "isNoneEvent()";;
  Ok (emit (set_channel c1 (set_addedToLoop (m_channel c1) false)) ERemove).

(** [TcpConnection::~TcpConnection] *)
Definition TcpConnection_dtor (c : TcpConnection) : res unit :=
  cassert (bool_decide (m_state c = kDisconnected)) "m_state == kDisconnected".

(** [TcpConnection::handleError]: reads SO_ERROR and logs it. *)
Definition handleError (c : TcpConnection) : res TcpConnection := Ok c.

(** [TcpConnection::handleRead] *)
Definition handleRead (inLoop : bool) (readv : list Z → readv_result) (c : TcpConnection) :
    res TcpConnection :=
  assertInLoopThread inLoop;;
  r ← readFd readv (m_inputBuffer c);
  let '(n, _, b) := r : Z * option Z * Buffer in
  let c1 := set_input c b in
  if 0 <? n then Ok (emit c1 EMessageCb)
  else if n =? 0 then handleClose inLoop c1
  else handleError c1.

(** [TcpConnection::handleWrite] *)
Definition handleWrite (inLoop : bool) (write : list ascii → write_result) (c : TcpConnection) :
    res TcpConnection :=
  assertInLoopThread inLoop;;
  if isWriting (m_channel c) then
    data ← read_at (peek (m_outputBuffer c)) (readableBytes (m_outputBuffer c)) (m_buffers (m_outputBuffer c));
    match write data with
    | Wrote n =>
        if 0 <? n then
          b ← retrieve (m_outputBuffer c) (u64 n);
          let c1 := set_output (emit c (EWire (ztake n data))) b in
          if readableBytes b =? 0 then
            let c2 := change c1 DisableWriting in
            let c3 := if m_writeCompleteCallback c2 then emit c2 EQueueWriteComplete else c2 in
            if bool_decide (m_state c3 = kDisconnecting) then shutdownInLoop inLoop c3 else Ok c3
          else Ok c1
        else Ok c
    | WriteErr _ => Ok c
    end
  else Ok c.

(** ** Runs of a connection *)

Inductive conn_op : Type :=
  | OEstablished
  | OSend (w : list ascii → write_result) (m : list ascii)         (* send in the loop thread *)
  | OSendOther (m : list ascii)                                    (* send in another thread *)
  | OSendInLoop (w : list ascii → write_result) (m : list ascii)   (* the functor it queued *)
  | OShutdown (inLoop : bool)
  | OShutdownInLoop
  | OForceClose
  | OForceCloseWithDelay
  | OForceCloseInLoop
  | OStartRead (inLoop : bool)
  | OStopRead (inLoop : bool)
  | ORead (readv : list Z → readv_result)
  | OWrite (w : list ascii → write_result)
  | OHangup                                                        (* the close callback of the channel *)
  | OError
  | ODestroyed
  | OConsume (b : Buffer).                                         (* a callback takes input: [b] is left *)

Definition do_op (c : TcpConnection) (o : conn_op) : res TcpConnection :=
  match o with
  | OEstablished => connectEstablished true c
  | OSend w m => send true w c m
  | OSendOther m => send false (λ _, Wrote 0) c m
  | OSendInLoop w m => sendInLoop true w c m
  | OShutdown inLoop => shutdown inLoop c
  | OShutdownInLoop => shutdownInLoop true c
  | OForceClose => Ok (forceClose c)
  | OForceCloseWithDelay => Ok (forceCloseWithDelay c)
  | OForceCloseInLoop => forceCloseInLoop true c
  | OStartRead inLoop => startRead inLoop c
  | OStopRead inLoop => stopRead inLoop c
  | ORead readv => handleRead true readv c
  | OWrite w => handleWrite true w c
  | OHangup => handleClose true c
  | OError => handleError c
  | ODestroyed => connectDestroyed true c
  | OConsume b => Ok (set_input c b)
  end.

(** write(2) takes at most what it is given. *)
Definition write_fits (w : list ascii → write_result) : Prop :=
  ∀ d n, w d = Wrote n → 0 ≤ n ≤ zlen d.

(** When the loop and the owner call what: events are delivered to a channel
    that asked for them, functors run after the connection was established,
    reading is started while the connection is open, and the owner destroys a
    connection once, when it is connected or disconnected. *)
Definition enabled (c : TcpConnection) (o : conn_op) : Prop :=
  match o with
  | OEstablished => m_state c = kConnecting
  | OSend w m => write_fits w ∧ zlen m ≤ max_size
  | OSendInLoop w m => write_fits w ∧ zlen m ≤ max_size ∧ m_state c ≠ kConnecting
  | OShutdownInLoop => m_state c ≠ kConnecting
  | OStartRead true => open_state c = true
  | OStopRead true => is_addedToLoop (m_channel c) = true
  | ORead readv => isReading (m_channel c) = true ∧ readv_fits readv ∧
                   vsize (m_inputBuffer c) + extrabuf_size ≤ max_size
  | OWrite w => isWriting (m_channel c) = true ∧ write_fits w
  | OHangup => m_events (m_channel c) ≠ 0
  | ODestroyed => is_addedToLoop (m_channel c) = true ∧ (m_state c = kConnected ∨ m_state c = kDisconnected)
  | OConsume b => wf b
  | _ => True
  end.

(** The bytes a call to send takes charge of: all of the message, unless the
    connection is closed or the direct write fails with EPIPE or ECONNRESET. *)
Definition refused (w : list ascii → write_result) (c : TcpConnection) (m : list ascii) : bool :=
  negb (isWriting (m_channel c)) && (readableBytes (m_outputBuffer c) =? 0) &&
  match w m with WriteErr err => (err =? EPIPE) || (err =? ECONNRESET) | Wrote _ => false end.

Definition taken (c : TcpConnection) (o : conn_op) : list ascii :=
  match o with
  | OSend w m => if connected c && negb (refused w c m) then m else []
  | OSendInLoop w m => if negb (disconnected c) && negb (refused w c m) then m else []
  | _ => []
  end.

(** Projections of the trace. *)
Definition wire_of (es : list effect) : list ascii :=
  concat (map (λ e, match e with EWire d => d | _ => [] end) es).

Inductive cb : Type := Up | Down | Close.
Definition cbs_of (es : list effect) : list cb :=
  concat (map (λ e, match e with
    | EConnectionCb true => [Up] | EConnectionCb false => [Down] | ECloseCb => [Close] | _ => [] end) es).

Definition chan_ops (es : list effect) : list chan_op :=
  concat (map (λ e, match e with EUpdate g => [ChangeC 0%nat g] | ERemove => [CloseC 0%nat] | _ => [] end) es).

Inductive conn_run : TcpConnection → list ascii → TcpConnection → Prop :=
  | run_nil c : conn_run c [] c
  | run_step c o c1 t c2 :
      enabled c o → do_op c o = Ok c1 → conn_run c1 t c2 → conn_run c (taken c o ++ t) c2.

(** ** The invariant *)

Definition out (c : TcpConnection) : list ascii := content (m_outputBuffer c).

Definition live (c : TcpConnection) : bool :=
  bool_decide (m_state c = kConnecting) || is_addedToLoop (m_channel c).

(** The registry entry that the calls made so far leave. *)
Definition reg_phase (c : TcpConnection) : phase :=
  if is_addedToLoop (m_channel c) then if m_events (m_channel c) =? 0 then Off else On else Fresh.

Definition reg_state (c : TcpConnection) : gmap cid entry :=
  if live c then {[0%nat := mkEntry (m_fd (m_channel c)) (m_events (m_channel c)) (reg_phase c)]} else ∅.

Record inv (c : TcpConnection) : Prop := mkInv {
  inv_in : wf (m_inputBuffer c);
  inv_out : wf (m_outputBuffer c);
  inv_interest : interest (m_events (m_channel c));
  inv_io : match m_state c with
    | kConnecting => m_events (m_channel c) = 0 ∧ out c = [] ∧ is_addedToLoop (m_channel c) = false
    | kConnected | kDisconnecting =>
        isWriting (m_channel c) = bool_decide (out c ≠ []) ∧ is_addedToLoop (m_channel c) = true
    | kDisconnected => m_events (m_channel c) = 0
    end;
  inv_cbs : match m_state c with
    | kConnecting => cbs_of (c_trace c) = []
    | kConnected | kDisconnecting => cbs_of (c_trace c) = [Up]
    | kDisconnected => cbs_of (c_trace c) = [Up; Down; Close] ∨ cbs_of (c_trace c) = [Up; Down]
    end;
  inv_reg : spec_run ∅ (OpenC 0%nat (m_fd (m_channel c)) :: chan_ops (c_trace c)) = Some (reg_state c);
}.

(** What one operation achieves: it returns (or the buffer cannot grow), keeps
    the invariant, puts on the wire a prefix of what is owed, and shuts the
    write side of an open connection only when nothing is owed. *)
Definition good (c : TcpConnection) (t : list ascii) (r : res TcpConnection) : Prop :=
  match r with
  | Ok c' => ∃ es, c_trace c' = c_trace c ++ es ∧ inv c' ∧ wire_of es ++ out c' = out c ++ t ∧
      (EShutdownWrite ∈ es → out c' = [] ∨ m_state c' = kDisconnected)
  | Fail (FThrow _) => True
  | Fail _ => False
  end.

Lemma concat_map_app {A B} (f : A → list B) l1 l2 :
  concat (map f (l1 ++ l2)) = concat (map f l1) ++ concat (map f l2).
Proof. by rewrite map_app, concat_app. Qed.

Lemma wire_app es1 es2 : wire_of (es1 ++ es2) = wire_of es1 ++ wire_of es2.
Proof. apply concat_map_app. Qed.
Lemma cbs_app es1 es2 : cbs_of (es1 ++ es2) = cbs_of es1 ++ cbs_of es2.
Proof. apply concat_map_app. Qed.
Lemma chan_ops_app es1 es2 : chan_ops (es1 ++ es2) = chan_ops es1 ++ chan_ops es2.
Proof. apply concat_map_app. Qed.

Lemma spec_run_app R os1 os2 : spec_run R (os1 ++ os2) = (R' ← spec_run R os1; spec_run R' os2).
Proof.
  revert R. induction os1 as [|o os1 IH]; intros R; simpl; [done|].
  destruct (spec_step R o) as [R1|]; simpl; [apply IH|done].
Qed.

Lemma isWriting_events ch : interest (m_events ch) → isWriting ch = (m_events ch =? 4) || (m_events ch =? 7).
Proof. unfold isWriting. by intros [->|[->|[->| ->]]]. Qed.

Lemma isReading_events ch : interest (m_events ch) → isReading ch = (m_events ch =? 3) || (m_events ch =? 7).
Proof. unfold isReading. by intros [->|[->|[->| ->]]]. Qed.

(** A change of interest after the calls made so far. *)
Lemma reg_change fd es R ev ph g :
  spec_run ∅ (OpenC 0%nat fd :: chan_ops es) = Some R → R = {[0%nat := mkEntry fd ev ph]} →
  spec_run ∅ (OpenC 0%nat fd :: chan_ops (es ++ [EUpdate g])) =
    Some {[0%nat := mkEntry fd (new_events g ev) (next_phase ph (new_events g ev))]}.
Proof.
  intros H ->. rewrite chan_ops_app, app_comm_cons, spec_run_app, H. simpl.
  rewrite lookup_singleton_eq. simpl. by rewrite insert_singleton_eq.
Qed.

Lemma reg_remove fd es ev R :
  spec_run ∅ (OpenC 0%nat fd :: chan_ops es) = Some R → R = {[0%nat := mkEntry fd ev Off]} →
  spec_run ∅ (OpenC 0%nat fd :: chan_ops (es ++ [ERemove])) = Some ∅.
Proof.
  intros H ->. rewrite chan_ops_app, app_comm_cons, spec_run_app, H. simpl.
  by rewrite lookup_singleton_eq.
Qed.

Lemma out_readable c : wf (m_outputBuffer c) → (readableBytes (m_outputBuffer c) =? 0) = bool_decide (out c = []).
Proof.
  intros Hw. rewrite <- zlen_content by done. unfold out. destruct (content _) as [|x l].
  - done.
  - rewrite zlen_cons. pose proof (zlen_nonneg l). rewrite bool_decide_false by done.
    apply Z.eqb_neq. lia.
Qed.

(** ** Each operation *)

Lemma inv_emit c e : inv c → cbs_of [e] = [] → chan_ops [e] = [] → inv (emit c e).
Proof.
  intros [H1 H2 H3 H4 H5 H6] Ec Eo. split; simpl; try done.
  - rewrite cbs_app, Ec, app_nil_r. done.
  - rewrite chan_ops_app, Eo, app_nil_r. done.
Qed.

Lemma good_emit c e :
  inv c → cbs_of [e] = [] → chan_ops [e] = [] → wire_of [e] = [] → e ≠ EShutdownWrite → good c [] (Ok (emit c e)).
Proof.
  intros Hi Ec Eo Ew Hne. exists [e]. split_and!; [done|by apply inv_emit| |].
  - rewrite Ew, app_nil_r. done.
  - by intros <-%list_elem_of_singleton.
Qed.

Lemma good_same c : inv c → good c [] (Ok c).
Proof.
  intros Hi. exists []. rewrite !app_nil_r. split_and!; try done. by intros ?%elem_of_nil.
Qed.

(** The channel's registration changes. *)
Lemma inv_changed c c' g es2 :
  inv c → live c = true →
  is_addedToLoop (m_channel c) = true ∨ new_events g (m_events (m_channel c)) ≠ 0 →
  m_fd (m_channel c') = m_fd (m_channel c) →
  m_events (m_channel c') = new_events g (m_events (m_channel c)) →
  is_addedToLoop (m_channel c') = true →
  c_trace c' = (c_trace c ++ [EUpdate g]) ++ es2 → chan_ops es2 = [] →
  wf (m_inputBuffer c') → wf (m_outputBuffer c') →
  match m_state c' with
  | kConnecting => False
  | kDisconnected => m_events (m_channel c') = 0
  | _ => isWriting (m_channel c') = bool_decide (out c' ≠ [])
  end →
  match m_state c' with
  | kConnecting => False
  | kConnected | kDisconnecting => cbs_of (c_trace c') = [Up]
  | kDisconnected => cbs_of (c_trace c') = [Up; Down; Close] ∨ cbs_of (c_trace c') = [Up; Down]
  end → inv c'.
Proof.
  intros Hi Hl Hadd Efd Eev Ead Etr Eo Hin Hout Hio Hcb. pose proof (inv_reg _ Hi) as Hreg.
  unfold reg_state in Hreg. rewrite Hl in Hreg.
  split; [done|done| | | |].
  - rewrite Eev. apply interest_new, Hi.
  - destruct (m_state c'); try done.
  - by destruct (m_state c').
  - rewrite Etr, chan_ops_app, Eo, app_nil_r, Efd.
    rewrite (reg_change _ _ _ _ _ _ Hreg eq_refl). unfold reg_state, live, reg_phase.
    rewrite Ead, orb_true_r, Efd, Eev. do 3 f_equal. unfold reg_phase.
    destruct (is_addedToLoop (m_channel c)).
    + unfold next_phase. by destruct (m_events (m_channel c) =? 0).
    + simpl. destruct Hadd as [?|?]; [done|]. by rewrite (proj2 (Z.eqb_neq _ _)).
Qed.

Lemma open_cases c : open_state c = true → m_state c = kConnected ∨ m_state c = kDisconnecting.
Proof. unfold open_state. rewrite orb_true_iff, !bool_decide_eq_true. done. Qed.

Lemma inv_added c : inv c → open_state c = true → is_addedToLoop (m_channel c) = true.
Proof. intros Hi Ho. pose proof (inv_io _ Hi). destruct (open_cases _ Ho) as [E|E]; rewrite E in *; tauto. Qed.

Lemma inv_writing c : inv c → open_state c = true → isWriting (m_channel c) = bool_decide (out c ≠ []).
Proof. intros Hi Ho. pose proof (inv_io _ Hi). destruct (open_cases _ Ho) as [E|E]; rewrite E in *; tauto. Qed.

Lemma inv_up c : inv c → open_state c = true → cbs_of (c_trace c) = [Up].
Proof. intros Hi Ho. pose proof (inv_cbs _ Hi). destruct (open_cases _ Ho) as [E|E]; rewrite E in *; tauto. Qed.

Lemma live_added c : is_addedToLoop (m_channel c) = true → live c = true.
Proof. unfold live. intros ->. apply orb_true_r. Qed.

Lemma established_good c : inv c → m_state c = kConnecting → good c [] (connectEstablished true c).
Proof.
  intros Hi Hs. pose proof (inv_io _ Hi) as Hio. pose proof (inv_cbs _ Hi) as Hcb. rewrite Hs in *.
  destruct Hio as (He & Ho & Ha). unfold connectEstablished. simpl. rewrite bool_decide_true by done. simpl.
  exists [EUpdate EnableReading; EConnectionCb true]. split_and!.
  - simpl. by rewrite <- app_assoc.
  - eapply (inv_changed c _ EnableReading [EConnectionCb true]); try done; try apply Hi.
    + unfold live. by rewrite Hs.
    + right. simpl. by rewrite He.
    + simpl. unfold isWriting. simpl. rewrite He. unfold out in *. simpl. by rewrite Ho.
    + simpl. rewrite !cbs_app, Hcb. done.
  - simpl. by rewrite app_nil_r.
  - intros [?|[?|?%elem_of_nil]%elem_of_cons]%elem_of_cons; done.
Qed.

Lemma close_good c : inv c → open_state c = true → good c [] (handleClose true c).
Proof.
  intros Hi Ho. pose proof (inv_up _ Hi Ho) as Hcb. pose proof (inv_added _ Hi Ho) as Ha.
  unfold handleClose. simpl. rewrite Ho. simpl.
  exists [EUpdate DisableAll; EConnectionCb false; ECloseCb]. split_and!.
  - simpl. by rewrite <- !app_assoc.
  - eapply (inv_changed c _ DisableAll [EConnectionCb false; ECloseCb]); try done; try apply Hi.
    + by apply live_added.
    + by left.
    + simpl. by rewrite <- !app_assoc.
    + simpl. left. rewrite !cbs_app, Hcb. done.
  - simpl. by rewrite app_nil_r.
  - intros Hin. right. done.
Qed.

(** Only the state changes, between the two open states. *)
Lemma inv_disconnecting c : inv c → open_state c = true → inv (setState c kDisconnecting).
Proof.
  intros Hi Ho. pose proof (inv_writing _ Hi Ho). pose proof (inv_added _ Hi Ho). pose proof (inv_up _ Hi Ho).
  pose proof (inv_reg _ Hi) as Hr. unfold reg_state in Hr. rewrite live_added in Hr by done.
  destruct Hi. split; simpl; try done. unfold reg_state. by rewrite live_added.
Qed.

Lemma good_setState c c0 t r : c_trace c0 = c_trace c → out c0 = out c → good c0 t r → good c t r.
Proof. intros E1 E2. unfold good. by rewrite E1, E2. Qed.

Lemma shutdownInLoop_good c : inv c → m_state c ≠ kConnecting → good c [] (shutdownInLoop true c).
Proof.
  intros Hi Hs. unfold shutdownInLoop. simpl. destruct (isWriting (m_channel c)) eqn:Ew; simpl; [by apply good_same|].
  exists [EShutdownWrite]. split_and!; [done|by apply inv_emit|simpl; by rewrite app_nil_r|].
  intros _. pose proof (inv_io _ Hi) as Hio. simpl. unfold out in *. simpl in *.
  destruct (m_state c); [by right|done|..]; left; destruct Hio as [E _]; rewrite Ew in E;
    symmetry in E; apply bool_decide_eq_false in E; by apply dec_stable.
Qed.

Lemma shutdown_good c inLoop : inv c → good c [] (shutdown inLoop c).
Proof.
  intros Hi. unfold shutdown, connected. destruct (bool_decide _) eqn:E; bprop; [|by apply good_same].
  assert (open_state c = true) as Ho by (unfold open_state; by rewrite E).
  pose proof (inv_disconnecting _ Hi Ho) as Hi'.
  destruct inLoop.
  - apply (good_setState c (setState c kDisconnecting)); [done..|]. by apply shutdownInLoop_good.
  - apply (good_setState c (setState c kDisconnecting)); [done..|]. by apply good_emit.
Qed.

Lemma forceClose_good c e :
  inv c → cbs_of [e] = [] → chan_ops [e] = [] → wire_of [e] = [] → e ≠ EShutdownWrite →
  good c [] (Ok (if open_state c then emit (setState c kDisconnecting) e else c)).
Proof.
  intros Hi H1 H2 H3 H4. destruct (open_state c) eqn:Ho; [|by apply good_same].
  apply (good_setState c (setState c kDisconnecting)); [done..|].
  apply good_emit; try done. by apply inv_disconnecting.
Qed.

(** Turning reading on or off leaves the write interest alone. *)
Lemma reading_good c g b :
  inv c → is_addedToLoop (m_channel c) = true → (g = EnableReading ∨ g = DisableReading) →
  (g = EnableReading → open_state c = true) →
  good c [] (Ok (set_reading (change c g) b)).
Proof.
  intros Hi Ha Hg Hon. exists [EUpdate g]. split_and!; [done| |simpl; by rewrite app_nil_r|].
  - assert (Hw : isWriting (m_channel (change c g)) = isWriting (m_channel c)).
    { pose proof (inv_interest _ Hi) as Hint. rewrite (isWriting_events (m_channel c)) by done.
      rewrite isWriting_events by by apply interest_new. simpl.
      destruct Hint as [->|[->|[->| ->]]], Hg as [-> | ->]; done. }
    pose proof (inv_io _ Hi) as Hio. pose proof (inv_cbs _ Hi) as Hcb.
    eapply (inv_changed c _ g []); try done; try apply Hi.
    + by apply live_added.
    + by left.
    + simpl. by rewrite app_nil_r.
    + simpl in *. destruct (m_state c) eqn:Es.
      * destruct Hg as [-> | ->]; [by specialize (Hon eq_refl); unfold open_state in Hon; rewrite Es in Hon|].
        simpl. by rewrite Hio.
      * destruct Hio as (_ & _ & ?). congruence.
      * by rewrite Hw; destruct Hio as [-> _].
      * by rewrite Hw; destruct Hio as [-> _].
    + simpl in *. rewrite cbs_app. simpl. rewrite app_nil_r. destruct (m_state c); try done.
      destruct Hio as (_ & _ & ?). congruence.
  - by intros ?%list_elem_of_singleton.
Qed.

Lemma startRead_good c inLoop :
  inv c → (inLoop = true → open_state c = true) → good c [] (startRead inLoop c).
Proof.
  intros Hi Ho. destruct inLoop; [|by apply good_emit]. unfold startRead, startReadInLoop. simpl.
  destruct (_ || _); [|by apply good_same].
  apply reading_good; auto using inv_added.
Qed.

Lemma stopRead_good c inLoop :
  inv c → (inLoop = true → is_addedToLoop (m_channel c) = true) → good c [] (stopRead inLoop c).
Proof.
  intros Hi Ha. destruct inLoop; [|by apply good_emit]. unfold stopRead, stopReadInLoop. simpl.
  destruct (_ || _); [|by apply good_same]. by apply reading_good; auto.
Qed.

Lemma inv_set_input c b : inv c → wf b → inv (set_input c b).
Proof. intros [] ?. by split. Qed.

(** A channel with an interest belongs to an open connection. *)
Lemma inv_open c : inv c → m_events (m_channel c) ≠ 0 → open_state c = true.
Proof.
  intros Hi He. pose proof (inv_io _ Hi) as Hio. unfold open_state. destruct (m_state c); try done; tauto.
Qed.

Lemma isReading_some ch : interest (m_events ch) → isReading ch = true → m_events ch ≠ 0.
Proof. intros Hi. rewrite isReading_events by done. intros Hr E. by rewrite E in Hr. Qed.

Lemma isWriting_some ch : interest (m_events ch) → isWriting ch = true → m_events ch ≠ 0.
Proof. intros Hi. rewrite isWriting_events by done. intros Hr E. by rewrite E in Hr. Qed.

Lemma handleRead_good c readv :
  inv c → isReading (m_channel c) = true → readv_fits readv →
  vsize (m_inputBuffer c) + extrabuf_size ≤ max_size → good c [] (handleRead true readv c).
Proof.
  intros Hi Hr Hf Hv. unfold handleRead. simpl.
  assert (open_state c = true) as Ho by (apply inv_open; [done|by apply isReading_some; [apply Hi|]]).
  destruct (readv (if writableBytes (m_inputBuffer c) <? extrabuf_size
                   then [writableBytes (m_inputBuffer c); extrabuf_size]
                   else [writableBytes (m_inputBuffer c)])) as [err|data] eqn:E.
  - assert (readFd readv (m_inputBuffer c) = Ok (-1, Some err, m_inputBuffer c)) as ->
      by (unfold readFd; by rewrite E). cbn [mbind res_bind].
    assert (set_input c (m_inputBuffer c) = c) as -> by by destruct c. by apply good_same.
  - destruct (readFd_data readv (m_inputBuffer c) data) as (b' & E' & Hw & _);
      [apply Hi|by left|done|by apply (Hf _ _ E)|]. rewrite E'. cbn [mbind res_bind].
    pose proof (inv_set_input c b' Hi Hw) as Hi'.
    destruct (0 <? zlen data) eqn:E0.
    + apply (good_setState c (set_input c b')); [done..|]. by apply good_emit.
    + rewrite (proj2 (Z.eqb_eq _ _)) by (bprop; pose proof (zlen_nonneg data); lia).
      apply (good_setState c (set_input c b')); [done..|]. by apply close_good.
Qed.

Lemma read_content b : wf b → read_at (peek b) (readableBytes b) (m_buffers b) = Ok (content b).
Proof.
  intros Hw. rewrite read_peek; [|done|].
  - f_equal. apply ztake_all. by rewrite zlen_content.
  - split; [|lia]. rewrite <- zlen_content by done. apply zlen_nonneg.
Qed.

(** The output buffer and the wire after a write of [n] bytes. *)
Lemma inv_drained c b n :
  inv c → open_state c = true → wf b → content b = zdrop n (out c) → content b ≠ [] →
  inv (set_output (emit c (EWire (ztake n (out c)))) b).
Proof.
  intros Hi Ho Hw Hc Hne. pose proof (inv_writing _ Hi Ho) as E. pose proof (inv_added _ Hi Ho).
  assert (out c ≠ []) as Hne' by (intros E0; rewrite E0 in Hc; unfold zdrop in Hc; by rewrite drop_nil in Hc).
  destruct (inv_emit c (EWire (ztake n (out c))) Hi eq_refl eq_refl). split; simpl in *; try done.
  unfold out in *. simpl in *. rewrite bool_decide_true in E by done.
  destruct (open_cases _ Ho) as [Es|Es]; rewrite Es in *; rewrite bool_decide_true by done; done.
Qed.

Lemma disableWriting_off ch :
  interest (m_events ch) → isWriting (set_addedToLoop (set_events ch (new_events DisableWriting (m_events ch))) true) = false.
Proof. unfold isWriting. simpl. by intros [->|[->|[->| ->]]]. Qed.

Lemma enableWriting_on ch :
  interest (m_events ch) → isWriting (set_addedToLoop (set_events ch (new_events EnableWriting (m_events ch))) true) = true.
Proof. unfold isWriting. simpl. by intros [->|[->|[->| ->]]]. Qed.

(** The last bytes leave: the write interest is dropped. *)
Lemma inv_flushed c b d :
  inv c → open_state c = true → wf b → content b = [] →
  inv (change (set_output (emit c (EWire d)) b) DisableWriting).
Proof.
  intros Hi Ho Hw Hc. pose proof (inv_emit c (EWire d) Hi eq_refl eq_refl) as Hi'.
  pose proof (inv_added _ Hi Ho) as Ha. pose proof (inv_up _ Hi Ho) as Hup.
  eapply (inv_changed (emit c (EWire d)) _ DisableWriting []); try done; try apply Hi'.
  - by apply live_added.
  - by left.
  - simpl. by rewrite app_nil_r.
  - simpl. unfold out. simpl. rewrite Hc.
    rewrite disableWriting_off by apply Hi. destruct (open_cases _ Ho) as [Es|Es]; rewrite Es; done.
  - simpl. rewrite !cbs_app, Hup. destruct (open_cases _ Ho) as [Es|Es]; rewrite Es; done.
Qed.

Lemma good_after c c1 es1 t1 t r :
  c_trace c1 = c_trace c ++ es1 → wire_of es1 ++ out c1 ++ t1 = out c ++ t → EShutdownWrite ∉ es1 →
  good c1 t1 r → good c t r.
Proof.
  intros E1 W1 N1. destruct r as [c2|[]]; try done. intros (es & E & Hi & W & S).
  exists (es1 ++ es). split_and!; [by rewrite E, E1, app_assoc|done|..].
  - by rewrite wire_app, <- app_assoc, W.
  - intros [?|?]%elem_of_app; [done|auto].
Qed.

Lemma handleWrite_good c w :
  inv c → isWriting (m_channel c) = true → write_fits w → good c [] (handleWrite true w c).
Proof.
  intros Hi Hwr Hf. unfold handleWrite. cbn [assertInLoopThread mbind res_bind]. rewrite Hwr.
  assert (open_state c = true) as Ho by (apply inv_open; [done|by apply isWriting_some; [apply Hi|]]).
  rewrite read_content by apply Hi. cbn [mbind res_bind]. fold (out c).
  destruct (w (out c)) as [n|err] eqn:E; [|by apply good_same].
  destruct (0 <? n) eqn:E0; bprop; [|by apply good_same].
  destruct (Hf _ _ E) as [Hn0 Hn]. unfold out in Hn. rewrite zlen_content in Hn by apply Hi.
  assert (readableBytes (m_outputBuffer c) < 2 ^ 64) by apply uwrap_range, Zle_0_pos.
  rewrite u64_small by lia. destruct (retrieve_ok (m_outputBuffer c) n) as (b & Eb & Hwb & Hcb & _);
    [apply Hi|lia|]. rewrite Eb. cbn [mbind res_bind]. fold (out c) in Hcb.
  assert (Hwire : wire_of [EWire (ztake n (out c))] ++ content b = out c).
  { unfold wire_of. simpl. rewrite app_nil_r, Hcb. apply ztake_zdrop. }
  assert ((readableBytes b =? 0) = bool_decide (content b = [])) as ->
    by (apply (out_readable (set_output c b)); done).
  destruct (bool_decide (content b = [])) eqn:Ec; bprop.
  - set (c2 := change _ DisableWriting). assert (Hi2 : inv c2) by by apply inv_flushed.
    set (c3 := if m_writeCompleteCallback c2 then emit c2 EQueueWriteComplete else c2).
    assert (Hi3 : inv c3) by (unfold c3; destruct (m_writeCompleteCallback c2); [by apply inv_emit|done]).
    set (es := [EWire (ztake n (out c)); EUpdate DisableWriting] ++
               (if m_writeCompleteCallback c2 then [EQueueWriteComplete] else [])).
    apply (good_after c c3 es []).
    + unfold c3, es. destruct (m_writeCompleteCallback c2); simpl; rewrite <- ?app_assoc; done.
    + rewrite !app_nil_r, <- Hwire. unfold c3, es, out, wire_of.
      destruct (m_writeCompleteCallback c2); simpl; by rewrite ?app_nil_r.
    + unfold es. destruct (m_writeCompleteCallback c2); set_solver.
    + assert (m_state c3 = m_state c) as Es by (unfold c3; by destruct (m_writeCompleteCallback c2)).
      case_bool_decide as Hd; [|by apply good_same]. apply shutdownInLoop_good; [done|]. by rewrite Hd.
  - exists [EWire (ztake n (out c))]. split_and!; [done| | |set_solver].
    + by apply inv_drained.
    + by rewrite app_nil_r.
Qed.

Lemma destroyed_good c :
  inv c → is_addedToLoop (m_channel c) = true → (m_state c = kConnected ∨ m_state c = kDisconnected) →
  good c [] (connectDestroyed true c).
Proof.
  intros Hi Ha Hs. unfold connectDestroyed. cbn [assertInLoopThread mbind res_bind].
  set (c1 := if connected c then _ else c).
  assert (∃ es, c_trace c1 = c_trace c ++ es ∧ inv c1 ∧ wire_of es = [] ∧ out c1 = out c ∧ m_state c1 = kDisconnected ∧
    EShutdownWrite ∉ es ∧ is_addedToLoop (m_channel c1) = true ∧ m_fd (m_channel c1) = m_fd (m_channel c))
    as (es & E1 & Hi1 & W1 & O1 & S1 & N1 & A1 & F1).
  { unfold c1, connected. destruct (bool_decide (m_state c = kConnected)) eqn:Ec; bprop.
    - assert (open_state c = true) as Ho by (unfold open_state; by rewrite Ec).
      exists [EUpdate DisableAll; EConnectionCb false]. split_and!; try done; [simpl; by rewrite <- app_assoc| |set_solver].
      eapply (inv_changed c _ DisableAll [EConnectionCb false]); try done; try apply Hi.
      + by apply live_added.
      + by left.
      + simpl. right. rewrite !cbs_app, (inv_up _ Hi Ho). done.
    - exists []. destruct Hs as [?|Hs]; [done|]. rewrite app_nil_r. split_and!; try done. set_solver. }
  clearbody c1. pose proof (inv_io _ Hi1) as Hev. rewrite S1 in Hev. unfold isNoneEvent, kNoneEvent. rewrite Hev.
  cbn [Z.eqb cassert mbind res_bind]. exists (es ++ [ERemove]). split_and!.
  - simpl. by rewrite E1, app_assoc.
  - pose proof (inv_cbs _ Hi1) as Hcb. pose proof (inv_reg _ Hi1) as Hr. rewrite S1 in Hcb.
    unfold reg_state, reg_phase in Hr. rewrite live_added, A1, Hev in Hr by done.
    split; cbn -[spec_run cbs_of chan_ops]; try apply Hi1; try rewrite S1; try done.
    + rewrite cbs_app. simpl. by rewrite app_nil_r.
    + unfold reg_state, live. simpl m_state. rewrite S1. exact (reg_remove _ _ 0 _ Hr eq_refl).
  - unfold out in *. simpl. rewrite wire_app, W1. simpl. by rewrite O1, app_nil_r.
  - set_solver.
Qed.

(** The direct write of [sendInLoop]. *)
Lemma inv_wrote c d b : inv c → inv (if b : bool then emit (emit c (EWire d)) EQueueWriteComplete else emit c (EWire d)).
Proof. intros Hi. assert (inv (emit c (EWire d))) by by apply inv_emit. destruct b; [by apply inv_emit|done]. Qed.

(** Queueing the rest of a message. *)
Lemma queue_rest c b rest :
  inv c → open_state c = true → wf b → content b = out c ++ rest → rest ≠ [] →
  good c rest (Ok (if negb (isWriting (m_channel (set_output c b))) then change (set_output c b) EnableWriting
                   else set_output c b)).
Proof.
  intros Hi Ho Hw Hc Hr. pose proof (inv_added _ Hi Ho) as Ha. pose proof (inv_up _ Hi Ho) as Hup.
  assert (Hne : content b ≠ []) by (rewrite Hc; by destruct (out c), rest).
  simpl. destruct (isWriting (m_channel c)) eqn:Ew; simpl.
  - exists []. split_and!; [by rewrite app_nil_r| |done|by intros ?%elem_of_nil].
    destruct Hi. split; simpl in *; try done. unfold out in *. simpl.
    destruct (open_cases _ Ho) as [Es|Es]; rewrite Es in *; rewrite Ew, bool_decide_true by done; done.
  - exists [EUpdate EnableWriting]. split_and!; [done| |done|set_solver].
    eapply (inv_changed c _ EnableWriting []); try done; try apply Hi.
    + by apply live_added.
    + by left.
    + simpl. by rewrite app_nil_r.
    + simpl. unfold out. simpl. rewrite enableWriting_on, bool_decide_true by (done || apply Hi).
      destruct (open_cases _ Ho) as [Es|Es]; rewrite Es; done.
    + simpl. rewrite cbs_app, Hup. destruct (open_cases _ Ho) as [Es|Es]; rewrite Es; done.
Qed.

(** The second half of [sendInLoop]. *)
Definition send_rest (c1 : TcpConnection) (data : list ascii) (nwrote remaining : Z) : res TcpConnection :=
  let oldlen := readableBytes (m_outputBuffer c1) in
  let c2 := if (m_highWaterMark c1 <=? u64 (oldlen + remaining)) && (oldlen <? m_highWaterMark c1)
               && m_highWaterMarkCallback c1
            then emit c1 (EQueueHighWaterMark (u64 (oldlen + remaining))) else c1 in
  b ← append_from (m_outputBuffer c2) data nwrote remaining;
  let c3 := set_output c2 b in
  Ok (if negb (isWriting (m_channel c3)) then change c3 EnableWriting else c3).

Lemma append_from_cases b src pos len :
  wf b → 0 ≤ pos → 0 ≤ len → pos + len ≤ zlen src → zlen src ≤ max_size →
  (∃ b', append_from b src pos len = Ok b' ∧ wf b' ∧ content b' = content b ++ slice pos (pos + len) src) ∨
  append_from b src pos len = Fail (FThrow "std::length_error").
Proof.
  intros Hw Hp Hl Hs Hm. assert (room b len ∨ ¬ room b len) as [Hr|Hr] by (unfold room; lia).
  - left. apply append_from_ok; (done || lia).
  - right. unfold append_from, ensureWritableBytes.
    rewrite (proj2 (Z.ltb_lt _ _)) by (unfold room in Hr; lia).
    by rewrite makeSpace_throws by (try done; unfold room in Hr; lia).
Qed.

Lemma send_rest_good c data n :
  inv c → open_state c = true → 0 ≤ n < zlen data → zlen data ≤ max_size →
  good c (zdrop n data) (send_rest c data n (zlen data - n)).
Proof.
  intros Hi Ho Hn Hm. unfold send_rest.
  set (c2 := if _ && m_highWaterMarkCallback c then _ else c).
  assert (∃ es, c_trace c2 = c_trace c ++ es ∧ inv c2 ∧ wire_of es = [] ∧ EShutdownWrite ∉ es ∧
    out c2 = out c ∧ m_state c2 = m_state c) as (es & E & Hi2 & W & N & O & S).
  { unfold c2. destruct (_ && m_highWaterMarkCallback c).
    - eexists [_]. split_and!; try done; [by apply inv_emit|set_solver].
    - exists []. rewrite app_nil_r. split_and!; try done. set_solver. }
  clearbody c2. assert (open_state c2 = true) as Ho2 by (unfold open_state in *; by rewrite S).
  destruct (append_from_cases (m_outputBuffer c2) data n (zlen data - n)) as [(b & Eb & Hwb & Hcb)| ->];
    [apply Hi2|lia..|done| |done].
  rewrite Eb. cbn [mbind res_bind]. eapply (good_after c c2 es (zdrop n data)); [done|by rewrite W, O|done|].
  apply queue_rest; try done.
  - rewrite Hcb. unfold out. f_equal. unfold slice. rewrite ztake_all; [done|].
    rewrite zlen_zdrop; lia.
  - intros E0. apply (f_equal zlen) in E0. rewrite zlen_zdrop, zlen_nil in E0 by lia. lia.
Qed.

(** Nothing was written directly. *)
Lemma slow_send c m :
  inv c → open_state c = true → zlen m ≤ max_size →
  good c m (if 0 <? zlen m then send_rest c m 0 (zlen m) else Ok c).
Proof.
  intros Hi Ho Hm. pose proof (zlen_nonneg m). destruct (0 <? zlen m) eqn:E0; bprop.
  - pose proof (send_rest_good c m 0 Hi Ho ltac:(lia) Hm) as G. by rewrite Z.sub_0_r, zdrop_0 in G.
  - assert (m = []) as -> by (apply nil_length_inv; unfold zlen in *; lia). by apply good_same.
Qed.

Lemma sendInLoop_good c w m :
  inv c → write_fits w → zlen m ≤ max_size → m_state c ≠ kConnecting →
  good c (if negb (disconnected c) && negb (refused w c m) then m else []) (sendInLoop true w c m).
Proof.
  intros Hi Hf Hm Hs. unfold sendInLoop. cbn [assertInLoopThread mbind res_bind].
  destruct (disconnected c) eqn:Ed; [by apply good_same|]. simpl negb.
  assert (open_state c = true) as Ho.
  { unfold disconnected in Ed. unfold open_state. bprop. by destruct (m_state c). }
  unfold refused. rewrite out_readable by apply Hi. pose proof (zlen_nonneg m) as Hz.
  destruct (negb (isWriting (m_channel c)) && bool_decide (out c = [])) eqn:Efast.
  2:{ simpl. rewrite cassert_true by btrue. by apply (slow_send c m). }
  bprop. destruct (w m) as [n|err] eqn:Ew.
  - destruct (Hf _ _ Ew) as [Hn0 Hn]. simpl andb. rewrite u64_small by (unfold max_size in *; lia).
    rewrite cassert_true by btrue. cbn [mbind res_bind negb andb].
    set (c1 := if (zlen m - n =? 0) && m_writeCompleteCallback c then _ else _).
    assert (Hi1 : inv c1) by (unfold c1; by apply inv_wrote).
    set (es := [EWire (ztake n m)] ++ (if (zlen m - n =? 0) && m_writeCompleteCallback c then [EQueueWriteComplete] else [])).
    assert (E1 : c_trace c1 = c_trace c ++ es).
    { unfold c1, es. destruct (_ && m_writeCompleteCallback c); simpl; by rewrite <- ?app_assoc. }
    assert (O1 : out c1 = [] ∧ open_state c1 = true).
    { unfold c1, open_state, out in *. by destruct (_ && m_writeCompleteCallback c). }
    assert (W1 : wire_of es = ztake n m).
    { unfold es, wire_of. by destruct (_ && m_writeCompleteCallback c); simpl; rewrite app_nil_r. }
    assert (N1 : EShutdownWrite ∉ es).
    { unfold es. destruct (_ && m_writeCompleteCallback c); set_solver. }
    clearbody c1 es. destruct O1 as [O1 Ho1].
    assert (Hgoal : ∀ r, good c1 (zdrop n m) r → good c m r).
    { intros r. apply (good_after c c1 es); [done| |done].
      rewrite W1, O1, H0. simpl. apply ztake_zdrop. }
    apply Hgoal. destruct (0 <? zlen m - n) eqn:E0; bprop.
    + apply send_rest_good; (done || lia).
    + rewrite zdrop_all by lia. by apply good_same.
  - simpl andb. rewrite cassert_true by btrue. cbn [mbind res_bind].
    assert ((if negb (err =? EWOULDBLOCK) then (err =? EPIPE) || (err =? ECONNRESET) else false)
      = (err =? EPIPE) || (err =? ECONNRESET)) as ->.
    { destruct (err =? EWOULDBLOCK) eqn:E1; bprop; [by subst err|done]. }
    destruct ((err =? EPIPE) || (err =? ECONNRESET)); simpl; [by apply good_same|].
    by apply (slow_send c m).
Qed.

Lemma op_good c o : inv c → enabled c o → good c (taken c o) (do_op c o).
Proof.
  intros Hi He. destruct o; cbn [do_op taken enabled] in *.
  - by apply established_good.
  - destruct He as [Hf Hm]. unfold send. destruct (connected c) eqn:Ec; [|by apply good_same]. simpl andb.
    unfold connected in Ec. bprop. pose proof (sendInLoop_good c w m Hi Hf Hm) as G.
    unfold disconnected in G. rewrite Ec in *. by apply G.
  - unfold send. destruct (connected c); [by apply good_emit|by apply good_same].
  - destruct He as (Hf & Hm & Hs). by apply sendInLoop_good.
  - by apply shutdown_good.
  - by apply shutdownInLoop_good.
  - by apply forceClose_good.
  - by apply forceClose_good.
  - unfold forceCloseInLoop. cbn [assertInLoopThread mbind res_bind].
    destruct (open_state c) eqn:Ho; [by apply close_good|by apply good_same].
  - apply startRead_good; [done|]. by intros ->.
  - apply stopRead_good; [done|]. by intros ->.
  - destruct He as (? & ? & ?). by apply handleRead_good.
  - destruct He as [? ?]. by apply handleWrite_good.
  - apply close_good; [done|]. by apply inv_open.
  - by apply good_same.
  - destruct He as [? ?]. by apply destroyed_good.
  - apply (good_setState c (set_input c b)); [done..|]. apply good_same. by apply inv_set_input.
Qed.

Lemma run_good c t c' :
  conn_run c t c' → inv c →
  ∃ es, c_trace c' = c_trace c ++ es ∧ inv c' ∧ wire_of es ++ out c' = out c ++ t.
Proof.
  induction 1 as [c|c o c1 t c2 He Hd Hr IH]; intros Hi.
  - exists []. rewrite !app_nil_r. done.
  - pose proof (op_good c o Hi He) as G. rewrite Hd in G. destruct G as (es1 & E1 & Hi1 & W1 & _).
    destruct (IH Hi1) as (es2 & E2 & Hi2 & W2). exists (es1 ++ es2). split_and!; [|done|].
    + by rewrite E2, E1, app_assoc.
    + by rewrite wire_app, <- app_assoc, W2, app_assoc, W1, app_assoc.
Qed.

(** The state after construction. *)
Definition fresh (c : TcpConnection) : Prop :=
  m_state c = kConnecting ∧ wf (m_inputBuffer c) ∧ wf (m_outputBuffer c) ∧ out c = [] ∧
  m_events (m_channel c) = 0 ∧ is_addedToLoop (m_channel c) = false ∧ 0 ≤ m_fd (m_channel c) ∧ c_trace c = [].

Lemma fresh_inv c : fresh c → inv c.
Proof.
  intros (Hs & Hin & Hout & Ho & He & Ha & Hfd & Ht). split; rewrite ?Hs; try done.
  - rewrite He. by left.
  - by rewrite Ht.
  - rewrite Ht. unfold reg_state, live, reg_phase. rewrite Hs, He, Ha. simpl.
    by rewrite (proj2 (Z.leb_le _ _)).
Qed.

Lemma ctor_fresh sockfd wcb hwcb :
  0 ≤ sockfd → ∃ c, TcpConnection_ctor sockfd wcb hwcb = Ok c ∧ fresh c ∧ m_fd (m_channel c) = sockfd.
Proof.
  intros Hfd. unfold TcpConnection_ctor.
  destruct (Buffer_ctor_ok kInitialSize) as (b & E & Hw & Hc & _); [by vm_compute|].
  rewrite E. cbn [mbind res_bind]. eexists. split; [done|]. by split_and!.
Qed.

(** ** Properties *)

(** C1.  Output stream: in every run of a connection from its construction,
    through direct writes, queued sends of other threads, partial writes and
    write events in any order, the bytes the socket accepted followed by the
    bytes still in the output buffer are exactly the messages [send] took
    charge of, in the order they were sent: nothing is lost, duplicated or
    reordered.  While the connection is open the channel asks for write
    events exactly when the buffer holds data. *)
Theorem conn_stream_integrity (c0 c : TcpConnection) (sockfd : Z) (wcb hwcb : bool) (t : list ascii) :
  0 ≤ sockfd → TcpConnection_ctor sockfd wcb hwcb = Ok c0 → conn_run c0 t c →
  wire_of (c_trace c) ++ content (m_outputBuffer c) = t ∧
  (open_state c = true → isWriting (m_channel c) = bool_decide (content (m_outputBuffer c) ≠ [])).
Proof.
  intros Hfd E Hr. destruct (ctor_fresh sockfd wcb hwcb Hfd) as (c' & E' & Hf & _).
  assert (c' = c0) as -> by congruence. destruct (run_good _ _ _ Hr (fresh_inv _ Hf)) as (es & Et & Hi & W).
  destruct Hf as (_ & _ & _ & Ho & _ & _ & _ & Htr). rewrite Htr in Et. simpl in Et. rewrite Et. split.
  - fold (out c). by rewrite W, Ho.
  - intros Hop. by apply inv_writing.
Qed.

Definition two_bytes (d : list ascii) : write_result := Wrote (Z.min 2 (zlen d)).

Lemma two_bytes_fits : write_fits two_bytes.
Proof. intros d n [= <-]. pose proof (zlen_nonneg d). lia. Qed.

Definition ctor_conn : TcpConnection :=
  mkConn kConnecting false
    (setErrorCallback (setCloseCallback (setWriteCallback (setReadCallback (Channel_ctor 7)))))
    (mkBuffer (replicate 1032 NUL) 8 8) (mkBuffer (replicate 1032 NUL) 8 8) kHighWaterMark true true [].

Lemma ctor_conn_eq : TcpConnection_ctor 7 true true = Ok ctor_conn.
Proof. vm_compute. reflexivity. Qed.

Lemma run_step_eq c o c1 t t' c2 :
  enabled c o → do_op c o = Ok c1 → t' = taken c o ++ t → conn_run c1 t c2 → conn_run c t' c2.
Proof. intros He Hd -> Hr. by eapply run_step. Qed.

(** Established, "hello" sent in two pieces by a slow socket, shut down
    between them. *)
Lemma demo_run : ∃ c, conn_run ctor_conn (chars "hello") c ∧
  wire_of (c_trace c) = chars "hell" ∧ m_state c = kDisconnecting.
Proof.
  eexists. split.
  - eapply (run_step_eq _ OEstablished); [vm_compute; reflexivity|vm_compute; reflexivity|reflexivity|].
    eapply (run_step_eq _ (OSend two_bytes (chars "hello")) _ []);
      [split; [apply two_bytes_fits|vm_compute; discriminate]|vm_compute; reflexivity|vm_compute; reflexivity|].
    eapply (run_step_eq _ (OShutdown true) _ []); [exact I|vm_compute; reflexivity|reflexivity|].
    eapply (run_step_eq _ (OWrite two_bytes) _ []);
      [split; [vm_compute; reflexivity|apply two_bytes_fits]|vm_compute; reflexivity|reflexivity|].
    apply run_nil.
  - split; vm_compute; reflexivity.
Qed.

Lemma conn_stream_integrity_witness :
  ∃ c, wire_of (c_trace c) = chars "hell" ∧ wire_of (c_trace c) ++ content (m_outputBuffer c) = chars "hello" ∧
  (open_state c = true → isWriting (m_channel c) = bool_decide (content (m_outputBuffer c) ≠ [])).
Proof.
  destruct demo_run as (c & Hr & Hw & _). exists c. split; [exact Hw|].
  refine (conn_stream_integrity ctor_conn c 7 true true (chars "hello") _ ctor_conn_eq Hr).
  vm_compute. discriminate.
Defined.



(** C7.  Life cycle: the callbacks a run has made tell the state.  Before
    connectEstablished none was made; while the connection is open exactly
    one connection callback (up) was made; once it is disconnected exactly
    one up and one down, followed by at most one close callback. *)
Theorem conn_lifecycle (c0 c : TcpConnection) (sockfd : Z) (wcb hwcb : bool) (t : list ascii) :
  0 ≤ sockfd → TcpConnection_ctor sockfd wcb hwcb = Ok c0 → conn_run c0 t c →
  match m_state c with
  | kConnecting => cbs_of (c_trace c) = []
  | kConnected | kDisconnecting => cbs_of (c_trace c) = [Up]
  | kDisconnected => cbs_of (c_trace c) = [Up; Down; Close] ∨ cbs_of (c_trace c) = [Up; Down]
  end.
Proof.
  intros Hfd E Hr. destruct (ctor_fresh sockfd wcb hwcb Hfd) as (c' & E' & Hf & _).
  assert (c' = c0) as -> by congruence. destruct (run_good _ _ _ Hr (fresh_inv _ Hf)) as (es & _ & Hi & _).
  apply Hi.
Qed.

Lemma conn_lifecycle_witness : ∃ c, conn_run ctor_conn [] c ∧ m_state c = kDisconnected ∧
  (cbs_of (c_trace c) = [Up; Down; Close] ∨ cbs_of (c_trace c) = [Up; Down]).
Proof.
  assert (Hr : ∃ c, conn_run ctor_conn [] c ∧ m_state c = kDisconnected).
  { eexists. split.
    - eapply (run_step_eq _ OEstablished); [vm_compute; reflexivity|vm_compute; reflexivity|reflexivity|].
      eapply (run_step_eq _ OHangup _ []); [vm_compute; discriminate|vm_compute; reflexivity|reflexivity|].
      apply run_nil.
    - reflexivity. }
  destruct Hr as (c & Hr & Hs). exists c. split; [exact Hr|]. split; [exact Hs|].
  pose proof (conn_lifecycle ctor_conn c 7 true true [] ltac:(vm_compute; discriminate) ctor_conn_eq Hr) as H.
  rewrite Hs in H. exact H.
Defined.

(** C8.  A connection uses its channel as the registry of the loop requires:
    the changes of interest and the removal it makes in any run, after the
    channel was opened on its descriptor, are a sequence the registry accepts
    (so that [loop_refines_registry] applies to it), and it leaves the
    registry with the channel's current mask, or empty once it is destroyed. *)
Theorem conn_uses_registry (c0 c : TcpConnection) (sockfd : Z) (wcb hwcb : bool) (t : list ascii) :
  0 ≤ sockfd → TcpConnection_ctor sockfd wcb hwcb = Ok c0 → conn_run c0 t c →
  spec_run ∅ (OpenC 0%nat (m_fd (m_channel c)) :: chan_ops (c_trace c)) =
    Some (if bool_decide (m_state c = kConnecting) || is_addedToLoop (m_channel c)
          then {[0%nat := mkEntry (m_fd (m_channel c)) (m_events (m_channel c)) (reg_phase c)]} else ∅).
Proof.
  intros Hfd E Hr. destruct (ctor_fresh sockfd wcb hwcb Hfd) as (c' & E' & Hf & _).
  assert (c' = c0) as -> by congruence. destruct (run_good _ _ _ Hr (fresh_inv _ Hf)) as (es & _ & Hi & _).
  apply Hi.
Qed.

Lemma conn_uses_registry_witness :
  ∃ c, wire_of (c_trace c) = chars "hell" ∧
  spec_run ∅ (OpenC 0%nat (m_fd (m_channel c)) :: chan_ops (c_trace c)) =
    Some (if bool_decide (m_state c = kConnecting) || is_addedToLoop (m_channel c)
          then {[0%nat := mkEntry (m_fd (m_channel c)) (m_events (m_channel c)) (reg_phase c)]} else ∅).
Proof.
  destruct demo_run as (c & Hr & Hw & _). exists c. split; [exact Hw|].
  refine (conn_uses_registry ctor_conn c 7 true true (chars "hello") _ ctor_conn_eq Hr).
  vm_compute. discriminate.
Defined.

(** Two calls the code does not guard.  startReadInLoop does not look at
    the state: on a connection that has been closed it turns the channel on
    again, and connectDestroyed then fails the assertion of Channel::remove.
    connectDestroyed on a connection that is shutting down (kDisconnecting,
    as when a server is destroyed meanwhile) leaves the channel on and fails
    the same assertion. *)
Theorem conn_unguarded_calls :
  (∃ c1, foldM do_op ctor_conn [OEstablished; OHangup] = Ok c1 ∧ m_state c1 = kDisconnected ∧
     foldM do_op c1 [OStartRead true; ODestroyed] = Fail (FAssert "isNoneEvent()")) ∧
  (∃ c2, foldM do_op ctor_conn [OEstablished; OShutdown true] = Ok c2 ∧ m_state c2 = kDisconnecting ∧
     do_op c2 ODestroyed = Fail (FAssert "isNoneEvent()")).
Proof. split; eexists; (split; [vm_compute; reflexivity|]); split; vm_compute; reflexivity. Qed.
