(* ===== verification/Connector.v ===== *)
(** * Connector and Acceptor: src/dc/net/connector.h, connector.cc,
      acceptor.h, acceptor.cc

    The connector's state machine with what it leaves behind in the loop: the
    functors it queued ([k_queue], run in order), the retry timers it armed
    ([k_timers]), and what became of every socket it created.  What the kernel
    answers to connect(2), SO_ERROR and isSelfConnect is an argument. *)

From S2P Require Import Prelude.

Open Scope Z_scope.

(** ** Connector *)

Inductive State : Type := kDisconnected | kConnecting | kConnected.

#[global] Instance State_eq_dec : EqDecision State.
Proof. solve_decision. Defined.

Definition kMaxRetryDelayMs : Z := 30 * 1000.
Definition kInitRetryDelayMs : Z := 500.

(** The functors given to the loop. *)
Inductive functor : Type := FStartInLoop | FStopInLoop | FResetChannel.

#[global] Instance functor_eq_dec : EqDecision functor.
Proof. solve_decision. Defined.

Record Connector : Type := mkConnector {
  is_connect : bool;
  m_state : State;
  m_channel : option (Z * bool);  (* the Channel: its descriptor, registered in the loop *)
  m_retryDelayMs : Z;
  k_queue : list functor;
  k_timers : list Z;              (* the delays of the timers armed for startInLoop *)
  k_created : list Z;             (* sockets created by connect() *)
  k_closed : list Z;              (* sockets closed *)
  k_delivered : list Z;           (* sockets given to m_newConnectionCallback *)
}.

Definition Connector_ctor : Connector :=
  mkConnector false kDisconnected None kInitRetryDelayMs [] [] [] [] [].

Definition set_connect (k : Connector) (b : bool) : Connector :=
  mkConnector b (m_state k) (m_channel k) (m_retryDelayMs k) (k_queue k) (k_timers k) (k_created k) (k_closed k) (k_delivered k).
Definition setState (k : Connector) (s : State) : Connector :=
  mkConnector (is_connect k) s (m_channel k) (m_retryDelayMs k) (k_queue k) (k_timers k) (k_created k) (k_closed k) (k_delivered k).
Definition set_channel (k : Connector) (c : option (Z * bool)) : Connector :=
  mkConnector (is_connect k) (m_state k) c (m_retryDelayMs k) (k_queue k) (k_timers k) (k_created k) (k_closed k) (k_delivered k).
Definition set_delay (k : Connector) (d : Z) : Connector :=
  mkConnector (is_connect k) (m_state k) (m_channel k) d (k_queue k) (k_timers k) (k_created k) (k_closed k) (k_delivered k).
Definition set_queue (k : Connector) (q : list functor) : Connector :=
  mkConnector (is_connect k) (m_state k) (m_channel k) (m_retryDelayMs k) q (k_timers k) (k_created k) (k_closed k) (k_delivered k).
Definition set_timers (k : Connector) (t : list Z) : Connector :=
  mkConnector (is_connect k) (m_state k) (m_channel k) (m_retryDelayMs k) (k_queue k) t (k_created k) (k_closed k) (k_delivered k).
Definition queueInLoop (k : Connector) (f : functor) : Connector := set_queue k (k_queue k ++ [f]).
Definition create_socket (k : Connector) (fd : Z) : Connector :=
  mkConnector (is_connect k) (m_state k) (m_channel k) (m_retryDelayMs k) (k_queue k) (k_timers k)
    (k_created k ++ [fd]) (k_closed k) (k_delivered k).
Definition close_socket (k : Connector) (fd : Z) : Connector :=
  mkConnector (is_connect k) (m_state k) (m_channel k) (m_retryDelayMs k) (k_queue k) (k_timers k)
    (k_created k) (k_closed k ++ [fd]) (k_delivered k).
Definition deliver_socket (k : Connector) (fd : Z) : Connector :=
  mkConnector (is_connect k) (m_state k) (m_channel k) (m_retryDelayMs k) (k_queue k) (k_timers k)
    (k_created k) (k_closed k) (k_delivered k ++ [fd]).

(** [Connector::retry] *)
Definition retry (k : Connector) (sockfd : Z) : Connector :=
  let k1 := setState (close_socket k sockfd) kDisconnected in
  if is_connect k1 then
    let k2 := set_timers k1 (k_timers k1 ++ [m_retryDelayMs k1]) in
    set_delay k2 (Z.min (m_retryDelayMs k2 * 2) kMaxRetryDelayMs)
  else k1.

(** [Connector::connecting] *)
Definition connecting (k : Connector) (sockfd : Z) : res Connector :=
  let k1 := setState k kConnecting in
  cassert (match m_channel k1 with None => true | Some _ => false end) "!m_channel";;
  Ok (set_channel k1 (Some (sockfd, true))).

Definition EINPROGRESS : Z := 115.
Definition EINTR : Z := 4.
Definition EISCONN : Z := 106.
Definition EAGAIN : Z := 11.
Definition EADDRINUSE : Z := 98.
Definition ECONNREFUSED : Z := 111.
Definition ENETUNREACH : Z := 101.

(** [Connector::connect]: the descriptor the kernel gives the new socket, and
    the saved errno of connect(2) (0 when it returned 0). *)
Definition connect (k : Connector) (sockfd saveErrno : Z) : res Connector :=
  let k1 := create_socket k sockfd in
  if bool_decide (saveErrno ∈ [0; EINPROGRESS; EINTR; EISCONN]) then connecting k1 sockfd
  else if bool_decide (saveErrno ∈ [EAGAIN; EADDRINUSE; ECONNREFUSED; ENETUNREACH]) then Ok (retry k1 sockfd)
  else Ok (close_socket k1 sockfd).

(** [Connector::startInLoop] *)
Definition startInLoop (k : Connector) (sockfd saveErrno : Z) : res Connector :=
  cassert (bool_decide (m_state k = kDisconnected)) "m_state == kDisconnected";;
  if is_connect k then connect k sockfd saveErrno else Ok k.

(** [Connector::start], in the loop thread or in another one. *)
Definition start (inLoop : bool) (k : Connector) (sockfd saveErrno : Z) : res Connector :=
  let k1 := set_connect k true in
  if inLoop then startInLoop k1 sockfd saveErrno else Ok (queueInLoop k1 FStartInLoop).

(** [Connector::removeAndResetChannel] *)
Definition removeAndResetChannel (k : Connector) : res (Connector * Z) :=
  match m_channel k with
  | None => Fail (FUndef "m_channel is null")
  | Some (fd, registered) =>
      cassert registered "m_channels[fd] == channel";;
      Ok (queueInLoop (set_channel k (Some (fd, false))) FResetChannel, fd)
  end.

(** [Connector::resetChannel]; ~Channel asserts that it is not registered. *)
Definition resetChannel (k : Connector) : res Connector :=
  match m_channel k with
  | None => Ok k
  | Some (_, registered) =>
      cassert (negb registered) "!is_addedToLoop";; Ok (set_channel k None)
  end.

(** [Connector::stop], [Connector::stopInLoop] *)
Definition stop (k : Connector) : Connector := queueInLoop (set_connect k false) FStopInLoop.

Definition stopInLoop (k : Connector) : res Connector :=
  if bool_decide (m_state k = kConnecting) then
    '(k1, sockfd) ← removeAndResetChannel (setState k kDisconnected);
    Ok (retry k1 sockfd)
  else Ok k.

(** [Connector::restart] *)
Definition restart (k : Connector) (sockfd saveErrno : Z) : res Connector :=
  let k1 := set_connect (set_delay (setState k kDisconnected) kInitRetryDelayMs) true in
  startInLoop k1 sockfd saveErrno.

(** [Connector::handleWrite], given SO_ERROR and isSelfConnect. *)
Definition handleWrite (k : Connector) (err : Z) (selfConnect : bool) : res Connector :=
  if bool_decide (m_state k = kConnecting) then
    '(k1, sockfd) ← removeAndResetChannel k;
    if negb (err =? 0) then Ok (retry k1 sockfd)
    else if selfConnect then Ok (retry k1 sockfd)
    else
      let k2 := setState k1 kConnected in
      if is_connect k2 then Ok (deliver_socket k2 sockfd) else Ok (close_socket k2 sockfd)
  else
    cassert (bool_decide (m_state k = kDisconnected)) "m_state == kDisconnected";; Ok k.

(** [Connector::handleError] *)
Definition handleError (k : Connector) : res Connector :=
  if bool_decide (m_state k = kConnecting) then
    '(k1, sockfd) ← removeAndResetChannel k;
    Ok (retry k1 sockfd)
  else Ok k.

(** [Connector::~Connector] *)
Definition Connector_dtor (k : Connector) : res unit :=
  cassert (match m_channel k with None => true | Some _ => false end) "!m_channel".

(** ** Runs *)

Inductive kevent : Type :=
  | VStart (inLoop : bool) (sockfd saveErrno : Z)
  | VStop
  | VRestart (sockfd saveErrno : Z)
  | VFunctor (sockfd saveErrno : Z)        (* the loop calls the next queued functor *)
  | VTimer (sockfd saveErrno : Z)          (* a retry timer expires *)
  | VWritable (err : Z) (selfConnect : bool)
  | VError.

Definition kstep (k : Connector) (v : kevent) : res Connector :=
  match v with
  | VStart inLoop fd e => start inLoop k fd e
  | VStop => Ok (stop k)
  | VRestart fd e => restart k fd e
  | VFunctor fd e =>
      match k_queue k with
      | [] => Ok k
      | f :: q =>
          let k1 := set_queue k q in
          match f with
          | FStartInLoop => startInLoop k1 fd e
          | FStopInLoop => stopInLoop k1
          | FResetChannel => resetChannel k1
          end
      end
  | VTimer fd e =>
      match k_timers k with
      | [] => Ok k
      | _ :: t => startInLoop (set_timers k t) fd e
      end
  | VWritable err self => handleWrite k err self
  | VError => handleError k
  end.

(** ** Acceptor *)

(** The process's descriptors and the connections waiting in the backlog. *)
Record fd_table : Type := mkFds { fds_open : Z; fds_limit : Z; backlog : Z }.

Inductive accept_result : Type := AcceptOk | AcceptEMFILE | AcceptOther.

(** accept(2), open(2) and close(2) on the table. *)
Definition sys_accept (f : fd_table) : accept_result * fd_table :=
  if backlog f <=? 0 then (AcceptOther, f)
  else if fds_limit f <=? fds_open f then (AcceptEMFILE, f)
  else (AcceptOk, mkFds (fds_open f + 1) (fds_limit f) (backlog f - 1)).

Definition sys_open (f : fd_table) : bool * fd_table :=
  if fds_limit f <=? fds_open f then (false, f)
  else (true, mkFds (fds_open f + 1) (fds_limit f) (backlog f)).

Definition sys_close (f : fd_table) : fd_table := mkFds (fds_open f - 1) (fds_limit f) (backlog f).

Record Acceptor : Type := mkAcceptor {
  is_listening : bool;
  m_idleFd : bool;            (* it is an open descriptor *)
  m_newConnectionCallback : bool;
  a_accepted : Z;             (* connections handed to the callback *)
}.

(** [Acceptor::Acceptor]: the listening socket, then the spare descriptor;
    [bound]: bind(2) succeeded.  The owner installs the callback. *)
Definition Acceptor_ctor (bound : bool) (f : fd_table) : res (Acceptor * fd_table) :=
  let '(sock, f1) := sys_open f in
  if sock : bool then
    let '(idle, f2) := sys_open f1 in
    cassert idle "m_idleFd >= 0";;
    if bound then Ok (mkAcceptor false true false 0, f2) else Fail (FAbort "sockets::bindOrDie")
  else Fail (FAbort "sockets::createNonblockingOrDie").

Definition setNewConnectionCallback (a : Acceptor) : Acceptor :=
  mkAcceptor (is_listening a) (m_idleFd a) true (a_accepted a).

(** [Acceptor::~Acceptor], with the destructor of m_acceptSocket. *)
Definition Acceptor_dtor (a : Acceptor) (f : fd_table) : fd_table :=
  sys_close (if m_idleFd a then sys_close f else f).

(** [Acceptor::listen] (enableReading is the loop's part). *)
Definition Acceptor_listen (a : Acceptor) : Acceptor :=
  mkAcceptor true (m_idleFd a) (m_newConnectionCallback a) (a_accepted a).

(** [Acceptor::handleRead] *)
Definition Acceptor_handleRead (a : Acceptor) (f : fd_table) : Acceptor * fd_table :=
  match sys_accept f with
  | (AcceptOk, f1) =>
      if m_newConnectionCallback a
      then (mkAcceptor (is_listening a) (m_idleFd a) true (a_accepted a + 1), f1)
      else (a, sys_close f1)
  | (AcceptEMFILE, f1) =>
      let f2 := if m_idleFd a then sys_close f1 else f1 in
      let '(r, f3) := sys_accept f2 in
      let f4 := match r with AcceptOk => sys_close f3 | _ => f3 end in
      let '(ok, f5) := sys_open f4 in
      (mkAcceptor (is_listening a) ok (m_newConnectionCallback a) (a_accepted a), f5)
  | (AcceptOther, f1) => (a, f1)
  end.

(** ** Sockets *)

(** The socket the channel watches. *)
Definition held (k : Connector) : list Z :=
  match m_channel k with Some (fd, true) => [fd] | _ => [] end.

Definition accounted (k : Connector) : Prop :=
  k_created k ≡ₚ k_closed k ++ k_delivered k ++ held k.

Lemma accounted_retry k fd :
  k_created k ≡ₚ fd :: k_closed k ++ k_delivered k ++ held k → accounted (retry k fd).
Proof.
  intros H. unfold accounted, retry. simpl.
  assert (k_created k ≡ₚ (k_closed k ++ [fd]) ++ k_delivered k ++ held k) as E.
  { rewrite H. rewrite <- app_assoc. apply Permutation_middle. }
  by destruct (is_connect k).
Qed.

Lemma accounted_connect k fd e k' : accounted k → connect k fd e = Ok k' → accounted k'.
Proof.
  unfold connect, accounted. intros H.
  assert (k_created k ++ [fd] ≡ₚ fd :: k_closed k ++ k_delivered k ++ held k) as H1
    by (rewrite H; symmetry; apply Permutation_cons_append).
  case_bool_decide; [|case_bool_decide].
  - unfold connecting. simpl. destruct (m_channel k) as [[fd' r]|] eqn:Ec; [done|]. intros [= <-]. simpl.
    unfold held in *. rewrite Ec in H. simpl. rewrite H, app_nil_r, <- app_assoc. done.
  - intros [= <-]. by apply (accounted_retry (create_socket k fd) fd).
  - intros [= <-]. simpl. rewrite H1. unfold held. simpl. rewrite <- app_assoc. apply Permutation_middle.
Qed.

Lemma accounted_startInLoop k fd e k' : accounted k → startInLoop k fd e = Ok k' → accounted k'.
Proof.
  intros H E. unfold startInLoop in E. destruct (bool_decide _); [|done]. simpl in E.
  destruct (is_connect k); [by eapply accounted_connect|]. by injection E as <-.
Qed.

Lemma removeAndReset_inv k k1 fd :
  removeAndResetChannel k = Ok (k1, fd) →
  m_channel k = Some (fd, true) ∧ k1 = queueInLoop (set_channel k (Some (fd, false))) FResetChannel.
Proof.
  unfold removeAndResetChannel. destruct (m_channel k) as [[fd' []]|]; try done. by intros [= <- <-].
Qed.

Lemma removed_created k k1 fd :
  accounted k → removeAndResetChannel k = Ok (k1, fd) →
  k_created k1 ≡ₚ fd :: k_closed k1 ++ k_delivered k1 ++ held k1.
Proof.
  intros H E. apply removeAndReset_inv in E as [Ec ->]. unfold accounted, held in *. rewrite Ec in H. simpl in *.
  rewrite H, app_nil_r, app_assoc. symmetry. apply Permutation_cons_append.
Qed.

Lemma accounted_step k v k' : accounted k → kstep k v = Ok k' → accounted k'.
Proof.
  intros H E. destruct v as [[] fd e| |fd e|fd e|fd e|err self|]; simpl in E.
  - by apply (accounted_startInLoop (set_connect k true) fd e).
  - by injection E as <-.
  - by injection E as <-.
  - unfold restart in E. by eapply accounted_startInLoop in E.
  - destruct (k_queue k) as [|[] q]; [by injection E as <-|..].
    + by eapply accounted_startInLoop in E.
    + unfold stopInLoop in E. simpl in E. case_bool_decide; [|by injection E as <-].
      destruct (removeAndResetChannel _) as [[k1 sockfd]|] eqn:Er; simpl in E; [|done]. injection E as <-.
      apply accounted_retry. by apply (removed_created (setState (set_queue k q) kDisconnected)).
    + unfold resetChannel in E. simpl in E. destruct (m_channel k) as [[fd' []]|] eqn:Ec; [done| |by injection E as <-].
      injection E as <-. unfold accounted, held in *. by rewrite Ec in H.
  - destruct (k_timers k); [by injection E as <-|]. by eapply accounted_startInLoop in E.
  - unfold handleWrite in E. case_bool_decide; [|by destruct (bool_decide _); [injection E as <-|]].
    destruct (removeAndResetChannel _) as [[k1 sockfd]|] eqn:Er; simpl in E; [|done].
    pose proof (removed_created k k1 sockfd H Er) as Hc.
    assert (m_channel k1 = Some (sockfd, false)) as Hch by by apply removeAndReset_inv in Er as [_ ->].
    destruct (negb (err =? 0)); [injection E as <-; by apply accounted_retry|].
    destruct self; [injection E as <-; by apply accounted_retry|].
    unfold accounted, held in *. rewrite Hch, app_nil_r in Hc.
    destruct (is_connect k1); injection E as <-; simpl; rewrite Hch, Hc, app_nil_r.
    + rewrite app_assoc. apply Permutation_cons_append.
    + rewrite <- app_assoc. apply Permutation_middle.
  - unfold handleError in E. case_bool_decide; [|by injection E as <-].
    destruct (removeAndResetChannel _) as [[k1 sockfd]|] eqn:Er; simpl in E; [|done].
    injection E as <-. apply accounted_retry. by apply (removed_created k).
Qed.

(** ** A connector that is started once *)

(** What the loop delivers: write and error events to a registered channel; a
    retry timer only after the resetChannel queued with it has run (a retry is
    armed in an event handler, whose functors run at the end of the same
    iteration, at least half a second before the timer).  The owner does not
    call start or restart again; it may call stop at any time. *)
Definition allowed (k : Connector) (v : kevent) : Prop :=
  match v with
  | VStart _ _ _ | VRestart _ _ => False
  | VTimer _ _ => FResetChannel ∉ k_queue k
  | VWritable _ _ | VError => ∃ fd, m_channel k = Some (fd, true)
  | _ => True
  end.

Definition count (f : functor) (q : list functor) : nat := length (filter (λ g, g = f) q).

Definition starts (k : Connector) : nat := (length (k_timers k) + count FStartInLoop (k_queue k))%nat.

Record kinv (k : Connector) : Prop := mkKinv {
  ki_chan : match m_channel k with Some (_, true) => m_state k = kConnecting | _ => m_state k ≠ kConnecting end;
  ki_resets : count FResetChannel (k_queue k) = match m_channel k with Some (_, false) => 1%nat | _ => 0%nat end;
  ki_order fd : m_channel k = Some (fd, false) → count FStartInLoop (k_queue k) = 0%nat;
  ki_starts : (starts k ≤ 1)%nat;
  ki_idle : m_state k ≠ kDisconnected → starts k = 0%nat;
}.

Lemma count_app f q1 q2 : count f (q1 ++ q2) = (count f q1 + count f q2)%nat.
Proof. unfold count. by rewrite filter_app, length_app. Qed.

Lemma count_cons f g q : count f (g :: q) = ((if decide (g = f) then 1 else 0) + count f q)%nat.
Proof. unfold count. rewrite filter_cons. case_decide; simpl; lia. Qed.

Lemma count_none f q : f ∉ q → count f q = 0%nat.
Proof.
  intros H. unfold count. destruct (filter _ q) as [|x l] eqn:E; [done|].
  assert (x ∈ filter (λ g, g = f) q) as [-> ?]%list_elem_of_filter by (rewrite E; by left). done.
Qed.

(** Counting in a queue that grew. *)
Ltac count_simpl :=
  rewrite ?count_app, ?count_cons; simpl;
  change (count FStartInLoop []) with 0%nat; change (count FResetChannel []) with 0%nat.

(** startInLoop from a state with no channel and no other start pending. *)
Lemma startInLoop_ok k fd e :
  m_state k = kDisconnected → m_channel k = None → starts k = 0%nat → count FResetChannel (k_queue k) = 0%nat →
  ∃ k', startInLoop k fd e = Ok k' ∧ kinv k'.
Proof.
  intros Hs Hc Hn Hr. unfold startInLoop. rewrite bool_decide_true by done. simpl.
  assert (Hk : kinv k) by (split; rewrite ?Hs, ?Hc; try done; lia).
  destruct (is_connect k) eqn:Hcon; [|eauto]. unfold connect, connecting. simpl. rewrite Hc. simpl.
  case_bool_decide; [|case_bool_decide]; (eexists; split; [done|]); unfold starts in *.
  - split; simpl; unfold starts; simpl; try done; lia.
  - unfold retry. simpl. rewrite Hcon. split; simpl; unfold starts; simpl; rewrite ?Hc; try done.
    rewrite length_app. simpl. lia.
  - split; simpl; unfold starts; simpl; rewrite ?Hc, ?Hs; try done. lia.
Qed.

(** Leaving [kConnecting]: the channel is removed and its reset queued. *)
Definition removed (k : Connector) (fd : Z) : Prop :=
  m_channel k = Some (fd, false) ∧ starts k = 0%nat ∧ count FResetChannel (k_queue k) = 1%nat.

Lemma remove_ok k :
  match m_channel k with Some (_, true) => True | _ => False end →
  count FResetChannel (k_queue k) = 0%nat → starts k = 0%nat →
  ∃ k1 fd, removeAndResetChannel k = Ok (k1, fd) ∧ removed k1 fd.
Proof.
  intros Hc Hr Hn. unfold removeAndResetChannel. destruct (m_channel k) as [[fd []]|]; try done. simpl.
  eexists _, fd. split; [done|]. unfold removed, starts in *. simpl. count_simpl.
  split_and!; [done|lia|lia].
Qed.

Lemma removed_inv k fd s : removed k fd → s ≠ kConnecting → kinv (setState k s).
Proof.
  intros (Hc & Hn & Hr) Hs. unfold starts in Hn. split; simpl; unfold starts; simpl; rewrite ?Hc; try done; lia.
Qed.

Lemma retry_inv k fd fd' : removed k fd' → kinv (retry k fd).
Proof.
  intros (Hc & Hn & Hr). unfold starts in Hn. unfold retry. simpl.
  destruct (is_connect k); split; simpl; unfold starts; simpl; rewrite ?Hc, ?length_app; simpl; try done; lia.
Qed.

Lemma kinv_removable k :
  kinv k → m_state k = kConnecting →
  match m_channel k with Some (_, true) => True | _ => False end ∧
  count FResetChannel (k_queue k) = 0%nat ∧ starts k = 0%nat.
Proof.
  intros Hi Hs. pose proof (ki_chan _ Hi) as Hc. pose proof (ki_resets _ Hi) as Hr.
  split; [|split; [|apply (ki_idle _ Hi); congruence]].
  - by destruct (m_channel k) as [[fd []]|].
  - by destruct (m_channel k) as [[fd []]|].
Qed.

Lemma functor_ok k f q fd e : kinv k → k_queue k = f :: q → ∃ k', kstep k (VFunctor fd e) = Ok k' ∧ kinv k'.
Proof.
  intros Hi Eq. simpl. rewrite Eq. destruct Hi as [Hc Hr Hord Hst Hid]. unfold starts in *.
  rewrite Eq in *. rewrite !count_cons in *. destruct f; simpl in *.
  - assert (m_state k = kDisconnected) as Hs.
    { destruct (decide (m_state k = kDisconnected)) as [|Hne]; [done|]. specialize (Hid Hne). lia. }
    apply startInLoop_ok; simpl; try done; unfold starts; simpl; try lia.
    + destruct (m_channel k) as [[fd' []]|]; [congruence| |done]. specialize (Hord fd' eq_refl). lia.
    + destruct (m_channel k) as [[fd' []]|]; [done| |done]. specialize (Hord fd' eq_refl). lia.
  - unfold stopInLoop. simpl. case_bool_decide as Hs.
    + destruct (remove_ok (setState (set_queue k q) kDisconnected)) as (k1 & fd1 & E & Hrm).
      * simpl. destruct (m_channel k) as [[fd' []]|]; done.
      * simpl. destruct (m_channel k) as [[fd' []]|]; done.
      * unfold starts. simpl. apply Hid. congruence.
      * rewrite E. simpl. eexists. split; [done|]. by eapply retry_inv.
    + eexists. split; [done|]. by split.
  - unfold resetChannel. simpl. destruct (m_channel k) as [[fd' []]|] eqn:Ec; try done. simpl.
    eexists. split; [done|]. split; simpl; try done. lia.
Qed.

Lemma allowed_ok k v : kinv k → allowed k v → ∃ k', kstep k v = Ok k' ∧ kinv k'.
Proof.
  intros Hi Ha. destruct v as [inLoop fd e| |fd e|fd e|fd e|err self|]; simpl in Ha; try done.
  - eexists. split; [done|]. destruct Hi. unfold starts in *.
    split; simpl; unfold starts; simpl; count_simpl; try done; try lia.
    + intros fd E. rewrite (ki_order0 fd E). done.
    + intros Hne. specialize (ki_idle0 Hne). lia.
  - destruct (k_queue k) as [|f q] eqn:Eq; [simpl; rewrite Eq; eauto|]. by eapply functor_ok.
  - simpl. destruct (k_timers k) as [|d t] eqn:Et; [eauto|]. destruct Hi as [Hc Hr Hord Hst Hid].
    rewrite count_none in Hr by done. unfold starts in *. rewrite Et in *. simpl in *.
    assert (m_state k = kDisconnected) as Hs.
    { destruct (decide (m_state k = kDisconnected)) as [|Hne]; [done|]. specialize (Hid Hne). lia. }
    apply startInLoop_ok; simpl; try done; unfold starts; simpl; try lia.
    + destruct (m_channel k) as [[fd' []]|]; [congruence|done|done].
    + by apply count_none.
  - simpl. unfold handleWrite. destruct Ha as [fd Hfd]. pose proof (ki_chan _ Hi) as Hc. rewrite Hfd in Hc.
    rewrite bool_decide_true by done. destruct (kinv_removable k Hi Hc) as (H1 & H2 & H3).
    destruct (remove_ok k H1 H2 H3) as (k1 & fd1 & E & Hrm). rewrite E. simpl.
    destruct (negb (err =? 0)); [eexists; split; [done|by eapply retry_inv]|].
    destruct self; [eexists; split; [done|by eapply retry_inv]|].
    pose proof (removed_inv k1 fd1 kConnected Hrm ltac:(done)) as Hk.
    destruct (is_connect k1); (eexists; split; [done|]); destruct Hk; by split.
  - simpl. unfold handleError. destruct Ha as [fd Hfd]. pose proof (ki_chan _ Hi) as Hc. rewrite Hfd in Hc.
    rewrite bool_decide_true by done. destruct (kinv_removable k Hi Hc) as (H1 & H2 & H3).
    destruct (remove_ok k H1 H2 H3) as (k1 & fd1 & E & Hrm). rewrite E. simpl.
    eexists. split; [done|by eapply retry_inv].
Qed.

Inductive kruns : Connector → Connector → Prop :=
  | kruns_refl k : kruns k k
  | kruns_step k v k1 k2 : allowed k v → kstep k v = Ok k1 → kruns k1 k2 → kruns k k2.

Lemma kruns_inv k k' : kruns k k' → kinv k → kinv k'.
Proof.
  induction 1 as [|k v k1 k2 Ha E Hr IH]; [done|]. intros Hi.
  destruct (allowed_ok k v Hi Ha) as (k1' & E' & Hi'). apply IH. congruence.
Qed.

Lemma start_ok inLoop fd e : ∃ k, start inLoop Connector_ctor fd e = Ok k ∧ kinv k.
Proof.
  destruct inLoop; simpl.
  - by apply startInLoop_ok.
  - eexists. split; [done|]. split; simpl; try done.
Qed.

(** ** Properties *)

(** Sockets of the connector: after any sequence of calls, functors,
    timers and events that returns, every socket it created is in exactly one
    place: closed once, handed to the new-connection callback once, or held by
    the registered channel. *)
Theorem connector_no_leak (vs : list kevent) (k : Connector) :
  foldM kstep Connector_ctor vs = Ok k →
  k_created k ≡ₚ k_closed k ++ k_delivered k ++ held k.
Proof.
  assert (accounted Connector_ctor) as H by apply Permutation_refl. revert H. generalize Connector_ctor as k0.
  induction vs as [|v vs IH]; intros k0 H E; simpl in E; [by injection E as <-|].
  destruct (kstep k0 v) as [k1|] eqn:E1; [|done]. simpl in E. eapply IH; [|done].
  by eapply accounted_step.
Qed.

(** Refused twice, then accepted. *)
Definition demo_connect : list kevent :=
  [VStart true 5 ECONNREFUSED; VTimer 6 ECONNREFUSED; VTimer 7 EINPROGRESS; VWritable 0 false; VFunctor 0 0].

Lemma connector_no_leak_witness : ∃ k, foldM kstep Connector_ctor demo_connect = Ok k ∧
  k_delivered k = [7] ∧ k_created k ≡ₚ k_closed k ++ k_delivered k ++ held k.
Proof.
  eexists. split; [vm_compute; reflexivity|]. split; [reflexivity|].
  apply (connector_no_leak demo_connect). vm_compute. reflexivity.
Defined.

(** C28.  A connector that is started once (in the loop thread or from another
    thread) and stopped at any later moments never fails an assertion: in
    every reachable state every event the loop can deliver is handled, at
    most one attempt is under way or scheduled, and no channel is created
    while an old one is alive. *)
Theorem connector_safe (inLoop : bool) (fd e : Z) (k0 k : Connector) (v : kevent) :
  start inLoop Connector_ctor fd e = Ok k0 → kruns k0 k → allowed k v →
  (∃ k', kstep k v = Ok k') ∧ (length (k_timers k) + count FStartInLoop (k_queue k) ≤ 1)%nat ∧
  (m_state k = kConnecting ↔ ∃ fd', m_channel k = Some (fd', true)).
Proof.
  intros E Hr Ha. destruct (start_ok inLoop fd e) as (k0' & E' & Hi). assert (k0' = k0) as -> by congruence.
  pose proof (kruns_inv _ _ Hr Hi) as Hk. destruct (allowed_ok k v Hk Ha) as (k' & Ek & _).
  split_and!; [eauto|apply Hk|]. pose proof (ki_chan _ Hk) as Hc.
  destruct (m_channel k) as [[fd' []]|]; split; intros H; try done; try (by destruct H as [? ?]).
  by exists fd'.
Qed.

Lemma connector_safe_witness : ∃ k0 k, start false Connector_ctor 5 0 = Ok k0 ∧ kruns k0 k ∧
  m_state k = kConnecting ∧ ((∃ k', kstep k VError = Ok k') ∧
  (length (k_timers k) + count FStartInLoop (k_queue k) ≤ 1)%nat ∧
  (m_state k = kConnecting ↔ ∃ fd', m_channel k = Some (fd', true))).
Proof.
  assert (H : ∃ k0 k, start false Connector_ctor 5 0 = Ok k0 ∧ kruns k0 k ∧ m_state k = kConnecting ∧
    allowed k VError).
  { eexists _, _. split; [reflexivity|]. split.
    - eapply (kruns_step _ (VFunctor 5 EINPROGRESS)); [exact I|vm_compute; reflexivity|]. apply kruns_refl.
    - split; [reflexivity|]. by exists 5. }
  destruct H as (k0 & k & E & Hr & Hs & Ha). exists k0, k. split; [exact E|]. split; [exact Hr|]. split; [exact Hs|].
  exact (connector_safe false 5 0 k0 k VError E Hr Ha).
Defined.

(** Retry back-off: while the server refuses, the delay before the next
    attempt doubles from 500 ms and stays at 30 s; after [n] expired timers
    exactly one timer is pending, with delay min(500 * 2^n, 30000), and every
    socket has been closed. *)
Theorem connector_backoff (n : nat) :
  ∃ k, foldM kstep Connector_ctor
         (VStart true 5 ECONNREFUSED :: replicate n (VTimer 5 ECONNREFUSED)) = Ok k ∧
    k_timers k = [Z.min (500 * 2 ^ Z.of_nat n) 30000] ∧
    m_retryDelayMs k = Z.min (500 * 2 ^ (Z.of_nat n + 1)) 30000 ∧
    k_closed k = replicate (S n) 5 ∧ k_created k = replicate (S n) 5.
Proof.
  set (st := λ (n : nat) (k : Connector),
    k_timers k = [Z.min (500 * 2 ^ Z.of_nat n) 30000] ∧
    m_retryDelayMs k = Z.min (500 * 2 ^ (Z.of_nat n + 1)) 30000 ∧ k_closed k = replicate (S n) 5 ∧
    k_created k = replicate (S n) 5 ∧ m_state k = kDisconnected ∧ m_channel k = None ∧ is_connect k = true).
  assert (Hstep : ∀ m k, st m k → ∃ k', kstep k (VTimer 5 ECONNREFUSED) = Ok k' ∧ st (S m) k').
  { intros m k (H1 & H2 & H3 & H4 & H5 & H6 & H7). simpl. rewrite H1. unfold startInLoop. simpl.
    rewrite H5, H7. cbn -[Z.mul Z.pow Z.min replicate]. eexists. split; [done|].
    unfold st, retry. cbn -[Z.mul Z.pow Z.min replicate]. rewrite H7.
    cbn -[Z.mul Z.pow Z.min replicate]. rewrite H2, H3, H4.
    assert (Hp : 0 < 2 ^ Z.of_nat m) by (apply Z.pow_pos_nonneg; lia).
    assert (E1 : 2 ^ (Z.of_nat m + 1) = 2 * 2 ^ Z.of_nat m) by (rewrite Z.pow_add_r by lia; lia).
    assert (E2 : 2 ^ Z.of_nat (S m) = 2 ^ (Z.of_nat m + 1)) by (f_equal; lia).
    assert (E3 : 2 ^ (Z.of_nat (S m) + 1) = 2 * 2 ^ (Z.of_nat m + 1)) by (rewrite Z.pow_add_r, E2 by lia; lia).
    split_and!; try done.
    - by rewrite E2.
    - unfold kMaxRetryDelayMs. rewrite E3. lia.
    - by rewrite <- replicate_S_end.
    - by rewrite <- replicate_S_end. }
  assert (Hrun : ∀ n m k, st m k → ∃ k', foldM kstep k (replicate n (VTimer 5 ECONNREFUSED)) = Ok k' ∧ st (m + n)%nat k').
  { clear n. induction n as [|n IH]; intros m k Hst; simpl; [exists k; by rewrite Nat.add_0_r|].
    destruct (Hstep m k Hst) as (k1 & E1 & Hst1). simpl in E1. rewrite E1. simpl.
    destruct (IH (S m) k1 Hst1) as (k' & E & Hst'). exists k'. split; [done|]. by replace (m + S n)%nat with (S m + n)%nat by lia. }
  assert (∃ k, kstep Connector_ctor (VStart true 5 ECONNREFUSED) = Ok k ∧ st 0%nat k) as (k0 & E0 & Hst0).
  { eexists. split; [vm_compute; reflexivity|]. unfold st. split_and!; reflexivity. }
  destruct (Hrun n 0%nat k0 Hst0) as (k & E & Hst). exists k. cbn [foldM]. rewrite E0. cbn [mbind res_bind].
  split; [exact E|]. destruct Hst as (? & ? & ? & ? & _). done.
Qed.

(** stop() followed by start() from another thread while a connection
    attempt is under way: stopInLoop removes the channel and queues its
    destruction behind the queued startInLoop, which then fails the assertion
    that there is no channel.  start() in the loop thread during an attempt
    fails the assertion on the state. *)
Theorem connector_restart_aborts :
  foldM kstep Connector_ctor
    [VStart true 5 EINPROGRESS; VStop; VStart false 0 0; VFunctor 0 0; VFunctor 6 EINPROGRESS]
    = Fail (FAssert "!m_channel") ∧
  foldM kstep Connector_ctor [VStart true 5 EINPROGRESS; VStop; VStart true 6 EINPROGRESS]
    = Fail (FAssert "m_state == kDisconnected").
Proof. split; vm_compute; reflexivity. Qed.

(** Acceptor::handleRead when the process is out of descriptors: the
    spare descriptor is given up to accept one waiting connection and close
    it, and is taken again, so that the backlog shrinks (the level-triggered
    listening socket does not spin) while the number of open descriptors is
    what it was; otherwise one connection is accepted and handed over. *)
Theorem acceptor_sheds (a : Acceptor) (f : fd_table) :
  m_idleFd a = true → m_newConnectionCallback a = true → 0 < backlog f → 1 ≤ fds_open f ≤ fds_limit f →
  let '(a', f') := Acceptor_handleRead a f in
  m_idleFd a' = true ∧ backlog f' = backlog f - 1 ∧ fds_open f' ≤ fds_limit f' ∧
  (fds_open f = fds_limit f → fds_open f' = fds_open f ∧ a_accepted a' = a_accepted a) ∧
  (fds_open f < fds_limit f → fds_open f' = fds_open f + 1 ∧ a_accepted a' = a_accepted a + 1).
Proof.
  intros Hi Hcb Hb Hf. unfold Acceptor_handleRead, sys_accept.
  rewrite (proj2 (Z.leb_gt (backlog f) 0)) by lia.
  destruct (fds_limit f <=? fds_open f) eqn:E; bprop.
  - rewrite Hi. simpl. rewrite (proj2 (Z.leb_gt (backlog f) 0)) by lia.
    rewrite (proj2 (Z.leb_gt (fds_limit f) (fds_open f - 1))) by lia. simpl. unfold sys_open, sys_close. simpl.
    rewrite (proj2 (Z.leb_gt (fds_limit f) (fds_open f - 1 + 1 - 1))) by lia. simpl. split_and!; lia || done.
  - rewrite Hcb. simpl. split_and!; lia || done.
Qed.

Lemma acceptor_sheds_witness :
  let '(a', f') := Acceptor_handleRead (mkAcceptor true true true 3) (mkFds 1024 1024 2) in
  m_idleFd a' = true ∧ backlog f' = 2 - 1 ∧ fds_open f' ≤ fds_limit f' ∧
  (1024 = 1024 → fds_open f' = 1024 ∧ a_accepted a' = 3) ∧
  (1024 < 1024 → fds_open f' = 1024 + 1 ∧ a_accepted a' = 3 + 1).
Proof.
  apply (acceptor_sheds (mkAcceptor true true true 3) (mkFds 1024 1024 2)); simpl; try reflexivity; lia.
Defined.

(** What happens to an acceptor: its socket is readable; the rest of the
    process opens or closes descriptors and clients connect. *)
Inductive acceptor_event : Type := AReadable | AOutside (opened arrived : Z).

Definition acceptor_step (s : Acceptor * fd_table) (e : acceptor_event) : Acceptor * fd_table :=
  match e with
  | AReadable => Acceptor_handleRead s.1 s.2
  | AOutside opened arrived => (s.1, mkFds (fds_open s.2 + opened) (fds_limit s.2) (backlog s.2 + arrived))
  end.

Definition opened_outside (es : list acceptor_event) : Z :=
  foldr Z.add 0 (map (λ e, match e with AReadable => 0 | AOutside opened _ => opened end) es).

(** The descriptors of the acceptor and those it handed over. *)
Definition acceptor_fds (a : Acceptor) : Z := 1 + (if m_idleFd a then 1 else 0) + a_accepted a.

Lemma acceptor_step_balance s e :
  fds_open (acceptor_step s e).2 - acceptor_fds (acceptor_step s e).1 =
  fds_open s.2 - acceptor_fds s.1 + opened_outside [e].
Proof.
  destruct s as [a f], e as [|d n]; unfold acceptor_fds, opened_outside; simpl; [|lia].
  unfold Acceptor_handleRead, sys_accept, sys_open, sys_close.
  repeat (case_match; simplify_eq; simpl in *; try lia).
Qed.

(** No descriptor is lost: whatever connects, and however many descriptors
    the rest of the process holds (so that accept fails with EMFILE and the
    spare descriptor cannot be opened again), after the destructor exactly the
    descriptors of the connections handed to the callback are open beside
    those the process had and those opened outside. *)
Theorem acceptor_balanced (bound : bool) (f0 f : fd_table) (a : Acceptor) (es : list acceptor_event) :
  Acceptor_ctor bound f0 = Ok (a, f) →
  let '(a', f') := foldl acceptor_step (setNewConnectionCallback a, f) es in
  fds_open (Acceptor_dtor a' f') = fds_open f0 + a_accepted a' + opened_outside es.
Proof.
  intros E.
  assert (Hb : ∀ s, fds_open (foldl acceptor_step s es).2 - acceptor_fds (foldl acceptor_step s es).1 =
    fds_open s.2 - acceptor_fds s.1 + opened_outside es).
  { clear. induction es as [|e es IH]; intros s; [unfold opened_outside; simpl; lia|]. cbn [foldl]. rewrite IH, acceptor_step_balance.
    unfold opened_outside. simpl. lia. }
  specialize (Hb (setNewConnectionCallback a, f)). destruct (foldl _ _ es) as [a' f']. simpl in Hb.
  assert (fds_open f - acceptor_fds (setNewConnectionCallback a) = fds_open f0) as H0.
  { unfold Acceptor_ctor, sys_open in E. repeat (case_match; simplify_eq; simpl in *; try done).
    unfold acceptor_fds. simpl. lia. }
  unfold Acceptor_dtor, acceptor_fds in *. simpl in *. destruct (m_idleFd a'); simpl; lia.
Qed.

Lemma acceptor_balanced_witness :
  let '(a', f') := foldl acceptor_step (setNewConnectionCallback (mkAcceptor false true false 0), mkFds 5 8 0)
    [AOutside 3 2; AReadable; AOutside (-1) 0; AReadable] in
  fds_open (Acceptor_dtor a' f') = 3 + a_accepted a' + opened_outside [AOutside 3 2; AReadable; AOutside (-1) 0; AReadable].
Proof.
  apply (acceptor_balanced true (mkFds 3 8 0) (mkFds 5 8 0) (mkAcceptor false true false 0)). vm_compute. reflexivity.
Defined.
