(* ===== verification/Descriptors.v ===== *)
(** * Descriptors and their owners: the RAII of src/dc/net

    The descriptor table of the process and the objects that own entries of
    it: an EventLoop (epoll descriptor, timerfd, eventfd), an Acceptor (its
    socket and the spare descriptor), the Socket of a TcpConnection, and the
    [Connector] of file Connector with the socket it is connecting.  The
    functions that create, use and close descriptors are translated with the
    flags they pass: eventLoop.cc, timerQueue.cc, epollPoller.cc, acceptor.cc,
    socket.cc, socketsOps.cc, connector.cc.  Which descriptor the kernel gives
    out, and when it refuses, is a parameter.

    Specifications have the form of separation logic: [opens k L] says that the
    open descriptors are exactly those of the list [L], up to order, and every
    operation is specified on the entries it touches with the rest as frame. *)

From S2P Require Import Prelude Inet Connector.

Open Scope Z_scope.

(** ** The descriptor table *)

Inductive kind : Type := KEpoll | KTimer | KEvent | KSocket | KNull | KOther.

Record desc : Type := mkDesc { d_kind : kind; d_nonblock : bool; d_cloexec : bool }.

#[global] Instance kind_eq_dec : EqDecision kind.
Proof. solve_decision. Defined.
#[global] Instance desc_eq_dec : EqDecision desc.
Proof. solve_decision. Defined.

(** The open descriptors, a count of the calls that create one, the
    descriptors of calls that found them closed (EBADF), and the error lines. *)
Record kernel : Type := mkKernel {
  k_files : gmap Z desc;
  k_calls : Z;
  k_badf : list Z;
  k_log : list string;
}.

Definition set_files (k : kernel) (m : gmap Z desc) : kernel := mkKernel m (k_calls k) (k_badf k) (k_log k).
Definition ebadf (k : kernel) (fd : Z) : kernel := mkKernel (k_files k) (k_calls k) (k_badf k ++ [fd]) (k_log k).
Definition log_line (k : kernel) (l : string) : kernel := mkKernel (k_files k) (k_calls k) (k_badf k) (k_log k ++ [l]).

Section Kernel.
(** The answer of the kernel to the n-th call that creates a descriptor. *)
Context (alloc : Z → gmap Z desc → sys_ret).

Definition sys_create (d : desc) (k : kernel) : sys_ret * kernel :=
  let r := alloc (k_calls k) (k_files k) in
  (r, mkKernel (if ret r <? 0 then k_files k else <[ret r := d]> (k_files k)) (k_calls k + 1) (k_badf k) (k_log k)).

(** close(2) *)
Definition sys_close (k : kernel) (fd : Z) : Z * kernel :=
  match k_files k !! fd with
  | Some _ => (0, set_files k (delete fd (k_files k)))
  | None => (-1, ebadf k fd)
  end.

(** A call on an open descriptor (read, write, shutdown) with its answer. *)
Definition sys_use (k : kernel) (fd answer : Z) : Z * kernel :=
  match k_files k !! fd with Some _ => (answer, k) | None => (-1, ebadf k fd) end.

(** ** socketsOps.cc, socket.cc *)

Definition sockets_close (k : kernel) (sockfd : Z) : kernel :=
  let '(r, k1) := sys_close k sockfd in if r <? 0 then log_line k1 "sockets::close" else k1.
Definition sockets_shutdownWrite (k : kernel) (sockfd answer : Z) : kernel :=
  let '(r, k1) := sys_use k sockfd answer in if r <? 0 then log_line k1 "sockets::shutdownWrite" else k1.
Definition sockets_read (k : kernel) (sockfd answer : Z) : Z * kernel := sys_use k sockfd answer.
Definition sockets_readv (k : kernel) (sockfd answer : Z) : Z * kernel := sys_use k sockfd answer.
Definition sockets_write (k : kernel) (sockfd answer : Z) : Z * kernel := sys_use k sockfd answer.
(** [Socket::bindAddress], [Socket::listen], [Socket::shutdownWrite] *)
Definition Socket_bindAddress (k : kernel) (m_sockfd answer : Z) : res kernel :=
  let '(r, k1) := sys_use k m_sockfd answer in bindOrDie (mkRet r 0);; Ok k1.
Definition Socket_listen (k : kernel) (m_sockfd answer : Z) : res kernel :=
  let '(r, k1) := sys_use k m_sockfd answer in listenOrDie (mkRet r 0);; Ok k1.
Definition Socket_shutdownWrite (k : kernel) (m_sockfd answer : Z) : kernel := sockets_shutdownWrite k m_sockfd answer.
Definition Socket_dtor (k : kernel) (m_sockfd : Z) : kernel := sockets_close k m_sockfd.

(** SOCK_STREAM | SOCK_NONBLOCK | SOCK_CLOEXEC, of socket(2) and accept4(2). *)
Definition socket_desc : desc := mkDesc KSocket true true.
(** What accept(2) makes: neither flag. *)
Definition plain_socket : desc := mkDesc KSocket false false.

Definition create_socket_fd (k : kernel) : res (Z * kernel) :=
  let '(r, k1) := sys_create socket_desc k in
  fd ← createNonblockingOrDie r;
  Ok (fd, k1).

(** ** EventLoop, TimerQueue, EpollPoller *)

(** EFD_NONBLOCK | EFD_CLOEXEC *)
Definition event_desc : desc := mkDesc KEvent true true.
Definition createEventfd (k : kernel) : res (Z * kernel) :=
  let '(r, k1) := sys_create event_desc k in
  if ret r <? 0 then Fail (FAbort "failed in eventfd") else Ok (ret r, k1).

(** TFD_NONBLOCK | TFD_CLOEXEC *)
Definition timer_desc : desc := mkDesc KTimer true true.
Definition createTimerfd (k : kernel) : res (Z * kernel) :=
  let '(r, k1) := sys_create timer_desc k in
  if ret r <? 0 then Fail (FAbort "failed in timerfd_creates") else Ok (ret r, k1).

Definition readTimerfd (k : kernel) (timerfd answer : Z) : kernel :=
  let '(n, k1) := sys_use k timerfd answer in
  if n =? 8 then k1 else log_line k1 "TimerQueue::handleRead() reads".

(** EPOLL_CLOEXEC *)
Definition epoll_desc : desc := mkDesc KEpoll false true.
Definition EpollPoller_ctor (k : kernel) : res (Z * kernel) :=
  let '(r, k1) := sys_create epoll_desc k in
  if ret r <? 0 then Fail (FAbort "EpollPoller::EpollPoller") else Ok (ret r, k1).
Definition EpollPoller_dtor (k : kernel) (m_epollfd : Z) : kernel := (sys_close k m_epollfd).2.

(** The loop of a thread: the members that hold descriptors. *)
Record loop_fds : Type := mkLoopFds { l_thread : Z; m_epollfd : Z; m_timerfd : Z; m_wakeupFd : Z }.

(** [EventLoop::EventLoop] in a thread: the members in the order of their
    declaration, then the test of [t_loopInThisThread]. *)
Definition loop_ctor (threadId : Z) (t_loopInThisThread : option nat) (k : kernel) : res (loop_fds * kernel) :=
  '(ep, k1) ← EpollPoller_ctor k;
  '(tm, k2) ← createTimerfd k1;
  '(wk, k3) ← createEventfd k2;
  match t_loopInThisThread with
  | Some _ => Fail (FAbort "Another EventLoop exists in this thread")
  | None => Ok (mkLoopFds threadId ep tm wk, k3)
  end.

(** [EventLoop::~EventLoop] in a thread, then its members backwards; the
    update of the wakeup channel asserts the loop's thread. *)
Definition loop_dtor (tid : Z) (l : loop_fds) (k : kernel) : res kernel :=
  if l_thread l =? tid then
    let k1 := (sys_close k (m_wakeupFd l)).2 in
    let k2 := (sys_close k1 (m_timerfd l)).2 in
    Ok (EpollPoller_dtor k2 (m_epollfd l))
  else Fail (FAbort "EventLoop::abortNotInLoopThread").

(** [EventLoop::wakeup], [EventLoop::handleRead] *)
Definition loop_wakeup (l : loop_fds) (k : kernel) (answer : Z) : kernel :=
  let '(n, k1) := sockets_write k (m_wakeupFd l) answer in
  if n =? 8 then k1 else log_line k1 "EventLoop::wakeup() writes".
Definition loop_handleRead (l : loop_fds) (k : kernel) (answer : Z) : kernel :=
  let '(n, k1) := sockets_read k (m_wakeupFd l) answer in
  if n =? 8 then k1 else log_line k1 "EventLoop::handleRead() reads".

(** ** Acceptor *)

(** O_RDONLY | O_CLOEXEC *)
Definition null_desc : desc := mkDesc KNull false true.

Record acceptor_fds : Type := mkAcceptorFds { a_socket : Z; a_idle : Z; a_callback : bool }.

Definition acceptor_ctor (bind : Z) (k : kernel) : res (acceptor_fds * kernel) :=
  '(sock, k1) ← create_socket_fd k;
  let '(idle, k2) := sys_create null_desc k1 in
  cassert (0 <=? ret idle) "m_idleFd >= 0";;
  k3 ← Socket_bindAddress k2 sock bind;
  Ok (mkAcceptorFds sock (ret idle) false, k3).

Definition acceptor_dtor (a : acceptor_fds) (k : kernel) : kernel :=
  Socket_dtor (sys_close k (a_idle a)).2 (a_socket a).

(** [Acceptor::handleRead]: the acceptor, the kernel, and the descriptor that
    the callback gets. *)
Definition acceptor_handleRead (a : acceptor_fds) (peer : sockaddr) (k : kernel) :
    res (acceptor_fds * kernel * option Z) :=
  let '(r, k1) := sys_create socket_desc k in
  '(r', _) ← Socket_accept r (replicate 28 NUL) peer;
  if 0 <=? ret r' then
    if a_callback a then Ok (a, k1, Some (ret r')) else Ok (a, sockets_close k1 (ret r'), None)
  else if errno r' =? EMFILE then
    let k2 := (sys_close k1 (a_idle a)).2 in
    let '(idle, k3) := sys_create plain_socket k2 in
    let k4 := (sys_close k3 (ret idle)).2 in
    let '(idle', k5) := sys_create null_desc k4 in
    Ok (mkAcceptorFds (a_socket a) (ret idle') (a_callback a), k5, None)
  else Ok (a, k1, None).

(** ** Connector *)

(** What a step of the connector created, closed and handed over. *)
Definition news (old new : list Z) : list Z := drop (length old) new.

Definition is_create (k k' : Connector) : bool := negb (bool_decide (news (k_created k) (k_created k') = [])).

(** The event with the descriptor that socket(2) returns in it. *)
Definition with_fd (v : kevent) (fd : Z) : kevent :=
  match v with
  | VStart b _ e => VStart b fd e
  | VRestart _ e => VRestart fd e
  | VFunctor _ e => VFunctor fd e
  | VTimer _ e => VTimer fd e
  | v => v
  end.

(** A step of the connector on the table: the socket it creates, if it gets
    to socket(2), and those it closes; the socket for the callback. *)
Definition connector_step (c : Connector) (v : kevent) (k : kernel) : res (Connector * kernel * option Z) :=
  let r := alloc (k_calls k) (k_files k) in
  c1 ← kstep c (with_fd v (ret r));
  k1 ← (if is_create c c1 then '(_, k1) ← create_socket_fd k; Ok k1 else Ok k);
  Ok (c1, foldl sockets_close k1 (news (k_closed c) (k_closed c1)), head (news (k_delivered c) (k_delivered c1))).

(** ** The process *)

(** The objects of the library; [Gone] is one that was destroyed. *)
Inductive object : Type :=
  | Loop (l : loop_fds)
  | Accept (a : acceptor_fds)
  | Conn (fd : Z)                 (* a TcpConnection with its Socket *)
  | Connect (c : Connector)
  | Gone.

(** What an object owns: descriptors with what they are. *)
Definition owned (o : object) : list (Z * desc) :=
  match o with
  | Loop l => [(m_epollfd l, epoll_desc); (m_timerfd l, timer_desc); (m_wakeupFd l, event_desc)]
  | Accept a => (a_socket a, socket_desc) :: if 0 <=? a_idle a then [(a_idle a, null_desc)] else []
  | Conn fd => [(fd, socket_desc)]
  | Connect c => map (λ fd, (fd, socket_desc)) (held c)
  | Gone => []
  end.

Record process : Type := mkProcess {
  p_kernel : kernel;
  p_objects : list object;
  p_threads : gmap Z nat;          (* t_loopInThisThread *)
  p_others : list (Z * desc);      (* descriptors of the rest of the program *)
}.

Inductive event : Type :=
  | NewLoop (tid : Z)
  | DropLoop (tid : Z) (i : nat)
  | Wakeup (i : nat) (answer : Z)
  | WakeupRead (i : nat) (answer : Z)
  | TimerRead (i : nat) (answer : Z)
  | NewAcceptor (bind : Z)
  | Listen (i : nat) (answer : Z)
  | SetCallback (i : nat)
  | Readable (i : nat) (peer : sockaddr)
  | DropAcceptor (i : nat)
  | ConnShutdown (i : nat) (answer : Z)
  | ConnRead (i : nat) (answer : Z)
  | ConnWrite (i : nat) (answer : Z)
  | DropConn (i : nat)
  | NewConnector
  | ConnectorEvent (i : nat) (v : kevent)
  | DropConnector (i : nat)
  | OtherOpens (nonblock cloexec : bool)
  | OtherCloses (n : nat).

Definition set_object (p : process) (i : nat) (o : object) (k : kernel) : process :=
  mkProcess k (<[i := o]> (p_objects p)) (p_threads p) (p_others p).
Definition new_object (p : process) (o : object) (k : kernel) : process :=
  mkProcess k (p_objects p ++ [o]) (p_threads p) (p_others p).
Definition set_kernel (p : process) (k : kernel) : process := mkProcess k (p_objects p) (p_threads p) (p_others p).
Definition set_threads (p : process) (m : gmap Z nat) : process := mkProcess (p_kernel p) (p_objects p) m (p_others p).

(** [TcpServer::newConnection] and [TcpClient::newConnection] make the Socket
    of a TcpConnection of the descriptor. *)
Definition new_conn (p : process) (fd : option Z) : process :=
  match fd with Some fd => new_object p (Conn fd) (p_kernel p) | None => p end.

(** [EventLoop::getEventLoopOfCurrentThread] *)
Definition getEventLoopOfCurrentThread (p : process) (tid : Z) : option nat := p_threads p !! tid.

(** An event of the process; on an object of another kind nothing happens. *)
Definition step (p : process) (e : event) : res process :=
  let k := p_kernel p in
  match e with
  | NewLoop tid =>
      '(l, k1) ← loop_ctor tid (p_threads p !! tid) k;
      Ok (set_threads (new_object p (Loop l) k1) (<[tid := length (p_objects p)]> (p_threads p)))
  | DropLoop tid i =>
      match p_objects p !! i with
      | Some (Loop l) =>
          k1 ← loop_dtor tid l k;
          Ok (set_threads (set_object p i Gone k1) (delete tid (p_threads p)))
      | _ => Ok p
      end
  | Wakeup i answer => match p_objects p !! i with Some (Loop l) => Ok (set_kernel p (loop_wakeup l k answer)) | _ => Ok p end
  | WakeupRead i answer => match p_objects p !! i with Some (Loop l) => Ok (set_kernel p (loop_handleRead l k answer)) | _ => Ok p end
  | TimerRead i answer => match p_objects p !! i with Some (Loop l) => Ok (set_kernel p (readTimerfd k (m_timerfd l) answer)) | _ => Ok p end
  | NewAcceptor bind => '(a, k1) ← acceptor_ctor bind k; Ok (new_object p (Accept a) k1)
  | Listen i answer =>
      match p_objects p !! i with
      | Some (Accept a) => k1 ← Socket_listen k (a_socket a) answer; Ok (set_kernel p k1)
      | _ => Ok p
      end
  | SetCallback i =>
      match p_objects p !! i with
      | Some (Accept a) => Ok (set_object p i (Accept (mkAcceptorFds (a_socket a) (a_idle a) true)) k)
      | _ => Ok p
      end
  | Readable i peer =>
      match p_objects p !! i with
      | Some (Accept a) =>
          '(a1, k1, connfd) ← acceptor_handleRead a peer k;
          Ok (new_conn (set_object p i (Accept a1) k1) connfd)
      | _ => Ok p
      end
  | DropAcceptor i =>
      match p_objects p !! i with Some (Accept a) => Ok (set_object p i Gone (acceptor_dtor a k)) | _ => Ok p end
  | ConnShutdown i answer =>
      match p_objects p !! i with Some (Conn fd) => Ok (set_kernel p (Socket_shutdownWrite k fd answer)) | _ => Ok p end
  | ConnRead i answer => match p_objects p !! i with Some (Conn fd) => Ok (set_kernel p (sockets_readv k fd answer).2) | _ => Ok p end
  | ConnWrite i answer => match p_objects p !! i with Some (Conn fd) => Ok (set_kernel p (sockets_write k fd answer).2) | _ => Ok p end
  | DropConn i => match p_objects p !! i with Some (Conn fd) => Ok (set_object p i Gone (Socket_dtor k fd)) | _ => Ok p end
  | NewConnector => Ok (new_object p (Connect Connector_ctor) k)
  | ConnectorEvent i v =>
      match p_objects p !! i with
      | Some (Connect c) =>
          '(c1, k1, sockfd) ← connector_step c v k;
          Ok (new_conn (set_object p i (Connect c1) k1) sockfd)
      | _ => Ok p
      end
  | DropConnector i =>
      match p_objects p !! i with
      | Some (Connect c) => Connector_dtor c;; Ok (set_object p i Gone k)
      | _ => Ok p
      end
  | OtherOpens nonblock cloexec =>
      let d := mkDesc KOther nonblock cloexec in
      let '(r, k1) := sys_create d k in
      Ok (mkProcess k1 (p_objects p) (p_threads p) (if ret r <? 0 then p_others p else (ret r, d) :: p_others p))
  | OtherCloses n =>
      match p_others p !! n with
      | Some (fd, _) => Ok (mkProcess (sys_close k fd).2 (p_objects p) (p_threads p) (delete n (p_others p)))
      | None => Ok p
      end
  end.

Definition run (p : process) (es : list event) : res process := foldM step p es.

(** ** What the table holds *)

(** A descriptor that the kernel gives out is not open. *)
Hypothesis alloc_fresh : ∀ n m, 0 ≤ ret (alloc n m) → m !! ret (alloc n m) = None.

(** The open descriptors are those of the list; no call has found a
    descriptor closed but on a negative number; sockets::close never failed. *)
Record holds (k : kernel) (L : list (Z * desc)) : Prop := mkHolds {
  h_files : L ≡ₚ map_to_list (k_files k);
  h_nonneg : Forall (λ x, 0 ≤ x.1) L;
  h_badf : Forall (λ fd, fd < 0) (k_badf k);
  h_log : "sockets::close"%string ∉ k_log k;
}.

#[local] Instance holds_proper k : Proper ((≡ₚ) ==> iff) (holds k).
Proof.
  intros L L' E. split; intros [H1 H2 H3 H4]; split; try done.
  - by rewrite <- E.
  - by rewrite <- E.
  - by rewrite E.
  - by rewrite E.
Qed.

Lemma holds_lookup k fd d L : holds k ((fd, d) :: L) → k_files k !! fd = Some d.
Proof. intros H. apply elem_of_map_to_list. rewrite <- (h_files _ _ H). by left. Qed.

Lemma holds_log k L l : holds k L → l ≠ "sockets::close"%string → holds (log_line k l) L.
Proof. intros [H1 H2 H3 H4] Hl. split; try done. simpl. rewrite elem_of_app, list_elem_of_singleton. by intros [?|?]. Qed.

Lemma holds_create d k L r k' :
  holds k L → sys_create d k = (r, k') → if ret r <? 0 then holds k' L else holds k' ((ret r, d) :: L).
Proof.
  intros [H1 H2 H3 H4] [= <- <-]. destruct (ret _ <? 0) eqn:E; bprop; [by split|]. split; try done; simpl.
  - rewrite map_to_list_insert by (apply alloc_fresh; lia). by rewrite H1.
  - constructor; [simpl; lia|done].
Qed.

Lemma holds_close k fd d L : holds k ((fd, d) :: L) → ∃ k', sys_close k fd = (0, k') ∧ holds k' L.
Proof.
  intros H. pose proof (holds_lookup _ _ _ _ H) as E. unfold sys_close. rewrite E. eexists. split; [done|].
  destruct H as [H1 H2 H3 H4]. apply Forall_cons in H2 as [_ H2]. split; try done. simpl.
  apply (Permutation_cons_inv (a := (fd, d))). rewrite H1. symmetry. by apply map_to_list_delete.
Qed.

Lemma holds_close_negative k fd L : holds k L → fd < 0 → holds (sys_close k fd).2 L.
Proof.
  intros [H1 H2 H3 H4] Hn. unfold sys_close. destruct (k_files k !! fd) as [d|] eqn:E.
  - apply elem_of_map_to_list in E. rewrite <- H1 in E. rewrite Forall_forall in H2. specialize (H2 _ E). simpl in H2. lia.
  - split; try done. simpl. by apply Forall_app_2; [|repeat constructor].
Qed.

Lemma holds_sockets_close k fd d L : holds k ((fd, d) :: L) → holds (sockets_close k fd) L.
Proof. intros H. unfold sockets_close. by destruct (holds_close _ _ _ _ H) as (k' & -> & H'). Qed.

Lemma holds_use k fd d L a : holds k L → (fd, d) ∈ L → sys_use k fd a = (a, k).
Proof.
  intros H Hi. unfold sys_use. apply list_elem_of_split in Hi as (L1 & L2 & ->).
  rewrite <- Permutation_middle in H. by rewrite (holds_lookup _ _ _ _ H).
Qed.

(** ** The operations *)

Lemma create_socket_fd_spec k L fd k' : holds k L → create_socket_fd k = Ok (fd, k') → holds k' ((fd, socket_desc) :: L).
Proof.
  intros H E. unfold create_socket_fd in E. destruct (sys_create socket_desc k) as [r k1] eqn:Ec.
  pose proof (holds_create _ _ _ _ _ H Ec) as H1. unfold createNonblockingOrDie in E.
  destruct (ret r <? 0); [done|]. by injection E as <- <-.
Qed.

(** The three constructors of a loop's descriptors have one form. *)
Lemma create_or_abort_spec d what k L fd k' :
  holds k L →
  (let '(r, k1) := sys_create d k in if ret r <? 0 then Fail (FAbort what) else Ok (ret r, k1)) = Ok (fd, k') →
  holds k' ((fd, d) :: L).
Proof.
  intros H E. destruct (sys_create d k) as [r k1] eqn:Ec. pose proof (holds_create _ _ _ _ _ H Ec) as H1.
  destruct (ret r <? 0); [done|]. by injection E as <- <-.
Qed.

Lemma loop_ctor_spec tid t k L l k' :
  holds k L → loop_ctor tid t k = Ok (l, k') → holds k' (owned (Loop l) ++ L) ∧ l_thread l = tid ∧ t = None.
Proof.
  intros H E. unfold loop_ctor in E. apply bind_Ok in E as ([ep k1] & E1 & E).
  apply bind_Ok in E as ([tm k2] & E2 & E). apply bind_Ok in E as ([wk k3] & E3 & E). destruct t; [done|].
  injection E as <- <-. split; [|done]. apply (create_or_abort_spec _ _ _ _ _ _ H) in E1.
  apply (create_or_abort_spec _ _ _ _ _ _ E1) in E2. apply (create_or_abort_spec _ _ _ _ _ _ E2) in E3.
  simpl. eapply holds_proper; [|exact E3]. solve_Permutation.
Qed.

Lemma loop_dtor_spec tid l k L k' :
  holds k (owned (Loop l) ++ L) → loop_dtor tid l k = Ok k' → holds k' L ∧ l_thread l = tid.
Proof.
  intros H E. unfold loop_dtor in E. destruct (l_thread l =? tid) eqn:Et; [|done]. bprop. injection E as <-. split; [|done].
  assert (holds k ((m_wakeupFd l, event_desc) :: (m_timerfd l, timer_desc) :: (m_epollfd l, epoll_desc) :: L)) as H0
    by (eapply holds_proper; [|exact H]; simpl; solve_Permutation).
  destruct (holds_close _ _ _ _ H0) as (k1 & -> & H1). simpl. destruct (holds_close _ _ _ _ H1) as (k2 & -> & H2). simpl.
  unfold EpollPoller_dtor. by destruct (holds_close _ _ _ _ H2) as (k3 & -> & H3).
Qed.

Lemma acceptor_ctor_spec bind k L a k' : holds k L → acceptor_ctor bind k = Ok (a, k') → holds k' (owned (Accept a) ++ L).
Proof.
  intros H E. unfold acceptor_ctor in E. apply bind_Ok in E as ([sock k1] & E1 & E).
  apply (create_socket_fd_spec _ _ _ _ H) in E1. destruct (sys_create null_desc k1) as [idle k2] eqn:E2.
  pose proof (holds_create _ _ _ _ _ E1 E2) as H2. destruct (0 <=? ret idle) eqn:Ei; [|done]. cbn [cassert mbind res_bind] in E.
  rewrite (proj2 (Z.ltb_ge _ _)) in H2 by (bprop; lia). apply bind_Ok in E as (k3 & E3 & E). injection E as <- <-.
  unfold Socket_bindAddress in E3. rewrite (holds_use _ sock socket_desc _ bind H2) in E3 by set_solver.
  apply bind_Ok in E3 as (? & _ & E3). injection E3 as <-. simpl. rewrite Ei. simpl.
  eapply holds_proper; [|exact H2]. solve_Permutation.
Qed.

(** Closing the spare descriptor, which may be none. *)
Lemma close_idle_spec a k L :
  holds k (owned (Accept a) ++ L) → holds (sys_close k (a_idle a)).2 ((a_socket a, socket_desc) :: L).
Proof.
  simpl. destruct (0 <=? a_idle a) eqn:Ei; bprop; intros H.
  - cbn [app] in H. rewrite Permutation_swap in H. by destruct (holds_close _ _ _ _ H) as (k1 & -> & H1).
  - by apply holds_close_negative.
Qed.

Lemma acceptor_dtor_spec a k L : holds k (owned (Accept a) ++ L) → holds (acceptor_dtor a k) L.
Proof. intros H. eapply holds_sockets_close. by apply close_idle_spec. Qed.

Definition conn_of (fd : option Z) : list (Z * desc) := match fd with Some fd => [(fd, socket_desc)] | None => [] end.

Lemma acceptor_handleRead_spec a peer k L a' k' fd :
  holds k (owned (Accept a) ++ L) → acceptor_handleRead a peer k = Ok (a', k', fd) →
  holds k' (owned (Accept a') ++ conn_of fd ++ L).
Proof.
  intros H E. unfold acceptor_handleRead in E. destruct (sys_create socket_desc k) as [r k1] eqn:Ec.
  pose proof (holds_create _ _ _ _ _ H Ec) as H1. apply bind_Ok in E as ([r' p'] & Ea & E).
  assert (ret r' = ret r) as Er.
  { unfold Socket_accept, accept in Ea. destruct (ret r <? 0); [destruct (accept_returns _)|]; simpl in Ea; by simplify_eq. }
  rewrite Er in E. destruct (0 <=? ret r) eqn:En; bprop.
  - rewrite (proj2 (Z.ltb_ge _ _)) in H1 by lia. destruct (a_callback a); simplify_eq; simpl conn_of.
    + eapply holds_proper; [|exact H1]. solve_Permutation.
    + by eapply holds_sockets_close.
  - rewrite (proj2 (Z.ltb_lt _ _)) in H1 by lia. destruct (errno r' =? EMFILE); [|by simplify_eq].
    pose proof (close_idle_spec _ _ _ H1) as H2. destruct (sys_create plain_socket _) as [idle k3] eqn:E3.
    pose proof (holds_create _ _ _ _ _ H2 E3) as H3. destruct (sys_create null_desc _) as [idle' k5] eqn:E5.
    injection E as <- <- <-.
    assert (holds (sys_close k3 (ret idle)).2 ((a_socket a, socket_desc) :: L)) as H4.
    { destruct (ret idle <? 0) eqn:En3; bprop; [by apply holds_close_negative|].
      by destruct (holds_close _ _ _ _ H3) as (k4 & -> & H4). }
    pose proof (holds_create _ _ _ _ _ H4 E5) as H5. simpl.
    destruct (ret idle' <? 0) eqn:En5; bprop.
    + by rewrite (proj2 (Z.leb_gt _ _)) by lia.
    + rewrite (proj2 (Z.leb_le _ _)) by lia. eapply holds_proper; [|exact H5]. solve_Permutation.
Qed.

(** *** A step of the connector *)

(** The logs of a connector only grow; a step creates at most one socket, the
    one of the event, and hands over at most one. *)
Definition grows (fd : Z) (c c' : Connector) : Prop :=
  ∃ cr cl de, k_created c' = k_created c ++ cr ∧ k_closed c' = k_closed c ++ cl ∧ k_delivered c' = k_delivered c ++ de ∧
    (cr = [] ∨ cr = [fd]) ∧ (length de ≤ 1)%nat.

Ltac grow cr cl de := exists cr, cl, de; simpl; rewrite ?app_nil_r; split_and!; auto.

Lemma grows_refl fd c : grows fd c c.
Proof. grow (@nil Z) (@nil Z) (@nil Z). Qed.

Lemma retry_grows fd c s : grows fd c (retry c s).
Proof. unfold retry. destruct (is_connect _); grow (@nil Z) [s] (@nil Z). Qed.

Lemma connect_grows c fd e c' : connect c fd e = Ok c' → grows fd c c'.
Proof.
  unfold connect. case_bool_decide; [|case_bool_decide].
  - unfold connecting. simpl. destruct (m_channel c); [done|]. intros [= <-]. grow [fd] (@nil Z) (@nil Z).
  - intros [= <-]. unfold retry. destruct (is_connect _); grow [fd] [fd] (@nil Z).
  - intros [= <-]. grow [fd] [fd] (@nil Z).
Qed.

Lemma startInLoop_grows c fd e c' : startInLoop c fd e = Ok c' → grows fd c c'.
Proof.
  unfold startInLoop. destruct (bool_decide _); [|done]. simpl. destruct (is_connect c); [apply connect_grows|].
  intros [= <-]. apply grows_refl.
Qed.

(** A removal of the channel and what follows it. *)
Lemma removal_grows fd c0 c k1 s :
  removeAndResetChannel c = Ok (k1, s) → k_closed c = k_closed c0 → k_created c = k_created c0 →
  k_delivered c = k_delivered c0 →
  grows fd c0 (retry k1 s) ∧ grows fd c0 (close_socket (setState k1 kConnected) s) ∧
  grows fd c0 (deliver_socket (setState k1 kConnected) s).
Proof.
  intros E E1 E2 E3. apply removeAndReset_inv in E as [_ ->]. unfold grows. rewrite <- E1, <- E2, <- E3. split_and!.
  - unfold retry. destruct (is_connect _); grow (@nil Z) [s] (@nil Z).
  - grow (@nil Z) [s] (@nil Z).
  - grow (@nil Z) (@nil Z) [s].
Qed.

Lemma kstep_grows fd c v c' : kstep c (with_fd v fd) = Ok c' → grows fd c c'.
Proof.
  pose proof (grows_refl fd c) as R.
  destruct v as [[] ? e| |? e|? e|? e|err self|]; simpl; intros E.
  - by apply (startInLoop_grows (set_connect c true) fd e).
  - by injection E as <-.
  - by injection E as <-.
  - by eapply startInLoop_grows in E.
  - destruct (k_queue c) as [|[] q]; [by injection E as <-|..].
    + by apply (startInLoop_grows (set_queue c q)) in E.
    + unfold stopInLoop in E. destruct (bool_decide _); [|by injection E as <-].
      apply bind_Ok in E as ([k1 s] & Er & E). injection E as <-. by destruct (removal_grows fd c _ _ _ Er) as (? & _).
    + unfold resetChannel in E. simpl in E. destruct (m_channel c) as [[? []]|]; simpl in E; [done|by injection E as <-..].
  - destruct (k_timers c); [by injection E as <-|]. by apply (startInLoop_grows (set_timers c _)) in E.
  - unfold handleWrite in E. destruct (bool_decide (m_state c = kConnecting)); [|by destruct (bool_decide _); [injection E as <-|]].
    apply bind_Ok in E as ([k1 s] & Er & E). destruct (removal_grows fd c c k1 s Er) as (H1 & H2 & H3); try done.
    destruct (negb _); [by injection E as <-|]. destruct self; [by injection E as <-|].
    destruct (is_connect _); by injection E as <-.
  - unfold handleError in E. destruct (bool_decide _); [|by injection E as <-].
    apply bind_Ok in E as ([k1 s] & Er & E). injection E as <-. by destruct (removal_grows fd c _ _ _ Er) as (? & _).
Qed.

Definition sockets (l : list Z) : list (Z * desc) := map (λ fd, (fd, socket_desc)) l.

Lemma close_all_spec cl : ∀ k L, holds k (sockets cl ++ L) → holds (foldl sockets_close k cl) L.
Proof. induction cl as [|fd cl IH]; intros k L H; [done|]. simpl. apply IH. by apply (holds_sockets_close k fd socket_desc). Qed.

Lemma news_app (l x : list Z) : news l (l ++ x) = x.
Proof. unfold news. by rewrite drop_app_length. Qed.

Lemma connector_step_spec c v k L c' k' fd :
  accounted c → holds k (owned (Connect c) ++ L) → connector_step c v k = Ok (c', k', fd) →
  holds k' (owned (Connect c') ++ conn_of fd ++ L) ∧ accounted c'.
Proof.
  intros Ha H E. unfold connector_step in E. set (r := alloc (k_calls k) (k_files k)) in *.
  apply bind_Ok in E as (c1 & Ek & E). pose proof (accounted_step _ _ _ Ha Ek) as Ha1.
  destruct (kstep_grows _ _ _ _ Ek) as (cr & cl & de & Ecr & Ecl & Ede & Hcr & Hde).
  apply bind_Ok in E as (k1 & E1 & E). unfold is_create in E1. rewrite Ecr, Ecl, Ede, !news_app in *.
  injection E as <- <- <-. split; [|done].
  assert (holds k1 (sockets cr ++ sockets (held c) ++ L)) as H1.
  { destruct Hcr as [-> | ->]; simpl in E1; [by injection E1 as <-|].
    apply bind_Ok in E1 as ([fd k2] & E1 & E2). injection E2 as <-.
    assert (fd = ret r) as ->.
    { unfold create_socket_fd, sys_create in E1. fold r in E1. unfold createNonblockingOrDie in E1.
      destruct (ret r <? 0); [done|]. by injection E1 as <- _. }
    by apply (create_socket_fd_spec _ _ _ _ H) in E1. }
  assert (cr ++ held c ≡ₚ cl ++ de ++ held c1) as Hp.
  { unfold accounted in Ha, Ha1. rewrite Ecr, Ecl, Ede, Ha in Ha1.
    apply (Permutation_app_inv_l (k_closed c ++ k_delivered c)). etrans; [|etrans; [exact Ha1|]]; solve_Permutation. }
  apply close_all_spec. apply (fmap_Permutation (λ fd, (fd, socket_desc))) in Hp. rewrite !fmap_app in Hp.
  eapply holds_proper; [|exact H1]. rewrite (app_assoc (sockets cr)). unfold sockets.
  etrans; [|apply Permutation_app_tail; symmetry; exact Hp].
  assert (conn_of (head de) = (λ fd, (fd, socket_desc)) <$> de) as -> by by destruct de as [|? [|]]; [..|simpl in Hde; lia].
  simpl owned. change (map ?f ?l) with (f <$> l). solve_Permutation.
Qed.

(** ** The process *)

Definition all_owned (os : list object) : list (Z * desc) := concat (map owned os).

Definition thread_of (o : object) : option Z := match o with Loop l => Some (l_thread l) | _ => None end.
Definition sound (o : object) : Prop := match o with Connect c => accounted c | _ => True end.

(** Every open descriptor has exactly one owner; the loop of a thread is the
    one that [t_loopInThisThread] of the thread points to. *)
Record invariant (p : process) : Prop := mkInvariant {
  p_holds : holds (p_kernel p) (all_owned (p_objects p) ++ p_others p);
  p_sound : Forall sound (p_objects p);
  p_loops : ∀ tid i, p_threads p !! tid = Some i ↔ ∃ o, p_objects p !! i = Some o ∧ thread_of o = Some tid;
}.

Lemma all_owned_at os i o :
  os !! i = Some o → ∃ R, all_owned os ≡ₚ owned o ++ R ∧ ∀ o', all_owned (<[i := o']> os) ≡ₚ owned o' ++ R.
Proof.
  intros E. exists (all_owned (take i os) ++ all_owned (drop (S i) os)). pose proof (lookup_lt_Some _ _ _ E).
  unfold all_owned. split.
  - rewrite <- (take_drop_middle _ _ _ E) at 1. rewrite map_app, concat_app. simpl. solve_Permutation.
  - intros o'. rewrite insert_take_drop by done. rewrite map_app, concat_app. simpl. solve_Permutation.
Qed.

Lemma all_owned_snoc os o : all_owned (os ++ [o]) = all_owned os ++ owned o.
Proof. unfold all_owned. rewrite map_app, concat_app. simpl. by rewrite app_nil_r. Qed.

Lemma gone_owned os : Forall (λ o, o = Gone) os → all_owned os = [].
Proof. by induction 1 as [|o os -> _ IH]. Qed.

(** The pointers of the threads when an object is added or changed. *)
Definition loops_ok (m : gmap Z nat) (os : list object) : Prop :=
  ∀ tid i, m !! tid = Some i ↔ ∃ o, os !! i = Some o ∧ thread_of o = Some tid.

Lemma loops_snoc m os o : loops_ok m os → thread_of o = None → loops_ok m (os ++ [o]).
Proof.
  intros H Ho tid i. rewrite (H tid i). split; intros (o' & E & Et); exists o'; (split; [|done]).
  - by apply lookup_app_l_Some.
  - apply lookup_app_Some in E as [|[_ E]]; [done|]. apply list_lookup_singleton_Some in E as [_ <-]. congruence.
Qed.

Lemma loops_insert m os i o o' :
  loops_ok m os → os !! i = Some o → thread_of o' = thread_of o → loops_ok m (<[i := o']> os).
Proof.
  intros H E Et tid j. rewrite (H tid j). destruct (decide (i = j)) as [<-|Hne].
  - rewrite list_lookup_insert_eq by by eapply lookup_lt_Some. split; intros (x & Ex & Ht); simplify_eq; eexists; (split; [done|]); congruence.
  - by rewrite list_lookup_insert_ne.
Qed.

(** A new object. *)
Lemma new_object_invariant p o k' :
  invariant p → thread_of o = None → sound o → holds k' (owned o ++ all_owned (p_objects p) ++ p_others p) →
  invariant (new_object p o k').
Proof.
  intros [H1 H2 H3] Ht Hs H. split; simpl; [|by apply Forall_app_2; [|repeat constructor]|by apply loops_snoc].
  rewrite all_owned_snoc. eapply holds_proper; [|exact H]. solve_Permutation.
Qed.

(** A changed object, which may hand over a socket. *)
Lemma change_invariant p i o o' k' fd :
  invariant p → p_objects p !! i = Some o → thread_of o' = thread_of o → sound o' →
  (∀ F, holds (p_kernel p) (owned o ++ F) → holds k' (owned o' ++ conn_of fd ++ F)) →
  invariant (new_conn (set_object p i o' k') fd).
Proof.
  intros [H1 H2 H3] E Ht Hs Hf. destruct (all_owned_at _ _ _ E) as (R & Eo & En).
  rewrite Eo, <- app_assoc in H1. specialize (Hf _ H1).
  assert (invariant (set_object p i o' k') ∨ fd ≠ None) as Hno.
  { destruct fd; [by right|left]. split; simpl; [|by apply Forall_insert|by eapply loops_insert].
    eapply holds_proper; [|exact Hf]. rewrite En. simpl. solve_Permutation. }
  destruct fd as [fd|]; [|by destruct Hno]. split; simpl.
  - eapply holds_proper; [|exact Hf]. rewrite all_owned_snoc, En. simpl. solve_Permutation.
  - apply Forall_app_2; [by apply Forall_insert|by repeat constructor].
  - apply loops_snoc; [by eapply loops_insert|done].
Qed.

(** A call on a descriptor of an object changes nothing but the log. *)
Lemma use_invariant p i o fd d (f : Z * kernel → kernel) answer :
  invariant p → p_objects p !! i = Some o → (fd, d) ∈ owned o →
  (∀ n L, holds (p_kernel p) L → holds (f (n, p_kernel p)) L) →
  invariant (set_kernel p (f (sys_use (p_kernel p) fd answer))).
Proof.
  intros [H1 H2 H3] E Hin Hf. destruct (all_owned_at _ _ _ E) as (R & Eo & _).
  rewrite (holds_use _ fd d _ answer H1); [|rewrite Eo; set_solver]. split; simpl; auto.
Qed.

(** A loop is made, or destroyed. *)
Lemma new_loop_invariant p tid k' l :
  invariant p → loop_ctor tid (p_threads p !! tid) (p_kernel p) = Ok (l, k') →
  invariant (set_threads (new_object p (Loop l) k') (<[tid := length (p_objects p)]> (p_threads p))).
Proof.
  intros [H1 H2 H3] E. destruct (loop_ctor_spec _ _ _ _ _ _ H1 E) as (H & Hl & Hn). split; simpl.
  - rewrite all_owned_snoc. eapply holds_proper; [|exact H]. solve_Permutation.
  - apply Forall_app_2; [done|by repeat constructor].
  - intros t i. destruct (decide (t = tid)) as [->|Ht].
    + rewrite lookup_insert_eq. split.
      * intros [= <-]. exists (Loop l). rewrite list_lookup_middle by done. simpl. by rewrite Hl.
      * intros (o & Eo & Et). apply lookup_app_Some in Eo as [Eo|[Hlen Eo]].
        { assert (p_threads p !! tid = Some i) by (apply H3; by exists o). congruence. }
        apply list_lookup_singleton_Some in Eo as [? _]. f_equal. lia.
    + rewrite lookup_insert_ne, H3 by done. split; intros (o & Eo & Et); exists o; (split; [|done]).
      * by apply lookup_app_l_Some.
      * apply lookup_app_Some in Eo as [|[_ Eo]]; [done|]. apply list_lookup_singleton_Some in Eo as [_ <-]. simpl in Et. congruence.
Qed.

Lemma drop_loop_invariant p tid i l k' :
  invariant p → p_objects p !! i = Some (Loop l) → loop_dtor tid l (p_kernel p) = Ok k' →
  invariant (set_threads (set_object p i Gone k') (delete tid (p_threads p))).
Proof.
  intros [H1 H2 H3] E Ed. destruct (all_owned_at _ _ _ E) as (R & Eo & En). rewrite Eo, <- app_assoc in H1.
  destruct (loop_dtor_spec _ _ _ _ _ H1 Ed) as [H Hl]. split; simpl.
  - by rewrite En.
  - by apply Forall_insert.
  - intros t j. pose proof (lookup_lt_Some _ _ _ E) as Hi.
    assert (p_threads p !! tid = Some i) as Hti by (apply H3; eexists; split; [done|]; simpl; by rewrite Hl).
    destruct (decide (i = j)) as [<-|Hne].
    + rewrite list_lookup_insert_eq by done. split; [|by intros (? & [= <-] & ?)]. intros Hd.
      apply lookup_delete_Some in Hd as [Hne Hd]. apply H3 in Hd as (o & Eo' & Et). rewrite E in Eo'. injection Eo' as <-.
      simpl in Et. congruence.
    + rewrite list_lookup_insert_ne by done. rewrite lookup_delete_Some, H3. split; [by intros [_ ?]|]. intros Hx. split; [|done].
      intros <-. apply H3 in Hx. congruence.
Qed.

(** *** Every event keeps the invariant *)

Lemma logged_holds k L (b : bool) l : holds k L → l ≠ "sockets::close"%string → holds (if b then k else log_line k l) L.
Proof. intros H Hl. destruct b; [done|by apply holds_log]. Qed.

(** The events that only use a descriptor. *)
Lemma use_events p e p' :
  invariant p → step p e = Ok p' →
  match e with
  | Wakeup _ _ | WakeupRead _ _ | TimerRead _ _ | ConnShutdown _ _ | ConnRead _ _ | ConnWrite _ _ | Listen _ _ => invariant p'
  | _ => True
  end.
Proof.
  intros Hi E. destruct e as [| |i a|i a|i a| |i a| | | |i a|i a|i a| | | | | |]; try done; simpl in E;
    destruct (p_objects p !! i) as [[]|] eqn:Eo; simplify_eq; try done.
  - eapply (use_invariant p i _ _ event_desc (λ '(n, k1), if n =? 8 then k1 else log_line k1 _)); [done..|simpl; set_solver|].
    intros n L H. by apply logged_holds.
  - eapply (use_invariant p i _ _ event_desc (λ '(n, k1), if n =? 8 then k1 else log_line k1 _)); [done..|simpl; set_solver|].
    intros n L H. by apply logged_holds.
  - eapply (use_invariant p i _ _ timer_desc (λ '(n, k1), if n =? 8 then k1 else log_line k1 _)); [done..|simpl; set_solver|].
    intros n L H. by apply logged_holds.
  - apply bind_Ok in E as (k1 & E & E'). injection E' as <-. unfold Socket_listen in E.
    destruct (sys_use (p_kernel p) (a_socket a0) a) as [r k2] eqn:Eu. apply bind_Ok in E as (? & _ & E). injection E as <-.
    pose proof (use_invariant p i (Accept a0) (a_socket a0) socket_desc snd a Hi Eo) as Hinv. rewrite Eu in Hinv.
    apply Hinv; [simpl; set_solver|done].
  - eapply (use_invariant p i _ _ socket_desc (λ '(n, k1), if n <? 0 then log_line k1 _ else k1)); [done..|simpl; set_solver|].
    intros n L H. destruct (n <? 0); [by apply holds_log|done].
  - by eapply (use_invariant p i _ _ socket_desc snd); [done..|simpl; set_solver|].
  - by eapply (use_invariant p i _ _ socket_desc snd); [done..|simpl; set_solver|].
Qed.

Lemma others_closed p n fd d :
  invariant p → p_others p !! n = Some (fd, d) →
  invariant (mkProcess (sys_close (p_kernel p) fd).2 (p_objects p) (p_threads p) (delete n (p_others p))).
Proof.
  intros [H1 H2 H3] E. split; simpl; try done.
  assert (all_owned (p_objects p) ++ p_others p ≡ₚ (fd, d) :: all_owned (p_objects p) ++ delete n (p_others p)) as Hp.
  { rewrite (delete_Permutation _ _ _ E) at 1. solve_Permutation. }
  rewrite Hp in H1. by destruct (holds_close _ _ _ _ H1) as (k1 & -> & H).
Qed.

Lemma others_opened p d r k1 :
  invariant p → sys_create d (p_kernel p) = (r, k1) →
  invariant (mkProcess k1 (p_objects p) (p_threads p) (if ret r <? 0 then p_others p else (ret r, d) :: p_others p)).
Proof.
  intros [H1 H2 H3] E. split; simpl; try done. pose proof (holds_create _ _ _ _ _ H1 E) as H.
  destruct (ret r <? 0); [done|]. eapply holds_proper; [|exact H]. solve_Permutation.
Qed.

Lemma step_invariant p e p' : invariant p → step p e = Ok p' → invariant p'.
Proof.
  intros Hi E. pose proof (use_events p e p' Hi E) as Hu.
  destruct e as [tid|tid i|i a|i a|i a|bind|i a|i|i peer|i|i a|i a|i a|i| |i v|i|nb ce|n]; try exact Hu; clear Hu; simpl in E.
  - apply bind_Ok in E as ([l k1] & E1 & [= <-]). by apply new_loop_invariant.
  - destruct (p_objects p !! i) as [[l| | | |]|] eqn:Eo; try by simplify_eq.
    apply bind_Ok in E as (k1 & E1 & [= <-]). by eapply drop_loop_invariant.
  - apply bind_Ok in E as ([a k1] & E1 & [= <-]). apply new_object_invariant; try done.
    by apply (acceptor_ctor_spec bind (p_kernel p)); [apply Hi|].
  - destruct (p_objects p !! i) as [[|a| | |]|] eqn:Eo; simplify_eq; try done.
    by apply (change_invariant p i _ _ _ None Hi Eo).
  - destruct (p_objects p !! i) as [[|a| | |]|] eqn:Eo; try by simplify_eq.
    apply bind_Ok in E as ([[a1 k1] fd] & E1 & [= <-]). apply (change_invariant p i _ _ _ fd Hi Eo); try done.
    intros F H. by eapply acceptor_handleRead_spec.
  - destruct (p_objects p !! i) as [[|a| | |]|] eqn:Eo; simplify_eq; try done.
    apply (change_invariant p i _ _ _ None Hi Eo); try done. intros F H. by apply acceptor_dtor_spec.
  - destruct (p_objects p !! i) as [[| |fd| |]|] eqn:Eo; simplify_eq; try done.
    apply (change_invariant p i _ _ _ None Hi Eo); try done. intros F H. by apply (holds_sockets_close _ fd socket_desc).
  - injection E as <-. apply new_object_invariant; [done..|apply Permutation_refl|apply Hi].
  - destruct (p_objects p !! i) as [[| | |c|]|] eqn:Eo; try by simplify_eq.
    apply bind_Ok in E as ([[c1 k1] fd] & E1 & [= <-]).
    assert (accounted c) as Hc by (pose proof (p_sound _ Hi) as Hs; rewrite Forall_lookup in Hs; by apply (Hs _ _ Eo)).
    assert (∀ F, holds (p_kernel p) (owned (Connect c) ++ F) → holds k1 (owned (Connect c1) ++ conn_of fd ++ F) ∧ accounted c1) as Hf
      by (intros F H; by eapply connector_step_spec).
    destruct (all_owned_at _ _ _ Eo) as (R & Er & _). pose proof (p_holds _ Hi) as Hh. rewrite Er, <- app_assoc in Hh.
    apply (change_invariant p i _ _ _ fd Hi Eo); [done|by eapply Hf|]. intros F H. by apply Hf.
  - destruct (p_objects p !! i) as [[| | |c|]|] eqn:Eo; try by simplify_eq.
    apply bind_Ok in E as ([] & E1 & [= <-]). apply (change_invariant p i _ _ _ None Hi Eo); try done.
    intros F H. unfold Connector_dtor in E1. unfold owned, held in H. by destruct (m_channel c).
  - injection E as <-. by apply (others_opened p (mkDesc KOther nb ce)).
  - destruct (p_others p !! n) as [[fd d]|] eqn:Eo; [|by simplify_eq]. injection E as <-. by eapply others_closed.
Qed.

Lemma run_invariant es : ∀ p p', invariant p → run p es = Ok p' → invariant p'.
Proof.
  induction es as [|e es IH]; intros p p' Hi E; [by injection E as <-|]. unfold run in *. cbn [foldM] in E.
  apply bind_Ok in E as (p1 & E1 & E). eapply IH; [|done]. by eapply step_invariant.
Qed.

(** The process when the library is first used: descriptors that are open. *)
Definition start_process (m : gmap Z desc) : process :=
  mkProcess (mkKernel m 0 [] []) [] ∅ (map_to_list m).

Lemma start_invariant m : map_Forall (λ fd _, 0 ≤ fd) m → invariant (start_process m).
Proof.
  intros Hm. split; simpl; [split; simpl; try done|constructor|].
  - apply Forall_forall. intros [fd d] Hin. apply elem_of_map_to_list in Hin. by eapply Hm.
  - by apply not_elem_of_nil.
  - intros tid i. rewrite lookup_empty. split; [done|]. by intros (o & ? & _).
Qed.
End Kernel.

(** ** Properties *)


(** The kernel gives out the lowest free descriptor, of eight. *)
Definition lowest_free (n : Z) (m : gmap Z desc) : sys_ret :=
  match filter (λ fd, m !! fd = None) (seqZ 0 8) with
  | fd :: _ => mkRet fd 0
  | [] => mkRet (-1) EMFILE
  end.

Lemma lowest_free_fresh n m : 0 ≤ ret (lowest_free n m) → m !! ret (lowest_free n m) = None.
Proof.
  unfold lowest_free. destruct (filter _ _) as [|fd l] eqn:E; simpl; [lia|]. intros _.
  assert (fd ∈ filter (λ fd, m !! fd = None) (seqZ 0 8)) as H by (rewrite E; by left). by apply list_elem_of_filter in H as [? _].
Qed.

(** A loop and an acceptor; a connection takes the last descriptor, the next
    one is refused with the spare descriptor; a connector in between. *)
Definition demo_stdio : gmap Z desc := {[ 0 := mkDesc KOther false false ]}.
Definition demo_events : list event :=
  [NewLoop 1; NewAcceptor 0; SetCallback 1; Listen 1 0; NewConnector; ConnectorEvent 2 (VStart true 0 EINPROGRESS);
   Readable 1 (replicate 28 NUL); Readable 1 (replicate 28 NUL); ConnectorEvent 2 (VWritable 0 false);
   ConnectorEvent 2 (VFunctor 0 0); Wakeup 0 8; ConnShutdown 3 0; DropConn 3; DropConnector 2; DropAcceptor 1;
   OtherOpens false false; DropConn 4; DropLoop 1 0; OtherCloses 0].
Definition demo_process : process :=
  match run lowest_free (start_process demo_stdio) demo_events with Ok p => p | Fail _ => start_process ∅ end.


(** The run above: nothing but the first descriptor is left, and the spare
    descriptor served one refused connection. *)
Lemma demo_process_ends :
  p_objects demo_process = [Gone; Gone; Gone; Gone; Gone] ∧ map_to_list (k_files (p_kernel demo_process)) = [(0, mkDesc KOther false false)] ∧
  k_badf (p_kernel demo_process) = [] ∧ k_log (p_kernel demo_process) = [].
Proof. vm_compute. done. Qed.
