(* ===== verification/Server.v ===== *)
(** * TcpServer, EventLoopThreadPool:
      src/dc/net/tcpServer.{h,cc}, eventLoopThreadPool.{h,cc}

    Loops are numbered; number 0 is the base loop, [1 ..] the pool's.  Each
    loop has a queue of functors; [runInLoop] from a loop's own thread calls
    at once, from another one it queues.  A connection is an object with a
    number (the value of [m_nextConnId] that named it) and a phase of its life
    cycle; [System] puts real connection objects in their place. *)

From stdpp Require Import pretty.
From S2P Require Import Prelude.

Open Scope Z_scope.

(** ** EventLoopThreadPool *)

Definition loop_id : Type := nat.
Definition base_loop : loop_id := 0%nat.

Record EventLoopThreadPool : Type := mkPool {
  is_started : bool;
  m_numThreads : Z;
  m_next : Z;
  m_loops : list loop_id;
}.

Definition EventLoopThreadPool_ctor : EventLoopThreadPool := mkPool false 0 0 [].
Definition pool_setThreadNum (p : EventLoopThreadPool) (numThreads : Z) : EventLoopThreadPool :=
  mkPool (is_started p) numThreads (m_next p) (m_loops p).

(** [EventLoopThreadPool::start]: one thread, and one loop, per number; the
    callback runs on the base loop when there is no thread. *)
Definition pool_start (inLoop : bool) (p : EventLoopThreadPool) : res EventLoopThreadPool :=
  cassert (negb (is_started p)) "!is_started";;
  (if inLoop then Ok tt else Fail (FAbort "EventLoop::abortNotInLoopThread"));;
  Ok (mkPool true (m_numThreads p) (m_next p) (m_loops p ++ seq 1 (Z.to_nat (m_numThreads p)))).

(** [EventLoopThreadPool::getNextLoop] *)
Definition getNextLoop (inLoop : bool) (p : EventLoopThreadPool) : res (EventLoopThreadPool * loop_id) :=
  (if inLoop then Ok tt else Fail (FAbort "EventLoop::abortNotInLoopThread"));;
  cassert (is_started p) "is_started";;
  match m_loops p with
  | [] => Ok (p, base_loop)
  | _ :: _ =>
      match m_loops p !! Z.to_nat (m_next p) with
      | None => Fail (FUndef "m_loops[m_next]")
      | Some loop =>
          let next := m_next p + 1 in
          let next := if zlen (m_loops p) <=? next then 0 else next in
          Ok (mkPool (is_started p) (m_numThreads p) next (m_loops p), loop)
      end
  end.

(** [EventLoopThreadPool::getLoopForHash] *)
Definition getLoopForHash (inLoop : bool) (p : EventLoopThreadPool) (hashCode : Z) : res loop_id :=
  (if inLoop then Ok tt else Fail (FAbort "EventLoop::abortNotInLoopThread"));;
  match m_loops p with
  | [] => Ok base_loop
  | _ :: _ =>
      match m_loops p !! Z.to_nat (hashCode mod zlen (m_loops p)) with
      | None => Fail (FUndef "m_loops[hashCode % size]")
      | Some loop => Ok loop
      end
  end.

(** [EventLoopThreadPool::getAllLoops] *)
Definition getAllLoops (inLoop : bool) (p : EventLoopThreadPool) : res (list loop_id) :=
  (if inLoop then Ok tt else Fail (FAbort "EventLoop::abortNotInLoopThread"));;
  cassert (is_started p) "is_started";;
  match m_loops p with [] => Ok [base_loop] | _ :: _ => Ok (m_loops p) end.

Definition pool_wf (p : EventLoopThreadPool) : Prop :=
  is_started p = true ∧ 0 ≤ m_next p ∧ (m_loops p = [] ∨ m_next p < zlen (m_loops p)).

Fixpoint nextLoops (n : nat) (p : EventLoopThreadPool) : res (EventLoopThreadPool * list loop_id) :=
  match n with
  | O => Ok (p, [])
  | S n' =>
      '(p1, l) ← getNextLoop true p;
      '(p2, ls) ← nextLoops n' p1;
      Ok (p2, l :: ls)
  end.

(** ** TcpServer *)

(** The name of a connection: [m_name] and the formatted buffer of 64 bytes. *)
Definition conn_name (m_name m_ipPort : list ascii) (connId : Z) : list ascii :=
  m_name ++ take 63 (chars "-" ++ m_ipPort ++ String.list_ascii_of_string (pretty connId)).

(** The life of a connection object: [connectEstablished] is due; up; closed
    (its close callback ran, the removal is due); erased from the map
    ([connectDestroyed] is due); destroyed. *)
Inductive phase : Type := PCreated | PUp | PClosed | PRemoved | PDestroyed.

#[global] Instance phase_eq_dec : EqDecision phase.
Proof. solve_decision. Defined.

Record conn : Type := mkC { c_name : list ascii; c_loop : loop_id; c_phase : phase }.

Inductive functor : Type :=
  | FEstablished (c : Z)
  | FRemoveInLoop (c : Z)
  | FDestroyed (c : Z).

#[global] Instance functor_eq_dec : EqDecision functor.
Proof. solve_decision. Defined.

Record TcpServer : Type := mkServer {
  m_name : list ascii;
  m_ipPort : list ascii;
  m_threadPool : EventLoopThreadPool;
  s_started : bool;
  s_listening : bool;
  m_nextConnId : Z;
  m_connections : gmap (list ascii) Z;
  s_conns : gmap Z conn;              (* the connection objects *)
  s_queues : gmap loop_id (list functor);
}.

Definition TcpServer_ctor (name ipPort : list ascii) : TcpServer :=
  mkServer name ipPort EventLoopThreadPool_ctor false false 1 ∅ ∅ ∅.

Definition set_pool (s : TcpServer) (p : EventLoopThreadPool) : TcpServer :=
  mkServer (m_name s) (m_ipPort s) p (s_started s) (s_listening s) (m_nextConnId s) (m_connections s) (s_conns s) (s_queues s).
Definition set_map (s : TcpServer) (m : gmap (list ascii) Z) : TcpServer :=
  mkServer (m_name s) (m_ipPort s) (m_threadPool s) (s_started s) (s_listening s) (m_nextConnId s) m (s_conns s) (s_queues s).
Definition set_conns (s : TcpServer) (m : gmap Z conn) : TcpServer :=
  mkServer (m_name s) (m_ipPort s) (m_threadPool s) (s_started s) (s_listening s) (m_nextConnId s) (m_connections s) m (s_queues s).
Definition set_queues (s : TcpServer) (q : gmap loop_id (list functor)) : TcpServer :=
  mkServer (m_name s) (m_ipPort s) (m_threadPool s) (s_started s) (s_listening s) (m_nextConnId s) (m_connections s) (s_conns s) q.

Definition queue (s : TcpServer) (l : loop_id) : list functor := default [] (s_queues s !! l).

(** [loop->queueInLoop] *)
Definition post (s : TcpServer) (l : loop_id) (f : functor) : TcpServer :=
  set_queues s (<[l := queue s l ++ [f]]> (s_queues s)).

Definition set_phase (s : TcpServer) (c : Z) (o : conn) (ph : phase) : TcpServer :=
  set_conns s (<[c := mkC (c_name o) (c_loop o) ph]> (s_conns s)).

Definition get_conn (s : TcpServer) (c : Z) : res conn :=
  match s_conns s !! c with Some o => Ok o | None => Fail (FUndef "no such connection") end.

(** [TcpServer::setThreadNum] *)
Definition setThreadNum (s : TcpServer) (numThreads : Z) : res TcpServer :=
  cassert (0 <=? numThreads) "0 <= numThreads";;
  Ok (set_pool s (pool_setThreadNum (m_threadPool s) numThreads)).

(** [TcpServer::start], in the base loop's thread. *)
Definition start (s : TcpServer) : res TcpServer :=
  if s_started s then Ok s
  else
    p ← pool_start true (m_threadPool s);
    cassert (negb (s_listening s)) "!m_acceptor->listening()";;
    Ok (mkServer (m_name s) (m_ipPort s) p true true (m_nextConnId s) (m_connections s) (s_conns s) (s_queues s)).

(** [TcpConnection::connectEstablished], [connectDestroyed]: the part the
    server sees. *)
Definition connectEstablished (s : TcpServer) (c : Z) : res TcpServer :=
  o ← get_conn s c;
  cassert (bool_decide (c_phase o = PCreated)) "m_state == kConnecting";;
  Ok (set_phase s c o PUp).

Definition connectDestroyed (s : TcpServer) (c : Z) : res TcpServer :=
  o ← get_conn s c;
  cassert (bool_decide (c_phase o = PRemoved)) "the channel is registered";;
  Ok (set_phase s c o PDestroyed).

(** [TcpServer::newConnection], called by the acceptor in the base loop. *)
Definition newConnection (s : TcpServer) : res TcpServer :=
  '(p, ioLoop) ← getNextLoop true (m_threadPool s);
  let c := m_nextConnId s in
  let connName := conn_name (m_name s) (m_ipPort s) c in
  let s1 := mkServer (m_name s) (m_ipPort s) p (s_started s) (s_listening s) (c + 1)
              (<[connName := c]> (m_connections s)) (<[c := mkC connName ioLoop PCreated]> (s_conns s))
              (s_queues s) in
  if Nat.eqb ioLoop base_loop then connectEstablished s1 c
  else Ok (post s1 ioLoop (FEstablished c)).

(** [TcpServer::removeConnectionInLoop] *)
Definition removeConnectionInLoop (s : TcpServer) (c : Z) : res TcpServer :=
  o ← get_conn s c;
  cassert (bool_decide (is_Some (m_connections s !! c_name o))) "n == 1";;
  let s1 := set_map s (delete (c_name o) (m_connections s)) in
  Ok (post (set_phase s1 c o PRemoved) (c_loop o) (FDestroyed c)).

(** [TcpServer::removeConnection], the close callback of a connection: it runs
    in the connection's loop. *)
Definition removeConnection (s : TcpServer) (c : Z) (o : conn) : res TcpServer :=
  if Nat.eqb (c_loop o) base_loop then removeConnectionInLoop s c
  else Ok (post s base_loop (FRemoveInLoop c)).

(** The connection closes: handleClose, then the close callback. *)
Definition handleClose (s : TcpServer) (c : Z) : res TcpServer :=
  o ← get_conn s c;
  let o' := mkC (c_name o) (c_loop o) PClosed in
  removeConnection (set_conns s (<[c := o']> (s_conns s))) c o'.

(** A loop calls its next functor. *)
Definition run_functor (s : TcpServer) (l : loop_id) : res TcpServer :=
  match queue s l with
  | [] => Ok s
  | f :: q =>
      let s1 := set_queues s (<[l := q]> (s_queues s)) in
      match f with
      | FEstablished c => connectEstablished s1 c
      | FRemoveInLoop c => removeConnectionInLoop s1 c
      | FDestroyed c => connectDestroyed s1 c
      end
  end.

(** [TcpServer::~TcpServer]: connectDestroyed is run or queued for every
    connection in the map (the connections it is given up to). *)
Definition TcpServer_dtor (s : TcpServer) : list (loop_id * Z) :=
  omap (λ '(_, c), o ← s_conns s !! c; Some (c_loop o, c)) (map_to_list (m_connections s)).

Inductive sevent : Type :=
  | VAccept
  | VClose (c : Z)            (* handleClose of a connection that is up *)
  | VRun (l : loop_id).

Definition sstep (s : TcpServer) (v : sevent) : res TcpServer :=
  match v with
  | VAccept => newConnection s
  | VClose c => handleClose s c
  | VRun l => run_functor s l
  end.

(** A connection closes only while it is up, and once. *)
Definition possible (s : TcpServer) (v : sevent) : Prop :=
  match v with
  | VClose c => ∃ o, s_conns s !! c = Some o ∧ c_phase o = PUp
  | _ => True
  end.

(** ** Round robin *)

Lemma getNextLoop_some p l :
  is_started p = true → 0 ≤ m_next p → m_loops p !! Z.to_nat (m_next p) = Some l →
  getNextLoop true p =
    Ok (mkPool true (m_numThreads p) (if zlen (m_loops p) <=? m_next p + 1 then 0 else m_next p + 1) (m_loops p), l).
Proof.
  intros Hs Hn Hl. unfold getNextLoop. simpl. rewrite Hs. simpl.
  destruct (m_loops p) as [|x ls] eqn:E; [done|]. by rewrite Hl.
Qed.

(** Calls that do not pass the end of the vector. *)
Lemma nextLoops_seg n : ∀ p,
  pool_wf p → 0 ≤ m_next p < zlen (m_loops p) → m_next p + Z.of_nat n ≤ zlen (m_loops p) →
  nextLoops n p =
    Ok (mkPool true (m_numThreads p)
          (if m_next p + Z.of_nat n =? zlen (m_loops p) then 0 else m_next p + Z.of_nat n) (m_loops p),
        take n (drop (Z.to_nat (m_next p)) (m_loops p))).
Proof.
  induction n as [|n IH]; intros p (Hs & Hn & Hl) Hk Hle.
  { simpl. rewrite take_0, (proj2 (Z.eqb_neq _ _)) by lia. f_equal. f_equal. destruct p; simpl in *. subst. f_equal. lia. }
  destruct (lookup_lt_is_Some_2 (m_loops p) (Z.to_nat (m_next p))) as [l Hl']; [unfold zlen in *; lia|].
  cbn [nextLoops]. rewrite (getNextLoop_some p l Hs Hn Hl'). cbn [mbind res_bind].
  rewrite (drop_S _ _ _ Hl'). simpl take.
  destruct (zlen (m_loops p) <=? m_next p + 1) eqn:E; bprop.
  - assert (n = 0%nat) as -> by lia. simpl. rewrite take_0, (proj2 (Z.eqb_eq _ _)) by lia. done.
  - rewrite IH; [|split_and!; simpl; (done || lia)|simpl; lia|simpl; lia]. cbn [mbind res_bind m_next m_loops m_numThreads].
    replace (Z.to_nat (m_next p + 1)) with (S (Z.to_nat (m_next p))) by lia.
    replace (m_next p + 1 + Z.of_nat n) with (m_next p + Z.of_nat (S n)) by lia. done.
Qed.

Lemma nextLoops_app a b p :
  nextLoops (a + b) p =
    ('(p1, l1) ← nextLoops a p; '(p2, l2) ← nextLoops b p1; Ok (p2, l1 ++ l2)).
Proof.
  revert p. induction a as [|a IH]; intros p; simpl.
  - destruct (nextLoops b p) as [[]|]; done.
  - destruct (getNextLoop true p) as [[p1 l]|]; simpl; [|done]. rewrite IH.
    destruct (nextLoops a p1) as [[p2 ls]|]; simpl; [|done].
    by destruct (nextLoops b p2) as [[p3 ls2]|].
Qed.

Lemma round p :
  pool_wf p → m_loops p ≠ [] →
  nextLoops (length (m_loops p)) p =
    Ok (p, drop (Z.to_nat (m_next p)) (m_loops p) ++ take (Z.to_nat (m_next p)) (m_loops p)).
Proof.
  intros Hw Hne. pose proof Hw as (Hs & Hn & [?|Hlt]); [done|].
  set (k := Z.to_nat (m_next p)). replace (length (m_loops p)) with ((length (m_loops p) - k) + k)%nat
    by (unfold zlen in *; lia).
  rewrite nextLoops_app, nextLoops_seg; [|done|lia|unfold zlen in *; lia]. cbn [mbind res_bind].
  rewrite (proj2 (Z.eqb_eq _ _)) by (unfold zlen in *; lia).
  rewrite nextLoops_seg; simpl; [|split_and!; simpl; (done || lia)|lia|unfold zlen in *; lia].
  rewrite (proj2 (Z.eqb_neq _ _)) by (unfold zlen in *; lia). rewrite drop_0.
  rewrite (take_ge (drop _ _)) by (rewrite length_drop; unfold k; lia).
  f_equal. f_equal. destruct p; simpl in *. subst. f_equal. lia.
Qed.

(** ** The connections of a server *)

Definition conn_of (f : functor) : Z :=
  match f with FEstablished c | FRemoveInLoop c | FDestroyed c => c end.

(** The phase in which a functor finds its connection, and the loop it is
    queued in. *)
Definition due_phase (f : functor) : phase :=
  match f with FEstablished _ => PCreated | FRemoveInLoop _ => PClosed | FDestroyed _ => PRemoved end.
Definition due_loop (f : functor) (o : conn) : loop_id :=
  match f with FRemoveInLoop _ => base_loop | _ => c_loop o end.

Definition in_map (ph : phase) : bool :=
  match ph with PCreated | PUp | PClosed => true | _ => false end.

(** Names fit the buffer. *)
Definition names_fit (s : TcpServer) : Prop := (length (m_ipPort s) ≤ 52)%nat.

Record sinv (s : TcpServer) : Prop := mkSinv {
  si_pool : pool_wf (m_threadPool s);
  si_fit : names_fit s;
  si_ids c o : s_conns s !! c = Some o → 1 ≤ c < m_nextConnId s ∧ c_name o = conn_name (m_name s) (m_ipPort s) c;
  si_next : 1 ≤ m_nextConnId s;
  si_map nm c : m_connections s !! nm = Some c ↔
    ∃ o, s_conns s !! c = Some o ∧ c_name o = nm ∧ in_map (c_phase o) = true;
  si_nodup l : base.NoDup (queue s l);
  si_queue l f : f ∈ queue s l → ∃ o, s_conns s !! conn_of f = Some o ∧ c_phase o = due_phase f ∧ l = due_loop f o;
}.

Lemma pretty_N_go_length (k : nat) : ∀ (x : N) (s : string),
  (x < 10 ^ N.of_nat k)%N → (String.length (pretty_N_go x s) ≤ k + String.length s)%nat.
Proof.
  induction k as [|k IH]; intros x s Hx.
  - assert (x = 0)%N as -> by (simpl in Hx; lia). by rewrite pretty_N_go_0.
  - destruct (decide (0 < x)%N) as [Hp|Hp].
    + rewrite pretty_N_go_step by done. etransitivity; [apply IH|simpl; lia].
      apply N.Div0.div_lt_upper_bound. rewrite Nat2N.inj_succ, N.pow_succ_r' in Hx. done.
    + assert (x = 0)%N as -> by lia. rewrite pretty_N_go_0. lia.
Qed.

Lemma pretty_length (n : Z) : 1 ≤ n < 2 ^ 31 → (String.length (pretty n) ≤ 10)%nat.
Proof.
  intros Hn. destruct n as [|p|p]; [lia| |lia].
  assert (pretty (Z.pos p) = pretty_N_go (N.pos p) "") as -> by done.
  etransitivity; [apply (pretty_N_go_length 10)|done].
  change (10 ^ N.of_nat 10)%N with 10000000000%N. lia.
Qed.

Lemma list_ascii_inj s1 s2 : String.list_ascii_of_string s1 = String.list_ascii_of_string s2 → s1 = s2.
Proof.
  intros E. rewrite <- (String.string_of_list_ascii_of_string s1), E.
  apply String.string_of_list_ascii_of_string.
Qed.

Lemma length_list_ascii s : length (String.list_ascii_of_string s) = String.length s.
Proof. induction s; simpl; congruence. Qed.

(** Different numbers give different names. *)
Lemma conn_name_inj nm ip c1 c2 :
  (length ip ≤ 52)%nat → 1 ≤ c1 < 2 ^ 31 → 1 ≤ c2 < 2 ^ 31 → conn_name nm ip c1 = conn_name nm ip c2 → c1 = c2.
Proof.
  intros Hip H1 H2. unfold conn_name. intros E%app_inv_head.
  pose proof (pretty_length c1 H1). pose proof (pretty_length c2 H2).
  rewrite !take_ge in E by (rewrite !length_app; unfold chars; rewrite !length_list_ascii;
    cbn [length]; lia).
  apply app_inv_head, app_inv_head, list_ascii_inj in E. by apply (inj pretty) in E.
Qed.

Section steps.
Variable s : TcpServer.
Hypothesis Hi : sinv s.
Hypothesis Hbound : m_nextConnId s < 2 ^ 31 - 1.

Lemma name_inj c1 c2 o1 o2 :
  s_conns s !! c1 = Some o1 → s_conns s !! c2 = Some o2 → c_name o1 = c_name o2 → c1 = c2.
Proof.
  intros H1 H2 E. destruct (si_ids _ Hi _ _ H1) as [R1 N1], (si_ids _ Hi _ _ H2) as [R2 N2].
  apply (conn_name_inj (m_name s) (m_ipPort s)); [apply Hi|lia|lia|congruence].
Qed.

Lemma queue_insert l l' q : queue (set_queues s (<[l := q]> (s_queues s))) l' = if decide (l = l') then q else queue s l'.
Proof.
  unfold queue. simpl. case_decide as E; [subst; by rewrite lookup_insert_eq|by rewrite lookup_insert_ne].
Qed.

(** A connection changes phase and one functor for it may be queued. *)
Lemma sinv_phase s' c o ph (fs : option functor) :
  s_conns s !! c = Some o →
  m_name s' = m_name s → m_ipPort s' = m_ipPort s → pool_wf (m_threadPool s') → m_nextConnId s' = m_nextConnId s →
  s_conns s' = <[c := mkC (c_name o) (c_loop o) ph]> (s_conns s) →
  m_connections s' = (if in_map ph then m_connections s else delete (c_name o) (m_connections s)) →
  (in_map ph = true → in_map (c_phase o) = true) →
  (∀ l f, f ∈ queue s' l →
     (f ∈ queue s l ∧ conn_of f ≠ c) ∨
     (fs = Some f ∧ conn_of f = c ∧ ph = due_phase f ∧ l = due_loop f o)) →
  (∀ l, base.NoDup (queue s' l)) → sinv s'.
Proof.
  intros Hc E1 E2 Hp E3 E4 E5 Hin Hq Hnd. split; [done|unfold names_fit; rewrite E2; apply Hi| | | |done|].
  - intros c' o'. rewrite E4, E1, E2, E3, lookup_insert_Some. intros [[<- <-]|[_ H]]; simpl; by eapply (si_ids _ Hi).
  - rewrite E3. apply Hi.
  - intros nm c'. rewrite E4, E5. destruct (decide (c' = c)) as [->|Hne].
    + rewrite lookup_insert_eq. assert (Hold : ∀ nm', m_connections s !! nm' = Some c → c_name o = nm').
      { intros nm' (o' & Ho' & <- & _)%(si_map _ Hi). congruence. }
      destruct (in_map ph) eqn:Eph.
      * split; [intros H%Hold; by eexists|]. intros (o' & [= <-] & <- & _). simpl.
        apply (si_map _ Hi). exists o. auto.
      * rewrite lookup_delete_Some. split; [intros [? H%Hold]; congruence|]. intros (o' & [= <-] & _ & H). simpl in H. congruence.
    + rewrite lookup_insert_ne by done. rewrite <- (si_map _ Hi). destruct (in_map ph); [done|].
      rewrite lookup_delete_Some. split; [tauto|]. intros H. split; [|done]. intros <-.
      apply (si_map _ Hi) in H as (o' & Ho' & En & _). apply Hne. by eapply (name_inj c' c).
  - intros l f Hf. rewrite E4. destruct (Hq l f Hf) as [[Hold Hne]|(_ & Hcf & -> & ->)].
    + rewrite lookup_insert_ne by done. by apply (si_queue _ Hi).
    + rewrite Hcf, lookup_insert_eq. eexists. split; [done|]. simpl. split; [done|]. by destruct f.
Qed.

Lemma getNextLoop_ok p : pool_wf p → ∃ p' l, getNextLoop true p = Ok (p', l) ∧ pool_wf p'.
Proof.
  intros Hw. pose proof Hw as (Hs & Hn & Hl). destruct (m_loops p) as [|x ls] eqn:E.
  - exists p, base_loop. unfold getNextLoop. simpl. by rewrite Hs, E.
  - destruct Hl as [?|Hlt]; [done|]. rewrite <- E in Hlt.
    destruct (lookup_lt_is_Some_2 (m_loops p) (Z.to_nat (m_next p))) as [l Hl]; [unfold zlen in *; lia|].
    eexists _, l. rewrite (getNextLoop_some p l Hs Hn Hl). split; [done|].
    split_and!; [done|..]; simpl; destruct (_ <=? _) eqn:E1; bprop; try lia.
Qed.

(** A new connection object, named by the next number. *)
Lemma sinv_new s' p l ph :
  let c := m_nextConnId s in
  let nm := conn_name (m_name s) (m_ipPort s) c in
  m_name s' = m_name s → m_ipPort s' = m_ipPort s → pool_wf (m_threadPool s') → m_threadPool s' = p →
  m_nextConnId s' = c + 1 → s_conns s' = <[c := mkC nm l ph]> (s_conns s) →
  m_connections s' = <[nm := c]> (m_connections s) → in_map ph = true →
  (∀ l' f, f ∈ queue s' l' → f ∈ queue s l' ∨ (f = FEstablished c ∧ ph = PCreated ∧ l' = l)) →
  (∀ l', base.NoDup (queue s' l')) → sinv s'.
Proof.
  intros c nm E1 E2 Hp _ E3 E4 E5 Hin Hq Hnd. pose proof (si_next _ Hi) as Hnx.
  assert (Hfresh : s_conns s !! c = None).
  { destruct (s_conns s !! c) as [o|] eqn:E; [|done]. destruct (si_ids _ Hi _ _ E). unfold c in *. lia. }
  split; [done|unfold names_fit; rewrite E2; apply Hi| | | |done|].
  - intros c' o'. rewrite E4, E1, E2, E3, lookup_insert_Some. intros [[<- <-]|[_ H]]; simpl; [unfold c; lia || (split; [lia|done])|].
    destruct (si_ids _ Hi _ _ H). split; [unfold c; lia|done].
  - unfold c in *. lia.
  - intros nm' c'. rewrite E4, E5. destruct (decide (c' = c)) as [->|Hne].
    + rewrite lookup_insert_eq, lookup_insert_Some. split.
      * intros [[<- _]|[_ (o' & Ho' & _)%(si_map _ Hi)]]; [by eexists|]. congruence.
      * intros (o' & [= <-] & <- & _). by left.
    + rewrite (lookup_insert_ne (s_conns s)) by done. rewrite lookup_insert_Some, <- (si_map _ Hi).
      split; [by intros [[_ ?]|[_ ?]]|]. intros H. right. split; [|done]. intros <-.
      apply (si_map _ Hi) in H as (o' & Ho' & En & _). destruct (si_ids _ Hi _ _ Ho') as [Hr Hn'].
      apply Hne. symmetry. apply (conn_name_inj (m_name s) (m_ipPort s)); [apply Hi|unfold c; lia|lia|].
      unfold nm in En. congruence.
  - intros l' f Hf. rewrite E4. destruct (Hq l' f Hf) as [Hold|(-> & -> & ->)].
    + destruct (si_queue _ Hi _ _ Hold) as (o' & Ho' & ?). exists o'.
      rewrite lookup_insert_ne by congruence. done.
    + simpl. rewrite lookup_insert_eq. by eexists.
Qed.

Lemma elem_of_post s0 l f l' g : g ∈ queue (post s0 l f) l' → g ∈ queue s0 l' ∨ (g = f ∧ l' = l).
Proof.
  unfold post, queue. simpl. destruct (decide (l = l')) as [->|Hne].
  - rewrite lookup_insert_eq. simpl. rewrite elem_of_app, list_elem_of_singleton. tauto.
  - rewrite lookup_insert_ne by done. auto.
Qed.

Lemma nodup_post s0 l f l' :
  (∀ l', base.NoDup (queue s0 l')) → f ∉ queue s0 l → base.NoDup (queue (post s0 l f) l').
Proof.
  intros Hnd Hf. unfold post, queue in *. simpl. destruct (decide (l = l')) as [->|Hne].
  - rewrite lookup_insert_eq. simpl. apply NoDup_app. split_and!; [apply Hnd| |apply NoDup_singleton].
    intros x Hx ->%list_elem_of_singleton. done.
  - rewrite lookup_insert_ne by done. apply Hnd.
Qed.

Lemma accept_ok : ∃ s', newConnection s = Ok s' ∧ sinv s' ∧ m_nextConnId s' = m_nextConnId s + 1.
Proof.
  unfold newConnection. destruct (getNextLoop_ok _ (si_pool _ Hi)) as (p & l & E & Hp). rewrite E. cbn [mbind res_bind].
  set (c := m_nextConnId s). set (nm := conn_name _ _ c).
  set (s1 := mkServer _ _ p _ _ _ _ _ _).
  assert (Hold : ∀ l', c ∉ conn_of <$> queue s l').
  { intros l' (f & Ef & Hf)%list_elem_of_fmap. destruct (si_queue _ Hi _ _ Hf) as (o & Ho & _).
    rewrite <- Ef in Ho. destruct (si_ids _ Hi _ _ Ho). unfold c in *. lia. }
  destruct (Nat.eqb l base_loop).
  - unfold connectEstablished, get_conn. simpl. rewrite lookup_insert_eq. simpl. eexists. split; [done|]. split; [|done].
    eapply (sinv_new _ p l PUp); try done; simpl.
    + by rewrite insert_insert_eq.
    + intros l' f Hf. by left.
    + intros l'. apply Hi.
  - eexists. split; [done|]. split; [|done]. eapply (sinv_new _ p l PCreated); try done.
    + intros l' f [?|[-> ->]]%elem_of_post; [by left|by right].
    + intros l'. apply nodup_post; [apply Hi|]. intros Hf. apply (Hold l). by apply (list_elem_of_fmap_2 conn_of) in Hf.
Qed.

(** The functors queued for a connection are those its phase is due. *)
Lemma queued_unique l f l' g c o :
  s_conns s !! c = Some o → f ∈ queue s l → conn_of f = c → g ∈ queue s l' → conn_of g = c → g = f ∧ l' = l.
Proof.
  intros Hc Hf Ef Hg Eg. destruct (si_queue _ Hi _ _ Hf) as (o1 & H1 & P1 & L1).
  destruct (si_queue _ Hi _ _ Hg) as (o2 & H2 & P2 & L2). rewrite Ef in H1. rewrite Eg in H2.
  assert (o1 = o) as -> by congruence. assert (o2 = o) as -> by congruence. rewrite P1 in P2.
  assert (g = f) as -> by (destruct f, g; simpl in *; congruence). split; congruence.
Qed.

Lemma queued_none l g c o : s_conns s !! c = Some o → c_phase o = PUp → g ∈ queue s l → conn_of g ≠ c.
Proof.
  intros Hc Hp Hg <-. destruct (si_queue _ Hi _ _ Hg) as (o' & H' & P' & _).
  assert (o' = o) as -> by congruence. rewrite Hp in P'. by destruct g.
Qed.

Lemma map_has c o : s_conns s !! c = Some o → in_map (c_phase o) = true → m_connections s !! c_name o = Some c.
Proof. intros H1 H2. apply (si_map _ Hi). eauto. Qed.

Lemma map_lacks c o : s_conns s !! c = Some o → in_map (c_phase o) = false → m_connections s !! c_name o = None.
Proof.
  intros H1 H2. destruct (m_connections s !! c_name o) as [c'|] eqn:E; [|done].
  apply (si_map _ Hi) in E as (o' & H' & En & Hin). assert (c' = c) as -> by by eapply name_inj. congruence.
Qed.

Lemma close_ok c o : s_conns s !! c = Some o → c_phase o = PUp →
  ∃ s', handleClose s c = Ok s' ∧ sinv s' ∧ m_nextConnId s' = m_nextConnId s.
Proof.
  intros Hc Hp. unfold handleClose, get_conn. rewrite Hc. cbn [mbind res_bind]. unfold removeConnection. simpl c_loop.
  assert (Hfree : ∀ l g, g ∈ queue s l → conn_of g ≠ c) by (intros l g; by eapply queued_none).
  destruct (Nat.eqb (c_loop o) base_loop).
  - unfold removeConnectionInLoop, get_conn. simpl. rewrite lookup_insert_eq. simpl.
    rewrite bool_decide_true by (rewrite (map_has c o) by (done || by rewrite Hp); eauto). simpl.
    eexists. split; [done|]. split; [|done].
    eapply (sinv_phase _ c o PRemoved (Some (FDestroyed c))); try done; try apply Hi; simpl.
    + by rewrite insert_insert_eq.
    + intros l f [Hf|[-> ->]]%elem_of_post; [left; split; [done|by eapply Hfree]|right; done].
    + intros l. apply nodup_post; [apply Hi|]. intros Hf. by apply (Hfree _ _ Hf).
  - eexists. split; [done|]. split; [|done].
    eapply (sinv_phase _ c o PClosed (Some (FRemoveInLoop c))); try done; try apply Hi; simpl.
    + by rewrite Hp.
    + intros l f [Hf|[-> ->]]%elem_of_post; [left; split; [done|by eapply Hfree]|right; done].
    + intros l. apply nodup_post; [apply Hi|]. intros Hf. by apply (Hfree _ _ Hf).
Qed.

Lemma run_functor_ok l : ∃ s', run_functor s l = Ok s' ∧ sinv s' ∧ m_nextConnId s' = m_nextConnId s.
Proof.
  unfold run_functor. destruct (queue s l) as [|f q] eqn:Eq; [eauto|].
  assert (Hf : f ∈ queue s l) by (rewrite Eq; by left).
  destruct (si_queue _ Hi _ _ Hf) as (o & Hc & Hp & Hl).
  pose proof (si_nodup _ Hi l) as Hnd. rewrite Eq in Hnd. apply NoDup_cons in Hnd as [Hfq Hq].
  set (s1 := set_queues s (<[l := q]> (s_queues s))).
  assert (Hq1 : ∀ l' g, g ∈ queue s1 l' → g ∈ queue s l' ∧ conn_of g ≠ conn_of f).
  { intros l' g. unfold s1. rewrite queue_insert. case_decide as E.
    - subst l'. intros Hg. assert (g ∈ queue s l) by (rewrite Eq; by right). split; [done|].
      intros E. destruct (queued_unique l f l g (conn_of f) o Hc Hf eq_refl ltac:(done) E) as [-> _]. done.
    - intros Hg. split; [done|]. intros E'.
      destruct (queued_unique l f l' g (conn_of f) o Hc Hf eq_refl Hg E') as [_ ->]. done. }
  assert (Hn1 : ∀ l', base.NoDup (queue s1 l')).
  { intros l'. unfold s1. rewrite queue_insert. case_decide; [done|apply Hi]. }
  destruct f as [c|c|c]; simpl in Hc, Hp, Hl, Hq1.
  - unfold connectEstablished, get_conn. simpl. rewrite Hc. simpl. rewrite bool_decide_true by done. simpl.
    eexists. split; [done|]. split; [|done].
    eapply (sinv_phase _ c o PUp None); try done; try apply Hi; simpl; [by rewrite Hp|].
    intros l' g Hg. left. by apply Hq1.
  - unfold removeConnectionInLoop, get_conn. simpl. rewrite Hc. simpl.
    rewrite bool_decide_true by (rewrite (map_has c o) by (done || by rewrite Hp); eauto). simpl.
    eexists. split; [done|]. split; [|done].
    eapply (sinv_phase _ c o PRemoved (Some (FDestroyed c))); try done; try apply Hi.
    + intros l' g [Hg|[-> ->]]%elem_of_post; [left; by apply Hq1|right; done].
    + intros l'. apply nodup_post; [done|]. intros Hg. by destruct (Hq1 _ _ Hg).
  - unfold connectDestroyed, get_conn. simpl. rewrite Hc. simpl. rewrite bool_decide_true by done. simpl.
    eexists. split; [done|]. split; [|done].
    eapply (sinv_phase _ c o PDestroyed None); try done; try apply Hi; simpl.
    + rewrite delete_id; [done|]. apply (map_lacks c); [done|]. by rewrite Hp.
    + intros l' g Hg. left. by apply Hq1.
Qed.
End steps.

Lemma sstep_ok s v :
  sinv s → m_nextConnId s < 2 ^ 31 - 1 → possible s v →
  ∃ s', sstep s v = Ok s' ∧ sinv s' ∧ m_nextConnId s' ≤ m_nextConnId s + 1.
Proof.
  intros Hi Hb Hp. destruct v as [|c|l]; simpl.
  - destruct (accept_ok s Hi Hb) as (s' & ? & ? & ?). exists s'. split_and!; [done..|lia].
  - destruct Hp as (o & ? & ?). destruct (close_ok s Hi Hb c o) as (s' & ? & ? & ?); [done..|].
    exists s'. split_and!; [done..|lia].
  - destruct (run_functor_ok s Hi Hb l) as (s' & ? & ? & ?). exists s'. split_and!; [done..|lia].
Qed.

(** Runs of a started server; [n] bounds the number of events. *)
Inductive sruns : TcpServer → nat → TcpServer → Prop :=
  | sruns_nil s : sruns s 0 s
  | sruns_step s v s1 n s2 : possible s v → sstep s v = Ok s1 → sruns s1 n s2 → sruns s (S n) s2.

Lemma sruns_snoc s n s1 v s2 : sruns s n s1 → possible s1 v → sstep s1 v = Ok s2 → sruns s (S n) s2.
Proof.
  induction 1 as [s|s v' s' n s1 Hp E Hr IH]; intros Hv Ev; [|by eapply sruns_step; [..|apply IH]].
  by eapply sruns_step; [..|apply sruns_nil].
Qed.

Lemma sruns_inv s n s' :
  sruns s n s' → sinv s → m_nextConnId s + Z.of_nat n < 2 ^ 31 → sinv s' ∧ m_nextConnId s' ≤ m_nextConnId s + Z.of_nat n.
Proof.
  induction 1 as [s|s v s1 n s2 Hp E Hr IH]; intros Hi Hb; [split; [done|lia]|].
  destruct (sstep_ok s v Hi ltac:(lia) Hp) as (s1' & E' & Hi1 & Hn). assert (s1' = s1) as -> by congruence.
  destruct (IH Hi1 ltac:(lia)) as [? ?]. split; [done|lia].
Qed.

Definition started_server (name ipPort : list ascii) (threads : Z) : res TcpServer :=
  s ← setThreadNum (TcpServer_ctor name ipPort) threads; start s.

Lemma server_started_inv name ipPort threads :
  0 ≤ threads → (length ipPort ≤ 52)%nat →
  ∃ s, started_server name ipPort threads = Ok s ∧ sinv s ∧ m_nextConnId s = 1.
Proof.
  intros Ht Hl. unfold started_server, setThreadNum. rewrite (proj2 (Z.leb_le _ _)) by done. simpl.
  eexists. split; [done|]. split; [|done]. split; simpl; try done.
  - split_and!; simpl; [done|lia|]. destruct (seq 1 (Z.to_nat threads)) as [|x l] eqn:E; [by left|right].
    unfold zlen. simpl. lia.
  - intros nm c. split; [done|]. by intros (o & H & _).
  - intros l. constructor.
  - intros l f Hf. by apply elem_of_nil in Hf.
Qed.

(** ** Properties *)

(** EventLoopThreadPool::getNextLoop is round robin: from any state of a
    started pool with [n] loops, [n] consecutive calls return each loop exactly
    once, starting at [m_next], and leave the pool as it was; so every [n]
    consecutive connections are spread over all the loops. *)
Theorem getNextLoop_round_robin (p : EventLoopThreadPool) :
  pool_wf p → m_loops p ≠ [] →
  ∃ ls, nextLoops (length (m_loops p)) p = Ok (p, ls) ∧ ls ≡ₚ m_loops p ∧
    ls = drop (Z.to_nat (m_next p)) (m_loops p) ++ take (Z.to_nat (m_next p)) (m_loops p).
Proof.
  intros Hw Hne. eexists. split; [by apply round|]. split; [|done].
  rewrite Permutation_app_comm. by rewrite take_drop.
Qed.

Lemma getNextLoop_round_robin_witness :
  ∃ ls, nextLoops 3 (mkPool true 3 1 [1; 2; 3]%nat) = Ok (mkPool true 3 1 [1; 2; 3]%nat, ls) ∧
    ls ≡ₚ [1; 2; 3]%nat ∧ ls = drop 1 [1; 2; 3]%nat ++ take 1 [1; 2; 3]%nat.
Proof.
  refine (getNextLoop_round_robin (mkPool true 3 1 [1; 2; 3]%nat) _ _); [|discriminate].
  split; [reflexivity|]. split; [vm_compute; discriminate|]. right. reflexivity.
Defined.

(** Connections of a server: from a started server with any number of I/O
    threads, in every interleaving of accepts, closes and the functors of the
    loops, no assertion fails (in particular the one in
    removeConnectionInLoop, that exactly one entry is erased), and the map
    [m_connections] holds exactly the connections that were accepted and not
    yet removed, each under its own name. *)
Theorem server_connections (name ipPort : list ascii) (threads : Z) (s0 s : TcpServer) (n : nat) (v : sevent) :
  0 ≤ threads → (length ipPort ≤ 52)%nat → Z.of_nat n < 2 ^ 31 - 3 →
  started_server name ipPort threads = Ok s0 → sruns s0 n s → possible s v →
  (∃ s', sstep s v = Ok s') ∧
  (∀ nm c, m_connections s !! nm = Some c ↔
     ∃ o, s_conns s !! c = Some o ∧ c_name o = nm ∧ c_phase o ∈ [PCreated; PUp; PClosed]).
Proof.
  intros Ht Hl Hn E Hr Hp. destruct (server_started_inv name ipPort threads Ht Hl) as (s0' & E' & Hi & H1).
  assert (s0' = s0) as -> by congruence. destruct (sruns_inv _ _ _ Hr Hi ltac:(lia)) as [Hi' Hb].
  split.
  - destruct (sstep_ok s v Hi' ltac:(lia) Hp) as (s' & ? & _). eauto.
  - intros nm c. rewrite (si_map _ Hi'). split; intros (o & ? & ? & Ho); exists o; (split_and!; [done..|]).
    + destruct (c_phase o); try done; set_solver.
    + destruct (c_phase o); try done; set_solver.
Qed.

Definition demo_server : TcpServer :=
  match started_server (chars "srv") (chars "0.0.0.0:80") 2 with Ok s => s | Fail _ => TcpServer_ctor [] [] end.

Lemma server_connections_witness :
  ∃ s, sruns demo_server 3 s ∧
  ((∃ s', sstep s (VRun 0%nat) = Ok s') ∧
   (∀ nm c, m_connections s !! nm = Some c ↔
     ∃ o, s_conns s !! c = Some o ∧ c_name o = nm ∧ c_phase o ∈ [PCreated; PUp; PClosed])).
Proof.
  assert (H : ∃ s, sruns demo_server 3 s).
  { eexists. eapply (sruns_step _ VAccept); [exact I|vm_compute; reflexivity|].
    eapply (sruns_step _ (VRun 1%nat)); [exact I|vm_compute; reflexivity|].
    eapply (sruns_step _ (VClose 1)); [eexists; split; reflexivity|vm_compute; reflexivity|]. apply sruns_nil. }
  destruct H as (s & Hr). exists s. split; [exact Hr|].
  refine (server_connections (chars "srv") (chars "0.0.0.0:80") 2 demo_server s 3 (VRun 0%nat) _ _ _ _ Hr I).
  - discriminate.
  - vm_compute. lia.
  - reflexivity.
  - vm_compute. reflexivity.
Defined.
