(* ===== verification/System.v ===== *)
(** * A running server: src/dc/net/tcpServer.cc, tcpConnection.cc and the
      functor queues of src/dc/net/eventLoop.cc together

    [Server] follows a connection through the phases of its life and
    [TcpConnection] models one connection object; here the connection objects
    of a server are real [TcpConnection]s, and what a handler leaves in its
    trace (functors for the loop, the close callback, a timer) is carried out.
    Each loop has one queue of functors, in which the server's and the
    connections' are mixed in the order they were queued.

    Objects are reference counted: the server's map, the functors that were
    bound with a TcpConnectionPtr and the user's own pointers keep an object
    alive.  The functors bound with [this] (sendInLoop, shutdownInLoop,
    startReadInLoop, stopReadInLoop) do not; running one after the object is
    gone is a failure of the model.

    A step is one handler, method or functor.  The calls of other threads are
    steps as well: a call of send, shutdown or forceClose tests the state and
    queues its functor at once. *)

From S2P Require Import Prelude Buffer Channel Poller EventLoop TcpConnection Server.

Open Scope Z_scope.

(** ** State *)

Record object : Type := mkObj { o_name : list ascii; o_loop : loop_id; o_conn : TcpConnection }.

(** What a loop's queue holds. *)
Inductive job : Type :=
  | JEstablished (c : Z)
  | JRemove (c : Z)
  | JDestroyed (c : Z)
  | JSend (c : Z) (m : list ascii)
  | JShutdown (c : Z)
  | JStartRead (c : Z)
  | JStopRead (c : Z)
  | JForceClose (c : Z)
  | JWriteComplete (c : Z)
  | JHighWaterMark (c len : Z).

Definition job_conn (j : job) : Z :=
  match j with
  | JEstablished c | JRemove c | JDestroyed c | JSend c _ | JShutdown c | JStartRead c | JStopRead c
  | JForceClose c | JWriteComplete c | JHighWaterMark c _ => c
  end.

(** Bound with [this] instead of shared_from_this(). *)
Definition raw (j : job) : bool :=
  match j with JSend _ _ | JShutdown _ | JStartRead _ | JStopRead _ => true | _ => false end.

(** The functors [Server] knows. *)
Definition server_job (j : job) : option functor :=
  match j with
  | JEstablished c => Some (FEstablished c)
  | JRemove c => Some (FRemoveInLoop c)
  | JDestroyed c => Some (FDestroyed c)
  | _ => None
  end.

Record System : Type := mkSys {
  y_name : list ascii;
  y_ipPort : list ascii;
  y_wcb : bool;                          (* the server's write complete callback is set *)
  y_pool : EventLoopThreadPool;
  y_next : Z;                            (* m_nextConnId *)
  y_map : gmap (list ascii) Z;           (* m_connections *)
  y_objs : gmap Z object;                (* the connection objects that exist *)
  y_jobs : gmap loop_id (list job);      (* m_pendingFunctors of each loop *)
  y_timers : list Z;                     (* delayed forceClose, by weak pointer *)
  y_held : gset Z;                       (* connections user code holds a pointer to *)
}.

Definition with_objs (S : System) (m : gmap Z object) : System :=
  mkSys (y_name S) (y_ipPort S) (y_wcb S) (y_pool S) (y_next S) (y_map S) m (y_jobs S) (y_timers S) (y_held S).
Definition with_map (S : System) (m : gmap (list ascii) Z) : System :=
  mkSys (y_name S) (y_ipPort S) (y_wcb S) (y_pool S) (y_next S) m (y_objs S) (y_jobs S) (y_timers S) (y_held S).
Definition with_jobs (S : System) (q : gmap loop_id (list job)) : System :=
  mkSys (y_name S) (y_ipPort S) (y_wcb S) (y_pool S) (y_next S) (y_map S) (y_objs S) q (y_timers S) (y_held S).
Definition with_timers (S : System) (ts : list Z) : System :=
  mkSys (y_name S) (y_ipPort S) (y_wcb S) (y_pool S) (y_next S) (y_map S) (y_objs S) (y_jobs S) ts (y_held S).
Definition with_held (S : System) (h : gset Z) : System :=
  mkSys (y_name S) (y_ipPort S) (y_wcb S) (y_pool S) (y_next S) (y_map S) (y_objs S) (y_jobs S) (y_timers S) h.

Definition jobs (S : System) (l : loop_id) : list job := default [] (y_jobs S !! l).

(** [queueInLoop] *)
Definition enqueue (S : System) (l : loop_id) (j : job) : System :=
  with_jobs S (<[l := jobs S l ++ [j]]> (y_jobs S)).

Definition get_obj (S : System) (c : Z) : res object :=
  match y_objs S !! c with Some ob => Ok ob | None => Fail (FUndef "use of a destroyed TcpConnection") end.

Definition set_obj (S : System) (c : Z) (ob : object) (t : TcpConnection) : System :=
  with_objs S (<[c := mkObj (o_name ob) (o_loop ob) t]> (y_objs S)).

(** ** Operations *)

(** [TcpServer::removeConnectionInLoop] *)
Definition sys_removeConnectionInLoop (S : System) (c : Z) : res System :=
  ob ← get_obj S c;
  cassert (bool_decide (is_Some (y_map S !! o_name ob))) "n == 1";;
  Ok (enqueue (with_map S (delete (o_name ob) (y_map S))) (o_loop ob) (JDestroyed c)).

(** [TcpServer::removeConnection], called in the connection's loop. *)
Definition sys_removeConnection (S : System) (c : Z) (ob : object) : res System :=
  if Nat.eqb (o_loop ob) base_loop then sys_removeConnectionInLoop S c
  else Ok (enqueue S base_loop (JRemove c)).

(** The functor an effect of connection [c] gives to the loop. *)
Definition asked (c : Z) (e : effect) : option job :=
  match e with
  | EQueueSend m => Some (JSend c m)
  | EQueueShutdown => Some (JShutdown c)
  | EQueueStartRead => Some (JStartRead c)
  | EQueueStopRead => Some (JStopRead c)
  | EQueueForceClose => Some (JForceClose c)
  | EQueueWriteComplete => Some (JWriteComplete c)
  | EQueueHighWaterMark len => Some (JHighWaterMark c len)
  | _ => None
  end.

(** The operation a queued functor runs on its connection; the write complete
    and high water mark callbacks are the user's. *)
Definition job_op (j : job) (w : list ascii → write_result) : option conn_op :=
  match j with
  | JEstablished _ => Some OEstablished
  | JDestroyed _ => Some ODestroyed
  | JSend _ m => Some (OSendInLoop w m)
  | JShutdown _ => Some OShutdownInLoop
  | JStartRead _ => Some (OStartRead true)
  | JStopRead _ => Some (OStopRead true)
  | JForceClose _ => Some OForceCloseInLoop
  | JRemove _ | JWriteComplete _ | JHighWaterMark _ _ => None
  end.

(** What an effect of connection [c] does outside of it. *)
Definition carry_out (c : Z) (ob : object) (S : System) (e : effect) : res System :=
  match asked c e with
  | Some j => Ok (enqueue S (o_loop ob) j)
  | None =>
      match e with
      | ERunAfterForceClose => Ok (with_timers S (c :: y_timers S))
      | ECloseCb => sys_removeConnection S c ob
      | _ => Ok S
      end
  end.

(** An operation of connection [c], and what it asks for. *)
Definition do_conn (S : System) (c : Z) (o : conn_op) : res System :=
  ob ← get_obj S c;
  t ← do_op (o_conn ob) o;
  foldM (carry_out c ob) (set_obj S c ob t) (drop (length (c_trace (o_conn ob))) (c_trace t)).

(** [TcpServer::newConnection] *)
Definition sys_newConnection (S : System) (sockfd : Z) (hwcb : bool) : res System :=
  '(p, ioLoop) ← getNextLoop true (y_pool S);
  let c := y_next S in
  let connName := conn_name (y_name S) (y_ipPort S) c in
  conn ← TcpConnection_ctor sockfd (y_wcb S) hwcb;
  let S1 := mkSys (y_name S) (y_ipPort S) (y_wcb S) p (c + 1) (<[connName := c]> (y_map S))
              (<[c := mkObj connName ioLoop conn]> (y_objs S)) (y_jobs S) (y_timers S) (y_held S) in
  if Nat.eqb ioLoop base_loop then do_conn S1 c OEstablished
  else Ok (enqueue S1 ioLoop (JEstablished c)).

(** A loop calls the first functor of its queue; [w] answers its write(2). *)
Definition run_job (S : System) (l : loop_id) (w : list ascii → write_result) : res System :=
  match jobs S l with
  | [] => Ok S
  | j :: q =>
      let S1 := with_jobs S (<[l := q]> (y_jobs S)) in
      match j with
      | JRemove c => sys_removeConnectionInLoop S1 c
      | _ =>
          match job_op j w with
          | Some o => do_conn S1 (job_conn j) o
          | None => _ ← get_obj S1 (job_conn j); Ok S1
          end
      end
  end.

(** The delayed forceClose: nothing when the weak pointer has expired. *)
Definition run_timer (S : System) (c : Z) : res System :=
  match y_objs S !! c with Some _ => do_conn S c OForceClose | None => Ok S end.

(** The last pointer to [c] goes away. *)
Definition release (S : System) (c : Z) : res System :=
  ob ← get_obj S c;
  TcpConnection_dtor (o_conn ob);;
  Ok (with_objs S (delete c (y_objs S))).

Definition referenced (S : System) (c : Z) : Prop :=
  (∃ nm, y_map S !! nm = Some c) ∨
  (∃ l j, j ∈ jobs S l ∧ job_conn j = c ∧ raw j = false) ∨
  c ∈ y_held S.

Inductive event : Type :=
  | VAccept (sockfd : Z) (hwcb : bool)
  | VIo (c : Z) (o : conn_op)          (* the channel calls back *)
  | VCall (c : Z) (o : conn_op)        (* user code calls a method *)
  | VRun (l : loop_id) (w : list ascii → write_result)
  | VTimer (c : Z)
  | VHold (c : Z)                      (* a callback keeps its pointer *)
  | VDrop (c : Z)
  | VFree (c : Z).

Definition step (S : System) (v : event) : res System :=
  match v with
  | VAccept fd hwcb => sys_newConnection S fd hwcb
  | VIo c o | VCall c o => do_conn S c o
  | VRun l w => run_job S l w
  | VTimer c => run_timer S c
  | VHold c => _ ← get_obj S c; Ok (with_held S ({[c]} ∪ y_held S))
  | VDrop c => Ok (with_held S (y_held S ∖ {[c]}))
  | VFree c => release S c
  end.

(** Events of the channel, and methods for user code.  startRead and stopRead
    are called in the loop's thread, while the connection is open: their
    functors do not look at the state (see [conn_unguarded_calls]). *)
Definition io_op (o : conn_op) : bool :=
  match o with ORead _ | OWrite _ | OHangup | OError => true | _ => false end.
Definition user_op (o : conn_op) : bool :=
  match o with
  | OSend _ _ | OSendOther _ | OShutdown _ | OForceClose | OForceCloseWithDelay
  | OStartRead true | OStopRead true | OConsume _ => true
  | _ => false
  end.

Definition possible (S : System) (v : event) : Prop :=
  match v with
  | VAccept fd _ => 0 ≤ fd
  | VIo c o => io_op o = true ∧
      ∃ ob, y_objs S !! c = Some ob ∧ is_addedToLoop (m_channel (o_conn ob)) = true ∧ enabled (o_conn ob) o
  | VCall c o => user_op o = true ∧ c ∈ y_held S ∧
      (∀ ob, y_objs S !! c = Some ob → enabled (o_conn ob) o) ∧
      match o with OSendOther m => zlen m ≤ max_size | _ => True end
  | VRun _ w => write_fits w
  | VTimer c => c ∈ y_timers S
  | VHold c => ∃ ob, y_objs S !! c = Some ob ∧ open_state (o_conn ob) = true
  | VDrop _ => True
  | VFree c => is_Some (y_objs S !! c) ∧ ¬ referenced S c
  end.

Inductive runs : System → nat → System → Prop :=
  | runs_nil S : runs S 0 S
  | runs_step S v S1 n S2 : possible S v → step S v = Ok S1 → runs S1 n S2 → runs S (Datatypes.S n) S2.

(** A started server with its pool of threads. *)
Definition sys_start (name ipPort : list ascii) (wcb : bool) (threads : Z) : res System :=
  s ← started_server name ipPort threads;
  Ok (mkSys name ipPort wcb (m_threadPool s) (m_nextConnId s) ∅ ∅ ∅ [] ∅).

(** ** What one operation does to its surroundings *)

(** The stage of life of a connection object. *)
Definition stage (t : TcpConnection) : bool * bool * bool :=
  (bool_decide (m_state t = kConnecting), open_state t, is_addedToLoop (m_channel t)).

Definition quiet (e : effect) : bool :=
  match e with
  | EUpdate _ | ERemove | EWire _ | EShutdownWrite | EConnectionCb _ | EMessageCb => true
  | _ => false
  end.

(** The functors and timers that operation [o] on [t] may ask for. *)
Definition may_ask (t : TcpConnection) (o : conn_op) (e : effect) : Prop :=
  match e with
  | EQueueSend m => open_state t = true ∧ o = OSendOther m
  | EQueueShutdown => open_state t = true
  | ECloseCb | EQueueStartRead | EQueueStopRead => False
  | _ => True
  end.

Definition middle_op (o : conn_op) : bool :=
  match o with OEstablished | ODestroyed | OStartRead false | OStopRead false => false | _ => true end.

(** Either the operation stays in its stage, or the connection closes. *)
Definition stays (t : TcpConnection) (o : conn_op) (t' : TcpConnection) : Prop :=
  stage t' = stage t ∧ ∃ es, c_trace t' = c_trace t ++ es ∧ ∀ e, e ∈ es → may_ask t o e.

Definition closes (t t' : TcpConnection) : Prop :=
  open_state t = true ∧ m_state t' = kDisconnected ∧ is_addedToLoop (m_channel t') = true ∧
  ∃ es, c_trace t' = (c_trace t ++ es) ++ [ECloseCb] ∧ ∀ e, e ∈ es → quiet e = true.

Lemma stays_same t o : stays t o t.
Proof. split; [done|]. exists []. rewrite app_nil_r. split; [done|]. by intros e ?%elem_of_nil. Qed.

Lemma stays_intro t o t' es :
  stage t' = stage t → c_trace t' = c_trace t ++ es → Forall (may_ask t o) es → stays t o t'.
Proof. intros E Et H. split; [done|]. exists es. split; [done|]. by apply Forall_forall. Qed.

Lemma closes_intro t t0 t' :
  open_state t0 = true → open_state t = true → c_trace t0 = c_trace t →
  TcpConnection.handleClose true t0 = Ok t' → closes t t'.
Proof.
  intros H0 Ho Et E. unfold TcpConnection.handleClose in E. simpl in E. rewrite H0 in E. simpl in E.
  injection E as <-. split_and!; try done. exists [EUpdate DisableAll; EConnectionCb false].
  split; [simpl; by rewrite Et, <- !app_assoc|].
  by intros e [->|[->|?%elem_of_nil]%elem_of_cons]%elem_of_cons.
Qed.

Lemma connected_open t : connected t = true → open_state t = true.
Proof. unfold connected, open_state. by intros ->. Qed.

(** Only the trace grows and the channel stays registered. *)
Lemma stage_open t t' :
  open_state t = true → is_addedToLoop (m_channel t) = true → open_state t' = true →
  is_addedToLoop (m_channel t') = true → stage t' = stage t.
Proof.
  intros H1 H2 H3 H4. unfold stage. rewrite H1, H2, H3, H4. repeat f_equal.
  unfold open_state in *. by destruct (m_state t), (m_state t').
Qed.

Lemma send_stays t o w m t' :
  inv t → m_state t ≠ kConnecting → sendInLoop true w t m = Ok t' → stays t o t'.
Proof.
  intros Hi Hs E. unfold sendInLoop in E. cbn [assertInLoopThread mbind res_bind] in E.
  destruct (disconnected t) eqn:Ed; [injection E as <-; apply stays_same|].
  assert (open_state t = true) as Ho.
  { unfold disconnected in Ed. unfold open_state. bprop. by destruct (m_state t). }
  pose proof (inv_added _ Hi Ho) as Ha.
  set (p := if negb (isWriting (m_channel t)) && _ then _ else _) in E.
  assert (Hp : ∃ t1 nw rem fe es, p = (t1, nw, rem, fe) ∧ stage t1 = stage t ∧ c_trace t1 = c_trace t ++ es ∧
    Forall (may_ask t o) es ∧ is_addedToLoop (m_channel t1) = true ∧ open_state t1 = true).
  { unfold p. destruct (negb _ && _); [destruct (w m) as [n|err]|].
    - destruct (_ && m_writeCompleteCallback t); do 4 eexists.
      + exists [EWire (ztake n m); EQueueWriteComplete]. split; [done|]. simpl. rewrite <- app_assoc. by repeat constructor.
      + exists [EWire (ztake n m)]. split; [done|]. by repeat constructor.
    - do 4 eexists. exists []. split; [done|]. rewrite app_nil_r. by repeat constructor.
    - do 4 eexists. exists []. split; [done|]. rewrite app_nil_r. by repeat constructor. }
  destruct Hp as (t1 & nw & rem & fe & es & -> & Hst & Htr & Hf & Ha1 & Ho1). cbn beta iota in E.
  destruct (rem <=? zlen m); [|done]. cbn [cassert mbind res_bind] in E.
  destruct (negb fe && (0 <? rem)); [|injection E as <-; by eapply stays_intro].
  set (t2 := if _ && m_highWaterMarkCallback t1 then _ else t1) in E.
  assert (∃ es2, c_trace t2 = c_trace t1 ++ es2 ∧ Forall (may_ask t o) es2 ∧
    is_addedToLoop (m_channel t2) = true ∧ open_state t2 = true) as (es2 & Htr2 & Hf2 & Ha2 & Ho2).
  { unfold t2. destruct (_ && m_highWaterMarkCallback t1); [eexists; split_and!; [done|by repeat constructor|done|done]|].
    exists []. rewrite app_nil_r. by split_and!. }
  destruct (append_from (m_outputBuffer t2) m nw rem) as [b|]; [|done]. cbn [mbind res_bind] in E. injection E as <-.
  destruct (negb (isWriting _)).
  - eapply (stays_intro _ _ _ ((es ++ es2) ++ [EUpdate EnableWriting])).
    + by apply stage_open.
    + simpl. by rewrite Htr2, Htr, !app_assoc.
    + by repeat apply Forall_app_2; repeat constructor.
  - eapply (stays_intro _ _ _ (es ++ es2)).
    + by apply stage_open.
    + simpl. by rewrite Htr2, Htr, !app_assoc.
    + by apply Forall_app_2.
Qed.

Lemma write_stays t o w t' :
  inv t → handleWrite true w t = Ok t' → isWriting (m_channel t) = true → stays t o t'.
Proof.
  intros Hi E Hw. unfold handleWrite in E. cbn [assertInLoopThread mbind res_bind] in E. rewrite Hw in E.
  assert (open_state t = true) as Ho by (apply inv_open; [done|by apply isWriting_some; [apply Hi|]]).
  pose proof (inv_added _ Hi Ho) as Ha. rewrite read_content in E by apply Hi. cbn [mbind res_bind] in E.
  destruct (w (content (m_outputBuffer t))) as [n|]; [|injection E as <-; apply stays_same].
  destruct (0 <? n); [|injection E as <-; apply stays_same].
  destruct (retrieve (m_outputBuffer t) (u64 n)) as [b|]; [|done]. cbn [mbind res_bind] in E.
  destruct (readableBytes b =? 0).
  2:{ injection E as <-. eapply stays_intro; [done|done|by repeat constructor]. }
  set (t2 := change _ DisableWriting) in E. simpl m_writeCompleteCallback in E.
  set (t3 := if m_writeCompleteCallback t then emit t2 EQueueWriteComplete else t2) in E.
  assert (∃ es, c_trace t3 = c_trace t ++ es ∧ Forall (may_ask t o) es ∧ m_state t3 = m_state t ∧
    is_addedToLoop (m_channel t3) = true) as (es & Htr & Hf & Hs & Ha3).
  { unfold t3. destruct (m_writeCompleteCallback t); eexists; simpl; rewrite <- !app_assoc;
      (split_and!; [done| |done|done]); by repeat constructor. }
  assert (open_state t3 = true) as Ho3 by (unfold open_state in *; by rewrite Hs).
  case_bool_decide.
  - unfold shutdownInLoop in E. simpl in E. injection E as <-. destruct (negb (isWriting (m_channel t3))).
    + eapply (stays_intro _ _ _ (es ++ [EShutdownWrite])); [by apply stage_open| |].
      * simpl. by rewrite Htr, app_assoc.
      * apply Forall_app_2; [done|by repeat constructor].
    + by eapply stays_intro; [apply stage_open|..].
  - injection E as <-. by eapply stays_intro; [apply stage_open|..].
Qed.

Lemma read_outcome t o readv t' :
  inv t → enabled t (ORead readv) → handleRead true readv t = Ok t' → stays t o t' ∨ closes t t'.
Proof.
  intros Hi (Hr & Hf & Hv) E. unfold handleRead in E. simpl in E.
  assert (open_state t = true) as Ho by (apply inv_open; [done|by apply isReading_some; [apply Hi|]]).
  destruct (readFd readv (m_inputBuffer t)) as [[[n err] b]|]; [|done]. simpl in E.
  destruct (0 <? n); [left; injection E as <-; eapply stays_intro; [done|done|by repeat constructor]|].
  destruct (n =? 0); [right; by eapply (closes_intro t (set_input t b))|].
  left. injection E as <-. eapply (stays_intro _ _ _ []); [done|simpl; by rewrite app_nil_r|constructor].
Qed.

(** The methods for user code do not close the connection themselves. *)
Lemma user_stays t o t' :
  inv t → enabled t o → user_op o = true → do_op t o = Ok t' → stays t o t'.
Proof.
  intros Hi He Hm E. destruct o; cbn [do_op enabled] in *; try done.
  - unfold send in E. destruct (connected t) eqn:Ec; [|injection E as <-; apply stays_same].
    unfold connected in Ec. bprop. eapply send_stays; [done| |done]. by rewrite Ec.
  - unfold send in E. destruct (connected t) eqn:Ec; [|injection E as <-; apply stays_same]. injection E as <-.
    eapply stays_intro; [done|done|]. apply Forall_singleton. split; [by apply connected_open|done].
  - unfold shutdown in E. destruct (connected t) eqn:Ec; [|injection E as <-; apply stays_same].
    pose proof (connected_open _ Ec) as Ho.
    pose proof (inv_added _ Hi Ho) as Ha. destruct inLoop.
    + unfold shutdownInLoop in E. simpl in E. injection E as <-. destruct (negb _).
      * eapply stays_intro; [by apply stage_open|done|by repeat constructor].
      * eapply (stays_intro _ _ _ []); [by apply stage_open|by rewrite app_nil_r|constructor].
    + injection E as <-. eapply stays_intro; [by apply stage_open|done|by repeat constructor].
  - injection E as <-. unfold forceClose. destruct (open_state t) eqn:Ho; [|apply stays_same].
    pose proof (inv_added _ Hi Ho). eapply stays_intro; [by apply stage_open|done|by repeat constructor].
  - injection E as <-. unfold forceCloseWithDelay. destruct (open_state t) eqn:Ho; [|apply stays_same].
    pose proof (inv_added _ Hi Ho). eapply stays_intro; [by apply stage_open|done|by repeat constructor].
  - destruct inLoop; [|done]. unfold startRead, startReadInLoop in E. simpl in E. injection E as <-.
    destruct (_ || _); [|apply stays_same]. pose proof (inv_added _ Hi He) as Ha.
    eapply stays_intro; [by apply stage_open|done|by repeat constructor].
  - destruct inLoop; [|done]. unfold stopRead, stopReadInLoop in E. simpl in E. injection E as <-.
    destruct (_ || _); [|apply stays_same].
    eapply stays_intro; [|done|by repeat constructor]. unfold stage, open_state. simpl. by rewrite He.
  - injection E as <-. eapply (stays_intro _ _ _ []); [done|by rewrite app_nil_r|constructor].
Qed.

Lemma op_outcome t o t' :
  inv t → enabled t o → middle_op o = true → do_op t o = Ok t' → stays t o t' ∨ closes t t'.
Proof.
  intros Hi He Hm E. destruct (user_op o) eqn:Hu; [left; by apply user_stays|].
  destruct o; cbn [do_op enabled] in *; try done; try (by destruct inLoop).
  - destruct He as (_ & _ & ?). left. by eapply send_stays.
  - left. unfold shutdownInLoop in E. simpl in E. injection E as <-. destruct (negb _); [|apply stays_same].
    eapply stays_intro; [done|done|by repeat constructor].
  - unfold forceCloseInLoop in E. simpl in E.
    destruct (open_state t) eqn:Ho; [|left; injection E as <-; apply stays_same].
    right. by eapply closes_intro.
  - by eapply read_outcome.
  - destruct He. left. by eapply write_stays.
  - right. eapply closes_intro; [|by apply inv_open|..|done]; [by apply inv_open|done].
  - left. injection E as <-. apply stays_same.
Qed.

(** ** The system simulates [Server] *)

Definition phase_stage (ph : Server.phase) : bool * bool * bool :=
  match ph with
  | PCreated => (true, false, false)
  | PUp => (false, true, true)
  | PClosed | PRemoved => (false, false, true)
  | PDestroyed => (false, false, false)
  end.

(** A connection object is what a run of [TcpConnection] made of a new one. *)
Definition obj_ok (t : TcpConnection) : Prop :=
  ∃ fd wcb hwcb t0 sent, 0 ≤ fd ∧ TcpConnection_ctor fd wcb hwcb = Ok t0 ∧ conn_run t0 sent t.

Definition job_inv (S : System) (s : TcpServer) (l : loop_id) (j : job) : Prop :=
  ∃ a, s_conns s !! job_conn j = Some a ∧
    (raw j = true → c_loop a = l ∧ c_phase a ∈ [PUp; PClosed; PRemoved]) ∧
    (raw j = false → is_Some (y_objs S !! job_conn j)) ∧
    match j with JSend _ m => zlen m ≤ max_size | JStartRead _ | JStopRead _ => False | _ => True end.

(** [x] is the connection whose removal or destruction is under way. *)
Record sim (x : option Z) (S : System) (s : TcpServer) : Prop := mkSim {
  sm_name : y_name S = m_name s;
  sm_ip : y_ipPort S = m_ipPort s;
  sm_pool : y_pool S = m_threadPool s;
  sm_next : y_next S = m_nextConnId s;
  sm_map : y_map S = m_connections s;
  sm_queue l : queue s l = omap server_job (jobs S l);
  sm_obj c ob : y_objs S !! c = Some ob →
    ∃ a, s_conns s !! c = Some a ∧ c_name a = o_name ob ∧ c_loop a = o_loop ob ∧
      obj_ok (o_conn ob) ∧ stage (o_conn ob) = phase_stage (c_phase a);
  sm_gone c a : s_conns s !! c = Some a → y_objs S !! c = None → c_phase a = PDestroyed;
  sm_jobs l j : j ∈ jobs S l → job_inv S s l j;
  sm_order l q1 c q2 j : jobs S l = q1 ++ JDestroyed c :: q2 → j ∈ q2 → raw j = true → job_conn j ≠ c;
  sm_due c a : x ≠ Some c → s_conns s !! c = Some a → c_phase a = PRemoved → JDestroyed c ∈ jobs S (c_loop a);
  sm_held c : c ∈ y_held S → is_Some (y_objs S !! c);
}.

Lemma conn_run_snoc t0 sent t o t' :
  conn_run t0 sent t → enabled t o → do_op t o = Ok t' → conn_run t0 (sent ++ taken t o) t'.
Proof.
  induction 1 as [t|t o1 t1 sent t2 H1 E1 Hr IH]; intros He Ed.
  - replace ([] ++ taken t o) with (taken t o ++ []) by by rewrite app_nil_r.
    by eapply run_step; [..|apply run_nil].
  - rewrite <- app_assoc. eapply run_step; [done..|]. by apply IH.
Qed.

Lemma obj_ok_inv t : obj_ok t → inv t.
Proof.
  intros (fd & w & h & t0 & sent & Hfd & E & Hr). destruct (ctor_fresh fd w h Hfd) as (t1 & E1 & Hf & _).
  assert (t1 = t0) as -> by congruence. by destruct (run_good _ _ _ Hr (fresh_inv _ Hf)) as (es & _ & Hi & _).
Qed.

Lemma obj_ok_step t o t' : obj_ok t → enabled t o → do_op t o = Ok t' → obj_ok t'.
Proof.
  intros (fd & w & h & t0 & sent & Hfd & E & Hr) He Ed. exists fd, w, h, t0, (sent ++ taken t o).
  split_and!; [done..|]. by eapply conn_run_snoc.
Qed.

Lemma jobs_enqueue S l j l' : jobs (enqueue S l j) l' = if decide (l = l') then jobs S l' ++ [j] else jobs S l'.
Proof.
  unfold jobs, enqueue. simpl. case_decide as E; [subst; by rewrite lookup_insert_eq|by rewrite lookup_insert_ne].
Qed.

Lemma queue_post s l f l' : queue (post s l f) l' = if decide (l = l') then queue s l' ++ [f] else queue s l'.
Proof.
  unfold queue, post. simpl. case_decide as E; [subst; by rewrite lookup_insert_eq|by rewrite lookup_insert_ne].
Qed.

Lemma elem_of_enqueue S l j l' k : k ∈ jobs (enqueue S l j) l' → k ∈ jobs S l' ∨ (k = j ∧ l' = l).
Proof.
  rewrite jobs_enqueue. case_decide as E; [|auto]. subst. rewrite elem_of_app, list_elem_of_singleton. tauto.
Qed.

(** A functor is queued, and with it the server's view of it. *)
Lemma sim_enqueue x x' S s l j s' :
  sim x S s → job_inv S s l j →
  s' = match server_job j with Some f => post s l f | None => s end →
  (∀ c a, x' ≠ Some c → x = Some c → s_conns s !! c = Some a → c_phase a = PRemoved → j = JDestroyed c ∧ l = c_loop a) →
  (∀ l' c q1 q2, raw j = true → jobs S l' = q1 ++ JDestroyed c :: q2 → job_conn j ≠ c) →
  sim x' (enqueue S l j) s'.
Proof.
  intros Hs Hj -> Hx Ho. set (s' := match server_job j with Some f => post s l f | None => s end).
  assert (Hc : s_conns s' = s_conns s) by (unfold s'; by destruct (server_job j)).
  assert (Hq : ∀ l', queue s' l' = omap server_job (jobs (enqueue S l j) l')).
  { intros l'. rewrite jobs_enqueue. unfold s'. destruct (server_job j) as [f|] eqn:Ej; [rewrite queue_post|];
      rewrite (sm_queue _ _ _ Hs); case_decide; try done; rewrite omap_app; simpl; rewrite Ej; by rewrite ?app_nil_r. }
  destruct Hs as [H1 H2 H3 H4 H5 H6 H7 H8 H9 H10 H11 H12].
  split; try (unfold s'; by destruct (server_job j)); try done; rewrite ?Hc; try done.
  - intros l' k [Hk|[-> ->]]%elem_of_enqueue; [|unfold job_inv in *; by rewrite Hc].
    unfold job_inv. rewrite Hc. by apply H9.
  - intros l' q1 c q2 k. rewrite jobs_enqueue. case_decide as E; [|by apply H10]. subst l'.
    intros Eq Hk Hkr. destruct (exists_last (l:=q2)) as (q3 & y & ->); [by intros ->; apply elem_of_nil in Hk|].
    rewrite app_comm_cons, app_assoc in Eq. apply app_inj_tail in Eq as [Eq ->].
    apply elem_of_app in Hk as [Hk|Hk%list_elem_of_singleton]; [by eapply H10|]. subst k. by eapply Ho.
  - intros c a Hxc Ha Hp. rewrite jobs_enqueue. destruct (decide (x = Some c)) as [E|E].
    + destruct (Hx c a) as [-> ->]; try done. rewrite decide_True by done. apply elem_of_app. right. by left.
    + pose proof (H11 c a E Ha Hp). case_decide; [|done]. apply elem_of_app. by left.
Qed.

(** A connection object changes, and with it its phase. *)
Lemma sim_object x x' S s c ob a t' ph' :
  sim x S s → y_objs S !! c = Some ob → s_conns s !! c = Some a →
  obj_ok t' → stage t' = phase_stage ph' →
  (∀ l j, j ∈ jobs S l → raw j = true → job_conn j = c → ph' ∈ [PUp; PClosed; PRemoved]) →
  (∀ c0, x' ≠ Some c0 → if decide (c0 = c) then ph' = PRemoved → c_phase a = PRemoved ∧ x ≠ Some c else x ≠ Some c0) →
  sim x' (set_obj S c ob t') (set_phase s c a ph').
Proof.
  intros Hs Hob Ha Hok Hst Hraw Hx. destruct (sm_obj _ _ _ Hs c ob Hob) as (a' & Ha' & Hn & Hl & _).
  assert (a' = a) as -> by congruence. destruct Hs as [H1 H2 H3 H4 H5 H6 H7 H8 H9 H10 H11 H12].
  split; try done; simpl.
  - intros c' ob'. rewrite lookup_insert_Some. intros [[<- <-]|[Hne Hob']].
    + rewrite lookup_insert_eq. by eexists.
    + rewrite lookup_insert_ne by done. by apply H7.
  - intros c' a'. rewrite lookup_insert_Some. intros [[<- <-]|[Hne Ha'']].
    + by rewrite lookup_insert_eq.
    + rewrite lookup_insert_ne by done. by apply H8.
  - intros l j Hj. destruct (H9 l j Hj) as (a1 & Ha1 & R1 & R2 & R3). unfold job_inv. simpl.
    destruct (decide (job_conn j = c)) as [E|E].
    + rewrite E, !lookup_insert_eq. eexists. split; [done|]. split_and!; [|done|done].
      intros Hr. split; [|by eapply Hraw]. simpl. assert (a1 = a) as -> by congruence. by apply R1.
    + rewrite !lookup_insert_ne by done. by exists a1.
  - intros c' a'. rewrite lookup_insert_Some. intros Hxc [[<- <-]|[Hne Ha'']] Hp; simpl in *.
    + specialize (Hx c Hxc). rewrite decide_True in Hx by done. destruct (Hx Hp). by apply (H11 c a).
    + apply (H11 c'); [|done..]. specialize (Hx c' Hxc). by rewrite decide_False in Hx.
  - intros c' Hc'. destruct (decide (c = c')) as [->|E]; [by rewrite lookup_insert_eq|].
    rewrite lookup_insert_ne by done. by apply H12.
Qed.

Lemma set_phase_same s c a : s_conns s !! c = Some a → set_phase s c a (c_phase a) = s.
Proof. intros H. unfold set_phase, set_conns. rewrite insert_id by (by destruct a). by destruct s. Qed.

Lemma sim_map x S s m : sim x S s → sim x (with_map S m) (set_map s m).
Proof. intros []. by split. Qed.

Lemma sim_timers x S s ts : sim x S s → sim x (with_timers S ts) s.
Proof. intros []. by split. Qed.

Definition pop (S : System) (l : loop_id) (q : list job) : System := with_jobs S (<[l := q]> (y_jobs S)).

Lemma jobs_pop S l q l' : jobs (pop S l q) l' = if decide (l = l') then q else jobs S l'.
Proof.
  unfold jobs, pop. simpl. case_decide as E; [subst; by rewrite lookup_insert_eq|by rewrite lookup_insert_ne].
Qed.

Lemma elem_of_pop S l j q l' k : jobs S l = j :: q → k ∈ jobs (pop S l q) l' → k ∈ jobs S l'.
Proof. intros E. rewrite jobs_pop. case_decide as El; [|done]. subst. rewrite E. by right. Qed.

(** The first functor is taken from a queue. *)
Lemma sim_pop S s l j q :
  sim None S s → jobs S l = j :: q →
  sim (match j with JDestroyed c => Some c | _ => None end) (pop S l q)
    (match server_job j with Some _ => set_queues s (<[l := omap server_job q]> (s_queues s)) | None => s end).
Proof.
  intros Hs Ej. set (s' := match server_job j with Some _ => _ | None => s end).
  assert (Hc : s_conns s' = s_conns s) by (unfold s'; by destruct (server_job j)).
  assert (Hq : ∀ l', queue s' l' = omap server_job (jobs (pop S l q) l')).
  { intros l'. rewrite jobs_pop. unfold s'. destruct (server_job j) eqn:E.
    - unfold queue. simpl. case_decide as El; [subst; by rewrite lookup_insert_eq|].
      rewrite lookup_insert_ne by done. by rewrite <- (sm_queue _ _ _ Hs).
    - rewrite (sm_queue _ _ _ Hs). case_decide as El; [|done]. subst l'. rewrite Ej. simpl. by rewrite E. }
  destruct Hs as [H1 H2 H3 H4 H5 H6 H7 H8 H9 H10 H11 H12].
  split; try (unfold s'; by destruct (server_job j)); try done; rewrite ?Hc; try done.
  - intros l' k Hk. unfold job_inv. rewrite Hc. apply (H9 l'). by eapply elem_of_pop.
  - intros l' q1 c q2 k. rewrite jobs_pop. case_decide as El; [|by apply H10]. subst l'.
    intros Eq. apply (H10 l (j :: q1)). by rewrite Ej, Eq.
  - intros c a Hx Ha Hp. rewrite jobs_pop. pose proof (H11 c a ltac:(done) Ha Hp) as Hin.
    case_decide as El; [|done]. subst l. rewrite Ej in Hin. apply elem_of_cons in Hin as [E|?]; [|done].
    by subst j.
Qed.

(** What an operation that stays in its stage asks for. *)
Lemma sim_carry c o t ob es : ∀ S s a,
  sim None S s → is_Some (y_objs S !! c) → s_conns s !! c = Some a → c_loop a = o_loop ob →
  (open_state t = true → c_phase a = PUp) → sinv s →
  (∀ m, o = OSendOther m → zlen m ≤ max_size) → Forall (may_ask t o) es →
  ∃ S', foldM (carry_out c ob) S es = Ok S' ∧ sim None S' s.
Proof.
  intros S s a Hs Hob Ha Hl Hup Hi Hm Hes. revert S Hs Hob. induction Hes as [|e es He Hes IH]; intros S Hs Hob.
  { by exists S. }
  assert (∃ S1, carry_out c ob S e = Ok S1 ∧ sim None S1 s ∧ is_Some (y_objs S1 !! c)) as (S1 & E1 & Hs1 & Hob1).
  2:{ destruct (IH S1 Hs1 Hob1) as (S2 & E2 & Hs2). exists S2. simpl. rewrite E1. done. }
  assert (Hnr : ∀ l' c' q1 q2, c_phase a = PUp → jobs S l' = q1 ++ JDestroyed c' :: q2 → c ≠ c').
  { intros l' c' q1 q2 Hp Eq <-. apply (queued_none s Hi l' (FDestroyed c) c a Ha Hp); [|done].
    rewrite (sm_queue _ _ _ Hs), Eq, omap_app, elem_of_app. right. by left. }
  assert (Hpush : ∀ j, server_job j = None → job_conn j = c → (raw j = true → c_phase a = PUp) →
    match j with JSend _ m => zlen m ≤ max_size | JStartRead _ | JStopRead _ => False | _ => True end →
    sim None (enqueue S (o_loop ob) j) s).
  { intros j Ej Ec Hr Hsz. eapply sim_enqueue; [done| | | |].
    - exists a. rewrite Ec. split_and!; try done. intros H%Hr. rewrite H. split; [done|]. by left.
    - by rewrite Ej.
    - done.
    - intros l' c' q1 q2 H Eq. rewrite Ec. by eapply Hnr; [apply Hr|]. }
  destruct e; simpl in He |- *; try done; try (by exists S); (eexists; split; [reflexivity|split; [|done]]);
    try (apply Hpush; (done || naive_solver)).
  by apply sim_timers.
Qed.

(** removeConnectionInLoop finds the connection in the map and queues its
    destruction. *)
Lemma sim_remove S s s0 c ob a :
  sim (Some c) S (set_phase s0 c a PRemoved) → y_objs S !! c = Some ob → s_conns s0 !! c = Some a →
  y_map S !! o_name ob = Some c → s = set_map (set_phase s0 c a PRemoved) (delete (o_name ob) (y_map S)) →
  ∃ S', sys_removeConnectionInLoop S c = Ok S' ∧ sim None S' (post s (c_loop a) (FDestroyed c)).
Proof.
  intros Hs Hob Ha Hm ->. unfold sys_removeConnectionInLoop, get_obj. rewrite Hob. cbn [mbind res_bind].
  rewrite cassert_true by (rewrite Hm; by apply bool_decide_true). eexists. split; [done|].
  destruct (sm_obj _ _ _ Hs c ob Hob) as (a' & Ha' & _ & Hl & _). simpl in Ha'. rewrite lookup_insert_eq in Ha'.
  injection Ha' as <-. simpl in Hl. rewrite <- Hl.
  eapply sim_enqueue; [by apply sim_map|..]; simpl; [|done| |done].
  - eexists. simpl. rewrite lookup_insert_eq. split; [done|]. split; [done|]. by rewrite Hob.
  - intros c' a' _ [= <-]. rewrite lookup_insert_eq. by intros [= <-].
Qed.

Lemma drop_trace {A} (l es : list A) : drop (length l) (l ++ es) = es.
Proof. by rewrite drop_app_length. Qed.

(** connectEstablished of a new connection: the object's step and the server's. *)
Lemma established_runs x S0 s0 c ob a :
  sim x S0 s0 → y_objs S0 !! c = Some ob → s_conns s0 !! c = Some a → c_phase a = PCreated →
  ∃ S', do_conn S0 c OEstablished = Ok S' ∧ sim x S' (set_phase s0 c a PUp) ∧
    Server.connectEstablished s0 c = Ok (set_phase s0 c a PUp).
Proof.
  intros Hs0 Hob Ha Hp. destruct (sm_obj _ _ _ Hs0 c ob Hob) as (a' & Ha' & Hn & Hl & Hok & Hst).
  assert (a' = a) as -> by congruence. rewrite Hp in Hst.
  assert (m_state (o_conn ob) = kConnecting) as Hc by (unfold stage in Hst; injection Hst as H _ _; by bprop).
  pose proof (established_good _ (obj_ok_inv _ Hok) Hc) as G.
  unfold do_conn, get_obj. rewrite Hob. cbn [mbind res_bind do_op].
  destruct (TcpConnection.connectEstablished true (o_conn ob)) as [t'|] eqn:E.
  2:{ unfold TcpConnection.connectEstablished in E. simpl in E. by rewrite Hc in E. }
  cbn [mbind res_bind]. assert (Hok' : obj_ok t') by by eapply (obj_ok_step _ OEstablished).
  unfold TcpConnection.connectEstablished in E. simpl in E. rewrite Hc in E. simpl in E. injection E as <-.
  assert (Hq : ∀ S1, foldM (carry_out c ob) S1 [EUpdate EnableReading; EConnectionCb true] = Ok S1) by done.
  eexists. split; [simpl c_trace; rewrite <- app_assoc, drop_trace; apply Hq|]. split.
  - eapply sim_object; try done; [intros; set_solver|]. intros c0 Hc0. by case_decide.
  - unfold Server.connectEstablished, get_conn. rewrite Ha. simpl. by rewrite bool_decide_true.
Qed.

(** connectDestroyed: no functor bound with [this] is left. *)
Lemma destroyed_runs S0 s0 c ob a :
  sim (Some c) S0 s0 → y_objs S0 !! c = Some ob → s_conns s0 !! c = Some a → c_phase a = PRemoved →
  (∀ l j, j ∈ jobs S0 l → raw j = true → job_conn j ≠ c) →
  ∃ S', do_conn S0 c ODestroyed = Ok S' ∧ sim None S' (set_phase s0 c a PDestroyed) ∧
    Server.connectDestroyed s0 c = Ok (set_phase s0 c a PDestroyed).
Proof.
  intros Hs0 Hob Ha Hp Hraw. destruct (sm_obj _ _ _ Hs0 c ob Hob) as (a' & Ha' & Hn & Hl & Hok & Hst).
  assert (a' = a) as -> by congruence. rewrite Hp in Hst. pose proof (obj_ok_inv _ Hok) as Hinv.
  assert (m_state (o_conn ob) = kDisconnected ∧ is_addedToLoop (m_channel (o_conn ob)) = true) as [Hc Had].
  { unfold stage, open_state in Hst. injection Hst as H1 H2 H3. split; [|done]. by destruct (m_state (o_conn ob)). }
  pose proof (inv_io _ Hinv) as Hio. rewrite Hc in Hio.
  unfold do_conn, get_obj. rewrite Hob. cbn [mbind res_bind do_op].
  assert (Ed : TcpConnection.connectDestroyed true (o_conn ob) =
    Ok (emit (set_channel (o_conn ob) (set_addedToLoop (m_channel (o_conn ob)) false)) ERemove)).
  { unfold TcpConnection.connectDestroyed, connected. rewrite Hc. simpl. unfold isNoneEvent. rewrite Hio. done. }
  assert (Hok' : obj_ok (emit (set_channel (o_conn ob) (set_addedToLoop (m_channel (o_conn ob)) false)) ERemove)).
  { eapply (obj_ok_step _ ODestroyed); [done| |exact Ed]. split; [done|]. by right. }
  rewrite Ed. cbn [mbind res_bind]. eexists. split; [simpl c_trace; rewrite drop_trace; reflexivity|]. split.
  - eapply sim_object; try done.
    + unfold stage, open_state. simpl. by rewrite Hc.
    + intros l j Hj Hr E. by destruct (Hraw l j Hj Hr).
    + intros c0 _. case_decide; congruence.
  - unfold Server.connectDestroyed, get_conn. rewrite Ha. simpl. by rewrite bool_decide_true.
Qed.

Section steps.
Variables (S : System) (s : TcpServer).
Hypothesis Hs : sim None S s.
Hypothesis Hi : sinv s.
Hypothesis Hb : m_nextConnId s < 2 ^ 31 - 1.

(** The server's view of a step: none, or a step of [Server]. *)
Definition mirrored (r : res System) : Prop :=
  (∃ w, r = Fail (FThrow w)) ∨
  ∃ S' s', r = Ok S' ∧ sim None S' s' ∧ (s' = s ∨ ∃ v, Server.possible s v ∧ sstep s v = Ok s').

Lemma obj_map c ob a : y_objs S !! c = Some ob → s_conns s !! c = Some a → c_name a = o_name ob →
  in_map (c_phase a) = true → y_map S !! o_name ob = Some c.
Proof. intros _ Ha <- Hp. rewrite (sm_map _ _ _ Hs). by eapply map_has. Qed.

Lemma close_mirrored c ob a t' :
  y_objs S !! c = Some ob → s_conns s !! c = Some a → c_phase a = PUp → obj_ok t' →
  stage t' = phase_stage PClosed →
  mirrored (sys_removeConnection (set_obj S c ob t') c ob).
Proof.
  intros Hob Ha Hp Hok Hst. right. destruct (sm_obj _ _ _ Hs c ob Hob) as (a' & Ha' & Hn & Hl & _).
  assert (a' = a) as -> by congruence. unfold sys_removeConnection. rewrite <- Hl.
  assert (Hcl : Server.handleClose s c = Server.removeConnection (set_phase s c a PClosed) c (mkC (c_name a) (c_loop a) PClosed))
    by (unfold Server.handleClose, get_conn; by rewrite Ha).
  assert (Hpos : Server.possible s (VClose c)) by by exists a.
  unfold Server.removeConnection in Hcl. simpl c_loop in Hcl. destruct (Nat.eqb (c_loop a) base_loop).
  - assert (Hm : y_map S !! o_name ob = Some c) by (eapply obj_map; [done..|by rewrite Hp]).
    set (s1 := set_map (set_phase s c a PRemoved) (delete (o_name ob) (y_map S))).
    destruct (sim_remove (set_obj S c ob t') s1 s c (mkObj (o_name ob) (o_loop ob) t') a) as (S' & E & Hs'); try done.
    + eapply (sim_object None); try done.
      * intros l j _ _ _. set_solver.
      * intros c0 Hc0. case_decide; [congruence|done].
    + simpl. by rewrite lookup_insert_eq.
    + exists S', (post s1 (c_loop a) (FDestroyed c)). split_and!; [done..|]. right. exists (VClose c).
      split; [done|]. simpl. rewrite Hcl. unfold removeConnectionInLoop, get_conn. simpl.
      rewrite lookup_insert_eq. simpl. rewrite bool_decide_true by (rewrite Hn, <- (sm_map _ _ _ Hs), Hm; eauto).
      simpl. unfold s1, set_phase, set_conns, set_map, post, set_queues, queue. simpl.
      rewrite insert_insert_eq, Hn, (sm_map _ _ _ Hs). done.
  - eexists _, _. split; [done|]. split; [|right; exists (VClose c); split; [done|exact Hcl]].
    eapply sim_enqueue; [eapply (sim_object None None S s c ob a t' PClosed); try done|..]; simpl; try done.
    + intros l j _ _ _. set_solver.
    + intros c0 _. by case_decide.
    + eexists. simpl. rewrite lookup_insert_eq. split; [done|]. by rewrite lookup_insert_eq.
Qed.

Lemma quiet_skip c ob es S0 : (∀ e, e ∈ es → quiet e = true) → foldM (carry_out c ob) S0 es = Ok S0.
Proof.
  intros H. induction es as [|e es IH]; [done|]. simpl. assert (quiet e = true) as He by (apply H; by left).
  destruct e; try done; simpl; (apply IH; intros e' He'; apply H; by right).
Qed.

Lemma foldM_snoc {A B} (f : A → B → res A) a l b : foldM f a (l ++ [b]) = (a' ← foldM f a l; f a' b).
Proof.
  revert a. induction l as [|x l IH]; intros a; simpl; [by destruct (f a b)|].
  destruct (f a x); simpl; [apply IH|done].
Qed.

Lemma stage_up t a : stage t = phase_stage (c_phase a) → open_state t = true → c_phase a = PUp.
Proof. intros E Ho. unfold stage in E. rewrite Ho in E. by destruct (c_phase a). Qed.

Lemma middle_mirrored c o ob :
  y_objs S !! c = Some ob → enabled (o_conn ob) o → middle_op o = true →
  (∀ m, o = OSendOther m → zlen m ≤ max_size) → mirrored (do_conn S c o).
Proof.
  intros Hob He Hm Hsz. destruct (sm_obj _ _ _ Hs c ob Hob) as (a & Ha & Hn & Hl & Hok & Hst).
  pose proof (obj_ok_inv _ Hok) as Hinv. pose proof (op_good _ o Hinv He) as G.
  unfold do_conn, get_obj. rewrite Hob. cbn [mbind res_bind].
  destruct (do_op (o_conn ob) o) as [t'|[]] eqn:Ed; try done; [|left; eauto].
  pose proof (obj_ok_step _ _ _ Hok He Ed) as Hok'. cbn [mbind res_bind].
  destruct (op_outcome _ _ _ Hinv He Hm Ed) as [(Est & es & Et & Hes)|(Ho & Hst' & Had & es & Et & Hes)].
  - rewrite Et, drop_trace. right.
    destruct (sim_carry c o (o_conn ob) ob es (set_obj S c ob t') s a) as (S' & E & Hs'); try done.
    + rewrite <- (set_phase_same s c a Ha). eapply (sim_object None); try done; [congruence| |by intros c0; case_decide].
      intros l j Hj Hr Hc. destruct (sm_jobs _ _ _ Hs l j Hj) as (a' & Ha' & R & _). rewrite Hc in Ha'.
      assert (a' = a) as -> by congruence. by apply R.
    + simpl. by rewrite lookup_insert_eq.
    + intros Ho. by eapply stage_up.
    + by apply Forall_forall.
    + exists S', s. auto.
  - rewrite Et, <- app_assoc, drop_trace, foldM_snoc, quiet_skip by done. cbn [mbind res_bind carry_out].
    apply (close_mirrored c ob a t'); try done.
    + by eapply stage_up.
    + unfold stage, open_state. by rewrite Hst', Had.
Qed.

(** A new object, in the map under its name. *)
Lemma sim_new p ioLoop t :
  obj_ok t → stage t = phase_stage PCreated →
  let c := m_nextConnId s in
  let nm := conn_name (m_name s) (m_ipPort s) c in
  sim None
    (mkSys (y_name S) (y_ipPort S) (y_wcb S) p (c + 1) (<[nm := c]> (y_map S))
       (<[c := mkObj nm ioLoop t]> (y_objs S)) (y_jobs S) (y_timers S) (y_held S))
    (mkServer (m_name s) (m_ipPort s) p (s_started s) (s_listening s) (c + 1) (<[nm := c]> (m_connections s))
       (<[c := mkC nm ioLoop PCreated]> (s_conns s)) (s_queues s)).
Proof.
  intros Hok Hst c nm.
  assert (Hfresh : s_conns s !! c = None).
  { destruct (s_conns s !! c) as [o|] eqn:E; [|done]. destruct (si_ids _ Hi _ _ E). unfold c in *. lia. }
  destruct Hs as [H1 H2 H3 H4 H5 H6 H7 H8 H9 H10 H11 H12].
  split; try done; simpl.
  - by rewrite H5.
  - intros c' ob'. rewrite lookup_insert_Some. intros [[<- <-]|[Hne Hob']].
    + rewrite lookup_insert_eq. by eexists.
    + rewrite lookup_insert_ne by done. by apply H7.
  - intros c' a'. rewrite lookup_insert_Some. intros [[<- <-]|[Hne Ha'']].
    + by rewrite lookup_insert_eq.
    + rewrite lookup_insert_ne by done. by apply H8.
  - intros l j Hj. destruct (H9 l j Hj) as (a1 & Ha1 & R1 & R2 & R3). unfold job_inv. simpl.
    assert (c ≠ job_conn j) by congruence. rewrite !lookup_insert_ne by done. by exists a1.
  - intros c' a'. rewrite lookup_insert_Some. intros _ [[<- <-]|[Hne Ha'']] Hp; [done|]. by apply (H11 c').
  - intros c' Hc'. destruct (decide (c = c')) as [->|E]; [by rewrite lookup_insert_eq|].
    rewrite lookup_insert_ne by done. by apply H12.
Qed.

Lemma accept_mirrored fd hwcb : 0 ≤ fd → mirrored (sys_newConnection S fd hwcb).
Proof.
  intros Hfd. right. unfold sys_newConnection. rewrite (sm_pool _ _ _ Hs).
  destruct (getNextLoop_ok _ (si_pool _ Hi)) as (p & l & El & _). rewrite El. cbn [mbind res_bind].
  destruct (ctor_fresh fd (y_wcb S) hwcb Hfd) as (t & Et & Hf & _). rewrite Et. cbn [mbind res_bind].
  assert (Hok : obj_ok t) by (exists fd, (y_wcb S), hwcb, t, []; split_and!; [done..|apply run_nil]).
  assert (Hst : stage t = phase_stage PCreated).
  { destruct Hf as (H1 & _ & _ & _ & _ & H2 & _). unfold stage, open_state. by rewrite H1, H2. }
  rewrite (sm_name _ _ _ Hs), (sm_ip _ _ _ Hs), (sm_next _ _ _ Hs).
  pose proof (sim_new p l t Hok Hst) as Hs1. rewrite (sm_name _ _ _ Hs), (sm_ip _ _ _ Hs) in Hs1. simpl in Hs1.
  assert (Hacc : sstep s Server.VAccept = newConnection s) by done.
  unfold newConnection in Hacc. rewrite El in Hacc. cbn [mbind res_bind] in Hacc.
  set (S1 := mkSys _ _ _ p _ _ _ _ _ _) in *. set (s1 := mkServer _ _ p _ _ _ _ _ _) in *.
  destruct (Nat.eqb l base_loop).
  - destruct (established_runs None S1 s1 (m_nextConnId s) (mkObj (conn_name (m_name s) (m_ipPort s) (m_nextConnId s)) l t)
      (mkC (conn_name (m_name s) (m_ipPort s) (m_nextConnId s)) l PCreated)) as (S' & E & Hs' & Ea); simpl; try done;
      [by rewrite lookup_insert_eq..|].
    eexists _, _. split; [exact E|]. split; [exact Hs'|]. right. exists Server.VAccept. split; [done|].
    by rewrite Hacc, Ea.
  - eexists _, _. split; [done|]. split; [|right; exists Server.VAccept; split; [done|exact Hacc]].
    eapply sim_enqueue; [exact Hs1|..]; try done. eexists. simpl. rewrite lookup_insert_eq. split; [done|].
    by rewrite lookup_insert_eq.
Qed.
End steps.

Section run.
Variables (S : System) (s : TcpServer).
Hypothesis Hs : sim None S s.
Hypothesis Hi : sinv s.
Hypothesis Hb : m_nextConnId s < 2 ^ 31 - 1.

(** The first functor of a queue is the server's: what [Server] runs. *)
Lemma run_functor_pop l j q f :
  jobs S l = j :: q → server_job j = Some f →
  ∃ a, let s1 := set_queues s (<[l := omap server_job q]> (s_queues s)) in
    s_conns s !! conn_of f = Some a ∧ c_phase a = due_phase f ∧ l = due_loop f a ∧ conn_of f = job_conn j ∧
    run_functor s l = match f with
      | FEstablished c => Server.connectEstablished s1 c
      | FRemoveInLoop c => removeConnectionInLoop s1 c
      | FDestroyed c => Server.connectDestroyed s1 c
      end.
Proof.
  intros Ej Ef. assert (Eq : queue s l = f :: omap server_job q).
  { rewrite (sm_queue _ _ _ Hs), Ej. simpl. by rewrite Ef. }
  destruct (si_queue _ Hi l f) as (a & Ha & Hp & Hl); [rewrite Eq; by left|].
  exists a. split_and!; try done; [by destruct j; simpl in Ef; simplify_eq|]. unfold run_functor. by rewrite Eq.
Qed.

(** The removal of a connection in the base loop. *)
Lemma removal_mirrored l c q ob :
  jobs S l = JRemove c :: q → y_objs S !! c = Some ob → mirrored s (sys_removeConnectionInLoop (pop S l q) c).
Proof.
  intros Ej Hob. pose proof (sim_pop S s l (JRemove c) q Hs Ej) as Hs1. simpl in Hs1.
  destruct (run_functor_pop l _ q (FRemoveInLoop c) Ej eq_refl) as (a' & Ha' & Hp & _ & _ & Er).
  simpl in Ha', Hp. 
  destruct (sm_obj _ _ _ Hs c ob Hob) as (a1 & Ha1 & Hn & Hl & Hok & Hst).
  assert (a1 = a') as -> by congruence. set (s1 := set_queues s _) in *.
  assert (Hm : y_map S !! o_name ob = Some c) by (eapply (obj_map S s); [done..|by rewrite Hp]).
  assert (Es : set_obj (pop S l q) c ob (o_conn ob) = pop S l q).
  { unfold set_obj, with_objs. simpl. rewrite insert_id by (by destruct ob). done. }
  destruct (sim_remove (pop S l q) (set_map (set_phase s1 c a' PRemoved) (delete (o_name ob) (y_map S))) s1 c ob a')
    as (S' & E & Hs'); try done.
  + rewrite <- Es. eapply (sim_object None); try done.
    * rewrite Hst. by rewrite Hp.
    * intros. set_solver.
    * intros c0 Hc0. case_decide; congruence.
  + right. eexists _, _. split; [exact E|]. split; [exact Hs'|]. right. exists (Server.VRun l). split; [done|]. cbn [sstep]. rewrite Er.
    unfold removeConnectionInLoop, get_conn. simpl. rewrite Ha'. simpl.
    rewrite bool_decide_true by (rewrite Hn, <- (sm_map _ _ _ Hs), Hm; eauto). simpl.
    unfold set_phase, set_conns, set_map, post, set_queues, queue. simpl. by rewrite Hn, (sm_map _ _ _ Hs).
Qed.

Lemma job_mirrored l w : write_fits w → mirrored s (run_job S l w).
Proof.
  intros Hw. unfold run_job. destruct (jobs S l) as [|j q] eqn:Ej; [right; eauto 6|].
  pose proof (sim_pop S s l j q Hs Ej) as Hs1. fold (pop S l q).
  destruct (sm_jobs _ _ _ Hs l j ltac:(rewrite Ej; by left)) as (a & Ha & R1 & R2 & R3).
  assert (Hrun : ∀ s', run_functor s l = Ok s' → ∃ v, Server.possible s v ∧ sstep s v = Ok s')
    by (intros s' E; by exists (Server.VRun l)).
  assert (Hmid : ∀ c o, job_conn j = c → server_job j = None → middle_op o = true →
    (∀ m, o ≠ OSendOther m) → (∀ ob, y_objs S !! c = Some ob → stage (o_conn ob) = phase_stage (c_phase a) →
    enabled (o_conn ob) o) → mirrored s (do_conn (pop S l q) c o)).
  { intros c o <- En Hm Ho He. destruct (y_objs S !! job_conn j) as [ob|] eqn:Hob.
    - apply (middle_mirrored (pop S l q) s) with (ob := ob); try done.
      + rewrite En in Hs1. by destruct j.
      + destruct (sm_obj _ _ _ Hs _ _ Hob) as (a' & Ha' & _ & _ & _ & Hst). apply He; congruence.
      + intros m ->. by destruct (Ho m).
    - pose proof (sm_gone _ _ _ Hs _ _ Ha Hob) as Hp. destruct (raw j) eqn:Er; [|by destruct (R2 eq_refl)].
      destruct (R1 eq_refl) as [_ Hin]. rewrite Hp in Hin. set_solver. }
  assert (Hnc : ∀ ob, raw j = true → stage (o_conn ob) = phase_stage (c_phase a) → m_state (o_conn ob) ≠ kConnecting).
  { intros ob [_ Hin]%R1 Hst Hk. unfold stage in Hst. rewrite Hk in Hst. destruct (c_phase a); try done; set_solver. }
  destruct j as [c|c|c|c m|c|c|c|c|c|c len]; simpl in Hs1, Ha, R1, R2, R3 |- *; try done.
  - destruct (run_functor_pop l _ q (FEstablished c) Ej eq_refl) as (a' & Ha' & Hp & _ & _ & Er).
    simpl in Ha', Hp. destruct (R2 eq_refl) as [ob Hob].
    destruct (established_runs None _ _ c ob a' Hs1) as (S' & E & Hs' & Ea); try done.
    right. eexists _, _. split; [exact E|]. split; [exact Hs'|]. right. apply Hrun. by rewrite Er, Ea.
  - destruct (R2 eq_refl) as [ob Hob]. by apply (removal_mirrored l c q ob).
  - destruct (run_functor_pop l _ q (FDestroyed c) Ej eq_refl) as (a' & Ha' & Hp & Hl & _ & Er).
    simpl in Ha', Hp, Hl. destruct (R2 eq_refl) as [ob Hob].
    destruct (destroyed_runs _ _ c ob a' Hs1) as (S' & E & Hs' & Ea); try done.
    + intros l' k Hk Hr Ec. destruct (sm_jobs _ _ _ Hs l' k) as (a1 & Ha1 & K1 & _); [by eapply elem_of_pop|].
      rewrite Ec in Ha1. destruct (K1 Hr) as [Hl' _]. assert (a1 = a') as -> by congruence.
      rewrite jobs_pop, decide_True in Hk by congruence. by apply (sm_order _ _ _ Hs l [] c q k Ej Hk Hr).
    + right. eexists _, _. split; [exact E|]. split; [exact Hs'|]. right. apply Hrun. by rewrite Er, Ea.
  - apply Hmid; try done. intros ob Hob Hst. split_and!; try done. by apply Hnc.
  - apply Hmid; try done. intros ob Hob Hst. by apply Hnc.
  - by apply Hmid.
  - destruct (R2 eq_refl) as [ob Hob]. unfold get_obj. simpl. rewrite Hob. right. eexists _, _. split; [done|]. split; [exact Hs1|by left].
  - destruct (R2 eq_refl) as [ob Hob]. unfold get_obj. simpl. rewrite Hob. right. eexists _, _. split; [done|]. split; [exact Hs1|by left].
Qed.
End run.

(** User pointers come and go. *)
Lemma sim_held S s h :
  sim None S s → (∀ c, c ∈ h → is_Some (y_objs S !! c)) → sim None (with_held S h) s.
Proof. intros [] ?. by split. Qed.

(** An object without references is one whose destruction has run. *)
Lemma sim_free S s c ob :
  sim None S s → sinv s → y_objs S !! c = Some ob → ¬ referenced S c →
  m_state (o_conn ob) = kDisconnected ∧ sim None (with_objs S (delete c (y_objs S))) s.
Proof.
  intros Hs Hi Hob Hnr. destruct (sm_obj _ _ _ Hs c ob Hob) as (a & Ha & Hn & Hl & Hok & Hst).
  assert (Hp : c_phase a = PDestroyed).
  { destruct (in_map (c_phase a)) eqn:Em.
    - exfalso. apply Hnr. left. exists (c_name a). rewrite (sm_map _ _ _ Hs). by eapply map_has.
    - destruct (c_phase a) eqn:Ep; try done. exfalso. apply Hnr. right. left.
      exists (c_loop a), (JDestroyed c). split; [by eapply (sm_due _ _ _ Hs)|done]. }
  assert (Hj : ∀ l j, j ∈ jobs S l → c ≠ job_conn j).
  { intros l j Hj E. destruct (sm_jobs _ _ _ Hs l j Hj) as (a' & Ha' & R1 & _). rewrite <- E in Ha'.
    assert (a' = a) as -> by congruence. destruct (raw j) eqn:Er.
    - destruct (R1 eq_refl) as [_ Hin]. rewrite Hp in Hin. set_solver.
    - apply Hnr. right. left. by exists l, j. }
  split.
  - rewrite Hp in Hst. unfold stage, open_state in Hst. by destruct (m_state (o_conn ob)).
  - assert (Hh : c ∉ y_held S) by (intros Hc; apply Hnr; by right; right).
    destruct Hs as [H1 H2 H3 H4 H5 H6 H7 H8 H9 H10 H11 H12]. split; try done; simpl.
    + intros c' ob'. rewrite lookup_delete_Some. intros [_ ?]. by apply H7.
    + intros c' a' Ha'. rewrite lookup_delete_None. intros [<-|?]; [congruence|by apply (H8 c')].
    + intros l j Hjl. destruct (H9 l j Hjl) as (a1 & Ha1 & R1 & R2 & R3). exists a1. simpl.
      rewrite lookup_delete_ne by by eapply Hj. done.
    + intros c' Hc'. rewrite lookup_delete_ne by (intros <-; done). by apply H12.
Qed.

Lemma step_mirrored S s v :
  sim None S s → sinv s → m_nextConnId s < 2 ^ 31 - 1 → possible S v → mirrored s (step S v).
Proof.
  intros Hs Hi Hb Hp. destruct v as [fd hwcb|c o|c o|l w|c|c|c|c]; simpl in Hp |- *.
  - by eapply accept_mirrored.
  - destruct Hp as (Ho & ob & Hob & _ & He). eapply middle_mirrored; [done..|by destruct o|]. by intros m ->.
  - destruct Hp as (Ho & Hh & He & Hsz). destruct (sm_held _ _ _ Hs c Hh) as [ob Hob].
    eapply middle_mirrored; [done..|by apply He|by destruct o as [| | | | | | | | |[]|[]| | | | | |]|]. by intros m ->.
  - by eapply job_mirrored.
  - unfold run_timer. destruct (y_objs S !! c) as [ob|] eqn:Hob; [|right; eauto 6].
    by eapply middle_mirrored.
  - destruct Hp as (ob & Hob & _). unfold get_obj. rewrite Hob. simpl. right. eexists _, s. split; [done|].
    split; [|by left]. apply sim_held; [done|]. intros c'. rewrite elem_of_union, elem_of_singleton.
    intros [->|?]; [eauto|by apply (sm_held _ _ _ Hs)].
  - right. eexists _, s. split; [done|]. split; [|by left]. apply sim_held; [done|].
    intros c' [? _]%elem_of_difference. by apply (sm_held _ _ _ Hs).
  - destruct Hp as ([ob Hob] & Hnr). unfold release, get_obj. rewrite Hob. cbn [mbind res_bind].
    destruct (sim_free S s c ob Hs Hi Hob Hnr) as [Hd Hs']. unfold TcpConnection_dtor.
    rewrite cassert_true by by apply bool_decide_true. right. eauto 7.
Qed.

Lemma runs_sim S n S' s0 :
  runs S n S' → ∀ s k, sim None S s → sinv s → sruns s0 k s → m_nextConnId s + Z.of_nat n < 2 ^ 31 - 1 →
  ∃ s' k', sim None S' s' ∧ sinv s' ∧ sruns s0 k' s' ∧ (k' ≤ k + n)%nat ∧ m_nextConnId s' ≤ m_nextConnId s + Z.of_nat n.
Proof.
  induction 1 as [S|S v S1 n S2 Hp E Hr IH]; intros s k Hs Hi Hk Hb.
  { exists s, k. split_and!; [done..|lia|lia]. }
  destruct (step_mirrored S s v Hs Hi ltac:(lia) Hp) as [(w & E')|(S1' & s1 & E' & Hs1 & Hv)]; [congruence|].
  assert (S1' = S1) as -> by congruence. destruct Hv as [->|(v' & Hp' & Ev)].
  - destruct (IH s k Hs1 Hi Hk ltac:(lia)) as (s' & k' & ? & ? & ? & ? & ?). exists s', k'. split_and!; [done..|lia|lia].
  - destruct (sstep_ok s v' Hi ltac:(lia) Hp') as (s1' & Ev' & Hi1 & Hn). assert (s1' = s1) as -> by congruence.
    destruct (IH s1 (Datatypes.S k) Hs1 Hi1 (sruns_snoc _ _ _ _ _ Hk Hp' Ev) ltac:(lia)) as (s' & k' & ? & ? & ? & ? & ?).
    exists s', k'. split_and!; [done..|lia|lia].
Qed.

Lemma sys_start_sim name ipPort wcb threads S :
  0 ≤ threads → (length ipPort ≤ 52)%nat → sys_start name ipPort wcb threads = Ok S →
  ∃ s, started_server name ipPort threads = Ok s ∧ sim None S s ∧ sinv s ∧ m_nextConnId s = 1.
Proof.
  intros Ht Hl E. destruct (server_started_inv name ipPort threads Ht Hl) as (s & Es & Hi & Hn).
  unfold sys_start in E. rewrite Es in E. injection E as <-. exists s. split_and!; try done.
  unfold started_server, setThreadNum in Es. rewrite (proj2 (Z.leb_le _ _)) in Es by done. simpl in Es.
  injection Es as <-. split; try done; unfold jobs; simpl; rewrite ?lookup_empty; simpl.
  - intros l j Hj. by apply elem_of_nil in Hj.
  - intros l q1 c q2 j Hj. by destruct q1.
Qed.

(** ** Properties *)

(** C12.  Refinement: a server with real connection objects, whose handlers queue
    functors, close, run in the loops' order and are freed by reference count,
    refines the server of phases: after any run the abstract server has made
    a run too, with the same map and the same server functors in every queue,
    and every object that exists is in the stage its phase says. *)
Theorem system_refines_server (name ipPort : list ascii) (wcb : bool) (threads : Z) (S0 S : System) (n : nat) :
  0 ≤ threads → (length ipPort ≤ 52)%nat → Z.of_nat n < 2 ^ 31 - 3 →
  sys_start name ipPort wcb threads = Ok S0 → runs S0 n S →
  ∃ s0 s k, started_server name ipPort threads = Ok s0 ∧ sruns s0 k s ∧ (k ≤ n)%nat ∧
    y_map S = m_connections s ∧ (∀ l, queue s l = omap server_job (jobs S l)) ∧
    (∀ c ob, y_objs S !! c = Some ob → ∃ a, s_conns s !! c = Some a ∧ stage (o_conn ob) = phase_stage (c_phase a)) ∧
    (∀ c a, s_conns s !! c = Some a → y_objs S !! c = None → c_phase a = PDestroyed).
Proof.
  intros Ht Hl Hn E Hr. destruct (sys_start_sim _ _ _ _ _ Ht Hl E) as (s0 & Es & Hs & Hi & H1).
  destruct (runs_sim _ _ _ s0 Hr s0 0%nat Hs Hi (sruns_nil _) ltac:(lia)) as (s & k & Hs' & Hi' & Hk & Hkn & _).
  exists s0, s, k. split_and!; [done|done|lia|apply Hs'|apply Hs'| |apply Hs'].
  intros c ob Hob. destruct (sm_obj _ _ _ Hs' c ob Hob) as (a & ? & _ & _ & _ & ?). eauto.
Qed.


(** A server with one I/O thread accepts a connection; another thread sends
    "hi" through it. *)
Definition all_bytes (d : list ascii) : write_result := Wrote (zlen d).

Lemma all_bytes_fits : write_fits all_bytes.
Proof. intros d n [= <-]. pose proof (zlen_nonneg d). lia. Qed.

Definition demo_sys : System :=
  match sys_start (chars "srv") (chars "0.0.0.0:80") true 1 with
  | Ok y => y | Fail _ => mkSys [] [] false EventLoopThreadPool_ctor 0 ∅ ∅ ∅ [] ∅ end.

Definition demo_events : list event :=
  [VAccept 7 false; VRun 1%nat all_bytes; VHold 1; VCall 1 (OSendOther (chars "hi"))].

Lemma demo_runs : ∃ S, foldM step demo_sys demo_events = Ok S ∧ runs demo_sys 4 S.
Proof.
  eexists. split; [vm_compute; reflexivity|].
  eapply (runs_step _ (VAccept 7 false)); [vm_compute; discriminate|vm_compute; reflexivity|].
  eapply (runs_step _ (VRun 1%nat all_bytes)); [apply all_bytes_fits|vm_compute; reflexivity|].
  eapply (runs_step _ (VHold 1)); [eexists; split; vm_compute; reflexivity|vm_compute; reflexivity|].
  eapply (runs_step _ (VCall 1 (OSendOther (chars "hi")))); [|vm_compute; reflexivity|].
  { split; [reflexivity|]. split; [by vm_compute|]. split; [intros ob _; exact I|vm_compute; discriminate]. }
  apply runs_nil.
Qed.

Lemma demo_start : sys_start (chars "srv") (chars "0.0.0.0:80") true 1 = Ok demo_sys.
Proof. reflexivity. Qed.

Lemma system_refines_server_witness :
  ∃ S, runs demo_sys 4 S ∧
  ∃ s0 s k, started_server (chars "srv") (chars "0.0.0.0:80") 1 = Ok s0 ∧ sruns s0 k s ∧ (k ≤ 4)%nat ∧
    y_map S = m_connections s ∧ (∀ l, queue s l = omap server_job (jobs S l)) ∧
    (∀ c ob, y_objs S !! c = Some ob → ∃ a, s_conns s !! c = Some a ∧ stage (o_conn ob) = phase_stage (c_phase a)) ∧
    (∀ c a, s_conns s !! c = Some a → y_objs S !! c = None → c_phase a = PDestroyed).
Proof.
  destruct demo_runs as (S & _ & Hr). exists S. split; [exact Hr|].
  refine (system_refines_server (chars "srv") (chars "0.0.0.0:80") true 1 demo_sys S 4 _ _ _ demo_start Hr).
  - discriminate.
  - vm_compute. lia.
  - reflexivity.
Defined.


Definition after (r : res System) : System := match r with Ok y => y | Fail _ => demo_sys end.

Definition closed_sys : System :=
  after (foldM step demo_sys [VAccept 7 false; VRun 1%nat all_bytes; VHold 1; VIo 1 OHangup;
           VRun 0%nat all_bytes; VRun 1%nat all_bytes]).

Definition freed_sys : System :=
  after (foldM step (enqueue closed_sys 1%nat (JSend 1 (chars "hi"))) [VDrop 1; VFree 1]).

(** send() of another thread tests the state first and queues a functor bound
    with [this] afterwards.  When the connection closes in between, and the
    caller then drops its pointer, the functor runs on a freed object. *)
Theorem late_send_dangles :
  foldM step demo_sys [VAccept 7 false; VRun 1%nat all_bytes; VHold 1; VIo 1 OHangup;
    VRun 0%nat all_bytes; VRun 1%nat all_bytes] = Ok closed_sys ∧
  foldM step (enqueue closed_sys 1%nat (JSend 1 (chars "hi"))) [VDrop 1; VFree 1] = Ok freed_sys ∧
  step freed_sys (VRun 1%nat all_bytes) = Fail (FUndef "use of a destroyed TcpConnection").
Proof. split_and!; vm_compute; reflexivity. Qed.
