(* ===== verification/Client.v ===== *)
(** * TcpClient: src/dc/net/tcpClient.h, tcpClient.cc with its Connector and
      its TcpConnections

    The client runs in one loop.  Its connector is the state machine of
    [Connector], its connections are [TcpConnection] objects, and the loop's
    queue holds the functors of both in the order they were queued: [KNext]
    stands for the connector's next functor (the head of [k_queue]), [KConn]
    for a functor of a connection or for connectDestroyed.

    The connector is freed when the client and the timers that hold it are
    gone; its functors are bound with [this].  The connection objects are kept
    (their lifetime is the subject of [System]). *)

From stdpp Require Import pretty.
From S2P Require Import Prelude Buffer Channel Poller EventLoop TcpConnection Connector Server System.

Open Scope Z_scope.

(** ** State *)

Inductive cjob : Type := KNext | KConn (j : job).

Record TcpClient : Type := mkClient {
  cl_name : list ascii;
  cl_wcb : bool;                   (* m_writeCompleteCallback is set *)
  is_retry : bool;
  cl_connect : bool;               (* is_connect *)
  cl_nextConnId : Z;
  m_connection : option Z;
  m_connector : option Connector;  (* the connector object, while it exists *)
  cl_objs : gmap Z (list ascii * TcpConnection);
  cl_detached : gset Z;            (* connections whose close callback is detail::removeConnection *)
  cl_jobs : list cjob;
  cl_timers : list Z;              (* delayed forceClose of connections *)
  cl_remover : bool;               (* the timer for detail::removeConnector is armed *)
  cl_started : bool;               (* connect() was called *)
  cl_gone : bool;                  (* the client was destroyed *)
}.

(** [TcpClient::TcpClient] *)
Definition TcpClient_ctor (name : list ascii) (wcb : bool) : TcpClient :=
  mkClient name wcb false true 1 None (Some Connector_ctor) ∅ ∅ [] [] false false false.

Definition set_flags (cl : TcpClient) (retry connect started : bool) : TcpClient :=
  mkClient (cl_name cl) (cl_wcb cl) retry connect (cl_nextConnId cl) (m_connection cl) (m_connector cl) (cl_objs cl)
    (cl_detached cl) (cl_jobs cl) (cl_timers cl) (cl_remover cl) started (cl_gone cl).
Definition set_connection (cl : TcpClient) (c : option Z) : TcpClient :=
  mkClient (cl_name cl) (cl_wcb cl) (is_retry cl) (cl_connect cl) (cl_nextConnId cl) c (m_connector cl) (cl_objs cl)
    (cl_detached cl) (cl_jobs cl) (cl_timers cl) (cl_remover cl) (cl_started cl) (cl_gone cl).
Definition set_connector (cl : TcpClient) (k : option Connector) : TcpClient :=
  mkClient (cl_name cl) (cl_wcb cl) (is_retry cl) (cl_connect cl) (cl_nextConnId cl) (m_connection cl) k (cl_objs cl)
    (cl_detached cl) (cl_jobs cl) (cl_timers cl) (cl_remover cl) (cl_started cl) (cl_gone cl).
Definition set_jobs (cl : TcpClient) (q : list cjob) : TcpClient :=
  mkClient (cl_name cl) (cl_wcb cl) (is_retry cl) (cl_connect cl) (cl_nextConnId cl) (m_connection cl) (m_connector cl)
    (cl_objs cl) (cl_detached cl) q (cl_timers cl) (cl_remover cl) (cl_started cl) (cl_gone cl).
Definition set_ctimers (cl : TcpClient) (ts : list Z) : TcpClient :=
  mkClient (cl_name cl) (cl_wcb cl) (is_retry cl) (cl_connect cl) (cl_nextConnId cl) (m_connection cl) (m_connector cl)
    (cl_objs cl) (cl_detached cl) (cl_jobs cl) ts (cl_remover cl) (cl_started cl) (cl_gone cl).
Definition set_cobj (cl : TcpClient) (c : Z) (nm : list ascii) (t : TcpConnection) : TcpClient :=
  mkClient (cl_name cl) (cl_wcb cl) (is_retry cl) (cl_connect cl) (cl_nextConnId cl) (m_connection cl) (m_connector cl)
    (<[c := (nm, t)]> (cl_objs cl)) (cl_detached cl) (cl_jobs cl) (cl_timers cl) (cl_remover cl) (cl_started cl) (cl_gone cl).
Definition set_next (cl : TcpClient) (n : Z) : TcpClient :=
  mkClient (cl_name cl) (cl_wcb cl) (is_retry cl) (cl_connect cl) n (m_connection cl) (m_connector cl) (cl_objs cl)
    (cl_detached cl) (cl_jobs cl) (cl_timers cl) (cl_remover cl) (cl_started cl) (cl_gone cl).
Definition destroy_client (cl : TcpClient) (detached : gset Z) (remover : bool) : TcpClient :=
  mkClient (cl_name cl) (cl_wcb cl) (is_retry cl) (cl_connect cl) (cl_nextConnId cl) None (m_connector cl) (cl_objs cl)
    detached (cl_jobs cl) (cl_timers cl) remover (cl_started cl) true.

Definition enableRetry (cl : TcpClient) : TcpClient := set_flags cl true (cl_connect cl) (cl_started cl).

Definition add_job (cl : TcpClient) (j : cjob) : TcpClient := set_jobs cl (cl_jobs cl ++ [j]).

Definition get_connector (cl : TcpClient) : res Connector :=
  match m_connector cl with Some k => Ok k | None => Fail (FUndef "use of a destroyed Connector") end.

Definition get_cobj (cl : TcpClient) (c : Z) : res (list ascii * TcpConnection) :=
  match cl_objs cl !! c with Some p => Ok p | None => Fail (FUndef "no such connection") end.

(** The connector did something: the functors it queued behind the [n] it had
    are in the loop's queue. *)
Definition connector_did (cl : TcpClient) (n : nat) (k : Connector) : TcpClient :=
  set_jobs (set_connector cl (Some k)) (cl_jobs cl ++ replicate (length (k_queue k) - n) KNext).

(** The name: [m_name] and a formatted buffer of 32 bytes. *)
Definition client_conn_name (m_name peerIpPort : list ascii) (connId : Z) : list ascii :=
  m_name ++ take 31 (chars ":" ++ peerIpPort ++ chars "#" ++ String.list_ascii_of_string (pretty connId)).

Section Ops.
(** The text of a socket's peer address. *)
Context (peer_text : Z → list ascii).

(** [TcpClient::newConnection] *)
Definition client_newConnection (cl : TcpClient) (sockfd : Z) : res TcpClient :=
  if cl_gone cl then Fail (FUndef "use of a destroyed TcpClient")
  else
    let id := cl_nextConnId cl in
    let connName := client_conn_name (cl_name cl) (peer_text sockfd) id in
    t ← TcpConnection_ctor sockfd (cl_wcb cl) false;
    t1 ← TcpConnection.connectEstablished true t;
    Ok (set_cobj (set_connection (set_next cl (id + 1)) (Some id)) id connName t1).

(** An event for the connector; a socket it delivers becomes a connection. *)
Definition do_connector (cl : TcpClient) (v : kevent) : res TcpClient :=
  k ← get_connector cl;
  k' ← kstep k v;
  let n := (length (k_queue k) - match v with VFunctor _ _ => 1 | _ => 0 end)%nat in
  let cl1 := connector_did cl n k' in
  match drop (length (k_delivered k)) (k_delivered k') with
  | [] => Ok cl1
  | sockfd :: _ => client_newConnection cl1 sockfd
  end.

(** [TcpClient::removeConnection], the close callback of connection [c]; the
    new attempt of [restart] gets socket [fd] and answer [e]. *)
Definition client_removeConnection (fd e : Z) (cl : TcpClient) (c : Z) : res TcpClient :=
  if cl_gone cl then Fail (FUndef "use of a destroyed TcpClient")
  else
    cassert (bool_decide (m_connection cl = Some c)) "m_connection == conn";;
    let cl1 := add_job (set_connection cl None) (KConn (JDestroyed c)) in
    if is_retry cl1 && cl_connect cl1 then
      k ← get_connector cl1;
      k' ← restart k fd e;
      Ok (connector_did cl1 (length (k_queue k)) k')
    else Ok cl1.

(** What an effect of connection [c] does outside of it. *)
Definition client_carry (fd e : Z) (c : Z) (cl : TcpClient) (ef : effect) : res TcpClient :=
  match asked c ef with
  | Some j => Ok (add_job cl (KConn j))
  | None =>
      match ef with
      | ERunAfterForceClose => Ok (set_ctimers cl (c :: cl_timers cl))
      | ECloseCb =>
          if bool_decide (c ∈ cl_detached cl) then Ok (add_job cl (KConn (JDestroyed c)))
          else client_removeConnection fd e cl c
      | _ => Ok cl
      end
  end.

Definition client_conn (fd e : Z) (cl : TcpClient) (c : Z) (o : conn_op) : res TcpClient :=
  '(nm, t) ← get_cobj cl c;
  t' ← do_op t o;
  foldM (client_carry fd e c) (set_cobj cl c nm t') (drop (length (c_trace t)) (c_trace t')).

(** [TcpClient::connect] *)
Definition client_connect (cl : TcpClient) (inLoop : bool) (fd e : Z) : res TcpClient :=
  do_connector (set_flags cl (is_retry cl) true true) (VStart inLoop fd e).

(** [TcpClient::disconnect] *)
Definition client_disconnect (cl : TcpClient) (inLoop : bool) (fd e : Z) : res TcpClient :=
  let cl1 := set_flags cl (is_retry cl) false (cl_started cl) in
  match m_connection cl1 with
  | Some c => client_conn fd e cl1 c (OShutdown inLoop)
  | None => Ok cl1
  end.

(** [TcpClient::stop] *)
Definition client_stop (cl : TcpClient) : res TcpClient :=
  do_connector (set_flags cl (is_retry cl) false (cl_started cl)) VStop.

(** [TcpClient::~TcpClient], in the loop's thread; [unique]: the client held
    the only pointer to the connection.  With a connection the connector goes
    with the client; without one it is stopped and kept by the timer for
    detail::removeConnector. *)
Definition TcpClient_dtor (cl : TcpClient) (unique : bool) (fd e : Z) : res TcpClient :=
  k ← get_connector cl;
  match m_connection cl with
  | Some c =>
      let cl1 := destroy_client cl (cl_detached cl ∪ {[c]}) (cl_remover cl) in
      cl2 ← (if unique then client_conn fd e cl1 c OForceClose else Ok cl1);
      Connector_dtor k;;
      Ok (set_connector cl2 None)
  | None =>
      cl1 ← do_connector cl VStop;
      Ok (destroy_client cl1 (cl_detached cl1) true)
  end.

(** The timer for [detail::removeConnector]: it stops the connector once more;
    then the timer is deleted, and with it the last pointer to the connector
    unless a retry timer holds one. *)
Definition run_remover (cl : TcpClient) : res TcpClient :=
  cl1 ← do_connector cl VStop;
  k ← get_connector cl1;
  match k_timers k with
  | [] => Connector_dtor k;; Ok (set_connector cl1 None)
  | _ :: _ => Ok cl1
  end.

(** The loop calls the first functor of its queue. *)
Definition client_run (cl : TcpClient) (w : list ascii → write_result) (fd e : Z) : res TcpClient :=
  match cl_jobs cl with
  | [] => Ok cl
  | KNext :: q => do_connector (set_jobs cl q) (VFunctor fd e)
  | KConn j :: q =>
      match job_op j w with
      | Some o => client_conn fd e (set_jobs cl q) (job_conn j) o
      | None => Ok (set_jobs cl q)
      end
  end.

(** ** Runs *)

(** [fd] and [e] answer the socket(2) and connect(2) of a new attempt. *)
Inductive cevent : Type :=
  | CConnect (inLoop : bool)
  | CDisconnect (inLoop : bool)
  | CStop
  | CEnableRetry
  | CDestroy (unique : bool)
  | CRun (w : list ascii → write_result)
  | CRetryTimer                              (* the connector's timer *)
  | CWritable (err : Z) (selfConnect : bool)  (* events of the connector's channel *)
  | CError
  | CIo (c : Z) (o : conn_op)                (* events of a connection's channel *)
  | CCall (c : Z) (o : conn_op)              (* user code *)
  | CDelayed (c : Z).

Definition cstep (cl : TcpClient) (fd e : Z) (v : cevent) : res TcpClient :=
  match v with
  | CConnect inLoop => client_connect cl inLoop fd e
  | CDisconnect inLoop => client_disconnect cl inLoop fd e
  | CStop => client_stop cl
  | CEnableRetry => Ok (enableRetry cl)
  | CDestroy unique => TcpClient_dtor cl unique fd e
  | CRun w => client_run cl w fd e
  | CRetryTimer => do_connector cl (Connector.VTimer fd e)
  | CWritable err self => do_connector cl (VWritable err self)
  | CError => do_connector cl VError
  | CIo c o | CCall c o => client_conn fd e cl c o
  | CDelayed c => client_conn fd e cl c OForceClose
  end.

(** No connector functor that resets a channel is pending. *)
Definition settled (cl : TcpClient) : Prop :=
  ∀ k, m_connector cl = Some k → FResetChannel ∉ k_queue k.

Definition connector_allows (cl : TcpClient) (v : kevent) : Prop :=
  ∃ k, m_connector cl = Some k ∧ allowed k v.

(** The owner calls connect() once, and the client's methods before it destroys
    it; a client with a connection is destroyed when no functor of its
    connector is pending.  A connection's channel gets its first event after
    the functors queued with its creation have run. *)
Definition cpossible (cl : TcpClient) (v : cevent) : Prop :=
  match v with
  | CConnect _ => cl_gone cl = false ∧ cl_started cl = false
  | CDisconnect _ | CStop | CEnableRetry => cl_gone cl = false
  | CDestroy _ => cl_gone cl = false ∧
      (m_connection cl ≠ None → ∀ k, m_connector cl = Some k → k_queue k = [])
  | CRun w => write_fits w
  | CRetryTimer => connector_allows cl (Connector.VTimer 0 0)
  | CWritable err self => connector_allows cl (VWritable err self)
  | CError => connector_allows cl VError
  | CIo c o => io_op o = true ∧ settled cl ∧
      ∃ nm t, cl_objs cl !! c = Some (nm, t) ∧ is_addedToLoop (TcpConnection.m_channel t) = true ∧ enabled t o
  | CCall c o => user_op o = true ∧
      (∃ nm t, cl_objs cl !! c = Some (nm, t) ∧ enabled t o) ∧
      match o with OSendOther m => zlen m ≤ max_size | _ => True end
  | CDelayed c => c ∈ cl_timers cl ∧ is_Some (cl_objs cl !! c)
  end.

(** ** The connector's part *)

Definition rest_queue (k : Connector) (v : kevent) : list Connector.functor :=
  match v with VFunctor _ _ => tail (k_queue k) | _ => k_queue k end.

(** What a step leaves of the connector. *)
Definition kext (k k' : Connector) (q : list Connector.functor) : Prop :=
  (∃ ext, k_queue k' = q ++ ext) ∧ k_delivered k' = k_delivered k ∧
  (is_connect k = false → is_connect k' = false).

Lemma kext_retry k k1 q fd : kext k k1 q → kext k (retry k1 fd) q.
Proof. intros (H1 & H2 & H3). unfold kext, retry. simpl. destruct (is_connect k1) eqn:E; simpl; rewrite ?E; auto. Qed.

Lemma kext_startInLoop k k1 q fd e k' : kext k k1 q → startInLoop k1 fd e = Ok k' → kext k k' q.
Proof.
  intros H E. unfold startInLoop in E. destruct (bool_decide _); [|done]. simpl in E.
  destruct (is_connect k1) eqn:Ec; [|by injection E as <-].
  unfold connect in E. destruct (bool_decide _); [|destruct (bool_decide _)].
  - unfold connecting in E. simpl in E. destruct (m_channel k1); [done|]. injection E as <-. exact H.
  - injection E as <-. by apply kext_retry.
  - injection E as <-. exact H.
Qed.

Lemma kext_remove k k1 q k2 fd : kext k k1 q → removeAndResetChannel k1 = Ok (k2, fd) → kext k k2 q.
Proof.
  intros ((ext & H1) & H2 & H3) [_ ->]%removeAndReset_inv. split_and!; [|done..]. simpl. rewrite H1.
  exists (ext ++ [FResetChannel]). by rewrite app_assoc.
Qed.

Lemma kext_refl k q : k_queue k = q → kext k k q.
Proof. intros <-. split_and!; [|done..]. exists []. by rewrite app_nil_r. Qed.

(** A step of a connector either delivers no socket, or it is the write event
    of an attempt nobody stopped. *)
Lemma kstep_ext k v k' :
  allowed k v → kstep k v = Ok k' →
  kext k k' (rest_queue k v) ∨
  (∃ err self fd, v = VWritable err self ∧ m_channel k = Some (fd, true) ∧ is_connect k = true ∧
     m_state k' = kConnected ∧ k_delivered k' = k_delivered k ++ [fd] ∧ ∃ ext, k_queue k' = k_queue k ++ ext).
Proof.
  intros Ha E. destruct v as [inLoop fd e| |fd e|fd e|fd e|err self|]; simpl in Ha; try done; simpl in E.
  - left. injection E as <-. split_and!; [|done..]. by exists [FStopInLoop].
  - left. unfold rest_queue. destruct (k_queue k) as [|f q] eqn:Eq; [injection E as <-; by apply kext_refl|].
    assert (H0 : kext k (set_queue k q) q) by (split_and!; [exists []; simpl; by rewrite app_nil_r|done..]).
    destruct f; simpl.
    + by eapply kext_startInLoop.
    + unfold stopInLoop in E. destruct (bool_decide _); [|by injection E as <-].
      destruct (removeAndResetChannel _) as [[k1 fd1]|] eqn:Er; [|done]. injection E as <-.
      apply kext_retry. eapply kext_remove; [|exact Er]. exact H0.
    + unfold resetChannel in E. destruct (m_channel _) as [[fd1 []]|]; [done| |by injection E as <-].
      injection E as <-. exact H0.
  - left. destruct (k_timers k) as [|d ts]; [injection E as <-; by apply kext_refl|].
    eapply kext_startInLoop; [|exact E]. split_and!; [by exists []; rewrite app_nil_r|done..].
  - unfold handleWrite in E. destruct (bool_decide (m_state k = kConnecting)).
    2:{ left. destruct (bool_decide _); [|done]. injection E as <-. by apply kext_refl. }
    destruct (removeAndResetChannel k) as [[k1 fd]|] eqn:Er; [|done]. cbn [mbind res_bind] in E.
    pose proof (kext_remove k k _ k1 fd (kext_refl k _ eq_refl) Er) as Hx.
    destruct (negb (err =? 0)); [left; injection E as <-; by apply kext_retry|].
    destruct self; [left; injection E as <-; by apply kext_retry|]. apply removeAndReset_inv in Er as [Hc ->].
    simpl in E. destruct (is_connect k) eqn:Ec; injection E as <-.
    + right. exists err, false, fd. split_and!; try done. by exists [FResetChannel].
    + left. exact Hx.
  - left. unfold handleError in E. destruct (bool_decide _); [|by injection E as <-; apply kext_refl].
    destruct (removeAndResetChannel k) as [[k1 fd]|] eqn:Er; [|done]. injection E as <-.
    apply kext_retry. eapply kext_remove; [|exact Er]. by apply kext_refl.
Qed.

(** Descriptors of channels are descriptors. *)
Definition fd_ok (k : Connector) : Prop := ∀ fd b, m_channel k = Some (fd, b) → 0 ≤ fd.

Lemma startInLoop_fd k fd e k' : fd_ok k → 0 ≤ fd → startInLoop k fd e = Ok k' → fd_ok k'.
Proof.
  intros H Hf E. unfold startInLoop in E. destruct (bool_decide _); [|done]. simpl in E.
  destruct (is_connect k) eqn:Ec; [|by injection E as <-]. unfold connect in E.
  destruct (bool_decide _); [|destruct (bool_decide _)]; [|injection E as <-..]; [|unfold retry; simpl; by rewrite Ec|exact H].
  unfold connecting in E. simpl in E. destruct (m_channel k); [done|]. injection E as <-. by intros fd' b [= <- _].
Qed.

Lemma kstep_fd k v k' :
  fd_ok k → match v with VStart _ fd _ | VRestart fd _ | VFunctor fd _ | Connector.VTimer fd _ => 0 ≤ fd | _ => True end →
  kstep k v = Ok k' → fd_ok k'.
Proof.
  intros H Hf E. assert (Hrm : ∀ k0 k1 fd, fd_ok k0 → removeAndResetChannel k0 = Ok (k1, fd) → fd_ok k1).
  { intros k0 k1 fd H0 [Hc ->]%removeAndReset_inv fd' b [= <- _]. by eapply H0. }
  assert (Hre : ∀ k0 fd, fd_ok k0 → fd_ok (retry k0 fd)) by (intros k0 fd H0; unfold retry; by destruct (is_connect _)).
  destruct v as [[] fd e| |fd e|fd e|fd e|err self|]; simpl in E.
  - by eapply startInLoop_fd in E.
  - by injection E as <-.
  - by injection E as <-.
  - unfold restart in E. by eapply startInLoop_fd in E.
  - destruct (k_queue k) as [|[] q]; [by injection E as <-|by eapply startInLoop_fd in E|..].
    + unfold stopInLoop in E. destruct (bool_decide _); [|by injection E as <-].
      destruct (removeAndResetChannel _) as [[k1 fd1]|] eqn:Er; [|done]. injection E as <-. apply Hre. by eapply Hrm in Er.
    + unfold resetChannel in E. destruct (m_channel _) as [[fd1 []]|]; [done| |by injection E as <-]. by injection E as <-.
  - destruct (k_timers k); [by injection E as <-|]. by eapply startInLoop_fd in E.
  - unfold handleWrite in E. destruct (bool_decide (m_state k = kConnecting)).
    2:{ destruct (bool_decide _); [|done]. by injection E as <-. }
    destruct (removeAndResetChannel k) as [[k1 fd]|] eqn:Er; [|done]. cbn [mbind res_bind] in E. apply Hrm in Er; [|done].
    destruct (negb (err =? 0)); [injection E as <-; by apply Hre|]. destruct self; [injection E as <-; by apply Hre|].
    by destruct (is_connect _); injection E as <-.
  - unfold handleError in E. destruct (bool_decide _); [|by injection E as <-].
    destruct (removeAndResetChannel k) as [[k1 fd]|] eqn:Er; [|done]. injection E as <-. apply Hre. by eapply Hrm.
Qed.

(** A connected connector stays as it is. *)
Lemma kstep_connected k v k' :
  kinv k → allowed k v → m_state k = kConnected → kstep k v = Ok k' →
  m_state k' = kConnected ∧ k_delivered k' = k_delivered k ∧
  k_queue k' = rest_queue k v ++ (match v with VStop => [FStopInLoop] | _ => [] end).
Proof.
  intros Hi Ha Hs E. pose proof (ki_idle _ Hi ltac:(congruence)) as Hn. unfold starts in Hn.
  destruct v as [inLoop fd e| |fd e|fd e|fd e|err self|]; simpl in Ha; try done; simpl in E |- *.
  - by injection E as <-.
  - rewrite app_nil_r. destruct (k_queue k) as [|[] q] eqn:Eq; [injection E as <-; rewrite Eq; done|..].
    + rewrite count_cons in Hn. simpl in Hn. lia.
    + unfold stopInLoop in E. simpl in E. rewrite bool_decide_false in E by congruence. by injection E as <-.
    + unfold resetChannel in E. simpl in E. destruct (m_channel k) as [[fd1 []]|]; [done| |by injection E as <-].
      by injection E as <-.
  - rewrite app_nil_r. destruct (k_timers k); [by injection E as <-|]. simpl in Hn. lia.
  - destruct Ha as [fd Hc]. pose proof (ki_chan _ Hi) as H. rewrite Hc in H. congruence.
  - destruct Ha as [fd Hc]. pose proof (ki_chan _ Hi) as H. rewrite Hc in H. congruence.
Qed.

(** ** The client's invariant *)

Fixpoint knexts (q : list cjob) : nat :=
  match q with [] => 0 | KNext :: q' => S (knexts q') | KConn _ :: q' => knexts q' end.

Lemma knexts_app q1 q2 : knexts (q1 ++ q2) = (knexts q1 + knexts q2)%nat.
Proof. induction q1 as [|[] q1 IH]; simpl; lia. Qed.

Lemma knexts_replicate n : knexts (replicate n KNext) = n.
Proof. induction n; simpl; congruence. Qed.

(** The functors a client's queue may hold. *)
Definition cjob_ok (j : job) : Prop :=
  match j with
  | JSend _ m => zlen m ≤ max_size
  | JStartRead _ | JStopRead _ | JEstablished _ | JRemove _ => False
  | _ => True
  end.

(** The connector resets no channel after a functor of connection [c]. *)
Definition ordered (c : Z) (q : list cjob) (kq : list Connector.functor) : Prop :=
  ∀ q1 j q2, q = q1 ++ KConn j :: q2 → job_conn j = c → FResetChannel ∉ drop (knexts q1) kq.

(** The client with the functors [kq] of its connector pending. *)
Record cbase (kq : list Connector.functor) (cl : TcpClient) : Prop := mkCbase {
  cb_next : knexts (cl_jobs cl) = length kq;
  cb_objs c nm t : cl_objs cl !! c = Some (nm, t) →
    c < cl_nextConnId cl ∧ obj_ok t ∧ TcpConnection.m_state t ≠ TcpConnection.kConnecting ∧
    (open_state t = true → m_connection cl = Some c ∨ c ∈ cl_detached cl);
  cb_conn c : m_connection cl = Some c →
    (∃ nm t, cl_objs cl !! c = Some (nm, t) ∧ open_state t = true) ∧
    ordered c (cl_jobs cl) kq ∧ ∃ k, m_connector cl = Some k ∧ m_state k = kConnected;
  cb_detached c : c ∈ cl_detached cl → cl_gone cl = true;
  cb_gone : cl_gone cl = true → m_connection cl = None ∧ ∀ k, m_connector cl = Some k → is_connect k = false;
  cb_destroyed c q1 q2 : cl_jobs cl = q1 ++ KConn (JDestroyed c) :: q2 →
    (∃ nm t, cl_objs cl !! c = Some (nm, t) ∧ stage t = (false, false, true)) ∧
    KConn (JDestroyed c) ∉ q1 ∧ KConn (JDestroyed c) ∉ q2;
  cb_jobs j : KConn j ∈ cl_jobs cl → is_Some (cl_objs cl !! job_conn j) ∧ cjob_ok j;
}.

(** A connector that was not started. *)
Definition idle (k : Connector) : Prop :=
  m_state k = kDisconnected ∧ m_channel k = None ∧ starts k = 0%nat ∧ count FResetChannel (k_queue k) = 0%nat.

Definition kpart (cl : TcpClient) : Prop :=
  match m_connector cl with
  | Some k => kinv k ∧ fd_ok k ∧ (cl_started cl = false → idle k)
  | None => cl_gone cl = true
  end.

Definition kqueue (cl : TcpClient) : list Connector.functor :=
  match m_connector cl with Some k => k_queue k | None => [] end.

Definition cinv (cl : TcpClient) : Prop := cbase (kqueue cl) cl ∧ kpart cl.

Lemma snoc_split {A} (q q1 q2 : list A) x y : q ++ [x] = q1 ++ y :: q2 →
  (∃ q2', q2 = q2' ++ [x] ∧ q = q1 ++ y :: q2') ∨ (q2 = [] ∧ q1 = q ∧ y = x).
Proof.
  intros E. destruct (decide (q2 = [])) as [->|Hne].
  - apply app_inj_tail in E as [-> ->]. by right.
  - destruct (exists_last Hne) as (q2' & z & ->). left. exists q2'.
    rewrite app_comm_cons, app_assoc in E. by apply app_inj_tail in E as [-> ->].
Qed.

Lemma ordered_snoc c q kq j : ordered c q kq → knexts q = length kq → ordered c (q ++ [KConn j]) kq.
Proof.
  intros H Hl q1 j' q2 E Hj. apply snoc_split in E as [(q2' & -> & E)|(-> & -> & [= ->])]; [by eapply H|].
  rewrite drop_ge by lia. apply not_elem_of_nil.
Qed.

(** A functor of a connection is queued. *)
Lemma cbase_add kq cl j :
  cbase kq cl → is_Some (cl_objs cl !! job_conn j) → cjob_ok j →
  match j with
  | JDestroyed c => KConn (JDestroyed c) ∉ cl_jobs cl ∧
      ∃ nm t, cl_objs cl !! c = Some (nm, t) ∧ stage t = (false, false, true)
  | _ => True
  end → cbase kq (add_job cl (KConn j)).
Proof.
  intros [H1 H3 H4 H5 H6 H7 H8] Ho Hj Hd. split; simpl; try done.
  - rewrite knexts_app. simpl. by rewrite Nat.add_0_r.
  - intros c Hc. destruct (H4 c Hc) as (? & Ho' & ?). split_and!; try done. by apply ordered_snoc.
  - intros c q1 q2 E. apply snoc_split in E as [(q2' & -> & E)|(-> & -> & [= <-])].
    + destruct (H7 c q1 q2' E) as (? & ? & ?). split_and!; try done. rewrite elem_of_app, list_elem_of_singleton.
      intros [?|[= <-]]; [done|]. destruct Hd as [Hd _]. apply Hd. rewrite E. apply elem_of_app. right. by left.
    + destruct Hd as [? ?]. split_and!; try done. apply not_elem_of_nil.
  - intros j'. rewrite elem_of_app, list_elem_of_singleton. intros [?|[= ->]]; auto.
Qed.

(** A connection object changes, open or not as before. *)
Lemma cbase_obj kq cl c nm t t' :
  cbase kq cl → cl_objs cl !! c = Some (nm, t) → obj_ok t' → open_state t' = open_state t →
  TcpConnection.m_state t' ≠ TcpConnection.kConnecting →
  (KConn (JDestroyed c) ∈ cl_jobs cl → stage t' = stage t) → cbase kq (set_cobj cl c nm t').
Proof.
  intros [H1 H3 H4 H5 H6 H7 H8] Hc Hok Ho Hnc Hst. split; simpl; try done.
  - intros c' nm' t1. rewrite lookup_insert_Some. intros [[<- [= <- <-]]|[_ ?]]; [|by apply (H3 c' nm')].
    destruct (H3 c nm t Hc) as (? & ? & Hk & ?). split_and!; try done. by rewrite Ho.
  - intros c' Hc'. destruct (H4 c' Hc') as ((nm' & t1 & Ht1 & Ho1) & ?). split; [|done].
    destruct (decide (c = c')) as [->|Hne]; [|rewrite lookup_insert_ne by done; eauto].
    rewrite lookup_insert_eq. exists nm, t'. split; [done|]. congruence.
  - intros c' q1 q2 E. destruct (H7 c' q1 q2 E) as ((nm' & t1 & Ht1 & Hs1) & ?). split; [|done].
    destruct (decide (c = c')) as [->|Hne]; [|rewrite lookup_insert_ne by done; eauto].
    rewrite lookup_insert_eq. exists nm, t'. split; [done|]. rewrite Hst; [congruence|].
    rewrite E. apply elem_of_app. right. by left.
  - intros j Hj. destruct (H8 j Hj) as [? ?]. split; [|done].
    destruct (decide (c = job_conn j)) as [->|Hne]; [by rewrite lookup_insert_eq|by rewrite lookup_insert_ne].
Qed.

Lemma cbase_stays kq cl c nm t t' :
  cbase kq cl → cl_objs cl !! c = Some (nm, t) → obj_ok t' → stage t' = stage t → cbase kq (set_cobj cl c nm t').
Proof.
  intros Hb Hc Hok Hst. eapply cbase_obj; try done; [unfold stage in Hst; congruence|].
  destruct (cb_objs _ _ Hb c nm t Hc) as (_ & _ & Hk & _). intros E. apply Hk. unfold stage in Hst. rewrite E in Hst.
  by destruct (TcpConnection.m_state t).
Qed.

(** A connection has closed: it is no longer the client's. *)
Lemma cbase_closed kq cl c nm t t' :
  cbase kq cl → cl_objs cl !! c = Some (nm, t) → open_state t = true → obj_ok t' → stage t' = (false, false, true) →
  m_connection cl = Some c ∨ c ∈ cl_detached cl →
  cbase kq (add_job (set_connection (set_cobj cl c nm t') None) (KConn (JDestroyed c))).
Proof.
  intros Hb Hc Ho Hok Hst Hown. apply cbase_add; simpl; [|by rewrite lookup_insert_eq|done|].
  - destruct Hb as [H1 H3 H4 H5 H6 H7 H8]. split; simpl; try done.
    + intros c' nm' t1. rewrite lookup_insert_Some. intros [[<- [= <- <-]]|[Hne Ht1]].
      * destruct (H3 c nm t Hc) as (? & _). split_and!; try done; unfold stage in Hst; [|congruence].
        intros E. by rewrite E in Hst.
      * destruct (H3 c' nm' t1 Ht1) as (? & ? & ? & Hop). split_and!; try done. intros Hop'.
        destruct (Hop Hop') as [E|?]; [|by right]. destruct Hown as [?|Hd]; [congruence|].
        right. apply H5 in Hd. apply H6 in Hd as [? _]. congruence.
    + intros Hg. split; [done|]. by apply H6.
    + intros c' q1 q2 E. destruct (H7 c' q1 q2 E) as ((nm' & t1 & Ht1 & Hs1) & ?). split; [|done].
      destruct (decide (c = c')) as [->|Hne]; [|rewrite lookup_insert_ne by done; eauto].
      rewrite lookup_insert_eq. eauto.
    + intros j Hj. destruct (H8 j Hj) as [? ?]. split; [|done].
      destruct (decide (c = job_conn j)) as [->|Hne]; [by rewrite lookup_insert_eq|by rewrite lookup_insert_ne].
  - split; [|rewrite lookup_insert_eq; eauto]. intros (q1 & q2 & E)%list_elem_of_split.
    destruct (cb_destroyed _ _ Hb c q1 q2 E) as ((nm1 & t1 & Ht1 & Hs1) & _). unfold stage in Hs1. congruence.
Qed.

Lemma cbase_ctimers kq cl ts : cbase kq cl → cbase kq (set_ctimers cl ts).
Proof. intros []. by split. Qed.

Lemma cbase_flags kq cl r b s : cbase kq cl → cbase kq (set_flags cl r b s).
Proof. intros []. by split. Qed.

Lemma split_nexts n q q1 q2 j :
  q ++ replicate n KNext = q1 ++ KConn j :: q2 →
  ∃ q2', q = q1 ++ KConn j :: q2' ∧ q2 = q2' ++ replicate n KNext.
Proof.
  revert q2. induction n as [|n IH]; intros q2 E.
  - simpl in *. rewrite app_nil_r in E. exists q2. by rewrite app_nil_r.
  - rewrite replicate_S_end, app_assoc in E. apply snoc_split in E as [(q3 & -> & E)|(_ & _ & ?)]; [|done].
    destruct (IH q3 E) as (q2' & -> & ->). exists q2'. by rewrite replicate_S_end, app_assoc.
Qed.

(** The connector queued the functors [ext]. *)
Lemma cbase_did kq cl k k' ext :
  cbase kq cl → m_connector cl = Some k → k_queue k' = kq ++ ext →
  (m_connection cl ≠ None → m_state k' = kConnected ∧ FResetChannel ∉ ext) →
  (cl_gone cl = true → is_connect k' = false) →
  cbase (k_queue k') (connector_did cl (length kq) k').
Proof.
  intros [H1 H3 H4 H5 H6 H7 H8] Hk Eq Hc Hg.
  assert (El : (length (k_queue k') - length kq)%nat = length ext) by (rewrite Eq, length_app; lia).
  unfold connector_did. rewrite El. split; simpl; try done.
  - rewrite knexts_app, knexts_replicate, Eq, length_app. lia.
  - intros c E. destruct (H4 c E) as (? & Ho & _). destruct (Hc ltac:(congruence)) as [Hs Hx].
    split_and!; [done| |by exists k']. intros q1 j q2 (q2' & Ej & _)%split_nexts Hj.
    assert (knexts q1 ≤ length kq)%nat by (rewrite <- H1, Ej, knexts_app; lia).
    rewrite Eq, drop_app_le by done. rewrite elem_of_app. intros [?|?]; [|done]. by apply (Ho q1 j q2').
  - intros G. split; [by apply H6|]. intros k0 [= <-]. auto.
  - intros c q1 q2 (q2' & Ej & ->)%split_nexts. destruct (H7 c q1 q2' Ej) as (? & ? & ?). split_and!; try done.
    rewrite elem_of_app. intros [?|[? _]%elem_of_replicate]; done.
  - intros j. rewrite elem_of_app. intros [?|[? _]%elem_of_replicate]; [by apply H8|done].
Qed.

(** A connected connector whose channel was reset can start again. *)
Lemma restart_ok k fd e :
  kinv k → fd_ok k → 0 ≤ fd → m_state k = kConnected → FResetChannel ∉ k_queue k →
  ∃ k' ext, restart k fd e = Ok k' ∧ kinv k' ∧ fd_ok k' ∧ k_queue k' = k_queue k ++ ext.
Proof.
  intros Hi Hf Hfd Hs Hr. pose proof (ki_chan _ Hi) as H1. pose proof (ki_resets _ Hi) as H2.
  rewrite count_none in H2 by done.
  assert (Hc : m_channel k = None) by (destruct (m_channel k) as [[fd1 []]|]; [congruence|done|done]).
  set (k1 := set_connect (set_delay (Connector.setState k kDisconnected) kInitRetryDelayMs) true).
  destruct (startInLoop_ok k1 fd e) as (k' & E & Hi'); [done|done|by apply (ki_idle _ Hi); congruence|by apply count_none|].
  destruct (kext_startInLoop k1 k1 _ fd e k' (kext_refl k1 _ eq_refl) E) as ((ext & Eq) & _).
  exists k', ext. split_and!; try done. by apply (startInLoop_fd k1 fd e).
Qed.

Section conn.
Variables (fd e : Z).
Hypothesis Hfd : 0 ≤ fd.

Definition handled (r : res TcpClient) : Prop := (∃ w, r = Fail (FThrow w)) ∨ ∃ cl', r = Ok cl' ∧ cinv cl'.

(** What an operation that stays in its stage asks for. *)
Lemma client_asks c o t es : ∀ cl,
  cinv cl → is_Some (cl_objs cl !! c) →
  (∀ m, o = OSendOther m → zlen m ≤ max_size) → Forall (may_ask t o) es →
  ∃ cl', foldM (client_carry fd e c) cl es = Ok cl' ∧ cinv cl'.
Proof.
  intros cl Hi Hob Hm Hes. revert cl Hi Hob. induction Hes as [|ef es He Hes IH]; intros cl Hi Hob; [by exists cl|].
  assert (∃ cl1, client_carry fd e c cl ef = Ok cl1 ∧ cinv cl1 ∧ is_Some (cl_objs cl1 !! c)) as (cl1 & E1 & Hi1 & Hob1).
  2:{ destruct (IH cl1 Hi1 Hob1) as (cl2 & E2 & Hi2). exists cl2. simpl. rewrite E1. done. }
  destruct Hi as [Hb Hk]. unfold client_carry. destruct (asked c ef) as [j|] eqn:Ej.
  - exists (add_job cl (KConn j)). split; [done|]. split; [|done]. split; [|exact Hk].
    apply cbase_add; [done|..]; destruct ef; simpl in Ej, He; try done; injection Ej as <-; try done.
    simpl. destruct He as [_ ->]. by apply Hm.
  - destruct ef; simpl in Ej, He; try done; try (exists cl; split; [reflexivity|split; [split; assumption|assumption]]).
    eexists. split; [done|]. split; [|done]. split; [by apply cbase_ctimers|exact Hk].
Qed.

(** The close callback. *)
Lemma client_closes cl c nm t t' :
  cinv cl → cl_objs cl !! c = Some (nm, t) → open_state t = true → obj_ok t' → stage t' = (false, false, true) →
  (m_connection cl = Some c → settled cl) →
  ∃ cl', client_carry fd e c (set_cobj cl c nm t') ECloseCb = Ok cl' ∧ cinv cl'.
Proof.
  intros [Hb Hk] Hc Ho Hok Hst Hset. destruct (cb_objs _ _ Hb c nm t Hc) as (_ & _ & _ & Hown). specialize (Hown Ho).
  pose proof (cbase_closed _ _ c nm t t' Hb Hc Ho Hok Hst Hown) as Hb1.
  unfold client_carry. cbn [asked cl_detached set_cobj]. case_bool_decide as Hd.
  - assert (Hn : m_connection cl = None) by (apply (cb_detached _ _ Hb) in Hd; by apply (cb_gone _ _ Hb)).
    eexists. split; [done|].
    assert (set_connection (set_cobj cl c nm t') None = set_cobj cl c nm t') as E
      by (unfold set_connection, set_cobj; simpl; by rewrite Hn).
    rewrite E in Hb1. split; [exact Hb1|exact Hk].
  - assert (Hm : m_connection cl = Some c) by by destruct Hown.
    destruct (cb_conn _ _ Hb c Hm) as (_ & _ & k & Ek & Hs). specialize (Hset Hm k Ek).
    assert (Hg : cl_gone cl = false).
    { destruct (cl_gone cl) eqn:E; [|done]. destruct (cb_gone _ _ Hb E). congruence. }
    unfold client_removeConnection. simpl cl_gone. rewrite Hg. simpl m_connection. rewrite bool_decide_true by done.
    cbn [cassert mbind res_bind].
    set (cl1 := add_job (set_connection (set_cobj cl c nm t') None) (KConn (JDestroyed c))) in *.
    destruct (is_retry cl1 && cl_connect cl1); [|eexists; split; [done|split; [exact Hb1|exact Hk]]].
    unfold kpart in Hk. rewrite Ek in Hk. destruct Hk as (Hki & Hkf & Hks).
    destruct (restart_ok k fd e Hki Hkf Hfd Hs Hset) as (k' & ext & E & Hi' & Hf' & Eq).
    unfold get_connector. simpl m_connector. rewrite Ek. cbn [mbind res_bind]. rewrite E. cbn [mbind res_bind].
    eexists. split; [done|]. unfold kqueue in Hb1. simpl in Hb1. rewrite Ek in Hb1. split.
    + unfold kqueue. simpl. apply (cbase_did _ cl1 k k' ext); try done. simpl. congruence.
    + unfold kpart. simpl. split_and!; try done. intros Hns. destruct (Hks Hns) as [? _]. congruence.
Qed.

(** An operation of a connection, in the middle of its life. *)
Lemma client_middle cl c o nm t :
  cinv cl → cl_objs cl !! c = Some (nm, t) → enabled t o → middle_op o = true →
  (∀ m, o = OSendOther m → zlen m ≤ max_size) →
  (∀ t', do_op t o = Ok t' → ECloseCb ∈ drop (length (c_trace t)) (c_trace t') → m_connection cl = Some c → settled cl) →
  handled (client_conn fd e cl c o).
Proof.
  intros Hi Hc He Hm Hsz Hset. pose proof Hi as [Hb Hk].
  destruct (cb_objs _ _ Hb c nm t Hc) as (_ & Hok & _ & _).
  pose proof (obj_ok_inv _ Hok) as Hinv. pose proof (op_good _ o Hinv He) as G.
  unfold client_conn, get_cobj. rewrite Hc. cbn [mbind res_bind].
  destruct (do_op t o) as [t'|[]] eqn:Ed; try done; [|left; eauto]. right. cbn [mbind res_bind].
  pose proof (obj_ok_step _ _ _ Hok He Ed) as Hok'. specialize (Hset t' eq_refl).
  destruct (op_outcome _ _ _ Hinv He Hm Ed) as [(Est & es & Et & Hes)|(Ho & Hst' & Had & es & Et & Hes)].
  - rewrite Et, drop_trace. apply (client_asks c o t).
    + split; [by eapply cbase_stays|exact Hk].
    + simpl. by rewrite lookup_insert_eq.
    + done.
    + by apply Forall_forall.
  - rewrite Et, <- app_assoc, drop_trace in Hset |- *. rewrite foldM_snoc.
    assert (foldM (client_carry fd e c) (set_cobj cl c nm t') es = Ok (set_cobj cl c nm t')) as ->.
    { clear -Hes. induction es as [|ef es IH]; [done|]. simpl.
      assert (quiet ef = true) as He by (apply Hes; by left).
      destruct ef; try done; simpl; (apply IH; intros e' He'; apply Hes; by right). }
    cbn [mbind res_bind]. apply (client_closes cl c nm t t'); try done.
    + unfold stage, open_state. by rewrite Hst', Had.
    + apply Hset. apply elem_of_app. right. by left.
Qed.
End conn.

(** ** The events *)

Lemma client_new kq cl k sockfd :
  cbase kq cl → cl_gone cl = false → m_connection cl = None → m_connector cl = Some k → m_state k = kConnected →
  0 ≤ sockfd →
  ∃ cl', client_newConnection cl sockfd = Ok cl' ∧ cbase kq cl' ∧ m_connector cl' = m_connector cl ∧
    cl_started cl' = cl_started cl ∧ cl_gone cl' = cl_gone cl.
Proof.
  intros [H1 H3 H4 H5 H6 H7 H8] Hg Hn Hk Hs Hfd. unfold client_newConnection. rewrite Hg.
  destruct (ctor_fresh sockfd (cl_wcb cl) false Hfd) as (t & Et & Hf & _). rewrite Et. cbn [mbind res_bind].
  assert (Hok : obj_ok t) by (exists sockfd, (cl_wcb cl), false, t, []; split_and!; [done..|apply run_nil]).
  assert (Hc : TcpConnection.m_state t = TcpConnection.kConnecting) by apply Hf.
  destruct (TcpConnection.connectEstablished true t) as [t'|] eqn:E.
  2:{ unfold TcpConnection.connectEstablished in E. simpl in E. by rewrite Hc in E. }
  assert (Hok' : obj_ok t') by by eapply (obj_ok_step _ OEstablished).
  assert (Hst : TcpConnection.m_state t' = TcpConnection.kConnected).
  { unfold TcpConnection.connectEstablished in E. simpl in E. rewrite Hc in E. by injection E as <-. }
  cbn [mbind res_bind]. eexists. split; [done|]. split; [|done].
  assert (Hfresh : ∀ c p, cl_objs cl !! c = Some p → c < cl_nextConnId cl).
  { intros c [nm t1] Hc1. by apply (H3 c nm t1). }
  split; simpl; try done.
  - intros c nm t1. rewrite lookup_insert_Some. intros [[<- [= <- <-]]|[Hne Ht1]].
    + split_and!; [lia|done|congruence|by left].
    + destruct (H3 c nm t1 Ht1) as (? & ? & ? & Ho). split_and!; [lia|done|done|].
      intros Ho'. destruct (Ho Ho') as [?|Hd]; [congruence|by right].
  - intros c [= <-]. split_and!; [|..|eauto].
    + rewrite lookup_insert_eq. eexists _, t'. split; [done|]. unfold open_state. by rewrite Hst.
    + intros q1 j q2 E1 Ej. destruct (H8 j) as [[p Hp] _]; [rewrite E1; apply elem_of_app; right; by left|].
      apply Hfresh in Hp. lia.
  - intros Hg'. congruence.
  - intros c q1 q2 E1. destruct (H7 c q1 q2 E1) as ((nm' & t1 & Ht1 & Hs1) & ?). split; [|done].
    exists nm', t1. split; [|done]. apply Hfresh in Ht1 as Hlt. by rewrite lookup_insert_ne by lia.
  - intros j Hj. destruct (H8 j Hj) as [[p Hp] ?]. split; [|done]. apply Hfresh in Hp as Hlt.
    rewrite lookup_insert_ne by lia. eauto.
Qed.

Lemma idle_step k v k' : idle k → allowed k v → kstep k v = Ok k' → idle k'.
Proof.
  intros (H1 & H2 & H3 & H4) Ha E. unfold idle, starts in *.
  destruct v as [inLoop fd e| |fd e|fd e|fd e|err self|]; simpl in Ha; try done; simpl in E.
  - injection E as <-. simpl. count_simpl. rewrite !Nat.add_0_r. auto.
  - destruct (k_queue k) as [|[] q] eqn:Eq; [injection E as <-; rewrite Eq; auto|..];
      rewrite !count_cons in H3, H4; simpl in H3, H4; try lia.
    unfold stopInLoop in E. simpl in E. rewrite bool_decide_false in E by congruence. injection E as <-. auto.
  - destruct (k_timers k) eqn:Et; [injection E as <-; rewrite Et; auto|]. simpl in H3. lia.
  - destruct Ha as [fd Hc]. congruence.
  - destruct Ha as [fd Hc]. congruence.
Qed.

Lemma length_rest k v : (length (k_queue k) - match v with VFunctor _ _ => 1 | _ => 0 end)%nat = length (rest_queue k v).
Proof. unfold rest_queue. destruct v; try lia. destruct (k_queue k); simpl; lia. Qed.

Lemma client_connector cl v k :
  cbase (rest_queue k v) cl → kpart cl → m_connector cl = Some k → allowed k v →
  match v with VFunctor fd _ | Connector.VTimer fd _ => 0 ≤ fd | _ => True end →
  ∃ cl', do_connector cl v = Ok cl' ∧ cinv cl' ∧ cl_gone cl' = cl_gone cl ∧
    (v = VStop → m_connection cl' = m_connection cl ∧ ∀ k, m_connector cl' = Some k → is_connect k = false).
Proof.
  intros Hb Hkp Hk Ha Hfd. unfold kpart in Hkp. rewrite Hk in Hkp. destruct Hkp as (Hi & Hf & Hidle).
  destruct (allowed_ok k v Hi Ha) as (k' & E & Hi').
  assert (Hf' : fd_ok k') by (eapply kstep_fd; [done| |exact E]; by destruct v).
  assert (Hidle' : cl_started cl = false → idle k') by (intros Hn; eapply idle_step; [by apply Hidle|done..]).
  unfold do_connector, get_connector. rewrite Hk. cbn [mbind res_bind]. rewrite E. cbn [mbind res_bind].
  rewrite length_rest.
  destruct (kstep_ext k v k' Ha E) as [((ext & Eq) & Ed & Hcon)|(err & self & sockfd & -> & Hc & Hcon & Hs & Ed & ext & Eq)].
  - rewrite Ed, drop_all. eexists. split; [done|]. split_and!; try done.
    + split; [|by unfold kpart].
      apply (cbase_did _ cl k k' ext); try done.
      * intros Hm. destruct (m_connection cl) as [c|] eqn:Ec; [|done].
        destruct (cb_conn _ _ Hb c Ec) as (_ & _ & k0 & Hk0 & Hs). assert (k0 = k) as -> by congruence.
        destruct (kstep_connected k v k' Hi Ha Hs E) as (Hs' & _ & Eq'). split; [done|].
        rewrite Eq in Eq'. apply app_inv_head in Eq' as ->. destruct v; set_solver.
      * intros Hg. apply Hcon. by apply (cb_gone _ _ Hb Hg).
    + intros ->. split; [done|]. intros k0 [= <-]. simpl in E. by injection E as <-.
  - simpl rest_queue in *.
    assert (Hm : m_connection cl = None).
    { destruct (m_connection cl) as [c|] eqn:Ec; [|done]. destruct (cb_conn _ _ Hb c Ec) as (_ & _ & k0 & Hk0 & Hs0).
      assert (k0 = k) as -> by congruence. pose proof (ki_chan _ Hi) as Hch. rewrite Hc in Hch. congruence. }
    assert (Hg : cl_gone cl = false).
    { destruct (cl_gone cl) eqn:Eg; [|done]. destruct (cb_gone _ _ Hb Eg) as [_ H]. specialize (H k Hk). congruence. }
    rewrite Ed, drop_trace.
    destruct (client_new (k_queue k') (connector_did cl (length (k_queue k)) k') k' sockfd) as (cl' & En & Hb' & Hk' & Hst' & Hg');
      try done; [|by eapply Hf|].
    + apply (cbase_did _ cl k k' ext); try done. congruence.
    + rewrite En. exists cl'. simpl in Hk', Hst'. split_and!; try done.
      split; unfold kqueue, kpart; rewrite Hk', ?Hst'; [exact Hb'|auto].
Qed.

Lemma stays_no_close t o t' : stays t o t' → ECloseCb ∉ drop (length (c_trace t)) (c_trace t').
Proof. intros (_ & es & -> & H). rewrite drop_trace. intros Hin. by apply H in Hin. Qed.

Lemma pop_next f kq cl q : cbase (f :: kq) cl → cl_jobs cl = KNext :: q → cbase kq (set_jobs cl q).
Proof.
  intros [H1 H3 H4 H5 H6 H7 H8] Eq. rewrite Eq in *. split; simpl in *; try done; [lia|..].
  - intros c Hc. destruct (H4 c Hc) as (? & Ho & ?). split_and!; try done.
    intros q1 j q2 E Hj. by apply (Ho (KNext :: q1) j q2); [rewrite E|].
  - intros c q1 q2 E. destruct (H7 c (KNext :: q1) q2) as (? & Hn & ?); [by rewrite E|]. split_and!; try done.
    intros Hin. apply Hn. by right.
  - intros j Hj. apply H8. by right.
Qed.

Lemma pop_conn j kq cl q : cbase kq cl → cl_jobs cl = KConn j :: q → cbase kq (set_jobs cl q).
Proof.
  intros [H1 H3 H4 H5 H6 H7 H8] Eq. rewrite Eq in *. split; simpl in *; try done.
  - intros c Hc. destruct (H4 c Hc) as (? & Ho & ?). split_and!; try done.
    intros q1 j' q2 E Hj. by apply (Ho (KConn j :: q1) j' q2); [rewrite E|].
  - intros c q1 q2 E. destruct (H7 c (KConn j :: q1) q2) as (? & Hn & ?); [by rewrite E|]. split_and!; try done.
    intros Hin. apply Hn. by right.
  - intros j' Hj. apply H8. by right.
Qed.

Section events.
Variables (cl : TcpClient) (fd e : Z).
Hypothesis Hi : cinv cl.
Hypothesis Hfd : 0 ≤ fd.

Lemma connect_handled inLoop : cl_gone cl = false → cl_started cl = false → handled (client_connect cl inLoop fd e).
Proof.
  intros Hg Hst. destruct Hi as [Hb Hk]. unfold kpart, kqueue in *. destruct (m_connector cl) as [k|] eqn:Ek; [|congruence].
  destruct Hk as (Hki & Hkf & Hid). destruct (Hid Hst) as (I1 & I2 & I3 & I4).
  set (k1 := set_connect k true).
  assert (∃ k' ext, Connector.start inLoop k fd e = Ok k' ∧ kinv k' ∧ fd_ok k' ∧ k_queue k' = k_queue k ++ ext ∧ k_delivered k' = k_delivered k)
    as (k' & ext & E & Hi' & Hf' & Eq & Ed).
  { unfold Connector.start. fold k1. destruct inLoop.
    - destruct (startInLoop_ok k1 fd e) as (k' & E & Hi'); try done.
      destruct (kext_startInLoop k1 k1 _ fd e k' (kext_refl k1 _ eq_refl) E) as ((ext & Eq) & Ed & _).
      exists k', ext. split_and!; try done. by apply (startInLoop_fd k1 fd e).
    - eexists _, [FStartInLoop]. split; [done|]. split_and!; try done.
      unfold starts in I3. split; simpl; unfold starts; simpl; count_simpl; rewrite ?I1, ?I2; try done; lia. }
  right. unfold client_connect, do_connector, get_connector. simpl m_connector. rewrite Ek. cbn [mbind res_bind kstep].
  rewrite E. cbn [mbind res_bind]. rewrite Ed, drop_all, Nat.sub_0_r. eexists. split; [done|]. split; [|by unfold kpart].
  apply (cbase_did _ _ k k' ext); simpl; try done; [by apply cbase_flags| |congruence].
  intros Hm. destruct (m_connection cl) as [c|] eqn:Ec; [|done].
  destruct (cb_conn _ _ Hb c Ec) as (_ & _ & k0 & Hk0 & Hs0). congruence.
Qed.

Lemma user_handled cl0 c o nm t :
  cinv cl0 → cl_objs cl0 !! c = Some (nm, t) → enabled t o → user_op o = true →
  (∀ m, o = OSendOther m → zlen m ≤ max_size) → handled (client_conn fd e cl0 c o).
Proof.
  intros Hi0 Hc He Hu Hsz. eapply client_middle; try done; [by destruct o as [| | | | | | | | |[]|[]| | | | | |]|].
  intros t' Ed Hin. destruct Hi0 as [Hb _]. destruct (cb_objs _ _ Hb c nm t Hc) as (_ & Hok & _).
  by apply (stays_no_close t o t') in Hin; [|apply user_stays; [by apply obj_ok_inv|..]].
Qed.

(** A functor of the queue. *)
Lemma run_handled w : write_fits w → handled (client_run cl w fd e).
Proof.
  intros Hw. unfold client_run. destruct Hi as [Hb Hk]. destruct (cl_jobs cl) as [|[|j] q] eqn:Eq; [by right; exists cl|..].
  - pose proof (cb_next _ _ Hb) as Hn. rewrite Eq in Hn. unfold kqueue in *.
    destruct (m_connector cl) as [k|] eqn:Ek; [|done]. destruct (k_queue k) as [|f kq] eqn:Eqk; [done|].
    destruct (client_connector (set_jobs cl q) (VFunctor fd e) k) as (cl' & E & Hi' & _); try done.
    + simpl. rewrite Eqk. by eapply pop_next.
    + right. rewrite E. eauto.
  - assert (Hi1 : cinv (set_jobs cl q)) by (split; [by eapply pop_conn|exact Hk]).
    destruct (cb_jobs _ _ Hb j) as [[[nm t] Hc] Hj]; [rewrite Eq; by left|].
    destruct (cb_objs _ _ Hb _ nm t Hc) as (_ & Hok & Hnc & _).
    assert (Hset : m_connection (set_jobs cl q) = Some (job_conn j) → settled (set_jobs cl q)).
    { simpl. intros Hm k Hk0. simpl in Hk0. destruct (cb_conn _ _ Hb _ Hm) as (_ & Ho & _).
      unfold kqueue in Ho. rewrite Hk0 in Ho. by apply (Ho [] j q). }
    assert (Hmid : ∀ o, enabled t o → middle_op o = true → (∀ m, o ≠ OSendOther m) → handled (client_conn fd e (set_jobs cl q) (job_conn j) o)).
    { intros o He Hm Ho. eapply client_middle; try done. intros m ->. by destruct (Ho m). }
    destruct j as [c|c|c|c m|c|c|c|c|c|c len]; simpl in Hj, Hc |- *; try done; try (by apply Hmid); try (by right; eauto).
    destruct (cb_destroyed _ _ Hb c [] q Eq) as ((nm1 & t1 & Ht1 & Hst) & _ & Hnq).
    assert (t1 = t ∧ nm1 = nm) as [-> ->] by (split; congruence).
    pose proof (inv_io _ (obj_ok_inv _ Hok)) as Hio.
    assert (TcpConnection.m_state t = TcpConnection.kDisconnected ∧ is_addedToLoop (TcpConnection.m_channel t) = true) as [Hd Had].
    { unfold stage, open_state in Hst. injection Hst as X1 X2 X3. split; [|done]. by destruct (TcpConnection.m_state t). }
    rewrite Hd in Hio. unfold client_conn, get_cobj. simpl. rewrite Hc. cbn [mbind res_bind].
    unfold TcpConnection.connectDestroyed, connected, isNoneEvent. rewrite Hd. simpl. rewrite Hio. simpl. right.
    rewrite drop_trace. simpl. eexists. split; [done|]. split; [|exact Hk].
    eapply (cbase_obj _ (set_jobs cl q)); try done; [by apply Hi1|].
    eapply (obj_ok_step t ODestroyed); [done|split; [done|by right]|].
    simpl. unfold TcpConnection.connectDestroyed, connected, isNoneEvent. rewrite Hd. simpl. by rewrite Hio.
Qed.

(** The destructor. *)
Lemma dtor_handled unique :
  cl_gone cl = false → (m_connection cl ≠ None → ∀ k, m_connector cl = Some k → k_queue k = []) →
  handled (TcpClient_dtor cl unique fd e).
Proof.
  intros Hg Hq. destruct Hi as [Hb Hk]. unfold TcpClient_dtor, get_connector. unfold kpart, kqueue in *.
  destruct (m_connector cl) as [k|] eqn:Ek; [|congruence]. cbn [mbind res_bind]. destruct Hk as (Hki & Hkf & Hid).
  destruct (m_connection cl) as [c|] eqn:Ec.
  - assert (Eq : k_queue k = []) by by apply Hq. rewrite Eq in Hb.
    destruct (cb_conn _ _ Hb c Ec) as ((nm & t & Hc & Ho) & _ & k0 & Hk0 & Hs). assert (k0 = k) as -> by congruence.
    pose proof (ki_chan _ Hki) as Hch. pose proof (ki_resets _ Hki) as Hre. rewrite Eq in Hre.
    assert (Hcn : m_channel k = None) by (destruct (m_channel k) as [[? []]|]; [congruence|done|done]).
    assert (Hb1 : cbase [] (set_connector (destroy_client cl (cl_detached cl ∪ {[c]}) (cl_remover cl)) None)).
    { destruct Hb as [H1 H3 H4 H5 H6 H7 H8]. split; simpl; try done.
      intros c' nm' t' Ht'. destruct (H3 c' nm' t' Ht') as (? & ? & ? & Hop). split_and!; try done.
      intros Hop'. right. destruct (Hop Hop') as [?|?]; set_solver. }
    assert (Hcn' : Connector_dtor k = Ok tt) by (unfold Connector_dtor; by rewrite Hcn).
    destruct (cb_objs _ _ Hb c nm t Hc) as (_ & Hok & _).
    right. destruct unique.
    + unfold client_conn, get_cobj. simpl. rewrite Hc. simpl. unfold forceClose. rewrite Ho. simpl. rewrite drop_trace. simpl.
      rewrite Hcn'. simpl. eexists. split; [done|]. split; [|done].
      eapply (cbase_add [] (set_cobj (set_connector (destroy_client cl _ _) None) c nm _) (JForceClose c)); try done.
      * eapply cbase_stays; [exact Hb1|done| |].
        -- eapply (obj_ok_step t OForceClose); [done|done|]. simpl. unfold forceClose. by rewrite Ho.
        -- pose proof (inv_added _ (obj_ok_inv _ Hok) Ho). by apply stage_open.
      * simpl. by rewrite lookup_insert_eq.
    + simpl. rewrite Hcn'. simpl. eexists. split; [done|]. split; [exact Hb1|done].
  - destruct (client_connector cl VStop k) as (cl1 & E & [Hb1 Hk1] & Hg1 & Hstop); try done.
    + unfold kpart. by rewrite Ek.
    + destruct (Hstop eq_refl) as [Hm1 Hcon]. right. rewrite E. simpl. eexists. split; [done|].
      split; [|unfold kpart in *; simpl; by destruct (m_connector cl1) as [k1|]].
      destruct Hb1 as [H1 H3 H4 H5 H6 H7 H8]. split; simpl; try done.
      intros c' nm' t' Ht'. destruct (H3 c' nm' t' Ht') as (? & ? & ? & Hop). split_and!; try done.
      intros Hop'. right. destruct (Hop Hop') as [?|?]; [congruence|done].
Qed.
End events.

Lemma allows_handled cl v k :
  cinv cl → m_connector cl = Some k → allowed k v →
  match v with Connector.VTimer fd _ => 0 ≤ fd | VFunctor _ _ => False | _ => True end →
  handled (do_connector cl v).
Proof.
  intros [Hb Hk] Ek Ha Hf. unfold kqueue in Hb. rewrite Ek in Hb.
  destruct (client_connector cl v k) as (cl' & E & Hi' & _); try done; [by destruct v|by destruct v|].
  right. rewrite E. eauto.
Qed.

Lemma cstep_handled cl fd e v : cinv cl → 0 ≤ fd → cpossible cl v → handled (cstep cl fd e v).
Proof.
  intros Hi Hfd Hp. pose proof Hi as [Hb Hk].
  destruct v as [inLoop|inLoop| | |unique|w| |err self| |c o|c o|c]; simpl in Hp |- *.
  - destruct Hp. by apply connect_handled.
  - unfold client_disconnect. simpl m_connection.
    assert (Hi1 : cinv (set_flags cl (is_retry cl) false (cl_started cl))) by (split; [by apply cbase_flags|exact Hk]).
    destruct (m_connection cl) as [c|] eqn:Ec; [|by right; eauto].
    destruct (cb_conn _ _ Hb c Ec) as ((nm & t & Hc & _) & _). by eapply user_handled.
  - unfold client_stop. destruct (m_connector cl) as [k|] eqn:Ek; [|unfold kpart in Hk; rewrite Ek in Hk; congruence].
    eapply allows_handled; [|exact Ek|done|done]. split; [by apply cbase_flags|exact Hk].
  - right. eexists. split; [done|]. split; [by apply cbase_flags|exact Hk].
  - destruct Hp. by apply dtor_handled.
  - by apply run_handled.
  - destruct Hp as (k & Ek & Ha). by eapply allows_handled.
  - destruct Hp as (k & Ek & Ha). by eapply allows_handled.
  - destruct Hp as (k & Ek & Ha). by eapply allows_handled.
  - destruct Hp as (Ho & Hset & nm & t & Hc & _ & He). eapply client_middle; try done; [by destruct o|by intros m ->].
  - destruct Hp as (Ho & (nm & t & Hc & He) & Hsz). eapply user_handled; try done. by intros m ->.
  - destruct Hp as (_ & [[nm t] Hc]). by eapply user_handled.
Qed.

Inductive cruns : TcpClient → TcpClient → Prop :=
  | cruns_nil cl : cruns cl cl
  | cruns_step cl fd e v cl1 cl2 :
      0 ≤ fd → cpossible cl v → cstep cl fd e v = Ok cl1 → cruns cl1 cl2 → cruns cl cl2.

Lemma cruns_inv cl cl' : cruns cl cl' → cinv cl → cinv cl'.
Proof.
  induction 1 as [|cl fd e v cl1 cl2 Hfd Hp E Hr IH]; [done|]. intros Hi. apply IH.
  destruct (cstep_handled cl fd e v Hi Hfd Hp) as [(w & E')|(cl1' & E' & Hi1)]; congruence.
Qed.

Lemma ctor_cinv name wcb : cinv (TcpClient_ctor name wcb).
Proof.
  split.
  - split; simpl; try done.
    + by intros c q1 q2 E%(f_equal length); rewrite length_app in E; simpl in E; lia.
    + by intros j Hj%elem_of_nil.
  - unfold kpart. simpl. split_and!; [|done|done]. split; simpl; try done. all: unfold starts; simpl; change (count FStartInLoop []) with 0%nat; lia.
Qed.

(** ** Properties *)

End Ops.

Definition no_peer (fd : Z) : list ascii := [].

(** connect() in the loop, the attempt succeeds, the peer closes; with retry
    the next attempt is under way. *)
Definition retrying : TcpClient := enableRetry (TcpClient_ctor (chars "cl") true).

Definition lost_connection : list cevent :=
  [CConnect true; CWritable 0 false; CRun all_bytes; CIo 1 OHangup].

Definition cfold (cl : TcpClient) (vs : list cevent) : res TcpClient :=
  foldM (λ cl v, cstep no_peer cl 7 EINPROGRESS v) cl vs.

Definition cafter (r : res TcpClient) : TcpClient := match r with Ok cl => cl | Fail _ => retrying end.

Lemma cruns_demo : cruns no_peer (TcpClient_ctor (chars "cl") true) (cafter (cfold retrying lost_connection)).
Proof.
  eapply (cruns_step _ _ 7 EINPROGRESS CEnableRetry); [lia|reflexivity|reflexivity|].
  eapply (cruns_step _ _ 7 EINPROGRESS (CConnect true)); [lia|split; reflexivity|vm_compute; reflexivity|].
  eapply (cruns_step _ _ 7 EINPROGRESS (CWritable 0 false)); [lia|..|vm_compute; reflexivity|].
  { eexists. split; [reflexivity|]. eexists. reflexivity. }
  eapply (cruns_step _ _ 7 EINPROGRESS (CRun all_bytes)); [lia|apply all_bytes_fits|vm_compute; reflexivity|].
  eapply (cruns_step _ _ 7 EINPROGRESS (CIo 1 OHangup)); [lia|..|vm_compute; reflexivity|].
  { split; [reflexivity|]. split; [by intros k [= <-] ?%elem_of_nil|]. eexists _, _. split; [reflexivity|].
    split; [reflexivity|vm_compute; discriminate]. }
  vm_compute. apply cruns_nil.
Qed.



(** Without retry the connector stays in state kConnected when its connection
    is lost: a second connect() fails the assertion of startInLoop. *)
Theorem client_reconnect_aborts :
  let cl := TcpClient_ctor (chars "cl") true in
  ∃ cl1, cfold cl (lost_connection ++ [CRun all_bytes]) = Ok cl1 ∧ m_connection cl1 = None ∧ cl_jobs cl1 = [] ∧
    cstep no_peer cl1 8 EINPROGRESS (CConnect true) = Fail (FAssert "m_state == kDisconnected").
Proof. exists (cafter (cfold (TcpClient_ctor (chars "cl") true) (lost_connection ++ [CRun all_bytes]))). split_and!; vm_compute; reflexivity. Qed.

(** A client destroyed during an attempt: its timer stops the connector a
    second time and then drops the last pointer to it, and the stopInLoop that
    was queued runs on a freed object. *)
Theorem client_remover_dangles :
  let cl := TcpClient_ctor (chars "cl") true in
  let cl1 := cafter (cfold cl [CConnect true; CDestroy true; CRun all_bytes; CRun all_bytes]) in
  let cl2 := cafter (run_remover no_peer cl1) in
  cfold cl [CConnect true; CDestroy true; CRun all_bytes; CRun all_bytes] = Ok cl1 ∧ cl_remover cl1 = true ∧
  run_remover no_peer cl1 = Ok cl2 ∧ client_run no_peer cl2 all_bytes 8 0 = Fail (FUndef "use of a destroyed Connector").
Proof. split_and!; vm_compute; reflexivity. Qed.

(** stop() followed by the destruction of a connected client: the stopInLoop it
    queued runs on a freed connector. *)
Theorem client_stop_dangles :
  let cl := TcpClient_ctor (chars "cl") true in
  let cl1 := cafter (cfold cl [CConnect true; CWritable 0 false; CRun all_bytes; CStop; CDestroy false]) in
  cfold cl [CConnect true; CWritable 0 false; CRun all_bytes; CStop; CDestroy false] = Ok cl1 ∧
  client_run no_peer cl1 all_bytes 8 0 = Fail (FUndef "use of a destroyed Connector").
Proof. split_and!; vm_compute; reflexivity. Qed.
