(* ===== verification/Http.v ===== *)
(** * HTTP: src/dc/net/http/httpRequest.h, httpContext.{h,cc},
      httpResponse.{h,cc}, httpServer.{h,cc}

    The request parser reads lines from the connection's [Buffer]; it is
    proved equal to a parser on byte strings, so that what it accepts can be
    stated without indices.  HttpServer's handlers return the calls they make
    on the connection as a list. *)

From S2P Require Import Prelude Buffer.

Open Scope Z_scope.

Abbreviation bytes := (list ascii).

Definition SPACE : ascii := " "%char.
Definition COLON : ascii := ":"%char.
Definition QUESTION : ascii := "?"%char.

(** isspace in the C locale. *)
Definition isspace (c : ascii) : bool :=
  bool_decide (char_val c ∈ [32; 9; 10; 11; 12; 13]).

(** ** HttpRequest *)

Inductive Method : Type := kInvalid | kGet | kPost | kDelete | kPut | kHead.
Inductive Version : Type := kUnknown | kHttp10 | kHttp11.

#[global] Instance Method_eq_dec : EqDecision Method.
Proof. solve_decision. Defined.
#[global] Instance Version_eq_dec : EqDecision Version.
Proof. solve_decision. Defined.

Record HttpRequest : Type := mkRequest {
  path_ : bytes;
  query_ : bytes;
  receiveTime_ : Z;
  headers_ : gmap bytes bytes;
  method_ : Method;
  version_ : Version;
}.

Definition HttpRequest_ctor : HttpRequest := mkRequest [] [] 0 ∅ kInvalid kUnknown.

Definition method_of (m : bytes) : Method :=
  if bool_decide (m = chars "GET") then kGet
  else if bool_decide (m = chars "POST") then kPost
  else if bool_decide (m = chars "PUT") then kPut
  else if bool_decide (m = chars "DELETE") then kDelete
  else kInvalid.

(** [HttpRequest::setMethod] *)
Definition setMethod (r : HttpRequest) (m : bytes) : res (HttpRequest * bool) :=
  cassert (bool_decide (method_ r = kInvalid)) "method_ == kInvalid";;
  let r' := mkRequest (path_ r) (query_ r) (receiveTime_ r) (headers_ r) (method_of m) (version_ r) in
  Ok (r', negb (bool_decide (method_ r' = kInvalid))).

(** [HttpRequest::methodString] *)
Definition methodString (r : HttpRequest) : bytes :=
  match method_ r with
  | kGet => chars "GET"
  | kPost => chars "POST"
  | kPut => chars "PUT"
  | kDelete => chars "DELETE"
  | kHead => chars "HEAD"
  | kInvalid => chars "UNKNOWN"
  end.

Definition setPath (r : HttpRequest) (p : bytes) : HttpRequest :=
  mkRequest p (query_ r) (receiveTime_ r) (headers_ r) (method_ r) (version_ r).
Definition setQuery (r : HttpRequest) (q : bytes) : HttpRequest :=
  mkRequest (path_ r) q (receiveTime_ r) (headers_ r) (method_ r) (version_ r).
Definition setVersion (r : HttpRequest) (v : Version) : HttpRequest :=
  mkRequest (path_ r) (query_ r) (receiveTime_ r) (headers_ r) (method_ r) v.
Definition setReceiveTime (r : HttpRequest) (t : Z) : HttpRequest :=
  mkRequest (path_ r) (query_ r) t (headers_ r) (method_ r) (version_ r).

Fixpoint skip_space (s : bytes) : bytes :=
  match s with [] => [] | c :: s' => if isspace c then skip_space s' else s end.

(** Dropping trailing spaces one [resize] at a time. *)
Definition trim_right (s : bytes) : bytes := reverse (skip_space (reverse s)).

(** [HttpRequest::addHeader]: the line, with the position of its colon. *)
Definition addHeader (r : HttpRequest) (line : bytes) (colon : nat) : HttpRequest :=
  let field := take colon line in
  let value := trim_right (skip_space (drop (S colon) line)) in
  mkRequest (path_ r) (query_ r) (receiveTime_ r) (<[field := value]> (headers_ r)) (method_ r) (version_ r).

(** [HttpRequest::getHeader] *)
Definition getHeader (r : HttpRequest) (field : bytes) : bytes := default [] (headers_ r !! field).

(** [HttpRequest::swap] *)
Definition swap (a b : HttpRequest) : HttpRequest * HttpRequest := (b, a).

(** ** HttpContext *)

Inductive ParserState : Type := kExpectRequestLine | kExpectHeaders | kExpectBody | kGotAll.

#[global] Instance ParserState_eq_dec : EqDecision ParserState.
Proof. solve_decision. Defined.

Record HttpContext : Type := mkContext { state_ : ParserState; request_ : HttpRequest }.

Definition HttpContext_ctor : HttpContext := mkContext kExpectRequestLine HttpRequest_ctor.
Definition gotAll (c : HttpContext) : bool := bool_decide (state_ c = kGotAll).
(** [HttpContext::reset] *)
Definition reset (c : HttpContext) : HttpContext := mkContext kExpectRequestLine HttpRequest_ctor.

(** [HttpContext::processRequestLine] on the bytes before the CRLF. *)
Definition processRequestLine (r : HttpRequest) (line : bytes) : res (HttpRequest * bool) :=
  let sp := std_find SPACE line in
  if Nat.ltb sp (length line) then
    '(r1, ok) ← setMethod r (take sp line);
    if ok : bool then
      let rest := drop (S sp) line in
      let sp2 := std_find SPACE rest in
      if Nat.ltb sp2 (length rest) then
        let target := take sp2 rest in
        let q := std_find QUESTION target in
        let r2 := if Nat.ltb q (length target)
                  then setQuery (setPath r1 (take q target)) (drop q target)
                  else setPath r1 target in
        let version := drop (S sp2) rest in
        if Nat.eqb (length version) 8 && bool_decide (take 7 version = chars "HTTP/1.") then
          if bool_decide (drop 7 version = chars "1") then Ok (setVersion r2 kHttp11, true)
          else if bool_decide (drop 7 version = chars "0") then Ok (setVersion r2 kHttp10, true)
          else Ok (r2, false)
        else Ok (r2, false)
      else Ok (r1, false)
    else Ok (r1, false)
  else Ok (r, false).

(** One turn of the while loop of [HttpContext::parseRequest]: the context,
    the buffer, and whether to go on; [inl ok] when the loop ends. *)
Inductive turn : Type := Again | Stop (ok : bool).

Definition line_of (b : Buffer) (crlf : Z) : res bytes := read_at (peek b) (crlf - peek b) (m_buffers b).

Definition parse_turn (c : HttpContext) (b : Buffer) (receiveTime : Z) : res (HttpContext * Buffer * turn) :=
  match state_ c with
  | kExpectRequestLine =>
      match findCRLF b with
      | None => Ok (c, b, Stop true)
      | Some crlf =>
          line ← line_of b crlf;
          '(r, ok) ← processRequestLine (request_ c) line;
          if ok : bool then
            b' ← retrieveUntil b (crlf + 2);
            Ok (mkContext kExpectHeaders (setReceiveTime r receiveTime), b', Again)
          else Ok (mkContext kExpectRequestLine r, b, Stop false)
      end
  | kExpectHeaders =>
      match findCRLF b with
      | None => Ok (c, b, Stop true)
      | Some crlf =>
          line ← line_of b crlf;
          let colon := std_find COLON line in
          b' ← retrieveUntil b (crlf + 2);
          if Nat.ltb colon (length line)
          then Ok (mkContext kExpectHeaders (addHeader (request_ c) line colon), b', Again)
          else Ok (mkContext kGotAll (request_ c), b', Stop true)
      end
  | kExpectBody | kGotAll => Ok (c, b, Again)
  end.

(** [HttpContext::parseRequest]; [None] when the fuel runs out. *)
Fixpoint parse_loop (fuel : nat) (c : HttpContext) (b : Buffer) (receiveTime : Z) :
    res (option (HttpContext * Buffer * bool)) :=
  match fuel with
  | O => Ok None
  | S fuel' =>
      r ← parse_turn c b receiveTime;
      let '(c', b', t) := r : HttpContext * Buffer * turn in
      match t with
      | Stop ok => Ok (Some (c', b', ok))
      | Again => parse_loop fuel' c' b' receiveTime
      end
  end.

(** Every turn that goes on consumes two bytes at least. *)
Definition parseRequest (c : HttpContext) (b : Buffer) (receiveTime : Z) :
    res (option (HttpContext * Buffer * bool)) :=
  parse_loop (S (Z.to_nat (readableBytes b))) c b receiveTime.

(** ** HttpResponse *)

Inductive HttpStatusCode : Type := kUnknownStatus | k200ok | k301MovedPermanentyle | k400BadRequest | k404NotFound.

Definition status_value (c : HttpStatusCode) : Z :=
  match c with
  | kUnknownStatus => 0
  | k200ok => 200
  | k301MovedPermanentyle => 301
  | k400BadRequest => 400
  | k404NotFound => 404
  end.

(** std::map<string, string>, as the list of its entries in key order. *)
Fixpoint str_ltb (a b : bytes) : bool :=
  match a, b with
  | _, [] => false
  | [], _ :: _ => true
  | x :: a', y :: b' =>
      (char_val x <? char_val y) || ((char_val x =? char_val y) && str_ltb a' b')
  end.

Fixpoint smap_set (k v : bytes) (m : list (bytes * bytes)) : list (bytes * bytes) :=
  match m with
  | [] => [(k, v)]
  | (k', v') :: m' =>
      if str_ltb k k' then (k, v) :: m
      else if str_ltb k' k then (k', v') :: smap_set k v m'
      else (k', v) :: m'
  end.

Record HttpResponse : Type := mkResponse {
  rheaders_ : list (bytes * bytes);
  statusCode_ : HttpStatusCode;
  statusMessage_ : bytes;
  closeConnection_ : bool;
  body_ : bytes;
}.

Definition HttpResponse_ctor (close : bool) : HttpResponse := mkResponse [] kUnknownStatus [] close [].
Definition setStatusCode (r : HttpResponse) (c : HttpStatusCode) : HttpResponse :=
  mkResponse (rheaders_ r) c (statusMessage_ r) (closeConnection_ r) (body_ r).
Definition setStatusMessage (r : HttpResponse) (m : bytes) : HttpResponse :=
  mkResponse (rheaders_ r) (statusCode_ r) m (closeConnection_ r) (body_ r).
Definition setCloseConnection (r : HttpResponse) (on : bool) : HttpResponse :=
  mkResponse (rheaders_ r) (statusCode_ r) (statusMessage_ r) on (body_ r).
Definition response_addHeader (r : HttpResponse) (k v : bytes) : HttpResponse :=
  mkResponse (smap_set k v (rheaders_ r)) (statusCode_ r) (statusMessage_ r) (closeConnection_ r) (body_ r).
Definition setContentType (r : HttpResponse) (t : bytes) : HttpResponse :=
  response_addHeader r (chars "Content-Type") t.
Definition setBody (r : HttpResponse) (b : bytes) : HttpResponse :=
  mkResponse (rheaders_ r) (statusCode_ r) (statusMessage_ r) (closeConnection_ r) b.

(** The pieces [HttpResponse::appendToBuffer] appends, in order. *)
Definition response_pieces (r : HttpResponse) : list bytes :=
  [snprintf 32 (chars "HTTP/1.1 " ++ decimal (status_value (statusCode_ r)) ++ chars " "); statusMessage_ r; CRLF] ++
  (if closeConnection_ r then [chars "Connection: close" ++ CRLF]
   else [snprintf 32 (chars "Content-Length: " ++ decimal (zlen (body_ r)) ++ CRLF);
         chars "Connection: Keep-Alive" ++ CRLF]) ++
  concat (map (λ '(k, v), [k; [COLON]; v; CRLF]) (rheaders_ r)) ++ [CRLF; body_ r].

(** [HttpResponse::appendToBuffer] *)
Definition appendToBuffer (r : HttpResponse) (output : Buffer) : res Buffer :=
  foldM append output (response_pieces r).

(** ** HttpServer *)

(** Calls on the connection. *)
Inductive action : Type := ASend (data : bytes) | AShutdown.

Definition defaultHttpCallback (_ : HttpRequest) (resp : HttpResponse) : HttpResponse :=
  setCloseConnection (setStatusMessage (setStatusCode resp k404NotFound) (chars "Not Found")) true.

Definition bad_request : bytes := chars "HTTP/1.1 400 Bad Request" ++ CRLF ++ CRLF.

Section server.
Context (httpCallback_ : HttpRequest → HttpResponse → HttpResponse).

(** [HttpServer::onRequest] *)
Definition onRequest (req : HttpRequest) : res (list action) :=
  let connection := getHeader req (chars "Connection") in
  let close := bool_decide (connection = chars "close") ||
               (bool_decide (version_ req = kHttp10) && negb (bool_decide (connection = chars "Keep-Alive"))) in
  let resp := httpCallback_ req (HttpResponse_ctor close) in
  b0 ← Buffer_ctor kInitialSize;
  b ← appendToBuffer resp b0;
  data ← read_at (peek b) (readableBytes b) (m_buffers b);
  Ok ([ASend data] ++ if closeConnection_ resp then [AShutdown] else []).

(** [HttpServer::onMessage] *)
Definition onMessage (c : HttpContext) (buf : Buffer) (receiveTime : Z) :
    res (option (HttpContext * Buffer * list action)) :=
  r ← parseRequest c buf receiveTime;
  match r : option (HttpContext * Buffer * bool) with
  | None => Ok None
  | Some (c1, b1, ok) =>
      let acts := if ok then [] else [ASend bad_request; AShutdown] in
      if gotAll c1 then
        more ← onRequest (request_ c1);
        Ok (Some (reset c1, b1, acts ++ more))
      else Ok (Some (c1, b1, acts))
  end.
End server.

(** ** The parser on byte strings *)

Definition split_line (s : bytes) : option (bytes * bytes) :=
  let i := std_search CRLF s in
  if Nat.ltb i (length s) then Some (take i s, drop (i + 2) s) else None.

Definition spec_turn (c : HttpContext) (s : bytes) (receiveTime : Z) : res (HttpContext * bytes * turn) :=
  match state_ c with
  | kExpectRequestLine =>
      match split_line s with
      | None => Ok (c, s, Stop true)
      | Some (line, rest) =>
          '(r, ok) ← processRequestLine (request_ c) line;
          if ok : bool then Ok (mkContext kExpectHeaders (setReceiveTime r receiveTime), rest, Again)
          else Ok (mkContext kExpectRequestLine r, s, Stop false)
      end
  | kExpectHeaders =>
      match split_line s with
      | None => Ok (c, s, Stop true)
      | Some (line, rest) =>
          let colon := std_find COLON line in
          if Nat.ltb colon (length line)
          then Ok (mkContext kExpectHeaders (addHeader (request_ c) line colon), rest, Again)
          else Ok (mkContext kGotAll (request_ c), rest, Stop true)
      end
  | kExpectBody | kGotAll => Ok (c, s, Again)
  end.

Fixpoint spec_loop (fuel : nat) (c : HttpContext) (s : bytes) (receiveTime : Z) :
    res (option (HttpContext * bytes * bool)) :=
  match fuel with
  | O => Ok None
  | S fuel' =>
      r ← spec_turn c s receiveTime;
      let '(c', s', t) := r : HttpContext * bytes * turn in
      match t with
      | Stop ok => Ok (Some (c', s', ok))
      | Again => spec_loop fuel' c' s' receiveTime
      end
  end.

(** The states in which onMessage calls the parser. *)
Definition at_line (c : HttpContext) : Prop := state_ c = kExpectRequestLine ∨ state_ c = kExpectHeaders.

(** ** Refinement *)

Lemma split_line_spec s :
  match split_line s with
  | Some (line, rest) => s = line ++ CRLF ++ rest ∧ (length rest + 2 ≤ length s)%nat
  | None => no_crlf s
  end.
Proof.
  unfold split_line. destruct (search_crlf_spec s) as [(Hi & Hs & _)|(Hi & H)].
  - rewrite (proj2 (Nat.ltb_lt _ _)) by done. split; [done|].
    apply (f_equal length) in Hs. rewrite !length_app in Hs. simpl in Hs. lia.
  - by rewrite (proj2 (Nat.ltb_ge _ _)) by lia.
Qed.

(** findCRLF on the buffer is split_line on its content. *)
Lemma findCRLF_split b :
  wf b →
  match split_line (content b) with
  | Some (line, rest) => findCRLF b = Some (peek b + zlen line) ∧ line_of b (peek b + zlen line) = Ok line ∧
      ∃ b', retrieveUntil b (peek b + zlen line + 2) = Ok b' ∧ wf b' ∧ content b' = rest
  | None => findCRLF b = None
  end.
Proof.
  intros Hw. pose proof (split_line_spec (content b)) as Hspec. unfold split_line in *.
  pose proof (zlen_content b Hw) as Hl. rewrite readable_wf in Hl by done. unfold zlen in Hl.
  unfold findCRLF, beginWrite, peek. fold (content b).
  destruct (Nat.ltb (std_search CRLF (content b)) (length (content b))) eqn:E.
  - apply Nat.ltb_lt in E. rewrite (proj2 (Z.eqb_neq _ _)) by lia.
    set (line := take _ _) in *. set (rest := drop _ _) in *. destruct Hspec as [Hs Hr].
    assert (zlen line = Z.of_nat (std_search CRLF (content b))) as Hll.
    { unfold zlen, line. rewrite length_take. lia. }
    assert (Htot : zlen (content b) = zlen line + 2 + zlen rest).
    { rewrite Hs at 1. rewrite !zlen_app. change (zlen CRLF) with 2. lia. }
    pose proof (zlen_nonneg line). pose proof (zlen_nonneg rest).
    rewrite zlen_content in Htot by done. split_and!; [by rewrite Hll| |].
    + unfold line_of, peek. replace (m_readerIndex b + zlen line - m_readerIndex b) with (zlen line) by lia.
      rewrite read_peek by (done || lia). f_equal. rewrite Hs at 1. rewrite ztake_app_l by lia. by apply ztake_all.
    + unfold retrieveUntil, peek, beginWrite. rewrite readable_wf in Htot by done.
      rewrite !cassert_true by (apply Z.leb_le; lia). cbn [mbind res_bind].
      replace (m_readerIndex b + zlen line + 2 - m_readerIndex b) with (zlen line + 2) by lia.
      assert (readableBytes b < 2 ^ 64) by apply uwrap_range, Zle_0_pos.
      rewrite u64_small by (rewrite readable_wf in * by done; lia).
      destruct (retrieve_ok b (zlen line + 2)) as (b' & Eb & Hw' & Hc' & _); [done|rewrite readable_wf by done; lia|].
      exists b'. split_and!; [done..|]. rewrite Hc', Hs, app_assoc. rewrite zdrop_app_r by (rewrite zlen_app; change (zlen CRLF) with 2; lia).
      rewrite zlen_app. change (zlen CRLF) with 2. replace (zlen line + 2 - (zlen line + 2)) with 0 by lia. apply zdrop_0.
  - apply Nat.ltb_ge in E. pose proof (std_search_le CRLF (content b)).
    rewrite (proj2 (Z.eqb_eq _ _)) by lia. done.
Qed.

Lemma turn_refines c b t :
  wf b →
  match spec_turn c (content b) t with
  | Ok (c', s', tn) => ∃ b', parse_turn c b t = Ok (c', b', tn) ∧ wf b' ∧ content b' = s'
  | Fail f => parse_turn c b t = Fail f
  end.
Proof.
  intros Hw. unfold spec_turn, parse_turn. pose proof (findCRLF_split b Hw) as Hf.
  destruct (state_ c); [| |by exists b|by exists b].
  - destruct (split_line (content b)) as [[line rest]|]; [|rewrite Hf; by exists b].
    destruct Hf as (-> & Hline & b' & Eb & Hw' & Hc'). rewrite Hline. cbn [mbind res_bind].
    destruct (processRequestLine (request_ c) line) as [[r []]|f]; cbn [mbind res_bind]; [| |done].
    + rewrite Eb. by exists b'.
    + by exists b.
  - destruct (split_line (content b)) as [[line rest]|]; [|rewrite Hf; by exists b].
    destruct Hf as (-> & Hline & b' & Eb & Hw' & Hc'). rewrite Hline. cbn [mbind res_bind].
    rewrite Eb. cbn [mbind res_bind]. destruct (Nat.ltb _ _); by exists b'.
Qed.

Lemma loop_refines n : ∀ c b t,
  wf b →
  match spec_loop n c (content b) t with
  | Ok (Some (c', s', ok)) => ∃ b', parse_loop n c b t = Ok (Some (c', b', ok)) ∧ wf b' ∧ content b' = s'
  | Ok None => parse_loop n c b t = Ok None
  | Fail f => parse_loop n c b t = Fail f
  end.
Proof.
  induction n as [|n IH]; intros c b t Hw; simpl; [done|]. pose proof (turn_refines c b t Hw) as Ht.
  destruct (spec_turn c (content b) t) as [[[c' s'] tn]|f]; simpl.
  - destruct Ht as (b' & Eb & Hw' & <-). rewrite Eb. simpl. destruct tn; [by apply IH|]. by exists b'.
  - by rewrite Ht.
Qed.

(** ** Termination *)

Lemma turn_consumes c s t c' s' :
  at_line c → spec_turn c s t = Ok (c', s', Again) → at_line c' ∧ (length s' < length s)%nat.
Proof.
  unfold spec_turn. pose proof (split_line_spec s) as Hs. intros [E|E]; rewrite E.
  - destruct (split_line s) as [[line rest]|]; [|done]. destruct Hs as [_ Hl].
    destruct (processRequestLine (request_ c) line) as [[r []]|f]; simpl; try done.
    intros [= <- <-]. split; [by right|lia].
  - destruct (split_line s) as [[line rest]|]; [|done]. destruct Hs as [_ Hl].
    destruct (Nat.ltb _ _); [|done]. intros [= <- <-]. split; [by right|lia].
Qed.

Lemma loop_terminates n : ∀ c s t, at_line c → (length s < n)%nat → spec_loop n c s t ≠ Ok None.
Proof.
  induction n as [|n IH]; intros c s t Ha Hn; [lia|]. simpl.
  destruct (spec_turn c s t) as [[[c' s'] []]|f] eqn:E; simpl; try done.
  destruct (turn_consumes _ _ _ _ _ Ha E). apply IH; [done|lia].
Qed.

(** More fuel changes nothing. *)
Lemma loop_fuel n : ∀ m c s t, spec_loop n c s t ≠ Ok None → (n ≤ m)%nat → spec_loop m c s t = spec_loop n c s t.
Proof.
  induction n as [|n IH]; intros m c s t Hn Hm; [done|]. destruct m as [|m]; [lia|]. simpl in *.
  destruct (spec_turn c s t) as [[[c' s'] []]|f]; simpl in *; try done. apply IH; [done|lia].
Qed.

Definition parse (c : HttpContext) (s : bytes) (t : Z) : res (option (HttpContext * bytes * bool)) :=
  spec_loop (S (length s)) c s t.

Lemma parse_step c s t :
  at_line c →
  parse c s t = (r ← spec_turn c s t;
                 let '(c', s', tn) := r : HttpContext * bytes * turn in
                 match tn with Stop ok => Ok (Some (c', s', ok)) | Again => parse c' s' t end).
Proof.
  intros Ha. unfold parse at 1. cbn [spec_loop].
  destruct (spec_turn c s t) as [[[c' s'] []]|f] eqn:E; simpl; try done.
  destruct (turn_consumes _ _ _ _ _ Ha E) as [Ha' Hl]. unfold parse. apply loop_fuel; [|lia].
  apply loop_terminates; [done|lia].
Qed.

Lemma parseRequest_parse c b t :
  wf b →
  match parse c (content b) t with
  | Ok (Some (c', s', ok)) => ∃ b', parseRequest c b t = Ok (Some (c', b', ok)) ∧ wf b' ∧ content b' = s'
  | Ok None => parseRequest c b t = Ok None
  | Fail f => parseRequest c b t = Fail f
  end.
Proof.
  intros Hw. unfold parseRequest, parse.
  assert (Z.to_nat (readableBytes b) = length (content b)) as ->
    by (rewrite <- zlen_content by done; unfold zlen; lia).
  by apply loop_refines.
Qed.

(** ** Splitting the input *)

Lemma search_app a b : (std_search CRLF a < length a)%nat → std_search CRLF (a ++ b) = std_search CRLF a.
Proof.
  induction a as [|x a IH]; [simpl; lia|]. intros Hlt. cbn [app std_search] in *.
  destruct (starts CRLF (x :: a)) eqn:E.
  - apply starts_spec in E as [l' E]. rewrite app_comm_cons, E, <- app_assoc.
    by assert (starts CRLF (CRLF ++ l' ++ b) = true) as -> by (apply starts_spec; by eexists).
  - simpl in Hlt. destruct a as [|y a]; [simpl in Hlt; lia|].
    assert (starts CRLF (x :: (y :: a) ++ b) = starts CRLF (x :: y :: a)) as -> by done.
    rewrite E. f_equal. apply IH. lia.
Qed.

Lemma split_line_app a b line rest : split_line a = Some (line, rest) → split_line (a ++ b) = Some (line, rest ++ b).
Proof.
  pose proof (split_line_spec a) as Hspec. unfold split_line in *.
  destruct (Nat.ltb (std_search CRLF a) (length a)) eqn:E; [|done]. apply Nat.ltb_lt in E.
  intros [= <- <-]. rewrite search_app by done. rewrite length_app.
  rewrite (proj2 (Nat.ltb_lt _ _)) by lia. destruct Hspec as [Hs Hr].
  assert (std_search CRLF a + 2 ≤ length a)%nat.
  { apply (f_equal length) in Hs. rewrite !length_app, length_take in Hs. simpl in Hs. lia. }
  rewrite take_app_le, drop_app_le by lia. done.
Qed.

Lemma turn_app c a b t c' a' :
  spec_turn c a t = Ok (c', a', Again) → at_line c → spec_turn c (a ++ b) t = Ok (c', a' ++ b, Again).
Proof.
  unfold spec_turn. intros H [E|E]; rewrite E in *.
  - destruct (split_line a) as [[line rest]|] eqn:Es; [|done]. rewrite (split_line_app _ _ _ _ Es).
    destruct (processRequestLine (request_ c) line) as [[r []]|f]; simpl in *; try done. by injection H as <- <-.
  - destruct (split_line a) as [[line rest]|] eqn:Es; [|done]. rewrite (split_line_app _ _ _ _ Es).
    destruct (Nat.ltb _ _); [|done]. by injection H as <- <-.
Qed.

Lemma turn_wait c a t c' a' :
  spec_turn c a t = Ok (c', a', Stop true) → state_ c' ≠ kGotAll → at_line c → c' = c ∧ a' = a.
Proof.
  unfold spec_turn. intros H Hg [E|E]; rewrite E in *.
  - destruct (split_line a) as [[line rest]|] eqn:Es; [|by injection H as <- <-].
    destruct (processRequestLine (request_ c) line) as [[r []]|f]; simpl in *; done.
  - destruct (split_line a) as [[line rest]|] eqn:Es; [|by injection H as <- <-].
    destruct (Nat.ltb _ _); [done|]. injection H as <- <-. done.
Qed.

Lemma loop_split n : ∀ c a b t c1 a1,
  at_line c → spec_loop n c a t = Ok (Some (c1, a1, true)) → state_ c1 ≠ kGotAll →
  at_line c1 ∧ parse c (a ++ b) t = parse c1 (a1 ++ b) t.
Proof.
  induction n as [|n IH]; intros c a b t c1 a1 Ha E Hg; simpl in E; [done|].
  destruct (spec_turn c a t) as [[[c' s'] tn]|f] eqn:Et; simpl in E; [|done]. destruct tn.
  - destruct (turn_consumes _ _ _ _ _ Ha Et) as [Ha' _].
    rewrite (parse_step c) by done. rewrite (turn_app _ _ b _ _ _ Et Ha). simpl. by apply (IH c' s').
  - injection E as -> -> ->. by destruct (turn_wait _ _ _ _ _ Et Hg Ha) as [-> ->].
Qed.

(** A turn that ends the request, or refuses it, does so whatever follows. *)
Lemma turn_final c a b t c' a' ok :
  spec_turn c a t = Ok (c', a', Stop ok) → ok = false ∨ state_ c' = kGotAll → at_line c →
  spec_turn c (a ++ b) t = Ok (c', a' ++ b, Stop ok).
Proof.
  unfold spec_turn. intros H Hf [E|E]; rewrite E in *.
  - destruct (split_line a) as [[line rest]|] eqn:Es.
    + rewrite (split_line_app _ _ _ _ Es).
      destruct (processRequestLine (request_ c) line) as [[r []]|f]; simpl in *; try done. by injection H as <- <- <-.
    + injection H as <- <- <-. rewrite E in Hf. by destruct Hf.
  - destruct (split_line a) as [[line rest]|] eqn:Es.
    + rewrite (split_line_app _ _ _ _ Es). destruct (Nat.ltb _ _); [done|]. by injection H as <- <- <-.
    + injection H as <- <- <-. rewrite E in Hf. by destruct Hf.
Qed.

Lemma loop_final n : ∀ c a b t c1 a1 ok,
  at_line c → spec_loop n c a t = Ok (Some (c1, a1, ok)) → ok = false ∨ state_ c1 = kGotAll →
  parse c (a ++ b) t = Ok (Some (c1, a1 ++ b, ok)).
Proof.
  induction n as [|n IH]; intros c a b t c1 a1 ok Ha E Hf; simpl in E; [done|].
  destruct (spec_turn c a t) as [[[c' s'] tn]|f] eqn:Et; simpl in E; [|done]. rewrite (parse_step c) by done. destruct tn.
  - destruct (turn_consumes _ _ _ _ _ Ha Et) as [Ha' _]. rewrite (turn_app _ _ b _ _ _ Et Ha). simpl. by apply (IH c' s').
  - injection E as -> -> ->. by rewrite (turn_final _ _ b _ _ _ _ Et Hf Ha).
Qed.

(** After the request line the receive time plays no part, and the parser
    does not go back to the request line. *)
Lemma loop_time n : ∀ c s t t', state_ c = kExpectHeaders → spec_loop n c s t = spec_loop n c s t'.
Proof.
  induction n as [|n IH]; intros c s t t' E; [done|]. simpl. unfold spec_turn. rewrite E.
  destruct (split_line s) as [[line rest]|]; simpl; [|done]. destruct (Nat.ltb _ _); simpl; [by apply IH|done].
Qed.

Lemma loop_headers n : ∀ c s t c1 s1 ok,
  state_ c = kExpectHeaders → spec_loop n c s t = Ok (Some (c1, s1, ok)) → state_ c1 ≠ kExpectRequestLine.
Proof.
  induction n as [|n IH]; intros c s t c1 s1 ok Hc E; simpl in E; [done|]. unfold spec_turn in E. rewrite Hc in E.
  destruct (split_line s) as [[line rest]|]; simpl in E; [|injection E as <- <- <-; congruence].
  destruct (Nat.ltb _ _); simpl in E; [refine (IH _ _ _ _ _ _ _ E); done|]. by injection E as <- <- <-.
Qed.

(** A parser that still waits for the request line has done nothing. *)
Lemma loop_waits n c s t c1 s1 :
  at_line c → spec_loop n c s t = Ok (Some (c1, s1, true)) → state_ c1 = kExpectRequestLine → c1 = c ∧ s1 = s.
Proof.
  intros Ha E Hc. destruct n as [|n]; simpl in E; [done|].
  destruct (spec_turn c s t) as [[[c' s'] tn]|f] eqn:Et; simpl in E; [|done]. destruct tn.
  - assert (state_ c' = kExpectHeaders) as Hh.
    { unfold spec_turn in Et. destruct Ha as [Ea|Ea]; rewrite Ea in Et; destruct (split_line s) as [[line rest]|]; try done.
      - destruct (processRequestLine (request_ c) line) as [[r []]|f]; simpl in Et; try done. by injection Et as <- <-.
      - destruct (Nat.ltb _ _); [|done]. by injection Et as <- <-. }
    by destruct (loop_headers _ _ _ _ _ _ _ Hh E).
  - injection E as -> -> ->. apply (turn_wait _ _ _ _ _ Et); [congruence|done].
Qed.

(** ** Round trip *)

(** A byte string without CR. *)
Definition plain (s : bytes) : Prop := CR ∉ s.

Lemma search_plain line rest : plain line → std_search CRLF (line ++ CRLF ++ rest) = length line.
Proof.
  induction line as [|x line IH]; intros Hp; [done|]. apply not_elem_of_cons in Hp as [Hne Hp].
  cbn [app std_search length]. rewrite IH by done.
  assert (starts CRLF (x :: line ++ CRLF ++ rest) = false) as ->; [|done].
  destruct (starts CRLF (x :: line ++ CRLF ++ rest)) eqn:E; [|done].
  apply starts_spec in E as [l' E]. injection E as E _. by destruct Hne.
Qed.

Lemma split_line_plain line rest : plain line → split_line (line ++ CRLF ++ rest) = Some (line, rest).
Proof.
  intros Hp. unfold split_line. rewrite search_plain by done. rewrite !length_app. change (length CRLF) with 2%nat.
  rewrite (proj2 (Nat.ltb_lt _ _)) by lia. rewrite take_app_length.
  replace (length line + 2)%nat with (length (line ++ CRLF)) by (rewrite length_app; done).
  by rewrite app_assoc, drop_app_length.
Qed.

Definition method_text (m : Method) : bytes :=
  match m with kGet => chars "GET" | kPost => chars "POST" | kPut => chars "PUT" | kDelete => chars "DELETE"
  | _ => [] end.
Definition version_text (v : Version) : bytes :=
  match v with kHttp10 => chars "HTTP/1.0" | kHttp11 => chars "HTTP/1.1" | kUnknown => [] end.

Definition header_text (h : bytes * bytes) : bytes := h.1 ++ chars ": " ++ h.2 ++ CRLF.

Definition request_line (m : Method) (path query : bytes) (v : Version) : bytes :=
  method_text m ++ [SPACE] ++ (path ++ query) ++ [SPACE] ++ version_text v.

(** A request as a client writes it. *)
Definition request_text (m : Method) (path query : bytes) (v : Version) (hs : list (bytes * bytes)) : bytes :=
  request_line m path query v ++ CRLF ++ concat (map header_text hs) ++ CRLF.

Definition good_target (path query : bytes) : Prop :=
  plain path ∧ plain query ∧ SPACE ∉ path ∧ SPACE ∉ query ∧ QUESTION ∉ path ∧
  (query = [] ∨ ∃ q, query = QUESTION :: q).

(** A field without colon, a value without space at either end. *)
Definition good_header (h : bytes * bytes) : Prop :=
  plain h.1 ∧ plain h.2 ∧ COLON ∉ h.1 ∧ skip_space h.2 = h.2 ∧ trim_right h.2 = h.2.

Lemma drop_past {A} (x : A) (l1 l2 : list A) : drop (S (length l1)) (l1 ++ x :: l2) = l2.
Proof. induction l1; simpl; [by rewrite drop_0|done]. Qed.

Lemma setMethod_text m : m ≠ kInvalid → m ≠ kHead → method_of (method_text m) = m ∧ SPACE ∉ method_text m ∧ plain (method_text m).
Proof.
  intros H1 H2. destruct m; try done; (split; [done|]); unfold plain, SPACE, CR; simpl;
    split; intros Hin; repeat (apply elem_of_cons in Hin as [Hin|Hin]; [done|]); by apply elem_of_nil in Hin.
Qed.

Lemma version_cases v : v ≠ kUnknown → length (version_text v) = 8%nat ∧ take 7 (version_text v) = chars "HTTP/1." ∧
  drop 7 (version_text v) = (if bool_decide (v = kHttp11) then chars "1" else chars "0") ∧ plain (version_text v).
Proof.
  intros Hv. destruct v; try done; (split_and!; [done..|]); unfold plain, CR; simpl;
    intros Hin; repeat (apply elem_of_cons in Hin as [Hin|Hin]; [done|]); by apply elem_of_nil in Hin.
Qed.

Lemma processRequestLine_text r m path query v :
  method_ r = kInvalid → m ≠ kInvalid → m ≠ kHead → v ≠ kUnknown → good_target path query →
  processRequestLine r (request_line m path query v) =
    Ok (mkRequest path (if bool_decide (query = []) then query_ r else query) (receiveTime_ r) (headers_ r) m v, true).
Proof.
  intros Hr Hm1 Hm2 Hv (Hp & Hq & Hps & Hqs & Hpq & Hquery).
  destruct (setMethod_text m Hm1 Hm2) as (Em & Hms & _). destruct (version_cases v Hv) as (Vl & Vt & Vd & _).
  unfold processRequestLine, request_line.
  change (method_text m ++ [SPACE] ++ ?x) with (method_text m ++ SPACE :: x).
  rewrite std_find_app by done. rewrite length_app. cbn [length].
  rewrite (proj2 (Nat.ltb_lt _ _)) by lia. rewrite take_app_length.
  unfold setMethod. rewrite Hr, (bool_decide_true (kInvalid = kInvalid)) by done.
  cbn [cassert mbind res_bind method_]. rewrite Em, (bool_decide_false (m = kInvalid)) by done. cbn [negb].
  rewrite drop_past.
  change ((path ++ query) ++ [SPACE] ++ ?x) with ((path ++ query) ++ SPACE :: x).
  rewrite std_find_app by (apply not_elem_of_app; done). rewrite (length_app (path ++ query)). cbn [length].
  rewrite (proj2 (Nat.ltb_lt _ _)) by lia. rewrite take_app_length.
  rewrite drop_past.
  rewrite Vl, Vt. rewrite bool_decide_true by done. cbn [Nat.eqb andb].
  assert (Hpath : (if Nat.ltb (std_find QUESTION (path ++ query)) (length (path ++ query))
     then setQuery (setPath (mkRequest (path_ r) (query_ r) (receiveTime_ r) (headers_ r) m (version_ r))
            (take (std_find QUESTION (path ++ query)) (path ++ query))) (drop (std_find QUESTION (path ++ query)) (path ++ query))
     else setPath (mkRequest (path_ r) (query_ r) (receiveTime_ r) (headers_ r) m (version_ r)) (path ++ query))
    = mkRequest path (if bool_decide (query = []) then query_ r else query) (receiveTime_ r) (headers_ r) m (version_ r)).
  { destruct Hquery as [->|[q ->]].
    - rewrite app_nil_r, std_find_none by done. rewrite (proj2 (Nat.ltb_ge _ _)) by lia. done.
    - rewrite std_find_app by done. rewrite length_app. cbn [length]. rewrite (proj2 (Nat.ltb_lt _ _)) by lia.
      rewrite take_app_length, drop_app_length. done. }
  rewrite Hpath. rewrite Vd. destruct v; try done.
Qed.

Lemma parse_header c h s t :
  state_ c = kExpectHeaders → good_header h →
  parse c (header_text h ++ s) t =
    parse (mkContext kExpectHeaders (mkRequest (path_ (request_ c)) (query_ (request_ c)) (receiveTime_ (request_ c))
      (<[h.1 := h.2]> (headers_ (request_ c))) (method_ (request_ c)) (version_ (request_ c)))) s t.
Proof.
  intros Hs (H1 & H2 & H3 & H4 & H5). destruct h as [k v]. unfold header_text. simpl fst in *. simpl snd in *.
  assert (E : (k ++ chars ": " ++ v ++ CRLF) ++ s = (k ++ chars ": " ++ v) ++ CRLF ++ s) by by rewrite <- !app_assoc.
  rewrite E. rewrite parse_step by by right. unfold spec_turn. rewrite Hs.
  rewrite split_line_plain.
  2:{ unfold plain in *. rewrite !not_elem_of_app. split_and!; [done| |done]. unfold CR. simpl.
      intros Hin. repeat (apply elem_of_cons in Hin as [Hin|Hin]; [done|]). by apply elem_of_nil in Hin. }
  change (k ++ chars ": " ++ v) with (k ++ COLON :: SPACE :: v). rewrite std_find_app by done.
  rewrite length_app. cbn [length]. rewrite (proj2 (Nat.ltb_lt _ _)) by lia. cbn [mbind res_bind].
  unfold addHeader. rewrite take_app_length.
  rewrite drop_past.
  cbn [skip_space]. change (isspace SPACE) with true. cbn iota. by rewrite H4, H5.
Qed.

Lemma parse_headers hs : ∀ r t,
  Forall good_header hs →
  parse (mkContext kExpectHeaders r) (concat (map header_text hs) ++ CRLF) t =
    Ok (Some (mkContext kGotAll (mkRequest (path_ r) (query_ r) (receiveTime_ r)
       (foldl (λ m h, <[h.1 := h.2]> m) (headers_ r) hs) (method_ r) (version_ r)), [], true)).
Proof.
  induction hs as [|h hs IH]; intros r t Hg; simpl concat.
  - rewrite parse_step by by right. unfold spec_turn. simpl state_.
    change ([] ++ CRLF) with ([] ++ CRLF ++ []). rewrite split_line_plain by apply not_elem_of_nil.
    simpl. by destruct r.
  - apply Forall_cons in Hg as [Hh Hg]. rewrite <- app_assoc, parse_header by done. by rewrite IH.
Qed.

(** A written request is parsed to what was written. *)
Definition headers_of (hs : list (bytes * bytes)) : gmap bytes bytes := foldl (λ hm h, <[h.1 := h.2]> hm) ∅ hs.

Lemma request_parsed m path query v hs t :
  m ≠ kInvalid → m ≠ kHead → v ≠ kUnknown → good_target path query → Forall good_header hs →
  parse HttpContext_ctor (request_text m path query v hs) t =
    Ok (Some (mkContext kGotAll (mkRequest path query t (headers_of hs) m v), [], true)).
Proof.
  intros Hm1 Hm2 Hv Ht Hh. unfold request_text. rewrite parse_step by by left. unfold spec_turn.
  rewrite split_line_plain.
  2:{ destruct Ht as (H1 & H2 & _). destruct (setMethod_text m Hm1 Hm2) as (_ & _ & H3).
      destruct (version_cases v Hv) as (_ & _ & _ & H4).
      assert (CR ∉ [SPACE]) by by intros ?%list_elem_of_singleton.
      unfold plain, request_line in *. rewrite !not_elem_of_app. split_and!; done. }
  cbn [state_ HttpContext_ctor request_].
  rewrite (processRequestLine_text HttpRequest_ctor m path query v) by done. cbn [mbind res_bind].
  rewrite parse_headers by done. cbn [path_ query_ receiveTime_ headers_ method_ version_ setReceiveTime HttpRequest_ctor].
  by case_bool_decide as Eq; [rewrite Eq|].
Qed.

(** ** The parser returns *)

(** A context whose request line has not failed before. *)
Definition ready (c : HttpContext) : Prop :=
  state_ c = kExpectHeaders ∨ (state_ c = kExpectRequestLine ∧ method_ (request_ c) = kInvalid).

Lemma processRequestLine_ok r line : method_ r = kInvalid → ∃ r' ok, processRequestLine r line = Ok (r', ok).
Proof.
  intros Hr. unfold processRequestLine, setMethod. rewrite Hr, (bool_decide_true (kInvalid = kInvalid)) by done. simpl.
  destruct (Nat.ltb _ _); [|eauto]. destruct (negb _); [|eauto].
  destruct (Nat.ltb _ _); [|eauto]. destruct (_ && _); [|eauto].
  destruct (bool_decide _); [eauto|]. destruct (bool_decide _); eauto.
Qed.

Lemma turn_ready c s t : ready c → ∃ c' s' tn, spec_turn c s t = Ok (c', s', tn) ∧ (tn = Again → ready c').
Proof.
  intros [E|[E Hm]]; unfold spec_turn; rewrite E.
  - destruct (split_line s) as [[line rest]|]; [|by eexists _, _, _; split; [done|]].
    destruct (Nat.ltb _ _); [|by eexists _, _, _; split; [done|]]. eexists _, _, _. split; [done|]. intros _. by left.
  - destruct (split_line s) as [[line rest]|]; [|by eexists _, _, _; split; [done|]].
    destruct (processRequestLine_ok (request_ c) line Hm) as (r' & ok & ->). simpl.
    destruct ok; eexists _, _, _; (split; [done|]); [intros _; by left|done].
Qed.

Lemma ready_at_line c : ready c → at_line c.
Proof. intros [?|[? _]]; [by right|by left]. Qed.

Lemma parse_ready n : ∀ c s t, ready c → (length s < n)%nat → ∃ r, spec_loop n c s t = Ok (Some r).
Proof.
  induction n as [|n IH]; intros c s t Hr Hn; [lia|]. simpl.
  destruct (turn_ready c s t Hr) as (c' & s' & tn & E & Hr'). rewrite E. simpl. destruct tn; [|eauto].
  destruct (turn_consumes _ _ _ _ _ (ready_at_line _ Hr) E) as [_ Hl]. apply IH; [auto|lia].
Qed.

(** How a turn that ends the loop leaves the parser. *)
Lemma turn_stops c s t c' s' ok :
  at_line c → spec_turn c s t = Ok (c', s', Stop ok) →
  (length s' ≤ length s)%nat ∧ (if ok : bool then at_line c' ∨ state_ c' = kGotAll else state_ c' = kExpectRequestLine).
Proof.
  pose proof (split_line_spec s) as Hs. intros Ha E. unfold spec_turn in E.
  destruct Ha as [Es|Es]; rewrite Es in E; destruct (split_line s) as [[line rest]|].
  - destruct (processRequestLine (request_ c) line) as [[r []]|f]; simpl in E; [done| |done]. by injection E as <- <- <-.
  - injection E as <- <- <-. split; [done|]. left. by left.
  - destruct (Nat.ltb _ _); [done|]. injection E as <- <- <-. split; [lia|by right].
  - injection E as <- <- <-. split; [done|]. left. by right.
Qed.

(** The parser leaves no more than it was given, and waits for a line or has
    the request; a request is refused at its first line. *)
Lemma loop_shrinks n : ∀ c s t c' s' ok,
  spec_loop n c s t = Ok (Some (c', s', ok)) → at_line c →
  (length s' ≤ length s)%nat ∧ (if ok : bool then at_line c' ∨ state_ c' = kGotAll else state_ c' = kExpectRequestLine).
Proof.
  induction n as [|n IH]; intros c s t c' s' ok E Ha; simpl in E; [done|].
  destruct (spec_turn c s t) as [[[c1 s1] tn]|f] eqn:Et; simpl in E; [|done]. destruct tn.
  - destruct (turn_consumes _ _ _ _ _ Ha Et) as [Ha1 ?]. destruct (IH _ _ _ _ _ _ E Ha1). split; [lia|done].
  - injection E as <- <- <-. by apply (turn_stops _ _ _ _ _ _ Ha Et).
Qed.

(** The one way in which the parser fails. *)
Lemma parse_fails c s t f : at_line c → parse c s t = Fail f → f = FAssert "method_ == kInvalid" ∧ ¬ ready c.
Proof.
  intros Ha E. assert (¬ ready c) as Hn.
  { intros Hr. destruct (parse_ready (S (length s)) c s t Hr) as [r Er]; [lia|]. unfold parse in E. congruence. }
  split; [|done]. rewrite parse_step in E by done. destruct Ha as [Es|Es]; [|destruct Hn; by left].
  unfold spec_turn in E. rewrite Es in E. destruct (split_line s) as [[line rest]|]; [|done].
  destruct (processRequestLine (request_ c) line) as [[r []]|f'] eqn:Ep; cbn [mbind res_bind] in E; [|done|].
  - destruct (parse_ready (S (length rest)) (mkContext kExpectHeaders (setReceiveTime r t)) rest t) as [r' Er];
      [by left|lia|]. unfold parse in E. congruence.
  - injection E as <-. unfold processRequestLine, setMethod in Ep. destruct (Nat.ltb _ _); [|done].
    rewrite (bool_decide_false (method_ (request_ c) = kInvalid)) in Ep by (intros Hm; apply Hn; by right). by injection Ep as <-.
Qed.

(** Appending pieces is appending their concatenation. *)
Lemma append_pieces ps : ∀ b,
  wf b → zlen (content b) + 2 * zlen (concat ps) + kCheapPrepend ≤ max_size →
  ∃ b', foldM append b ps = Ok b' ∧ wf b' ∧ content b' = content b ++ concat ps.
Proof.
  induction ps as [|p ps IH]; intros b Hw Hm; simpl.
  - exists b. by rewrite app_nil_r.
  - simpl in Hm. rewrite zlen_app in Hm. pose proof (zlen_nonneg (concat ps)). pose proof (zlen_nonneg p).
    destruct (append_small b p Hw) as (b1 & E1 & Hw1 & Hc1); [lia|]. rewrite E1. simpl.
    destruct (IH b1 Hw1) as (b' & E & Hw' & Hc'); [rewrite Hc1, zlen_app; lia|].
    exists b'. split_and!; [done..|]. by rewrite Hc', Hc1, app_assoc.
Qed.

(** ** Properties *)


Definition demo_headers : list (bytes * bytes) := [(chars "Host", chars "a.b"); (chars "Connection", chars "close")].

Definition demo_request : bytes := request_text kGet (chars "/index") (chars "?x=1") kHttp11 demo_headers.

Definition buffer_with (s : bytes) : Buffer := mkBuffer (replicate 8 NUL ++ s) 8 (8 + zlen s).

Lemma buffer_with_wf s : zlen s ≤ max_size - 8 → wf (buffer_with s) ∧ content (buffer_with s) = s.
Proof.
  intros Hs. pose proof (zlen_nonneg s). assert (zlen (replicate 8 NUL ++ s) = 8 + zlen s) as E by (rewrite zlen_app; done).
  split.
  - unfold wf, vsize, buffer_with. cbn [m_buffers m_readerIndex m_writerIndex]. rewrite E. unfold kCheapPrepend. lia.
  - unfold content. simpl. unfold slice. change (zdrop 8 (replicate 8 NUL ++ s)) with s. apply ztake_all. lia.
Qed.

Ltac not_in := unfold plain, CR, SPACE, QUESTION, COLON; simpl; intros Hin;
  repeat (apply elem_of_cons in Hin as [Hin|Hin]; [discriminate Hin|]); by apply elem_of_nil in Hin.


(** The parser is incremental: if a first part of the input was accepted
    without completing a request, then parsing the rest after what was left in
    the buffer gives the same result as parsing the whole input at once (the
    same context, the same verdict, the same bytes left over). *)
Theorem parse_incremental (c c1 : HttpContext) (b1 b1' b2 b3 : Buffer) (more : bytes) (t : Z) :
  at_line c → wf b1 → wf b2 → wf b3 →
  parseRequest c b1 t = Ok (Some (c1, b1', true)) → gotAll c1 = false →
  content b2 = content b1 ++ more → content b3 = content b1' ++ more →
  match parseRequest c b2 t, parseRequest c1 b3 t with
  | Ok (Some (c', b', ok')), Ok (Some (c'', b'', ok'')) => c' = c'' ∧ ok' = ok'' ∧ content b' = content b''
  | Fail f, Fail f' => f = f'
  | _, _ => False
  end.
Proof.
  intros Ha Hw1 Hw2 Hw3 E1 Hg H2 H3. unfold gotAll in Hg. bprop.
  pose proof (parseRequest_parse c b1 t Hw1) as P1. pose proof (parseRequest_parse c b2 t Hw2) as P2.
  pose proof (parseRequest_parse c1 b3 t Hw3) as P3.
  assert (Ep : parse c (content b1) t = Ok (Some (c1, content b1', true))).
  { destruct (parse c (content b1) t) as [[[[c' s'] ok']|]|f]; [|congruence|congruence].
    destruct P1 as (b' & E & _ & <-). congruence. }
  destruct (loop_split _ c (content b1) more t c1 (content b1') Ha Ep Hg) as [Ha1 Es].
  rewrite <- H2, <- H3 in Es. rewrite Es in P2.
  assert (Hn : parse c1 (content b3) t ≠ Ok None) by (apply loop_terminates; [done|lia]).
  destruct (parse c1 (content b3) t) as [[[[c' s'] ok']|]|f]; [|done|by rewrite P2, P3].
  destruct P2 as (b' & -> & _ & E2), P3 as (b'' & -> & _ & E3). split_and!; [done|done|congruence].
Qed.

Lemma parse_incremental_witness :
  match parseRequest HttpContext_ctor (buffer_with (chars "GET / HTTP/1.0" ++ CRLF)) 7,
        parseRequest (mkContext kExpectRequestLine HttpRequest_ctor) (buffer_with (chars "GET / HTTP/1.0" ++ CRLF)) 7 with
  | Ok (Some (c', b', ok')), Ok (Some (c'', b'', ok'')) => c' = c'' ∧ ok' = ok'' ∧ content b' = content b''
  | Fail f, Fail f' => f = f'
  | _, _ => False
  end.
Proof.
  assert (H : ∀ s, zlen s ≤ max_size - 8 → wf (buffer_with s) ∧ content (buffer_with s) = s) by apply buffer_with_wf.
  destruct (H (chars "GET / HT")) as [Hw1 Hc1]; [vm_compute; discriminate|].
  destruct (H (chars "GET / HTTP/1.0" ++ CRLF)) as [Hw2 Hc2]; [vm_compute; discriminate|].
  refine (parse_incremental HttpContext_ctor (mkContext kExpectRequestLine HttpRequest_ctor)
    (buffer_with (chars "GET / HT")) (buffer_with (chars "GET / HT")) (buffer_with (chars "GET / HTTP/1.0" ++ CRLF))
    (buffer_with (chars "GET / HTTP/1.0" ++ CRLF)) (chars "TP/1.0" ++ CRLF) 7 (or_introl eq_refl) Hw1 Hw2 Hw2 _ _ _ _).
  - vm_compute. reflexivity.
  - reflexivity.
  - rewrite Hc1, Hc2. reflexivity.
  - rewrite Hc1, Hc2. reflexivity.
Defined.

(** C36.  The parse loop terminates and fails no assertion when the request
    line has not been rejected before: with fuel of one more than the number
    of readable bytes (every turn that goes on consumes a line) parseRequest
    returns a verdict, whatever the bytes. *)
Theorem parseRequest_returns (c : HttpContext) (b : Buffer) (t : Z) :
  ready c → wf b → ∃ c' b' ok, parseRequest c b t = Ok (Some (c', b', ok)) ∧ wf b' ∧
    (length (content b') ≤ length (content b))%nat.
Proof.
  intros Hr Hw. pose proof (parseRequest_parse c b t Hw) as P.
  destruct (parse_ready (S (length (content b))) c (content b) t Hr ltac:(lia)) as ([[c' s'] ok] & E).
  unfold parse in P. rewrite E in P. destruct P as (b' & Eb & Hw' & Hc'). exists c', b', ok. split_and!; [done..|].
  rewrite Hc'. by eapply loop_shrinks, ready_at_line.
Qed.

Lemma parseRequest_returns_witness :
  ∃ c' b' ok, parseRequest HttpContext_ctor (buffer_with (chars "bad" ++ CRLF)) 7 = Ok (Some (c', b', ok)) ∧ wf b' ∧
    (length (content b') ≤ length (content (buffer_with (chars "bad" ++ CRLF))))%nat.
Proof.
  refine (parseRequest_returns HttpContext_ctor (buffer_with (chars "bad" ++ CRLF)) 7 (or_intror (conj eq_refl eq_refl)) _).
  apply buffer_with_wf. vm_compute. discriminate.
Defined.

(** HttpResponse::appendToBuffer appends to the buffer exactly the status
    line, "Connection: close" or the Content-Length and Keep-Alive lines, the
    headers in key order, an empty line and the body; the existing content
    stays in front. *)
Theorem response_text (r : HttpResponse) (b : Buffer) :
  wf b → zlen (content b) + 2 * zlen (concat (response_pieces r)) + kCheapPrepend ≤ max_size →
  ∃ b', appendToBuffer r b = Ok b' ∧ wf b' ∧
    content b' = content b ++
      (snprintf 32 (chars "HTTP/1.1 " ++ decimal (status_value (statusCode_ r)) ++ chars " ") ++ statusMessage_ r ++ CRLF) ++
      (if closeConnection_ r then chars "Connection: close" ++ CRLF
       else snprintf 32 (chars "Content-Length: " ++ decimal (zlen (body_ r)) ++ CRLF) ++
            chars "Connection: Keep-Alive" ++ CRLF) ++
      concat (map (λ '(k, v), k ++ [COLON] ++ v ++ CRLF) (rheaders_ r)) ++ CRLF ++ body_ r.
Proof.
  intros Hw Hm. destruct (append_pieces (response_pieces r) b Hw Hm) as (b' & E & Hw' & Hc').
  exists b'. split_and!; [done..|]. rewrite Hc'. f_equal. unfold response_pieces.
  rewrite !concat_app. cbn [concat app]. rewrite !app_nil_r, <- !app_assoc. f_equal. f_equal. f_equal.
  assert (concat (concat (map (λ '(k, v), [k; [COLON]; v; CRLF]) (rheaders_ r)))
    = concat (map (λ '(k, v), k ++ [COLON] ++ v ++ CRLF) (rheaders_ r))) as ->.
  { induction (rheaders_ r) as [|[k v] hs IH]; [done|]. cbn [map concat]. rewrite concat_app, IH.
    cbn [concat]. by rewrite app_nil_r, <- !app_assoc. }
  destruct (closeConnection_ r); cbn [concat]; by rewrite ?app_nil_r, <- ?app_assoc.
Qed.

Definition demo_response : HttpResponse :=
  setBody (setContentType (setStatusMessage (setStatusCode (HttpResponse_ctor false) k200ok) (chars "OK")) (chars "text/plain"))
    (chars "hi").

Lemma response_text_witness :
  ∃ b', appendToBuffer demo_response (buffer_with []) = Ok b' ∧ wf b' ∧
    content b' = chars "HTTP/1.1 200 OK" ++ CRLF ++ chars "Content-Length: 2" ++ CRLF ++
      chars "Connection: Keep-Alive" ++ CRLF ++ chars "Content-Type:text/plain" ++ CRLF ++ CRLF ++ chars "hi".
Proof.
  refine (response_text demo_response (buffer_with []) _ _); [|vm_compute; discriminate].
  apply buffer_with_wf. vm_compute. discriminate.
Defined.

(** A request line with a known method and a bad version is answered with
    "400 Bad Request" but stays in the buffer with the method already set:
    when the next bytes arrive (the connection only shuts its write side),
    HttpRequest::setMethod fails its assertion. *)
Theorem bad_request_line_aborts :
  ∃ c1 b1 b2, onMessage defaultHttpCallback HttpContext_ctor (buffer_with (chars "GET / FOO" ++ CRLF)) 7
      = Ok (Some (c1, b1, [ASend bad_request; AShutdown])) ∧ append b1 (chars "x") = Ok b2 ∧
    onMessage defaultHttpCallback c1 b2 8 = Fail (FAssert "method_ == kInvalid").
Proof. eexists _, _, _. split_and!; [vm_compute; reflexivity..]. Qed.

(** Two complete requests that arrive in one segment: onMessage answers
    the first and leaves the second in the buffer until more data arrives. *)
Theorem pipelined_request_waits :
  let req := chars "GET / HTTP/1.1" ++ CRLF ++ CRLF in
  ∃ b1 resp, onMessage defaultHttpCallback HttpContext_ctor (buffer_with (req ++ req)) 7
      = Ok (Some (HttpContext_ctor, b1, [ASend resp; AShutdown])) ∧ content b1 = req.
Proof. eexists _, _. split; [vm_compute; reflexivity..]. Qed.
