(* ===== verification/HttpSession.v ===== *)
(** * An HTTP session: src/dc/net/http/httpServer.cc on a TcpConnection

    HttpServer installs its onConnection and onMessage as the callbacks of the
    connections of a TcpServer.  A session is such a connection with the
    HttpContext kept in it: pieces of a request arrive through handleRead, the
    message callback parses what the input buffer holds, takes it from the
    buffer, sends the answer and shuts the connection down. *)

From S2P Require Import Prelude Buffer Channel Poller EventLoop TcpConnection Http.

Open Scope Z_scope.

(** ** The session *)

Record session : Type := mkSession {
  s_conn : TcpConnection;
  s_context : option HttpContext;    (* the std::any of the connection *)
}.

(** [HttpServer::onConnection] *)
Definition onConnection (s : session) : session :=
  if connected (s_conn s) then mkSession (s_conn s) (Some HttpContext_ctor) else s.

(** A new connection: connectEstablished calls the connection callback. *)
Definition session_open (t : TcpConnection) : res session :=
  t1 ← connectEstablished true t;
  Ok (onConnection (mkSession t1 None)).

(** The calls on the connection that the message callback makes. *)
Definition act (w : list ascii → write_result) (t : TcpConnection) (a : action) : res TcpConnection :=
  match a with ASend data => send true w t data | AShutdown => shutdown true t end.

(** What a handler of the connection did: the effects it added to the trace. *)
Definition added (t t' : TcpConnection) : list effect := drop (length (c_trace t)) (c_trace t').

(** What the loop reports on the socket: bytes, at a time, with the answers of
    the socket to the writes of the callback; or that it takes bytes again. *)
Inductive session_event : Type :=
  | Arrives (p : list ascii) (receiveTime : Z) (w : list ascii → write_result)
  | Writable (w : list ascii → write_result).

Section Server.
Context (httpCallback_ : HttpRequest → HttpResponse → HttpResponse).

(** The message callback: [HttpServer::onMessage] on the input buffer. *)
Definition session_message (s : session) (receiveTime : Z) (w : list ascii → write_result) : res (option session) :=
  match s_context s with
  | None => Fail (FUndef "context is null")
  | Some c =>
      r ← onMessage httpCallback_ c (m_inputBuffer (s_conn s)) receiveTime;
      match r : option (HttpContext * Buffer * list action) with
      | None => Ok None
      | Some (c', b', acts) =>
          t ← foldM (act w) (set_input (s_conn s) b') acts;
          Ok (Some (mkSession t (Some c')))
      end
  end.

(** The callbacks that a handler called, in order. *)
Fixpoint callbacks (s : session) (receiveTime : Z) (w : list ascii → write_result) (es : list effect) :
    res (option session) :=
  match es with
  | [] => Ok (Some s)
  | EMessageCb :: es' =>
      r ← session_message s receiveTime w;
      match r : option session with None => Ok None | Some s1 => callbacks s1 receiveTime w es' end
  | EConnectionCb _ :: es' => callbacks (onConnection s) receiveTime w es'
  | _ :: es' => callbacks s receiveTime w es'
  end.

Definition session_step (s : session) (e : session_event) : res (option session) :=
  match e with
  | Arrives p receiveTime w =>
      t ← handleRead true (λ _, ReadvBytes p) (s_conn s);
      callbacks (mkSession t (s_context s)) receiveTime w (added (s_conn s) t)
  | Writable w =>
      t ← handleWrite true w (s_conn s);
      callbacks (mkSession t (s_context s)) 0 w (added (s_conn s) t)
  end.

Fixpoint session_run (s : session) (es : list session_event) : res (option session) :=
  match es with
  | [] => Ok (Some s)
  | e :: es' =>
      r ← session_step s e;
      match r : option session with None => Ok None | Some s1 => session_run s1 es' end
  end.
End Server.

(** ** The connection under the session *)

(** The socket takes at most what it is given and does not fail for good. *)
Definition healthy (w : list ascii → write_result) : Prop :=
  write_fits w ∧ ∀ d err, w d = WriteErr err → err ≠ EPIPE ∧ err ≠ ECONNRESET.

(** The connection is open and keeps its invariant. *)
Definition open_conn (t : TcpConnection) : Prop := inv t ∧ open_state t = true.

(** A step that leaves the state and the input alone. *)
Definition keeps (t t' : TcpConnection) : Prop := m_state t' = m_state t ∧ m_inputBuffer t' = m_inputBuffer t.

Lemma send_rest_keeps t data n len t' : send_rest t data n len = Ok t' → keeps t t'.
Proof.
  unfold send_rest. set (t2 := if _ && m_highWaterMarkCallback t then _ else t).
  assert (keeps t t2) as H by (unfold t2; by destruct (_ && m_highWaterMarkCallback t)). clearbody t2.
  intros E. apply bind_Ok in E as (b & _ & [= <-]). simpl. by destruct (isWriting (m_channel t2)).
Qed.

Lemma send_rest_returns t data n :
  wf (m_outputBuffer t) → 0 ≤ n ≤ zlen data → zlen (out t) + 2 * zlen data + kCheapPrepend ≤ max_size →
  ∃ t', send_rest t data n (zlen data - n) = Ok t'.
Proof.
  intros Hw Hn Hm. unfold send_rest. set (t2 := if _ && m_highWaterMarkCallback t then _ else t).
  assert (m_outputBuffer t2 = m_outputBuffer t) as -> by (unfold t2; by destruct (_ && m_highWaterMarkCallback t)).
  pose proof (zlen_nonneg (out t)). unfold kCheapPrepend in Hm.
  destruct (append_from_ok (m_outputBuffer t) data n (zlen data - n)) as (b & -> & _); try done; try lia; [|eauto].
  apply room_small; [done|lia|]. unfold out in *. unfold kCheapPrepend. lia.
Qed.

Lemma sendInLoop_returns w t m :
  open_conn t → write_fits w → zlen (out t) + 2 * zlen m + kCheapPrepend ≤ max_size →
  ∃ t', sendInLoop true w t m = Ok t' ∧ keeps t t'.
Proof.
  intros [Hi Ho] Hf Hm. pose proof (zlen_nonneg m). pose proof (zlen_nonneg (out t)). unfold sendInLoop.
  cbn [assertInLoopThread mbind res_bind]. destruct (disconnected t); [by exists t|].
  assert (Hrest : ∀ t1 n, m_outputBuffer t1 = m_outputBuffer t → keeps t t1 → 0 ≤ n ≤ zlen m →
    ∃ t', send_rest t1 m n (zlen m - n) = Ok t' ∧ keeps t t').
  { intros t1 n E1 [K1 K2] Hn. destruct (send_rest_returns t1 m n) as [t' E]; [by rewrite E1; apply Hi|done|by unfold out; rewrite E1|].
    exists t'. split; [done|]. destruct (send_rest_keeps _ _ _ _ _ E). split; congruence. }
  assert (Hslow : ∃ t', (if 0 <? zlen m then send_rest t m 0 (zlen m) else Ok t) = Ok t' ∧ keeps t t').
  { destruct (0 <? zlen m); [|by exists t]. destruct (Hrest t 0) as (t' & E & K); [done..|lia|].
    rewrite Z.sub_0_r in E. by exists t'. }
  unfold kCheapPrepend, max_size in Hm.
  destruct (negb _ && _); [|rewrite cassert_true by btrue; exact Hslow].
  destruct (w m) as [n|err] eqn:Ew; [|rewrite cassert_true by btrue; cbn [mbind res_bind]].
  - destruct (Hf _ _ Ew). rewrite u64_small by lia. rewrite cassert_true by btrue. cbn [mbind res_bind negb andb].
    set (t1 := if _ && m_writeCompleteCallback t then _ else _).
    assert (m_outputBuffer t1 = m_outputBuffer t ∧ keeps t t1) as [K1 K2]
      by (unfold t1; by destruct (_ && m_writeCompleteCallback t)). clearbody t1.
    destruct (0 <? zlen m - n); [|by exists t1]. by apply (Hrest t1 n).
  - destruct (if negb (err =? EWOULDBLOCK) then _ else false); [by exists t|exact Hslow].
Qed.

(** A step that takes charge of the bytes [x]: what it puts on the wire and
    what it leaves in the output buffer are what was there followed by [x]. *)
Definition advances (t : TcpConnection) (x : list ascii) (t' : TcpConnection) : Prop :=
  open_conn t' ∧ ∃ es, c_trace t' = c_trace t ++ es ∧ wire_of es ++ out t' = out t ++ x.

Lemma advances_refl t : open_conn t → advances t [] t.
Proof. intros Ho. split; [done|]. exists []. by rewrite !app_nil_r. Qed.

Lemma advances_trans t1 x t2 y t3 : advances t1 x t2 → advances t2 y t3 → advances t1 (x ++ y) t3.
Proof.
  intros (_ & es1 & E1 & W1) (Ho & es2 & E2 & W2). split; [done|]. exists (es1 ++ es2).
  split; [by rewrite E2, E1, app_assoc|]. by rewrite wire_app, <- app_assoc, W2, app_assoc, W1, app_assoc.
Qed.

Lemma advances_out t x t' : advances t x t' → zlen (out t') ≤ zlen (out t) + zlen x.
Proof.
  intros (_ & es & _ & W). apply (f_equal zlen) in W. rewrite !zlen_app in W.
  pose proof (zlen_nonneg (wire_of es)). lia.
Qed.

Lemma good_advances t x r t' : good t x r → r = Ok t' → open_state t' = true → advances t x t'.
Proof. intros G -> Ho. destruct G as (es & E & Hi & W & _). split; [done|]. by exists es. Qed.

Lemma set_input_advances t b : open_conn t → wf b → advances t [] (set_input t b).
Proof.
  intros [Hi Ho] Hb. split; [split; [by apply inv_set_input|done]|]. exists []. by rewrite !app_nil_r.
Qed.

Lemma keeps_open t t' : keeps t t' → open_state t = true → open_state t' = true.
Proof. intros [E _]. unfold open_state. by rewrite E. Qed.

Lemma send_advances w t m :
  open_conn t → healthy w → zlen (out t) + 2 * zlen m + kCheapPrepend ≤ max_size →
  ∃ t', send true w t m = Ok t' ∧ keeps t t' ∧ advances t (if connected t then m else []) t'.
Proof.
  intros Ho [Hf Hh] Hm. unfold send. destruct (connected t) eqn:Ec; [|exists t; split_and!; try done; by apply advances_refl].
  destruct (sendInLoop_returns w t m Ho Hf Hm) as (t' & E & K). exists t'. split_and!; [done..|].
  destruct Ho as [Hi Ho]. pose proof (zlen_nonneg (out t)). pose proof (zlen_nonneg m).
  unfold kCheapPrepend in Hm. unfold connected in Ec. bprop.
  assert (G : good t m (sendInLoop true w t m)); [|by eapply good_advances; [exact G|done|eapply keeps_open]].
  assert (negb (disconnected t) && negb (refused w t m) = true) as Er.
  { unfold disconnected, refused. rewrite Ec. simpl. destruct (w m) as [n|err] eqn:Ew; [by rewrite andb_false_r|].
    destruct (Hh _ _ Ew). rewrite (proj2 (Z.eqb_neq err EPIPE)), (proj2 (Z.eqb_neq err ECONNRESET)) by done.
    by rewrite andb_false_r. }
  pose proof (sendInLoop_good t w m Hi Hf) as G. rewrite Er in G. apply G; [lia|congruence].
Qed.

Lemma shutdown_advances t :
  open_conn t → ∃ t', shutdown true t = Ok t' ∧ m_state t' = kDisconnecting ∧ m_inputBuffer t' = m_inputBuffer t ∧
    advances t [] t'.
Proof.
  intros [Hi Ho].
  assert (∃ t', shutdown true t = Ok t' ∧ m_state t' = kDisconnecting ∧ m_inputBuffer t' = m_inputBuffer t)
    as (t' & E & Es & Eb).
  { unfold shutdown, connected. destruct (open_cases _ Ho) as [Es|Es]; rewrite Es; simpl; eexists; (split; [done|]);
      [by destruct (negb _)|done]. }
  exists t'. split_and!; [done..|]. eapply good_advances; [by apply (shutdown_good t true)|done|].
  unfold open_state. by rewrite Es.
Qed.

(** Bytes arrive at an open connection: they are put in the input buffer and
    the message callback is called. *)
Lemma handleRead_arrives t p :
  open_conn t → p ≠ [] → zlen p ≤ extrabuf_size → zlen (content (m_inputBuffer t)) + 2 * zlen p + kCheapPrepend ≤ max_size →
  ∃ b, handleRead true (λ _, ReadvBytes p) t = Ok (emit (set_input t b) EMessageCb) ∧
    advances t [] (emit (set_input t b) EMessageCb) ∧ wf b ∧ content b = content (m_inputBuffer t) ++ p.
Proof.
  intros [Hi Ho] Hp Hx Hm. pose proof (zlen_nonneg p) as Hz.
  destruct (readFd_data (λ _, ReadvBytes p) (m_inputBuffer t) p) as (b & E & Hw & Hc); [apply Hi|by right|done| |].
  { assert (0 ≤ writableBytes (m_inputBuffer t)) by (rewrite writable_wf by apply Hi; destruct (inv_in _ Hi) as (? & ? & _); lia).
    destruct (_ <? extrabuf_size) eqn:E; bprop; simpl; lia. }
  exists b. unfold handleRead. cbn [assertInLoopThread mbind res_bind]. rewrite E. cbn [mbind res_bind].
  assert (0 < zlen p) as Hpos by (destruct p; [done|unfold zlen; simpl; lia]).
  rewrite (proj2 (Z.ltb_lt _ _)) by done. split_and!; try done.
  split; [split; [by apply inv_emit; [apply inv_set_input|..]|done]|]. exists [EMessageCb]. split; [done|]. by rewrite app_nil_r.
Qed.

(** A message is answered and the connection shut down. *)
Lemma last_words w t m :
  open_conn t → healthy w → zlen (out t) + 2 * zlen m + kCheapPrepend ≤ max_size →
  ∃ t1 t2, send true w t m = Ok t1 ∧ shutdown true t1 = Ok t2 ∧ m_state t2 = kDisconnecting ∧
    m_inputBuffer t2 = m_inputBuffer t ∧ advances t (if connected t then m else []) t2.
Proof.
  intros Ho Hh Hm. destruct (send_advances w t m Ho Hh Hm) as (t1 & E1 & [_ K1] & A1).
  destruct (shutdown_advances t1 (proj1 A1)) as (t2 & E2 & S2 & I2 & A2).
  exists t1, t2. split_and!; [done..|by rewrite I2|]. pose proof (advances_trans _ _ _ _ _ A1 A2) as A. by rewrite app_nil_r in A.
Qed.

(** An effect that is no callback of the server. *)
Definition quiet (e : effect) : Prop := match e with EMessageCb | EConnectionCb _ => False | _ => True end.

Lemma callbacks_quiet httpCallback_ s receiveTime w es :
  Forall quiet es → callbacks httpCallback_ s receiveTime w es = Ok (Some s).
Proof. induction 1 as [|e es He _ IH]; [done|]. destruct e; simpl in *; done. Qed.

Lemma added_app t t' es : c_trace t' = c_trace t ++ es → added t t' = es.
Proof. intros E. unfold added. by rewrite E, drop_app_length. Qed.

Lemma handleWrite_advances w t :
  open_conn t → write_fits w →
  ∃ t', handleWrite true w t = Ok t' ∧ keeps t t' ∧ advances t [] t' ∧ Forall quiet (added t t').
Proof.
  intros [Hi Ho] Hf.
  assert (∃ t' es, handleWrite true w t = Ok t' ∧ keeps t t' ∧ c_trace t' = c_trace t ++ es ∧ Forall quiet es)
    as (t' & es & E & K & Et & Q).
  { assert (Hsame : ∃ t' es, Ok t = Ok t' ∧ keeps t t' ∧ c_trace t' = c_trace t ++ es ∧ Forall quiet es)
      by (exists t, []; by rewrite app_nil_r).
    unfold handleWrite. cbn [assertInLoopThread mbind res_bind].
    destruct (isWriting (m_channel t)) eqn:Ew; [|done]. rewrite read_content by apply Hi. cbn [mbind res_bind].
    destruct (w (content (m_outputBuffer t))) as [n|err] eqn:En; [|done]. destruct (0 <? n) eqn:E0; [|done]. bprop.
    destruct (Hf _ _ En) as [_ Hn]. rewrite zlen_content in Hn by apply Hi.
    assert (u64 n = n) as -> by (apply u64_small; destruct (inv_out t Hi) as (? & ? & ? & Hmax);
      rewrite readable_wf in Hn by apply Hi; unfold max_size in Hmax; lia).
    destruct (retrieve_ok (m_outputBuffer t) n) as (b & -> & _); [apply Hi|lia|]. cbn [mbind res_bind].
    destruct (readableBytes b =? 0).
    2:{ eexists _, [_]. split_and!; [done..|]. by repeat constructor. }
    simpl. destruct (m_writeCompleteCallback t), (bool_decide _); unfold shutdownInLoop; cbn [assertInLoopThread mbind res_bind];
      try destruct (negb _); eexists _, _; (split_and!; [done|done|simpl; rewrite <- ?app_assoc; done|by repeat constructor]). }
  exists t'. split_and!; [done..| |by rewrite (added_app _ _ _ Et)].
  destruct (isWriting (m_channel t)) eqn:Ew.
  - eapply good_advances; [by apply (handleWrite_good t w)|done|by eapply keeps_open].
  - unfold handleWrite in E. rewrite Ew in E. injection E as <-. by apply advances_refl.
Qed.

(** ** Exchanges *)

Definition event_ok (e : session_event) : Prop :=
  match e with
  | Arrives p _ w => p ≠ [] ∧ zlen p ≤ extrabuf_size ∧ healthy w
  | Writable w => write_fits w
  end.

(** The bytes that arrive, and when. *)
Definition pieces (es : list session_event) : list ascii :=
  concat (map (λ e, match e with Arrives p _ _ => p | Writable _ => [] end) es).
Definition times (es : list session_event) : list Z :=
  concat (map (λ e, match e with Arrives _ t _ => [t] | Writable _ => [] end) es).

(** A request as a client writes it, and the events while it arrives. *)
Record exchange : Type := mkExchange {
  x_method : Method;
  x_path : list ascii;
  x_query : list ascii;
  x_version : Version;
  x_headers : list (list ascii * list ascii);
  x_events : list session_event;
}.

Definition x_text (x : exchange) : list ascii :=
  request_text (x_method x) (x_path x) (x_query x) (x_version x) (x_headers x).
Definition x_request (x : exchange) (receiveTime : Z) : HttpRequest :=
  mkRequest (x_path x) (x_query x) receiveTime (headers_of (x_headers x)) (x_method x) (x_version x).

Record exchange_ok (x : exchange) : Prop := mkExchangeOk {
  x_known : x_method x ≠ kInvalid ∧ x_method x ≠ kHead ∧ x_version x ≠ kUnknown;
  x_target : good_target (x_path x) (x_query x);
  x_fields : Forall good_header (x_headers x);
  x_sized : 2 * zlen (x_text x) + kCheapPrepend ≤ max_size;
  x_arrives : pieces (x_events x) = x_text x;
  x_orderly : Forall event_ok (x_events x);
}.

(** The client or the version asks for the connection to be closed. *)
Definition asks_close (req : HttpRequest) : bool :=
  bool_decide (getHeader req (chars "Connection") = chars "close") ||
  (bool_decide (version_ req = kHttp10) && negb (bool_decide (getHeader req (chars "Connection") = chars "Keep-Alive"))).

Definition wire_form (resp : HttpResponse) : list ascii := concat (response_pieces resp).

(** What the client gets: every answer up to the first that closes. *)
Fixpoint delivered (resps : list HttpResponse) : list ascii :=
  match resps with
  | [] => []
  | r :: rs => wire_form r ++ if closeConnection_ r then [] else delivered rs
  end.

Lemma request_text_nonempty x : exchange_ok x → x_text x ≠ [].
Proof. intros [(Hm1 & Hm2 & _) _ _ _ _ _]. unfold x_text, request_text, request_line. by destruct (x_method x). Qed.

Section Session.
Context (httpCallback_ : HttpRequest → HttpResponse → HttpResponse).

Definition respond (req : HttpRequest) : HttpResponse := httpCallback_ req (HttpResponse_ctor (asks_close req)).

Lemma onRequest_acts req :
  2 * zlen (wire_form (respond req)) + kCheapPrepend ≤ max_size →
  onRequest httpCallback_ req =
    Ok (ASend (wire_form (respond req)) :: if closeConnection_ (respond req) then [AShutdown] else []).
Proof.
  intros Hm. unfold onRequest. fold (asks_close req). fold (respond req).
  destruct (Buffer_ctor_ok kInitialSize) as (b0 & -> & Hw0 & Hc0 & _); [by vm_compute|]. cbn [mbind res_bind].
  destruct (append_pieces (response_pieces (respond req)) b0 Hw0) as (b & E & Hw & Hc); [by rewrite Hc0|].
  unfold appendToBuffer. rewrite E. cbn [mbind res_bind]. rewrite read_content by done. cbn [mbind res_bind].
  rewrite Hc, Hc0. done.
Qed.

(** The bytes [p] arrive at an open session. *)
Lemma step_reads s p receiveTime w :
  open_conn (s_conn s) → p ≠ [] → zlen p ≤ extrabuf_size →
  zlen (content (m_inputBuffer (s_conn s))) + 2 * zlen p + kCheapPrepend ≤ max_size →
  ∃ t, session_step httpCallback_ s (Arrives p receiveTime w) =
      session_message httpCallback_ (mkSession t (s_context s)) receiveTime w ∧
    advances (s_conn s) [] t ∧ m_state t = m_state (s_conn s) ∧ wf (m_inputBuffer t) ∧
    content (m_inputBuffer t) = content (m_inputBuffer (s_conn s)) ++ p.
Proof.
  intros Ho Hp Hx Hm. destruct (handleRead_arrives (s_conn s) p Ho Hp Hx Hm) as (b & E & A & Hw & Hc).
  exists (emit (set_input (s_conn s) b) EMessageCb). unfold session_step. rewrite E. cbn [mbind res_bind].
  rewrite (added_app _ _ [EMessageCb]) by done. split_and!; try done. cbn [callbacks]. by destruct (session_message _ _ _ _) as [[]|].
Qed.

(** The message callback while the request is incomplete. *)
Lemma message_waits s c c1 a1 receiveTime w :
  open_conn (s_conn s) → s_context s = Some c →
  parse c (content (m_inputBuffer (s_conn s))) receiveTime = Ok (Some (c1, a1, true)) → state_ c1 ≠ kGotAll →
  ∃ s', session_message httpCallback_ s receiveTime w = Ok (Some s') ∧ s_context s' = Some c1 ∧
    content (m_inputBuffer (s_conn s')) = a1 ∧ advances (s_conn s) [] (s_conn s') ∧ m_state (s_conn s') = m_state (s_conn s).
Proof.
  intros [Hi Ho] Ec Ep Hg. unfold session_message. rewrite Ec. unfold onMessage.
  pose proof (parseRequest_parse c (m_inputBuffer (s_conn s)) receiveTime (inv_in _ Hi)) as P. rewrite Ep in P.
  destruct P as (b' & -> & Hw' & Hc'). cbn [mbind res_bind]. unfold gotAll. rewrite bool_decide_false by done.
  eexists. split_and!; [done..| |done]. by apply set_input_advances.
Qed.

Definition answered (s : session) (resp : HttpResponse) (s' : session) : Prop :=
  s_context s' = Some HttpContext_ctor ∧ content (m_inputBuffer (s_conn s')) = [] ∧
  advances (s_conn s) (if connected (s_conn s) then wire_form resp else []) (s_conn s') ∧
  m_state (s_conn s') = if closeConnection_ resp then kDisconnecting else m_state (s_conn s).

(** The message callback when the request is complete; what follows it stays
    in the buffer. *)
Lemma message_complete s c req rest receiveTime w :
  open_conn (s_conn s) → s_context s = Some c → healthy w →
  parse c (content (m_inputBuffer (s_conn s))) receiveTime = Ok (Some (mkContext kGotAll req, rest, true)) →
  zlen (out (s_conn s)) + 2 * zlen (wire_form (respond req)) + kCheapPrepend ≤ max_size →
  ∃ s', session_message httpCallback_ s receiveTime w = Ok (Some s') ∧ s_context s' = Some HttpContext_ctor ∧
    content (m_inputBuffer (s_conn s')) = rest ∧
    advances (s_conn s) (if connected (s_conn s) then wire_form (respond req) else []) (s_conn s') ∧
    m_state (s_conn s') = if closeConnection_ (respond req) then kDisconnecting else m_state (s_conn s).
Proof.
  intros [Hi Ho] Ec Hh Ep Hm. unfold session_message. rewrite Ec. unfold onMessage.
  pose proof (parseRequest_parse c (m_inputBuffer (s_conn s)) receiveTime (inv_in _ Hi)) as P. rewrite Ep in P.
  destruct P as (b' & -> & Hw' & Hc'). cbn [mbind res_bind request_].
  change (gotAll (mkContext kGotAll req)) with true. cbn iota.
  pose proof (zlen_nonneg (out (s_conn s))). rewrite onRequest_acts by lia. cbn [mbind res_bind app reset].
  pose proof (set_input_advances (s_conn s) b' (conj Hi Ho) Hw') as A0. set (t0 := set_input (s_conn s) b') in *.
  cbn [foldM act]. destruct (closeConnection_ (respond req)); cbn [foldM act].
  - destruct (last_words w t0 (wire_form (respond req)) (proj1 A0) Hh Hm) as (t1 & t2 & E1 & E2 & S2 & I2 & A2).
    rewrite E1. cbn [mbind res_bind]. rewrite E2. cbn [mbind res_bind]. eexists. split; [done|]. cbn [s_conn s_context]. rewrite I2.
    split_and!; done.
  - destruct (send_advances w t0 (wire_form (respond req)) (proj1 A0) Hh Hm) as (t1 & E1 & [K1 K1'] & A1).
    rewrite E1. cbn [mbind res_bind]. eexists. split; [done|]. cbn [s_conn s_context]. rewrite K1'.
    split_and!; done.
Qed.

Lemma connected_same t t' : m_state t' = m_state t → connected t' = connected t.
Proof. intros E. unfold connected. by rewrite E. Qed.

(** An answer after steps that take charge of nothing, or before them. *)
Lemma answered_after s s1 resp s' :
  advances (s_conn s) [] (s_conn s1) → m_state (s_conn s1) = m_state (s_conn s) → answered s1 resp s' → answered s resp s'.
Proof.
  intros A E (Hc & Hb & A' & Es). rewrite (connected_same _ _ E) in A'. rewrite E in Es. split_and!; try done.
  apply (advances_trans _ _ _ _ _ A A').
Qed.

Lemma answered_before s resp s1 s' :
  answered s resp s1 → advances (s_conn s1) [] (s_conn s') → keeps (s_conn s1) (s_conn s') →
  s_context s' = s_context s1 → answered s resp s'.
Proof.
  intros (Hc & Hb & A & Es) A' [K1 K2] Ec. split_and!; [by rewrite Ec|by rewrite K2| |by rewrite K1].
  pose proof (advances_trans _ _ _ _ _ A A') as A2. by rewrite app_nil_r in A2.
Qed.

Lemma step_writable s w :
  open_conn (s_conn s) → write_fits w →
  ∃ s1, session_step httpCallback_ s (Writable w) = Ok (Some s1) ∧ s_context s1 = s_context s ∧
    keeps (s_conn s) (s_conn s1) ∧ advances (s_conn s) [] (s_conn s1).
Proof.
  intros Ho Hf. destruct (handleWrite_advances w (s_conn s) Ho Hf) as (t & E & K & A & Q).
  exists (mkSession t (s_context s)). unfold session_step. rewrite E. cbn [mbind res_bind].
  by rewrite callbacks_quiet.
Qed.

(** Nothing arrives any more. *)
Lemma idle_run es : ∀ s,
  open_conn (s_conn s) → Forall event_ok es → pieces es = [] →
  ∃ s', session_run httpCallback_ s es = Ok (Some s') ∧ s_context s' = s_context s ∧
    keeps (s_conn s) (s_conn s') ∧ advances (s_conn s) [] (s_conn s').
Proof.
  induction es as [|e es IH]; intros s Ho Hok Hp; simpl.
  - exists s. split_and!; try done. by apply advances_refl.
  - apply Forall_cons in Hok as [He Hok]. destruct e as [p t w|w].
    + destruct He as [He _]. by destruct p.
    + destruct (step_writable s w Ho He) as (s1 & -> & E1 & K1 & A1). cbn [mbind res_bind].
      destruct (IH s1 (proj1 A1) Hok Hp) as (s' & -> & E2 & K2 & A2). exists s'.
      destruct K1, K2. split_and!; [done|congruence|split; congruence|]. apply (advances_trans _ _ _ _ _ A1 A2).
Qed.

Section Exchange.
Context (req : Z → HttpRequest).

(** The parser, after what it has read, will read [str] to the request; the
    receive time is that of the piece that completes the request line. *)
Definition pending (c : HttpContext) (str : list ascii) (seen : Z → Prop) : Prop :=
  (state_ c = kExpectRequestLine ∧ method_ (request_ c) = kInvalid ∧
     ∀ t, parse c str t = Ok (Some (mkContext kGotAll (req t), [], true))) ∨
  (state_ c = kExpectHeaders ∧ ∃ tm, seen tm ∧ ∀ t, parse c str t = Ok (Some (mkContext kGotAll (req tm), [], true))).

Lemma pending_ready c str seen : pending c str seen → ready c.
Proof. intros [(? & ? & _)|[? _]]; [by right|by left]. Qed.

Lemma pending_parse c str seen t :
  pending c str seen → ∃ tm, (seen tm ∨ tm = t) ∧ parse c str t = Ok (Some (mkContext kGotAll (req tm), [], true)).
Proof. intros [(_ & _ & H)|(_ & tm & Hs & H)]; [exists t|exists tm]; auto. Qed.

(** The next piece: either the request waits for more, or it is complete and
    nothing is left. *)
Lemma pending_step c a more seen t :
  pending c (a ++ more) seen →
  (∃ c1 a1, parse c a t = Ok (Some (c1, a1, true)) ∧ state_ c1 ≠ kGotAll ∧ more ≠ [] ∧
     pending c1 (a1 ++ more) (λ tm, seen tm ∨ tm = t) ∧ (length a1 ≤ length a)%nat) ∨
  (∃ tm, (seen tm ∨ tm = t) ∧ parse c a t = Ok (Some (mkContext kGotAll (req tm), [], true)) ∧ more = []).
Proof.
  intros Hp. pose proof (pending_ready _ _ _ Hp) as Hr. pose proof (ready_at_line _ Hr) as Ha.
  destruct (pending_parse _ _ _ t Hp) as (tm & Htm & Ew).
  destruct (parse_ready (S (length a)) c a t Hr ltac:(lia)) as ([[c1 a1] ok] & E).
  destruct (decide (ok = false ∨ state_ c1 = kGotAll)) as [Hf|Hf].
  - right. rewrite (loop_final _ _ _ more _ _ _ _ Ha E Hf) in Ew. injection Ew as -> Ea ->.
    apply app_nil in Ea as [-> ->]. exists tm. split_and!; [done|exact E|done].
  - left. assert (ok = true) as -> by (destruct ok; [done|tauto]). assert (state_ c1 ≠ kGotAll) as Hg by tauto.
    destruct (loop_split _ _ _ more _ _ _ Ha E Hg) as [Ha1 Es]. exists c1, a1. split_and!; [exact E|done| | |].
    + intros ->. rewrite app_nil_r in Ew. unfold parse in Ew. rewrite E in Ew. by injection Ew as -> _.
    + destruct Ha1 as [H1|H1].
      * destruct (loop_waits _ _ _ _ _ _ Ha E H1) as [-> ->].
        destruct Hp as [?|(Hh & _)]; [by left|congruence].
      * right. split; [done|]. exists tm. split; [done|]. intros t'.
        rewrite <- Ew, Es. unfold parse. by apply loop_time.
    + by apply (loop_shrinks _ _ _ _ _ _ _ E).
Qed.

Lemma exchange_run es : ∀ s c seen,
  open_conn (s_conn s) → s_context s = Some c → Forall event_ok es → pieces es ≠ [] →
  pending c (content (m_inputBuffer (s_conn s)) ++ pieces es) seen →
  2 * (zlen (content (m_inputBuffer (s_conn s))) + zlen (pieces es)) + kCheapPrepend ≤ max_size →
  (∀ tm, zlen (out (s_conn s)) + 2 * zlen (wire_form (respond (req tm))) + kCheapPrepend ≤ max_size) →
  ∃ s' tm, session_run httpCallback_ s es = Ok (Some s') ∧ (seen tm ∨ tm ∈ times es) ∧ answered s (respond (req tm)) s'.
Proof.
  induction es as [|e es IH]; intros s c seen Ho Ec Hok Hne Hp Hm Hout; [done|].
  apply Forall_cons in Hok as [He Hok]. pose proof (zlen_nonneg (content (m_inputBuffer (s_conn s)))) as Hz0.
  destruct e as [p t w|w].
  - destruct He as (Hpne & Hx & Hh). change (pieces (Arrives p t w :: es)) with (p ++ pieces es) in *.
    change (times (Arrives p t w :: es)) with (t :: times es). rewrite zlen_app in Hm.
    pose proof (zlen_nonneg p). pose proof (zlen_nonneg (pieces es)).
    destruct (step_reads s p t w Ho Hpne Hx) as (t1 & E1 & A1 & S1 & Hw1 & Hc1); [lia|].
    cbn [session_run]. rewrite E1. rewrite app_assoc, <- Hc1 in Hp. set (s1 := mkSession t1 (s_context s)) in *.
    pose proof (advances_out _ _ _ A1) as Ho1. rewrite zlen_nil in Ho1.
    destruct (pending_step _ _ _ _ t Hp) as [(c1 & a1 & Ep & Hg & Hmore & Hp1 & Hl)|(tm & Htm & Ep & Hmore)].
    + destruct (message_waits s1 c c1 a1 t w (proj1 A1) Ec Ep Hg) as (s2 & E2 & C2 & I2 & A2 & S2).
      rewrite E2. cbn [mbind res_bind]. pose proof (advances_out _ _ _ A2) as Ho2. rewrite zlen_nil in Ho2. simpl s_conn in Ho2.
      destruct (IH s2 c1 (λ tm, seen tm ∨ tm = t) (proj1 A2) C2 Hok Hmore) as (s' & tm & E & Htm & Han).
      * by rewrite I2.
      * rewrite I2. rewrite Hc1, length_app in Hl. unfold zlen in *. lia.
      * intros tm. specialize (Hout tm). lia.
      * exists s', tm. split_and!; [done| |].
        { destruct Htm as [[?|<-]|?]; [by left|right; by left|right; by right]. }
        apply (answered_after s s2); [apply (advances_trans _ _ _ _ _ A1 A2)|by rewrite S2|done].
    + destruct (message_complete s1 c (req tm) [] t w (proj1 A1) Ec Hh Ep) as (s2 & E2 & Hc2 & Hb2 & A2 & Es2).
      { specialize (Hout tm). simpl s_conn. lia. }
      rewrite E2. cbn [mbind res_bind].
      destruct (idle_run es s2 (proj1 A2) Hok Hmore) as (s' & E & C' & K' & A'). exists s', tm. split_and!; [done| |].
      * destruct Htm as [?| ->]; [by left|right; by left].
      * apply (answered_after s s1); [done..|]. apply (answered_before _ _ s2); done.
  - destruct (step_writable s w Ho He) as (s1 & E1 & C1 & K1 & A1). cbn [session_run]. rewrite E1. cbn [mbind res_bind].
    pose proof (advances_out _ _ _ A1) as Ho1. rewrite zlen_nil in Ho1. destruct K1 as [S1 I1].
    destruct (IH s1 c seen (proj1 A1)) as (s' & tm & E & Htm & Han); try done; try by rewrite ?C1, ?I1.
    { intros tm. specialize (Hout tm). lia. }
    exists s', tm. split_and!; [done..|]. by apply (answered_after s s1).
Qed.
End Exchange.

(** ** A whole session *)

Definition reply (x : exchange) (tm : Z) : HttpResponse := respond (x_request x tm).

(** The session between two requests. *)
Definition between (s : session) : Prop :=
  open_conn (s_conn s) ∧ s_context s = Some HttpContext_ctor ∧ content (m_inputBuffer (s_conn s)) = [].

Lemma exchange_answered s x :
  between s → exchange_ok x →
  (∀ tm, zlen (out (s_conn s)) + 2 * zlen (wire_form (reply x tm)) + kCheapPrepend ≤ max_size) →
  ∃ s' tm, session_run httpCallback_ s (x_events x) = Ok (Some s') ∧ tm ∈ times (x_events x) ∧
    answered s (reply x tm) s'.
Proof.
  intros (Ho & Ec & Hc) Hx Hout. pose proof (request_text_nonempty x Hx) as Hne.
  destruct Hx as [(Hm1 & Hm2 & Hv) Ht Hf Hs Ha Hok].
  destruct (exchange_run (x_request x) (x_events x) s HttpContext_ctor (λ _, False)) as (s' & tm & E & Htm & Han); try done.
  - by rewrite Ha.
  - left. split_and!; [done..|]. intros t. rewrite Hc, Ha. by apply request_parsed.
  - rewrite Hc, Ha, zlen_nil. unfold x_text in *. lia.
  - exists s', tm. split_and!; [done|by destruct Htm|done].
Qed.

Lemma run_app es1 : ∀ s es2,
  session_run httpCallback_ s (es1 ++ es2) =
    (r ← session_run httpCallback_ s es1;
     match r : option session with None => Ok None | Some s1 => session_run httpCallback_ s1 es2 end).
Proof.
  induction es1 as [|e es1 IH]; intros s es2; [done|]. cbn [app session_run].
  destruct (session_step httpCallback_ s e) as [[s1|]|f]; cbn [mbind res_bind]; [apply IH|done..].
Qed.

Definition replies (xs : list exchange) (resps : list HttpResponse) : Prop :=
  Forall2 (λ x resp, ∃ tm, tm ∈ times (x_events x) ∧ resp = reply x tm) xs resps.

Lemma session_answers L xs : ∀ s,
  between s → Forall exchange_ok xs → (∀ x tm, x ∈ xs → zlen (wire_form (reply x tm)) ≤ L) →
  zlen (out (s_conn s)) + 2 * L * zlen xs + kCheapPrepend ≤ max_size →
  ∃ s' resps, session_run httpCallback_ s (concat (map x_events xs)) = Ok (Some s') ∧ replies xs resps ∧ between s' ∧
    advances (s_conn s) (if connected (s_conn s) then delivered resps else []) (s_conn s') ∧
    m_state (s_conn s') = if existsb closeConnection_ resps then kDisconnecting else m_state (s_conn s).
Proof.
  induction xs as [|x xs IH]; intros s Hb Hok HL Hm.
  - exists s, []. split_and!; [done|constructor|done| |done]. destruct (connected _); by apply advances_refl, Hb.
  - apply Forall_cons in Hok as [Hx Hok].
    assert (Hxs : zlen (x :: xs) = 1 + zlen xs) by (unfold zlen; simpl; lia). rewrite Hxs in Hm.
    assert (HLx : ∀ tm, 0 ≤ zlen (wire_form (reply x tm)) ≤ L) by (intros tm; split; [apply zlen_nonneg|apply HL; by left]).
    pose proof (zlen_nonneg xs). pose proof (HLx 0) as HL0.
    destruct (exchange_answered s x Hb Hx) as (s1 & tm & E1 & Htm & Hc1 & Hb1 & A1 & S1).
    { intros tm. specialize (HLx tm). nia. }
    specialize (HLx tm). pose proof (advances_out _ _ _ A1) as Ho1.
    destruct (IH s1) as (s' & resps & E & HR & Hbs & A & S); [by split_and!; [apply A1|..]|done|by intros; apply HL; right| |].
    { destruct (connected (s_conn s)); [|rewrite zlen_nil in Ho1]; nia. }
    exists s', (reply x tm :: resps). cbn [map concat]. rewrite run_app, E1. cbn [mbind res_bind].
    split_and!; [done|by constructor; [eauto|]|done| |].
    + pose proof (advances_trans _ _ _ _ _ A1 A) as A2. unfold connected in *. rewrite S1 in A2. cbn [delivered].
      destruct (closeConnection_ (reply x tm)).
      * change (bool_decide (kDisconnecting = kConnected)) with false in A2. by destruct (bool_decide _).
      * by destruct (bool_decide (m_state (s_conn s) = kConnected)).
    + rewrite S, S1. cbn [existsb]. destruct (closeConnection_ (reply x tm)), (existsb _ resps); done.
Qed.

Lemma session_opens t :
  fresh t → content (m_inputBuffer t) = [] →
  ∃ s, session_open t = Ok s ∧ between s ∧ m_state (s_conn s) = kConnected ∧ advances t [] (s_conn s).
Proof.
  intros Hf Hc. pose proof Hf as (Hs & _). pose proof (established_good t (fresh_inv _ Hf) Hs) as G.
  unfold session_open, connectEstablished in *. rewrite Hs in *. cbn [assertInLoopThread mbind res_bind cassert] in *.
  rewrite cassert_true in * by done. cbn [mbind res_bind] in *. set (t1 := emit _ _) in *. eexists. split; [done|].
  assert (m_state t1 = kConnected) as E1 by done. assert (advances t [] t1) as A by by eapply good_advances.
  unfold onConnection, connected. cbn [s_conn]. rewrite E1.
  rewrite bool_decide_true by done. split_and!; try done. by split_and!; [apply A|..].
Qed.
End Session.

(** ** Properties *)


(** A callback that answers "OK" and echoes the path. *)
Definition echo_path (req : HttpRequest) (resp : HttpResponse) : HttpResponse :=
  setBody (setStatusMessage (setStatusCode resp k200ok) (chars "OK")) (path_ req).

(** Two requests on one connection: the first in two pieces with a write event
    between them, the second asks for the connection to be closed. *)
Definition demo_exchanges : list exchange :=
  [mkExchange kGet (chars "/a") [] kHttp11 [(chars "Host", chars "h")]
     [Arrives (chars "GET /a HT") 1 two_bytes; Writable two_bytes;
      Arrives (chars "TP/1.1" ++ CRLF ++ chars "Host: h" ++ CRLF ++ CRLF) 2 two_bytes; Writable two_bytes];
   mkExchange kPost (chars "/b") (chars "?x") kHttp10 []
     [Arrives (chars "POST /b?x HTTP/1.0" ++ CRLF ++ CRLF) 5 two_bytes]].

Lemma two_bytes_healthy : healthy two_bytes.
Proof. split; [apply two_bytes_fits|]. by intros d err [=]. Qed.

Lemma demo_exchanges_ok : Forall exchange_ok demo_exchanges.
Proof.
  pose proof two_bytes_healthy as Hh. pose proof two_bytes_fits as Hf.
  assert (Ht : good_target (chars "/b") (chars "?x")) by (split_and!; [not_in..|]; right; by eexists).
  repeat apply Forall_cons_2; [..|apply Forall_nil_2]; split; try done; try (by vm_compute);
    try (by split_and!; first [not_in|left]); repeat apply Forall_cons_2; try apply Forall_nil_2; try done;
    by split_and!; first [not_in|vm_compute].
Qed.

