(* ===== verification/HttpService.v ===== *)
(** * An HttpServer on arbitrary input: src/dc/net/http/

    [HttpSession] follows well-formed requests.  Here the bytes that arrive are
    any bytes at all.  [serve] is the abstract server: the parser on byte
    strings, the user's callback, and the answers in order, with no buffers,
    no channel and no socket.  A session of the connection is shown to compute
    what [serve] says, whatever the pieces and whatever the socket takes; the
    one assertion that the input can trip is located exactly. *)

From S2P Require Import Prelude Buffer Channel Poller EventLoop TcpConnection Http HttpSession.

Open Scope Z_scope.

(** ** The abstract server *)

(** What the parser has read and what it has left, whether answers still go
    out, what went out, and whether a request line was refused. *)
Record service : Type := mkService {
  v_context : HttpContext;
  v_left : list ascii;
  v_open : bool;
  v_sent : list ascii;
  v_refused : bool;
}.

Definition new_service : service := mkService HttpContext_ctor [] true [] false.

Section Serve.
Context (httpCallback_ : HttpRequest → HttpResponse → HttpResponse).

(** An answer goes out while the service is open. *)
Definition says (v : service) (x : list ascii) : list ascii := v_sent v ++ if v_open v then x else [].

Definition serve_step (v : service) (e : session_event) : res service :=
  match e with
  | Writable _ => Ok v
  | Arrives p receiveTime _ =>
      r ← parse (v_context v) (v_left v ++ p) receiveTime;
      match r : option (HttpContext * list ascii * bool) with
      | None => Fail (FUndef "the parser does not end")
      | Some (c, rest, false) => Ok (mkService c rest false (says v bad_request) true)
      | Some (c, rest, true) =>
          if gotAll c then
            let resp := respond httpCallback_ (request_ c) in
            Ok (mkService HttpContext_ctor rest (v_open v && negb (closeConnection_ resp)) (says v (wire_form resp)) (v_refused v))
          else Ok (mkService c rest (v_open v) (v_sent v) (v_refused v))
      end
  end.

Definition serve (v : service) (es : list session_event) : res service := foldM serve_step v es.

(** ** The message callback when the request line is refused *)

Lemma message_refused s c c1 a1 receiveTime w :
  open_conn (s_conn s) → s_context s = Some c → healthy w →
  parse c (content (m_inputBuffer (s_conn s))) receiveTime = Ok (Some (c1, a1, false)) → state_ c1 ≠ kGotAll →
  zlen (out (s_conn s)) + 2 * zlen bad_request + kCheapPrepend ≤ max_size →
  ∃ s', session_message httpCallback_ s receiveTime w = Ok (Some s') ∧ s_context s' = Some c1 ∧
    content (m_inputBuffer (s_conn s')) = a1 ∧
    advances (s_conn s) (if connected (s_conn s) then bad_request else []) (s_conn s') ∧
    m_state (s_conn s') = kDisconnecting.
Proof.
  intros [Hi Ho] Ec Hh Ep Hg Hm. unfold session_message. rewrite Ec. unfold onMessage.
  pose proof (parseRequest_parse c (m_inputBuffer (s_conn s)) receiveTime (inv_in _ Hi)) as P. rewrite Ep in P.
  destruct P as (b' & -> & Hw' & Hc'). cbn [mbind res_bind]. unfold gotAll. rewrite bool_decide_false by done.
  pose proof (set_input_advances (s_conn s) b' (conj Hi Ho) Hw') as A0. set (t0 := set_input (s_conn s) b') in *.
  destruct (last_words w t0 bad_request (proj1 A0) Hh Hm) as (t1 & t2 & E1 & E2 & S2 & I2 & A2).
  cbn [mbind res_bind foldM act]. fold t0. rewrite E1. cbn [mbind res_bind]. rewrite E2. cbn [mbind res_bind].
  eexists. split; [done|]. cbn [s_conn s_context]. by rewrite I2.
Qed.

(** The message callback when the parser fails. *)
Lemma message_fails s c f receiveTime w :
  inv (s_conn s) → s_context s = Some c →
  parse c (content (m_inputBuffer (s_conn s))) receiveTime = Fail f →
  session_message httpCallback_ s receiveTime w = Fail f.
Proof.
  intros Hi Ec Ep. unfold session_message. rewrite Ec. unfold onMessage.
  pose proof (parseRequest_parse c (m_inputBuffer (s_conn s)) receiveTime (inv_in _ Hi)) as P. rewrite Ep in P. by rewrite P.
Qed.

(** ** The simulation *)

(** The session is where the abstract server is. *)
Record represents (s : session) (v : service) : Prop := mkRepresents {
  rp_conn : open_conn (s_conn s);
  rp_context : s_context s = Some (v_context v);
  rp_left : content (m_inputBuffer (s_conn s)) = v_left v;
  rp_state : m_state (s_conn s) = if v_open v then kConnected else kDisconnecting;
  rp_sent : wire_of (c_trace (s_conn s)) ++ content (m_outputBuffer (s_conn s)) = v_sent v;
  rp_line : at_line (v_context v);
}.

Lemma represents_out s v : represents s v → zlen (out (s_conn s)) ≤ zlen (v_sent v).
Proof.
  intros R. pose proof (f_equal zlen (rp_sent _ _ R)) as E. rewrite zlen_app in E. unfold out.
  pose proof (zlen_nonneg (wire_of (c_trace (s_conn s)))). lia.
Qed.

(** What an advance of the connection adds to what has been said. *)
Lemma advances_sent t x t' sent :
  wire_of (c_trace t) ++ content (m_outputBuffer t) = sent → advances t x t' →
  wire_of (c_trace t') ++ content (m_outputBuffer t') = sent ++ x.
Proof.
  intros Hs (_ & es & Et & W). unfold out in W. by rewrite Et, wire_app, <- app_assoc, W, app_assoc, Hs.
Qed.

Lemma represents_connected s v : represents s v → connected (s_conn s) = v_open v.
Proof. intros R. unfold connected. rewrite (rp_state _ _ R). by destruct (v_open v). Qed.

Context (M : Z) (HM : zlen bad_request ≤ M) (Hanswers : ∀ req, zlen (wire_form (respond httpCallback_ req)) ≤ M).

(** One event, with room for the bytes that arrive and for one answer. *)
Lemma step_simulates s v e :
  represents s v → event_ok e →
  2 * (zlen (v_left v) + zlen (pieces [e])) + kCheapPrepend ≤ max_size →
  zlen (v_sent v) + 2 * M + kCheapPrepend ≤ max_size →
  match serve_step v e with
  | Ok v' => ∃ s', session_step httpCallback_ s e = Ok (Some s') ∧ represents s' v' ∧
      zlen (v_left v') ≤ zlen (v_left v) + zlen (pieces [e]) ∧ zlen (v_sent v') ≤ zlen (v_sent v) + M
  | Fail f => session_step httpCallback_ s e = Fail f
  end.
Proof.
  intros R He Hl Hs. pose proof (represents_out _ _ R) as Hout. pose proof (zlen_nonneg bad_request) as HM0.
  pose proof (zlen_nonneg (v_left v)) as Hl0. destruct e as [p t w|w]; cbn [serve_step].
  2:{ destruct (step_writable httpCallback_ s w (rp_conn _ _ R) He) as (s1 & E1 & C1 & [K1 K2] & A1).
      exists s1. pose proof (zlen_nonneg (pieces [Writable w])). split_and!; [done| |lia..]. destruct R. split; try congruence; [apply A1|].
      rewrite <- (app_nil_r (v_sent v)). by apply (advances_sent (s_conn s)). }
  destruct He as (Hpne & Hx & Hh). change (pieces [Arrives p t w]) with (p ++ []) in *. rewrite app_nil_r in *.
  pose proof (zlen_nonneg p) as Hp0.
  destruct (step_reads httpCallback_ s p t w (rp_conn _ _ R) Hpne Hx) as (t1 & E1 & A1 & S1 & Hw1 & Hc1);
    [rewrite (rp_left _ _ R); lia|].
  rewrite (rp_left _ _ R) in Hc1. set (s1 := mkSession t1 (s_context s)) in *.
  assert (connected (s_conn s1) = v_open v) as Hco.
  { rewrite <- (represents_connected _ _ R). by apply connected_same. }
  pose proof (advances_sent _ _ _ _ (rp_sent _ _ R) A1) as W1. rewrite app_nil_r in W1.
  pose proof (advances_out _ _ _ A1) as Ho1. rewrite zlen_nil in Ho1.
  rewrite E1. destruct (parse (v_context v) (v_left v ++ p) t) as [[[[c1 a1] ok]|]|f] eqn:Ep; cbn [mbind res_bind].
  2:{ exfalso. refine (loop_terminates _ _ _ t (rp_line _ _ R) _ Ep). lia. }
  2:{ apply (message_fails s1 (v_context v)); [apply A1|by rewrite <- (rp_context _ _ R)|by simpl; rewrite Hc1]. }
  destruct (loop_shrinks _ _ _ _ _ _ _ Ep (rp_line _ _ R)) as [Hlen Hst]. rewrite length_app in Hlen.
  assert (zlen a1 ≤ zlen (v_left v) + zlen p) as Ha1 by (unfold zlen; lia). rewrite <- Hc1 in Ep.
  pose proof (rp_context _ _ R) as Ec. pose proof (rp_state _ _ R) as Hstate. unfold says.
  assert (Hroom : ∀ m : list ascii, zlen m ≤ M → zlen (out (s_conn s1)) + 2 * zlen m + kCheapPrepend ≤ max_size) by (intros m ?; simpl s_conn; lia).
  assert (Hgrow : ∀ m : list ascii, zlen m ≤ M → zlen (v_sent v ++ (if v_open v then m else [])) ≤ zlen (v_sent v) + M).
  { intros m Hm. rewrite zlen_app. destruct (v_open v); [lia|]. rewrite zlen_nil. lia. }
  destruct ok.
  - unfold gotAll. destruct (decide (state_ c1 = kGotAll)) as [Hg|Hg].
    + rewrite bool_decide_true by done. destruct c1 as [st req]. simpl in Hg. subst st. cbn [request_] in *.
      destruct (message_complete httpCallback_ s1 _ req a1 t w (proj1 A1) Ec Hh Ep) as (s2 & E2 & Hc2 & Hb2 & A2 & Es2);
        [by apply Hroom|].
      rewrite Hco in A2. exists s2. split_and!; [done| |done|by apply Hgrow].
      split; simpl; [apply A2|done|done| |by apply (advances_sent _ _ _ _ W1 A2)|by left].
      rewrite Es2. simpl s_conn. rewrite S1, Hstate. by destruct (v_open v), (closeConnection_ _).
    + rewrite bool_decide_false by done. destruct Hst as [Hst|]; [|done].
      destruct (message_waits httpCallback_ s1 _ c1 a1 t w (proj1 A1) Ec Ep Hg) as (s2 & E2 & C2 & I2 & A2 & S2).
      exists s2. split_and!; [done| |done|simpl; lia].
      split; simpl; [apply A2|done|done|by rewrite S2; simpl; rewrite S1| |done].
      rewrite <- (app_nil_r (v_sent v)). by apply (advances_sent _ _ _ _ W1 A2).
  - destruct (message_refused s1 _ c1 a1 t w (proj1 A1) Ec Hh Ep) as (s2 & E2 & Hc2 & Hb2 & A2 & Es2);
      [by rewrite Hst|by apply Hroom|].
    rewrite Hco in A2. exists s2. split_and!; [done| |done|by apply Hgrow].
    split; simpl; [apply A2|done|done|done|by apply (advances_sent _ _ _ _ W1 A2)|by left].
Qed.

(** The same over a whole session. *)
Lemma run_simulates es : ∀ s v,
  represents s v → Forall event_ok es →
  2 * (zlen (v_left v) + zlen (pieces es)) + kCheapPrepend ≤ max_size →
  zlen (v_sent v) + M * (zlen es + 1) + kCheapPrepend ≤ max_size →
  match serve v es with
  | Ok v' => ∃ s', session_run httpCallback_ s es = Ok (Some s') ∧ represents s' v'
  | Fail f => session_run httpCallback_ s es = Fail f
  end.
Proof.
  induction es as [|e es IH]; intros s v R Hok Hl Hs; [by exists s|].
  apply Forall_cons in Hok as [He Hok]. pose proof (zlen_nonneg es). pose proof (zlen_nonneg (pieces es)).
  pose proof (zlen_nonneg bad_request).
  assert (zlen (e :: es) = 1 + zlen es) as Hn by (unfold zlen; simpl; lia). rewrite Hn in Hs.
  assert (pieces (e :: es) = pieces [e] ++ pieces es) as Hp by (unfold pieces; simpl; by rewrite app_nil_r).
  rewrite Hp, zlen_app in Hl.
  pose proof (step_simulates s v e R He ltac:(lia) ltac:(nia)) as P. unfold serve in *. cbn [foldM session_run].
  destruct (serve_step v e) as [v1|f]; cbn [mbind res_bind].
  - destruct P as (s1 & -> & R1 & Hl1 & Hs1). cbn [mbind res_bind]. apply IH; [done..|lia|nia].
  - by rewrite P.
Qed.

(** ** Refusals *)

(** Until a request line is refused the parser is ready for the next one;
    after it no answer goes out. *)
Definition orderly (v : service) : Prop :=
  at_line (v_context v) ∧ if v_refused v then v_open v = false else ready (v_context v).

(** The parser keeps ready while it refuses nothing. *)
Lemma parse_stays_ready c s t c1 s1 :
  ready c → parse c s t = Ok (Some (c1, s1, true)) → state_ c1 ≠ kGotAll → ready c1.
Proof.
  intros Hr E Hg. pose proof (ready_at_line _ Hr) as Ha.
  destruct (loop_shrinks _ _ _ _ _ _ _ E Ha) as [_ [[H1|H1]|]]; [|by left|done].
  by destruct (loop_waits _ _ _ _ _ _ Ha E H1) as [-> _].
Qed.

Lemma step_orderly v e :
  orderly v →
  match serve_step v e with
  | Ok v' => orderly v'
  | Fail f => f = FAssert "method_ == kInvalid" ∧ v_refused v = true
  end.
Proof.
  intros [Ha Hv]. destruct e as [p t w|w]; cbn [serve_step]; [|done].
  destruct (parse (v_context v) (v_left v ++ p) t) as [[[[c1 a1] ok]|]|f] eqn:Ep; cbn [mbind res_bind].
  - destruct (loop_shrinks _ _ _ _ _ _ _ Ep Ha) as [_ Hst]. destruct ok.
    + unfold gotAll. destruct (decide (state_ c1 = kGotAll)) as [Hg|Hg].
      * rewrite bool_decide_true by done. split; [by left|]. cbn [v_refused v_open v_context].
        destruct (v_refused v); [by rewrite Hv|by right].
      * rewrite bool_decide_false by done. destruct Hst as [Hst|]; [|done]. split; [done|]. cbn [v_refused v_open v_context].
        destruct (v_refused v); [done|]. by eapply parse_stays_ready.
    + split; [by left|done].
  - exfalso. refine (loop_terminates _ _ _ t Ha _ Ep). lia.
  - destruct (parse_fails _ _ _ _ Ha Ep) as [-> Hn]. split; [done|]. by destruct (v_refused v).
Qed.

Lemma serve_orderly es : ∀ v f,
  orderly v → serve v es = Fail f →
  f = FAssert "method_ == kInvalid" ∧
  ∃ es1 es2 v1, es = es1 ++ es2 ∧ serve v es1 = Ok v1 ∧ v_refused v1 = true ∧ v_open v1 = false.
Proof.
  induction es as [|e es IH]; intros v f Ho E; [done|]. unfold serve in *. cbn [foldM] in E.
  pose proof (step_orderly v e Ho) as P. destruct (serve_step v e) as [v1|f1] eqn:E1; cbn [mbind res_bind] in E.
  - destruct (IH v1 f P E) as (-> & es1 & es2 & v2 & -> & E2 & H2). split; [done|]. exists (e :: es1), es2, v2.
    split_and!; [done| |apply H2..]. cbn [foldM]. by rewrite E1.
  - injection E as <-. destruct P as [-> Hr]. split; [done|]. exists [], (e :: es), v. destruct Ho as [_ Ho].
    rewrite Hr in Ho. by split_and!.
Qed.
End Serve.

(** A new connection stands where a new service does. *)
Lemma open_represents sockfd wcb hwcb t0 :
  0 ≤ sockfd → TcpConnection_ctor sockfd wcb hwcb = Ok t0 →
  ∃ s0, session_open t0 = Ok s0 ∧ represents s0 new_service.
Proof.
  intros Hfd E. destruct (ctor_fresh sockfd wcb hwcb Hfd) as (t' & E' & Hf & _). assert (t' = t0) as -> by congruence.
  assert (content (m_inputBuffer t0) = []) as Hc.
  { unfold TcpConnection_ctor in E. destruct (Buffer_ctor_ok kInitialSize) as (b & Eb & _ & Hcb & _); [by vm_compute|].
    rewrite Eb in E. by injection E as <-. }
  destruct (session_opens t0 Hf Hc) as (s0 & Es0 & (Ho & Hctx & Hin) & S0 & A0). exists s0. split; [done|].
  pose proof Hf as (_ & _ & _ & Hout & _ & _ & _ & Htr). split; try done; [|by left].
  refine (advances_sent _ _ _ [] _ A0). by rewrite Htr.
Qed.

(** ** Properties *)

Section Properties.
Context (httpCallback_ : HttpRequest → HttpResponse → HttpResponse) (sockfd : Z) (wcb hwcb : bool) (t0 : TcpConnection).
Context (es : list session_event) (M : Z).

(** The hypotheses: a new connection, events as a socket reports them, and
    room in the buffers for what arrives and for an answer per event. *)
Definition any_input : Prop :=
  0 ≤ sockfd ∧ TcpConnection_ctor sockfd wcb hwcb = Ok t0 ∧ Forall event_ok es ∧
  zlen bad_request ≤ M ∧ (∀ req, zlen (wire_form (respond httpCallback_ req)) ≤ M) ∧
  2 * zlen (pieces es) + kCheapPrepend ≤ max_size ∧ M * (zlen es + 1) + kCheapPrepend ≤ max_size.

Lemma any_input_simulates :
  any_input → ∃ s0, session_open t0 = Ok s0 ∧
    match serve httpCallback_ new_service es with
    | Ok v => ∃ s, session_run httpCallback_ s0 es = Ok (Some s) ∧ represents s v
    | Fail f => session_run httpCallback_ s0 es = Fail f
    end.
Proof.
  intros (Hfd & E & Hok & HM & Hans & Hl & Hs). destruct (open_represents _ _ _ _ Hfd E) as (s0 & E0 & R).
  exists s0. split; [done|]. by apply (run_simulates httpCallback_ M).
Qed.

(** C16.  An HttpServer on any input whatever: for any bytes cut anywhere into
    pieces, with write events in between and a socket that takes any part of
    what it is given, a session on a new connection computes what the abstract
    server does.  When that goes on, so does the session: the bytes on the wire
    followed by those in the output buffer are the answers in order, each the
    user's response to the next request or "400 Bad Request", up to the one
    after which the connection closes; what the parser has not read is in the
    input buffer; the connection is shut down iff an answer closed it.  When
    the abstract server fails, the session fails in the same way. *)
Theorem http_any_input :
  any_input → ∃ s0, session_open t0 = Ok s0 ∧
    match serve httpCallback_ new_service es with
    | Ok v => ∃ s, session_run httpCallback_ s0 es = Ok (Some s) ∧ s_context s = Some (v_context v) ∧
        wire_of (c_trace (s_conn s)) ++ content (m_outputBuffer (s_conn s)) = v_sent v ∧
        content (m_inputBuffer (s_conn s)) = v_left v ∧
        m_state (s_conn s) = (if v_open v then kConnected else kDisconnecting)
    | Fail f => session_run httpCallback_ s0 es = Fail f
    end.
Proof.
  intros H. destruct (any_input_simulates H) as (s0 & E0 & P). exists s0. split; [done|].
  destruct (serve httpCallback_ new_service es) as [v|f]; [|done].
  destruct P as (s & E & R). exists s. by destruct R.
Qed.

(** C17.  No input makes an HttpServer fail unless it has refused a request
    line before: a session either runs through all its events or trips the
    assertion of HttpRequest::setMethod, and this only after "400 Bad
    Request" and a shutdown of the connection. *)
Theorem http_fails_only_refused :
  any_input → ∃ s0, session_open t0 = Ok s0 ∧
    ((∃ s, session_run httpCallback_ s0 es = Ok (Some s) ∧ open_conn (s_conn s)) ∨
     (session_run httpCallback_ s0 es = Fail (FAssert "method_ == kInvalid") ∧
      ∃ es1 es2 v1, es = es1 ++ es2 ∧ serve httpCallback_ new_service es1 = Ok v1 ∧ v_refused v1 = true ∧ v_open v1 = false)).
Proof.
  intros H. destruct (any_input_simulates H) as (s0 & E0 & P). exists s0. split; [done|].
  destruct (serve httpCallback_ new_service es) as [v|f] eqn:Ev.
  - left. destruct P as (s & E & R). exists s. split; [done|apply R].
  - right. apply serve_orderly in Ev as [-> Hx]; [done|]. split; [by left|by right].
Qed.
End Properties.

(** What the default callback says does not depend on the request. *)
Lemma default_answer req : zlen (wire_form (respond defaultHttpCallback req)) ≤ 100.
Proof. unfold respond. destruct (asks_close req); by vm_compute. Qed.

(** A request in two pieces, and then a line that is none. *)
Definition demo_noise : list session_event :=
  [Arrives (chars "POST /b") 1 two_bytes; Writable two_bytes; Arrives (chars " HTTP/1.1" ++ CRLF ++ CRLF ++ chars "???") 2 two_bytes;
   Arrives CRLF 3 two_bytes].

Lemma demo_any_input es :
  Forall event_ok es → zlen (pieces es) ≤ 100 → zlen es ≤ 10 → any_input defaultHttpCallback 7 true true ctor_conn es 100.
Proof.
  intros Hok Hp Hn. pose proof default_answer. split_and!; try done.
  - assert (2 * 100 + kCheapPrepend ≤ max_size) by by vm_compute. lia.
  - assert (100 * (10 + 1) + kCheapPrepend ≤ max_size) by by vm_compute. lia.
Qed.

Lemma demo_noise_ok : any_input defaultHttpCallback 7 true true ctor_conn demo_noise 100.
Proof.
  pose proof two_bytes_healthy. pose proof two_bytes_fits.
  apply demo_any_input; [|by vm_compute..]. repeat apply Forall_cons_2; try apply Forall_nil_2; done.
Qed.

Lemma http_any_input_witness :
  ∃ s0, session_open ctor_conn = Ok s0 ∧
    match serve defaultHttpCallback new_service demo_noise with
    | Ok v => ∃ s, session_run defaultHttpCallback s0 demo_noise = Ok (Some s) ∧ s_context s = Some (v_context v) ∧
        wire_of (c_trace (s_conn s)) ++ content (m_outputBuffer (s_conn s)) = v_sent v ∧
        content (m_inputBuffer (s_conn s)) = v_left v ∧
        m_state (s_conn s) = (if v_open v then kConnected else kDisconnecting)
    | Fail f => session_run defaultHttpCallback s0 demo_noise = Fail f
    end.
Proof. exact (http_any_input defaultHttpCallback 7 true true ctor_conn demo_noise 100 demo_noise_ok). Defined.

(** A bad version in a request line, and one more byte. *)
Definition remote_abort : list session_event :=
  [Arrives (chars "GET / FOO" ++ CRLF) 7 two_bytes; Arrives (chars "x") 8 two_bytes].

Lemma remote_abort_ok : any_input defaultHttpCallback 7 true true ctor_conn remote_abort 100.
Proof.
  pose proof two_bytes_healthy. apply demo_any_input; [|by vm_compute..].
  repeat apply Forall_cons_2; try apply Forall_nil_2; done.
Qed.

Lemma http_fails_only_refused_witness :
  ∃ s0, session_open ctor_conn = Ok s0 ∧
    ((∃ s, session_run defaultHttpCallback s0 remote_abort = Ok (Some s) ∧ open_conn (s_conn s)) ∨
     (session_run defaultHttpCallback s0 remote_abort = Fail (FAssert "method_ == kInvalid") ∧
      ∃ es1 es2 v1, remote_abort = es1 ++ es2 ∧ serve defaultHttpCallback new_service es1 = Ok v1 ∧
        v_refused v1 = true ∧ v_open v1 = false)).
Proof. exact (http_fails_only_refused defaultHttpCallback 7 true true ctor_conn remote_abort 100 remote_abort_ok). Defined.

(** Two segments of a client are enough to abort the server: a request line
    with a known method and a bad version, then any byte. *)
Theorem http_remote_abort :
  ∃ s0, session_open ctor_conn = Ok s0 ∧
    session_run defaultHttpCallback s0 remote_abort = Fail (FAssert "method_ == kInvalid").
Proof.
  destruct (any_input_simulates _ _ _ _ _ _ _ remote_abort_ok) as (s0 & E0 & P). exists s0. split; [done|].
  assert (serve defaultHttpCallback new_service remote_abort = Fail (FAssert "method_ == kInvalid")) as E by (vm_compute; reflexivity).
  by rewrite E in P.
Qed.
