(* ===== verification/HttpSystem.v ===== *)
(** * An HttpServer in its loops: src/dc/net/http/httpServer.cc on
      src/dc/net/tcpServer.cc

    [System] is a TcpServer with connection objects, the functor queues of its
    loops and reference counts, driven by calls of arbitrary user code.  Here
    the user code is HttpServer: [onConnection] gives every connection a
    context, [onMessage] parses the input and answers.  A step of the HTTP
    server is a handler or functor of the system followed by the callbacks it
    made, and every callback is a sequence of calls of the system: the server
    inherits the safety of the system, and what HttpServer adds to it (the
    context that must be there, the assertion of the request) is shown
    separately. *)

From S2P Require Import Prelude Buffer Channel Poller EventLoop TcpConnection Server System Http.

Open Scope Z_scope.

(** ** The server *)

Record HttpSystem : Type := mkHttpSystem {
  h_sys : System;
  h_contexts : gmap Z HttpContext;     (* the std::any of every connection *)
}.

(** What happens: a connection is accepted, its socket is readable, another
    event of its channel, a loop runs a functor, a connection is freed. *)
Inductive hevent : Type :=
  | HAccept (sockfd : Z)
  | HRead (c : Z) (readv : list Z → readv_result) (receiveTime : Z) (w : list ascii → write_result)
  | HIo (c : Z) (o : conn_op)
  | HRun (l : loop_id) (w : list ascii → write_result)
  | HFree (c : Z).

Definition sys_event (v : hevent) : event :=
  match v with
  | HAccept fd => VAccept fd false
  | HRead c readv _ _ => VIo c (ORead readv)
  | HIo c o => VIo c o
  | HRun l w => VRun l w
  | HFree c => VFree c
  end.

(** The connection that the event concerns. *)
Definition event_conn (S : System) (v : hevent) : option Z :=
  match v with
  | HAccept _ => Some (y_next S)
  | HRead c _ _ _ | HIo c _ | HFree c => Some c
  | HRun l _ => job_conn <$> head (jobs S l)
  end.

Definition trace_of (S : System) (c : Z) : list effect :=
  match y_objs S !! c with Some ob => c_trace (o_conn ob) | None => [] end.
(** The effects that the step left in the trace of a connection. *)
Definition new_effects (S S' : System) (v : hevent) (c : Z) : list effect :=
  drop (match v with HAccept _ => 0 | _ => length (trace_of S c) end) (trace_of S' c).

Definition is_connection_cb (e : effect) : bool := match e with EConnectionCb _ => true | _ => false end.
Definition is_message_cb (e : effect) : bool := match e with EMessageCb => true | _ => false end.

(** [HttpServer::onConnection] *)
Definition on_connection (S : System) (c : Z) (m : gmap Z HttpContext) : gmap Z HttpContext :=
  match y_objs S !! c with
  | Some ob => if connected (o_conn ob) then <[c := HttpContext_ctor]> m else m
  | None => m
  end.

Section Server.
Context (httpCallback_ : HttpRequest → HttpResponse → HttpResponse).

(** The calls of the message callback, which holds a pointer while it runs. *)
Definition action_call (c : Z) (w : list ascii → write_result) (a : action) : event :=
  match a with ASend data => VCall c (OSend w data) | AShutdown => VCall c (OShutdown true) end.
Definition message_calls (c : Z) (w : list ascii → write_result) (b : Buffer) (acts : list action) : list event :=
  VHold c :: VCall c (OConsume b) :: map (action_call c w) acts ++ [VDrop c].

(** [HttpServer::onMessage] on connection [c]. *)
Definition on_message (H : HttpSystem) (c receiveTime : Z) (w : list ascii → write_result) : res (option HttpSystem) :=
  ob ← get_obj (h_sys H) c;
  match h_contexts H !! c with
  | None => Fail (FUndef "context is null")
  | Some ctx =>
      r ← onMessage httpCallback_ ctx (m_inputBuffer (o_conn ob)) receiveTime;
      match r : option (HttpContext * Buffer * list action) with
      | None => Ok None
      | Some (ctx', b', acts) =>
          S' ← foldM System.step (h_sys H) (message_calls c w b' acts);
          Ok (Some (mkHttpSystem S' (<[c := ctx']> (h_contexts H))))
      end
  end.

(** A step of the system, then the callbacks it made. *)
Definition http_step (H : HttpSystem) (v : hevent) : res (option HttpSystem) :=
  S1 ← System.step (h_sys H) (sys_event v);
  match event_conn (h_sys H) v with
  | None => Ok (Some (mkHttpSystem S1 (h_contexts H)))
  | Some c =>
      let es := new_effects (h_sys H) S1 v c in
      let H1 := mkHttpSystem S1 (if existsb is_connection_cb es then on_connection S1 c (h_contexts H) else h_contexts H) in
      match v with
      | HRead _ _ receiveTime w => if existsb is_message_cb es then on_message H1 c receiveTime w else Ok (Some H1)
      | _ => Ok (Some H1)
      end
  end.

Definition http_possible (H : HttpSystem) (v : hevent) : Prop :=
  System.possible (h_sys H) (sys_event v) ∧ match v with HRead _ _ _ w => write_fits w | HIo _ (ORead _) => False | _ => True end.

Inductive http_runs : HttpSystem → nat → HttpSystem → Prop :=
  | http_runs_nil H : http_runs H 0 H
  | http_runs_step H v H1 n H2 :
      http_possible H v → http_step H v = Ok (Some H1) → http_runs H1 n H2 → http_runs H (Datatypes.S n) H2.

Definition http_start (name ipPort : list ascii) (threads : Z) : res HttpSystem :=
  S ← sys_start name ipPort false threads; Ok (mkHttpSystem S ∅).
End Server.

(** ** One operation of a connection *)

Lemma carry_out_objs c ob S e S' : carry_out c ob S e = Ok S' → y_objs S' = y_objs S ∧ y_held S' = y_held S.
Proof.
  unfold carry_out. destruct (asked c e); [by intros [= <-]|]. destruct e; try (by intros [= <-]).
  unfold sys_removeConnection, sys_removeConnectionInLoop. destruct (Nat.eqb _ _); [|by intros [= <-]].
  intros E. apply bind_Ok in E as (ob' & _ & E). by apply bind_Ok in E as (? & _ & [= <-]).
Qed.

Lemma carry_all_objs c ob es : ∀ S S', foldM (carry_out c ob) S es = Ok S' → y_objs S' = y_objs S ∧ y_held S' = y_held S.
Proof.
  induction es as [|e es IH]; intros S S' E; [by injection E as <-|]. cbn [foldM] in E. apply bind_Ok in E as (S1 & E1 & E).
  destruct (carry_out_objs _ _ _ _ _ E1), (IH _ _ E). split; congruence.
Qed.

Lemma do_conn_objs S c o S' :
  do_conn S c o = Ok S' →
  ∃ ob t, y_objs S !! c = Some ob ∧ do_op (o_conn ob) o = Ok t ∧
    y_objs S' = <[c := mkObj (o_name ob) (o_loop ob) t]> (y_objs S) ∧ y_held S' = y_held S.
Proof.
  intros E. unfold do_conn, get_obj in E. destruct (y_objs S !! c) as [ob|] eqn:Eo; [|done]. cbn [mbind res_bind] in E.
  apply bind_Ok in E as (t & Et & E). apply carry_all_objs in E as [E1 E2]. by exists ob, t.
Qed.

Lemma sendInLoop_state w t m t' : sendInLoop true w t m = Ok t' → m_state t' = m_state t.
Proof.
  unfold sendInLoop. cbn [assertInLoopThread mbind res_bind]. destruct (disconnected t); [by intros [= <-]|].
  set (first := if negb _ && _ then _ else _).
  assert (m_state first.1.1.1 = m_state t) as Hf.
  { unfold first. destruct (negb _ && _); [|done]. destruct (w m); [|done]. simpl. by destruct (_ && _). }
  destruct first as [[[c1 n] r] fe]. simpl in Hf. intros E. apply bind_Ok in E as (? & _ & E).
  destruct (negb fe && (0 <? r)); [|by injection E as <-]. apply bind_Ok in E as (b & _ & E). injection E as <-.
  set (c2 := if _ && m_highWaterMarkCallback c1 then _ else c1).
  assert (m_state c2 = m_state c1) as H2 by (unfold c2; by destruct (_ && m_highWaterMarkCallback c1)).
  rewrite <- Hf, <- H2. by destruct (negb _).
Qed.

Lemma handleWrite_state w t t' : handleWrite true w t = Ok t' → m_state t' = m_state t.
Proof.
  unfold handleWrite. cbn [assertInLoopThread mbind res_bind]. destruct (isWriting (m_channel t)); [|by intros [= <-]].
  intros E. apply bind_Ok in E as (d & _ & E).
  repeat (first [apply bind_Ok in E as (? & _ & E) | case_match; simplify_eq; try done]).
Qed.

(** Only connectEstablished leaves the state kConnecting, and it ends with the
    connection callback. *)
Lemma connecting_op t o t' :
  do_op t o = Ok t' → m_state t = kConnecting →
  m_state t' = kConnecting ∨
  (connected t' = true ∧ c_trace t' = c_trace t ++ [EUpdate EnableReading; EConnectionCb true]).
Proof.
  intros E Hs. assert (open_state t = false ∧ connected t = false) as [Ho Hc] by (unfold open_state, connected; by rewrite Hs).
  destruct o; simpl in E.
  - right. unfold TcpConnection.connectEstablished in E. rewrite Hs in E. simpl in E. injection E as <-. split; [done|]. simpl. by rewrite <- app_assoc.
  - left. unfold send in E. rewrite Hc in E. by injection E as <-.
  - left. unfold send in E. rewrite Hc in E. by injection E as <-.
  - left. by rewrite (sendInLoop_state _ _ _ _ E).
  - left. unfold shutdown in E. rewrite Hc in E. by injection E as <-.
  - left. injection E as <-. by destruct (negb _).
  - left. injection E as <-. unfold forceClose. by rewrite Ho.
  - left. injection E as <-. unfold forceCloseWithDelay. by rewrite Ho.
  - left. unfold forceCloseInLoop in E. simpl in E. rewrite Ho in E. by injection E as <-.
  - left. unfold startRead, startReadInLoop in E. destruct inLoop; simpl in E; injection E as <-; [by destruct (_ || _)|done].
  - left. unfold stopRead, stopReadInLoop in E. destruct inLoop; simpl in E; injection E as <-; [by destruct (_ || _)|done].
  - left. unfold handleRead in E. simpl in E. apply bind_Ok in E as ([[n e] b] & _ & E). destruct (0 <? n); [by injection E as <-|].
    destruct (n =? 0); [|by injection E as <-]. unfold TcpConnection.handleClose in E. cbn [assertInLoopThread mbind res_bind] in E.
    change (open_state (set_input t b)) with (open_state t) in E. by rewrite Ho in E.
  - left. by rewrite (handleWrite_state _ _ _ E).
  - unfold TcpConnection.handleClose in E. simpl in E. by rewrite Ho in E.
  - left. by injection E as <-.
  - left. unfold TcpConnection.connectDestroyed in E. simpl in E. rewrite Hc in E. apply bind_Ok in E as (? & _ & E). by injection E as <-.
  - left. by injection E as <-.
Qed.

(** ** The contexts *)

(** Every connection past kConnecting has a context, and every context waits
    for a line. *)
Definition contexts_ok (S : System) (m : gmap Z HttpContext) : Prop :=
  (∀ c ob, y_objs S !! c = Some ob → m_state (o_conn ob) ≠ kConnecting → is_Some (m !! c)) ∧ map_Forall (λ _, at_line) m.

Lemma insert_context (m : gmap Z HttpContext) c ctx : map_Forall (λ _, at_line) m → at_line ctx → map_Forall (λ _, at_line) (<[c := ctx]> m).
Proof. intros Hm Hc. by apply map_Forall_insert_2. Qed.

Lemma ctor_at_line : at_line HttpContext_ctor.
Proof. by left. Qed.

(** The contexts after a step that made object [ob] of connection [c]. *)
Lemma contexts_step S S1 m c ob' old :
  contexts_ok S m → (∀ c' ob, y_objs S1 !! c' = Some ob → c' ≠ c → y_objs S !! c' = Some ob) →
  y_objs S1 !! c = Some ob' →
  (m_state (o_conn ob') = kConnecting ∨ is_Some (m !! c) ∨
   (connected (o_conn ob') = true ∧ ∃ es, c_trace (o_conn ob') = old ++ es ∧ EConnectionCb true ∈ es)) →
  contexts_ok S1 (if existsb is_connection_cb (drop (length old) (c_trace (o_conn ob'))) then on_connection S1 c m else m).
Proof.
  intros [H1 H2] Hsame Hc Hob. set (m' := if existsb _ _ then _ else m).
  assert (Hm' : ∀ c', is_Some (m !! c') → is_Some (m' !! c')).
  { intros c' [ctx E]. unfold m', on_connection. rewrite Hc. destruct (existsb _ _); [|by eexists].
    destruct (connected _); [|by eexists]. destruct (decide (c = c')) as [->|]; [rewrite lookup_insert_eq; by eexists|].
    rewrite lookup_insert_ne by done. by eexists. }
  split.
  - intros c' ob Eo Hs. destruct (decide (c' = c)) as [->|Hne]; [|apply Hm'; by eapply H1, Hs; apply Hsame].
    assert (ob = ob') as -> by congruence. destruct Hob as [?|[?|(Hco & es & Et & Hin)]]; [done|by apply Hm'|].
    unfold m', on_connection. rewrite Hc, Hco, Et, drop_app_length.
    assert (existsb is_connection_cb es = true) as -> by (apply existsb_exists; exists (EConnectionCb true); split; [by apply list_elem_of_In|done]).
    rewrite lookup_insert_eq. by eexists.
  - unfold m', on_connection. rewrite Hc. destruct (existsb _ _); [|done]. destruct (connected _); [|done].
    apply insert_context; [done|apply ctor_at_line].
Qed.

(** An operation of connection [c]. *)
Lemma contexts_do_conn S m c o S1 :
  contexts_ok S m → do_conn S c o = Ok S1 →
  contexts_ok S1 (if existsb is_connection_cb (drop (length (trace_of S c)) (trace_of S1 c)) then on_connection S1 c m else m).
Proof.
  intros Hm E. destruct (do_conn_objs _ _ _ _ E) as (ob & t & Eo & Et & Es & _).
  assert (y_objs S1 !! c = Some (mkObj (o_name ob) (o_loop ob) t)) as Ec by by rewrite Es, lookup_insert_eq.
  unfold trace_of at 1 2. rewrite Eo, Ec. cbn [o_conn]. apply (contexts_step S S1 m c (mkObj (o_name ob) (o_loop ob) t) (c_trace (o_conn ob))); try done.
  - intros c' ob' Ec' Hne. by rewrite Es, lookup_insert_ne in Ec'.
  - cbn [o_conn]. destruct (decide (m_state (o_conn ob) = kConnecting)) as [Hs|Hs].
    + destruct (connecting_op _ _ _ Et Hs) as [?|[Hco Htr]]; [by left|]. right. right. split; [done|]. eexists. split; [done|]. set_solver.
    + right. left. by apply (proj1 Hm c ob).
Qed.

(** A new connection. *)
Lemma contexts_accept S m fd S1 :
  contexts_ok S m → sys_newConnection S fd false = Ok S1 →
  contexts_ok S1 (if existsb is_connection_cb (trace_of S1 (y_next S)) then on_connection S1 (y_next S) m else m).
Proof.
  intros Hm E. unfold sys_newConnection in E. apply bind_Ok in E as ([p io] & _ & E). apply bind_Ok in E as (t & Et & E).
  set (S0 := mkSys _ _ _ _ _ _ _ _ _ _) in E. set (c := y_next S) in *. set (nm := conn_name (y_name S) (y_ipPort S) c) in *.
  assert (c_trace t = [] ∧ m_state t = kConnecting) as [Htr Hst].
  { unfold TcpConnection_ctor in Et. apply bind_Ok in Et as (b1 & _ & Et). by injection Et as <-. }
  assert (∃ t1, y_objs S1 = <[c := mkObj nm io t1]> (<[c := mkObj nm io t]> (y_objs S)) ∧
    (m_state t1 = kConnecting ∨ (connected t1 = true ∧ EConnectionCb true ∈ c_trace t1))) as (t1 & Es & Ht1).
  { destruct (Nat.eqb io base_loop).
    - destruct (do_conn_objs _ _ _ _ E) as (ob & t1 & Eo & Et1 & Es & _). simpl in Eo. rewrite lookup_insert_eq in Eo. injection Eo as <-.
      exists t1. split; [done|]. destruct (connecting_op t OEstablished t1 Et1 Hst) as [?|[Hco Htr1]]; [by left|]. right. split; [done|].
      rewrite Htr1. set_solver.
    - injection E as <-. exists t. split; [|by left]. simpl. by rewrite insert_insert_eq. }
  assert (y_objs S1 !! c = Some (mkObj nm io t1)) as Ec by by rewrite Es, lookup_insert_eq.
  unfold trace_of. rewrite Ec. apply (contexts_step S S1 m c (mkObj nm io t1) []); try done.
  - intros c' ob' Ec' Hne. by rewrite Es, !lookup_insert_ne in Ec'.
  - destruct Ht1 as [?|[? ?]]; [by left|]. right. right. split; [done|]. by eexists.
Qed.

(** A functor of a loop. *)
Lemma contexts_job S m l w S1 j q :
  contexts_ok S m → jobs S l = j :: q → run_job S l w = Ok S1 →
  contexts_ok S1 (if existsb is_connection_cb (drop (length (trace_of S (job_conn j))) (trace_of S1 (job_conn j)))
                  then on_connection S1 (job_conn j) m else m).
Proof.
  intros Hm Ej E. unfold run_job in E. rewrite Ej in E. set (S0 := with_jobs S (<[l := q]> (y_jobs S))) in E.
  set (m1 := if existsb _ _ then _ else m).
  assert (Hdo : ∀ o, do_conn S0 (job_conn j) o = Ok S1 → contexts_ok S1 m1)
    by (intros o Eo; by apply (contexts_do_conn S0 m (job_conn j) o S1)).
  assert (Hsame : y_objs S1 = y_objs S → contexts_ok S1 m1).
  { intros Es. unfold m1, trace_of. rewrite Es, drop_all. unfold contexts_ok. by rewrite Es. }
  destruct j; simpl in E; try (by eapply Hdo, E); apply Hsame.
  - unfold sys_removeConnectionInLoop in E. apply bind_Ok in E as (ob & _ & E). by apply bind_Ok in E as (? & _ & [= <-]).
  - by apply bind_Ok in E as (ob & _ & [= <-]).
  - by apply bind_Ok in E as (ob & _ & [= <-]).
Qed.

(** A step of the system and the connection callback. *)
Lemma contexts_event S m v S1 :
  contexts_ok S m → System.step S (sys_event v) = Ok S1 →
  contexts_ok S1 (match event_conn S v with
    | Some c => if existsb is_connection_cb (new_effects S S1 v c) then on_connection S1 c m else m | None => m end).
Proof.
  intros Hm E. unfold new_effects. destruct v as [fd|c rd tm w|c o|l w|c]; simpl in E |- *.
  - by eapply contexts_accept.
  - by eapply contexts_do_conn.
  - by eapply contexts_do_conn.
  - destruct (jobs S l) as [|j q] eqn:Ej; simpl; [|by eapply contexts_job].
    unfold run_job in E. rewrite Ej in E. by injection E as <-.
  - unfold release in E. apply bind_Ok in E as (ob & _ & E). apply bind_Ok in E as (? & _ & [= <-]).
    unfold trace_of. simpl. rewrite lookup_delete_eq, drop_nil. simpl. destruct Hm as [H1 H2]. split; [|done].
    intros c' ob' Ec'. simpl in Ec'. apply lookup_delete_Some in Ec' as [_ Ec']. by apply H1.
Qed.

(** ** The system stays sound *)

(** The system mirrors a server of phases that has made at most [B]
    connections. *)
Definition sound (S : System) (B : Z) : Prop := ∃ s, sim None S s ∧ sinv s ∧ m_nextConnId s ≤ B.

Lemma sound_step S B v :
  sound S B → B < 2 ^ 31 - 2 → System.possible S v →
  (∃ w, System.step S v = Fail (FThrow w)) ∨ ∃ S', System.step S v = Ok S' ∧ sound S' (B + 1).
Proof.
  intros (s & Hs & Hi & Hn) HB Hp. destruct (step_mirrored S s v Hs Hi ltac:(lia) Hp) as [?|(S' & s' & E & _)]; [by left|].
  right. exists S'. split; [done|]. assert (runs S 1 S') as Hr by (econstructor; [done..|constructor]).
  destruct (runs_sim _ _ _ s Hr s 0%nat Hs Hi (sruns_nil _) ltac:(lia)) as (s1 & k & Hs1 & Hi1 & _ & _ & Hb).
  exists s1. split_and!; [done..|lia].
Qed.

Lemma sound_obj S B c ob : sound S B → y_objs S !! c = Some ob → obj_ok (o_conn ob) ∧ inv (o_conn ob).
Proof.
  intros (s & Hs & _ & _) Eo. destruct (sm_obj _ _ _ Hs c ob Eo) as (a & _ & _ & _ & Hok & _). split; [done|by apply obj_ok_inv].
Qed.

(** The calls of a callback that holds a pointer to [c]. *)
Definition call_ok (c : Z) (v : event) : Prop :=
  match v with
  | VCall c' (OConsume b) => c' = c ∧ wf b
  | VCall c' (OSend w m) => c' = c ∧ write_fits w ∧ zlen m ≤ max_size
  | VCall c' (OShutdown true) => c' = c
  | _ => False
  end.

Lemma calls_sound vs : ∀ S B c,
  sound S B → c ∈ y_held S → Forall (call_ok c) vs → B + zlen vs < 2 ^ 31 - 2 →
  (∃ w, foldM System.step S vs = Fail (FThrow w)) ∨ ∃ S', foldM System.step S vs = Ok S' ∧ sound S' (B + zlen vs).
Proof.
  induction vs as [|v vs IH]; intros S B c Hs Hh Hok HB; [right; exists S; by rewrite Z.add_0_r|].
  apply Forall_cons in Hok as [Hv Hok]. rewrite zlen_cons in HB. pose proof (zlen_nonneg vs).
  assert (System.possible S v ∧ ∃ o, v = VCall c o) as [Hp [o ->]].
  { destruct v as [| |c' [] | | | | |]; simpl in Hv; try done.
    - destruct Hv as (-> & Hw & Hm). split; [|by eexists]. by split_and!.
    - destruct inLoop; [|done]. subst c'. split; [|by eexists]. by split_and!.
    - destruct Hv as (-> & Hw). split; [|by eexists]. by split_and!. }
  cbn [foldM]. destruct (sound_step S B _ Hs ltac:(lia) Hp) as [[w ->]|(S1 & E1 & Hs1)]; [left; by exists w|].
  rewrite E1. cbn [mbind res_bind]. destruct (do_conn_objs _ _ _ _ E1) as (ob & t & _ & _ & _ & Eh).
  destruct (IH S1 (B + 1) c Hs1) as [?|(S' & E' & Hs')]; [by rewrite Eh|done|lia|by left|].
  right. exists S'. split; [done|]. rewrite zlen_cons. by replace (B + (1 + zlen vs)) with (B + 1 + zlen vs) by lia.
Qed.

(** ** The message callback *)

Section Callback.
Context (httpCallback_ : HttpRequest → HttpResponse → HttpResponse).
(** The strings of a response are std::strings. *)
Hypothesis callback_strings : ∀ req close,
  Forall (λ d, zlen d ≤ max_size) (response_pieces (httpCallback_ req (HttpResponse_ctor close))).

Definition action_sized (a : action) : Prop := match a with ASend d => zlen d ≤ max_size | AShutdown => True end.

Lemma append_pieces_outcome ps : ∀ b,
  wf b → Forall (λ d, zlen d ≤ max_size) ps →
  match foldM append b ps with Ok b' => wf b' | Fail (FThrow _) => True | Fail _ => False end.
Proof.
  induction ps as [|p ps IH]; intros b Hw Hp; [done|]. apply Forall_cons in Hp as [Hp Hps]. cbn [foldM].
  assert (room b (zlen p) ∨ ¬ room b (zlen p)) as [Hr|Hr] by (unfold room; lia).
  - destruct (append_ok b p Hw Hp Hr) as (b1 & -> & Hw1 & _). cbn [mbind res_bind]. by apply IH.
  - by rewrite append_throws.
Qed.

Lemma onRequest_outcome req :
  match onRequest httpCallback_ req with
  | Ok acts => (length acts ≤ 2)%nat ∧ Forall action_sized acts | Fail (FThrow _) => True | Fail _ => False end.
Proof.
  unfold onRequest. destruct (Buffer_ctor_ok kInitialSize) as (b0 & -> & Hw0 & _); [by vm_compute|]. cbn [mbind res_bind].
  set (resp := httpCallback_ req _). unfold appendToBuffer.
  pose proof (append_pieces_outcome (response_pieces resp) b0 Hw0 (callback_strings _ _)) as Ha.
  destruct (foldM append b0 (response_pieces resp)) as [b|[]]; try done. cbn [mbind res_bind].
  rewrite read_content by done. cbn [mbind res_bind].
  assert (zlen (content b) ≤ max_size) by (rewrite zlen_content, readable_wf by done; unfold wf in Ha; lia).
  destruct (closeConnection_ resp); simpl; (split; [lia|]); by repeat constructor.
Qed.

(** What the message callback does with the input: it returns an answer of
    bounded size, a string is too long, or the parser has refused a line of
    this connection before. *)
Lemma onMessage_outcome ctx b tm :
  at_line ctx → wf b →
  match onMessage httpCallback_ ctx b tm with
  | Ok (Some (ctx', b', acts)) => at_line ctx' ∧ wf b' ∧ (length acts ≤ 2)%nat ∧ Forall action_sized acts
  | Ok None => False
  | Fail (FThrow _) => True
  | Fail f => f = FAssert "method_ == kInvalid" ∧ ¬ ready ctx
  end.
Proof.
  intros Ha Hw. unfold onMessage. pose proof (parseRequest_parse ctx b tm Hw) as P.
  destruct (parse ctx (content b) tm) as [[[[c1 s1] ok]|]|f] eqn:Ep.
  - destruct P as (b' & -> & Hw' & _). cbn [mbind res_bind]. destruct (loop_shrinks _ _ _ _ _ _ _ Ep Ha) as [_ Hst].
    unfold gotAll. destruct ok.
    + case_bool_decide as Hg.
      * pose proof (onRequest_outcome (request_ c1)) as Hr. destruct (onRequest httpCallback_ (request_ c1)) as [acts|[]]; try done.
        cbn [mbind res_bind]. split_and!; [by left|done|apply Hr..].
      * destruct Hst as [Hst|]; [|done]. split_and!; [done..|simpl; lia|constructor].
    + rewrite bool_decide_false by congruence. split_and!; [by left|done|simpl; lia|].
      repeat constructor. by vm_compute.
  - exfalso. refine (loop_terminates _ _ _ tm Ha _ Ep). lia.
  - rewrite P. cbn [mbind res_bind]. destruct (parse_fails _ _ _ _ Ha Ep) as [-> Hn]. done.
Qed.

(** Its calls on the system. *)
Lemma message_sound S B c ob w b acts :
  sound S B → y_objs S !! c = Some ob → open_state (o_conn ob) = true → write_fits w → wf b →
  (length acts ≤ 2)%nat → Forall action_sized acts → B + 5 < 2 ^ 31 - 2 →
  (∃ e, foldM System.step S (message_calls c w b acts) = Fail (FThrow e)) ∨
  ∃ S', foldM System.step S (message_calls c w b acts) = Ok S' ∧ sound S' (B + 5).
Proof.
  intros Hs Eo Hopen Hw Hb Hl Ha HB. unfold message_calls.
  set (vs := VCall c (OConsume b) :: map (action_call c w) acts). change (VCall c (OConsume b) :: ?l ++ ?r) with (vs ++ r).
  assert (zlen vs ≤ 3) as Hvs by (unfold vs, zlen; simpl; rewrite length_map; lia).
  assert (Forall (call_ok c) vs) as Hok.
  { constructor; [done|]. apply Forall_map. eapply Forall_impl; [exact Ha|]. by intros [d|] Hd. }
  clearbody vs. cbn [foldM].
  destruct (sound_step S B (VHold c) Hs ltac:(lia)) as [[e ->]|(S1 & E1 & Hs1)]; [by exists ob|left; by exists e|].
  rewrite E1. cbn [mbind res_bind]. assert (c ∈ y_held S1) as Hh.
  { simpl in E1. unfold get_obj in E1. rewrite Eo in E1. simpl in E1. injection E1 as <-. simpl. set_solver. }
  rewrite foldM_app. destruct (calls_sound vs S1 (B + 1) c Hs1 Hh Hok ltac:(lia)) as [[e ->]|(S2 & -> & Hs2)]; [left; by exists e|].
  cbn [mbind res_bind foldM]. right. eexists. split; [done|].
  destruct (sound_step S2 (B + 1 + zlen vs) (VDrop c) Hs2 ltac:(lia) I) as [[e [=]]|(S3 & [= <-] & (s & ? & ? & ?))].
  exists s. split_and!; [done..|lia].
Qed.

(** A reading connection is open; the message callback is the last effect of
    handleRead and its only one. *)
Lemma reading_open t : inv t → isReading (m_channel t) = true → open_state t = true.
Proof.
  intros Hi Hr. pose proof (inv_io _ Hi) as H. unfold open_state. destruct (m_state t); try done; exfalso.
  - unfold isReading in Hr. by rewrite H in Hr.
  - destruct H as (H & _). unfold isReading in Hr. by rewrite H in Hr.
Qed.

Lemma read_message S c rd S1 ob :
  do_conn S c (ORead rd) = Ok S1 → y_objs S !! c = Some ob → open_state (o_conn ob) = true →
  let es := drop (length (trace_of S c)) (trace_of S1 c) in
  existsb is_message_cb es = true →
  existsb is_connection_cb es = false ∧ ∃ ob1, y_objs S1 !! c = Some ob1 ∧ open_state (o_conn ob1) = true.
Proof.
  intros E Eo Ho es. destruct (do_conn_objs _ _ _ _ E) as (ob' & t & Eo' & Et & Es & _). assert (ob' = ob) as -> by congruence.
  assert (y_objs S1 !! c = Some (mkObj (o_name ob) (o_loop ob) t)) as Ec by by rewrite Es, lookup_insert_eq.
  unfold es, trace_of. rewrite Eo, Ec. cbn [o_conn]. simpl in Et. unfold handleRead in Et. cbn [assertInLoopThread mbind res_bind] in Et.
  apply bind_Ok in Et as ([[n e] b] & _ & Et). set (t0 := set_input (o_conn ob) b) in *.
  assert (c_trace t0 = c_trace (o_conn ob)) as Htr by done. destruct (0 <? n); [|destruct (n =? 0)].
  - injection Et as <-. simpl c_trace. rewrite drop_app_length. intros _. split; [done|]. by eexists.
  - unfold TcpConnection.handleClose in Et. cbn [assertInLoopThread mbind res_bind] in Et.
    change (open_state t0) with (open_state (o_conn ob)) in Et. rewrite Ho in Et. simpl in Et. injection Et as <-.
    simpl c_trace. by rewrite <- !app_assoc, drop_app_length.
  - injection Et as <-. rewrite Htr, drop_all. done.
Qed.

(** The calls concern no other connection. *)
Lemma calls_objs c vs : ∀ S S',
  Forall (λ v, v = VHold c ∨ v = VDrop c ∨ ∃ o, v = VCall c o) vs → foldM System.step S vs = Ok S' →
  ∀ c', c' ≠ c → y_objs S' !! c' = y_objs S !! c'.
Proof.
  induction vs as [|v vs IH]; intros S S' Hv E c' Hne; [by injection E as <-|]. apply Forall_cons in Hv as [Hv Hvs].
  cbn [foldM] in E. apply bind_Ok in E as (S1 & E1 & E). rewrite (IH S1 S' Hvs E c' Hne). destruct Hv as [->|[->|[o ->]]]; simpl in E1.
  - by apply bind_Ok in E1 as (? & _ & [= <-]).
  - by injection E1 as <-.
  - destruct (do_conn_objs _ _ _ _ E1) as (ob & t & _ & _ & Es & _). by rewrite Es, lookup_insert_ne.
Qed.

Lemma message_objs c w b acts S S' :
  foldM System.step S (message_calls c w b acts) = Ok S' → ∀ c', c' ≠ c → y_objs S' !! c' = y_objs S !! c'.
Proof.
  intros E. eapply calls_objs; [|exact E]. unfold message_calls. constructor; [by left|]. constructor; [right; right; by eexists|].
  apply Forall_app_2; [|constructor; [right; by left|constructor]].
  apply Forall_map, Forall_true. intros [d|]; right; right; by eexists.
Qed.

(** ** A step of the server *)

Definition http_sound (H : HttpSystem) (B : Z) : Prop := sound (h_sys H) B ∧ contexts_ok (h_sys H) (h_contexts H).

(** The connection of the event refused a request line before. *)
Definition refused_before (H : HttpSystem) (v : hevent) : Prop :=
  match v with HRead c _ _ _ => ∃ ctx, h_contexts H !! c = Some ctx ∧ ¬ ready ctx | _ => False end.

Definition step_outcome (H : HttpSystem) (v : hevent) (B : Z) (r : res (option HttpSystem)) : Prop :=
  match r with
  | Ok (Some H') => http_sound H' B
  | Ok None => False
  | Fail (FThrow _) => True
  | Fail f => f = FAssert "method_ == kInvalid" ∧ refused_before H v
  end.

Lemma on_message_outcome S B m c tm w ob :
  sound S B → contexts_ok S m → B + 5 < 2 ^ 31 - 2 → write_fits w →
  y_objs S !! c = Some ob → open_state (o_conn ob) = true →
  match on_message httpCallback_ (mkHttpSystem S m) c tm w with
  | Ok (Some H') => http_sound H' (B + 5)
  | Ok None => False
  | Fail (FThrow _) => True
  | Fail f => f = FAssert "method_ == kInvalid" ∧ ∃ ctx, m !! c = Some ctx ∧ ¬ ready ctx
  end.
Proof.
  intros Hs Hm HB Hw Eo Hopen. unfold on_message, get_obj. cbn [h_sys h_contexts]. rewrite Eo. cbn [mbind res_bind].
  destruct (sound_obj _ _ _ _ Hs Eo) as [_ Hi]. destruct Hm as [Hm1 Hm2].
  destruct (Hm1 c ob Eo) as [ctx Ectx]; [unfold open_state in Hopen; by destruct (m_state (o_conn ob))|]. rewrite Ectx.
  pose proof (onMessage_outcome ctx (m_inputBuffer (o_conn ob)) tm (Hm2 _ _ Ectx) (inv_in _ Hi)) as Ho.
  destruct (onMessage httpCallback_ ctx (m_inputBuffer (o_conn ob)) tm) as [[[[ctx' b'] acts]|]|[]]; cbn [mbind res_bind]; try done;
    try (destruct Ho as [Hf Hn]; split; [exact Hf|by exists ctx]).
  destruct Ho as (Ha & Hb & Hl & Hsz).
  destruct (message_sound S B c ob w b' acts Hs Eo Hopen Hw Hb Hl Hsz HB) as [[e ->]|(S' & E' & Hs')]; [done|].
  rewrite E'. cbn [mbind res_bind]. split; [done|]. split; [|by apply insert_context].
  intros c' ob' Eo' Hst. simpl in Eo' |- *. destruct (decide (c = c')) as [->|Hne]; [rewrite lookup_insert_eq; by eexists|].
  rewrite lookup_insert_ne by done. rewrite (message_objs _ _ _ _ _ _ E' c') in Eo' by done. by eapply Hm1.
Qed.

Lemma http_step_outcome H B v :
  http_sound H B → B + 6 < 2 ^ 31 - 2 → http_possible H v → step_outcome H v (B + 6) (http_step httpCallback_ H v).
Proof.
  intros [Hs Hm] HB [Hp Hw]. unfold http_step.
  destruct (sound_step (h_sys H) B (sys_event v) Hs ltac:(lia) Hp) as [[e ->]|(S1 & E1 & Hs1)]; [done|].
  rewrite E1. cbn [mbind res_bind]. pose proof (contexts_event _ _ v _ Hm E1) as Hm1.
  assert (∀ B', B + 1 ≤ B' → sound S1 B') as Hs1' by (intros B' HB'; destruct Hs1 as (s & ? & ? & ?); exists s; split_and!; [done..|lia]).
  destruct (event_conn (h_sys H) v) as [c|] eqn:Ec; [|split; [apply Hs1'; lia|done]].
  set (m1 := if existsb is_connection_cb _ then _ else _) in *.
  assert (http_sound (mkHttpSystem S1 m1) (B + 6)) as Hq by (split; [apply Hs1'; lia|done]).
  destruct v as [fd|c0 rd tm w|c0 o|l w|c0]; try exact Hq. injection Ec as <-.
  destruct (existsb is_message_cb _) eqn:Em; [|exact Hq]. clear Hq.
  destruct Hp as (_ & ob & Eo & _ & Hrd & _). destruct (sound_obj _ _ _ _ Hs Eo) as [_ Hi].
  pose proof (reading_open _ Hi Hrd) as Hopen. destruct (read_message _ _ _ _ _ E1 Eo Hopen Em) as (Hnc & ob1 & Eo1 & Ho1).
  assert (m1 = h_contexts H) as Em1 by (unfold m1, new_effects; by rewrite Hnc). rewrite Em1 in *.
  pose proof (on_message_outcome S1 (B + 1) (h_contexts H) c0 tm w ob1 Hs1 Hm1 ltac:(lia) Hw Eo1 Ho1) as Hout.
  replace (B + 6) with (B + 1 + 5) by lia. unfold step_outcome. destruct (on_message _ _ _ _ _) as [[H'|]|[]]; done.
Qed.

Lemma http_runs_sound H n H' : http_runs httpCallback_ H n H' → ∀ B,
  http_sound H B → B + 6 * Z.of_nat n < 2 ^ 31 - 2 → http_sound H' (B + 6 * Z.of_nat n).
Proof.
  induction 1 as [H|H v H1 n H2 Hp E Hr IH]; intros B Hs HB; [by rewrite Z.mul_0_r, Z.add_0_r|].
  pose proof (http_step_outcome H B v Hs ltac:(lia) Hp) as Ho. rewrite E in Ho. simpl in Ho.
  replace (B + 6 * Z.of_nat (Datatypes.S n)) with (B + 6 + 6 * Z.of_nat n) by lia. apply IH; [done|lia].
Qed.

Lemma http_start_sound name ipPort threads H0 :
  0 ≤ threads → (length ipPort ≤ 52)%nat → http_start name ipPort threads = Ok H0 → http_sound H0 1.
Proof.
  intros Ht Hl E. unfold http_start in E. apply bind_Ok in E as (S & ES & [= <-]).
  destruct (sys_start_sim _ _ _ _ _ Ht Hl ES) as (s & _ & Hs & Hi & Hn). split; [exists s; split_and!; [done..|lia]|].
  unfold sys_start in ES. apply bind_Ok in ES as (s0 & _ & [= <-]). split; simpl; [by intros c ob ?%lookup_empty_Some|apply map_Forall_empty].
Qed.
End Callback.

(** ** Properties *)

(** C14.  An HttpServer with any number of I/O threads and connections: in
    every interleaving of accepts, bytes of any content in any pieces,
    write, close and error events, functors and releases, every step returns,
    unless a buffer cannot grow or a client sends more after one of its
    request lines was refused with a known method, which trips the assertion
    of HttpRequest::setMethod.  No assertion of the server, a connection or
    a loop fails, no freed connection is touched, the message callback never
    finds a connection without its context, every context waits for a line,
    and every connection object is the result of a run of [TcpConnection]. *)
Theorem http_system_safe (httpCallback_ : HttpRequest → HttpResponse → HttpResponse) (name ipPort : list ascii) (threads : Z)
    (H0 H : HttpSystem) (n : nat) (v : hevent) :
  (∀ req close, Forall (λ d, zlen d ≤ max_size) (response_pieces (httpCallback_ req (HttpResponse_ctor close)))) →
  0 ≤ threads → (length ipPort ≤ 52)%nat → 6 * Z.of_nat n < 2 ^ 31 - 10 →
  http_start name ipPort threads = Ok H0 → http_runs httpCallback_ H0 n H → http_possible H v →
  ((∃ H', http_step httpCallback_ H v = Ok (Some H')) ∨ (∃ e, http_step httpCallback_ H v = Fail (FThrow e)) ∨
   (http_step httpCallback_ H v = Fail (FAssert "method_ == kInvalid") ∧ refused_before H v)) ∧
  (∀ c ob, y_objs (h_sys H) !! c = Some ob → obj_ok (o_conn ob) ∧
     (m_state (o_conn ob) ≠ kConnecting → ∃ ctx, h_contexts H !! c = Some ctx ∧ at_line ctx)).
Proof.
  intros Hcb Ht Hl Hn E Hr Hp. pose proof (http_start_sound name ipPort threads H0 Ht Hl E) as Hs0.
  pose proof (http_runs_sound httpCallback_ Hcb H0 n H Hr 1 Hs0 ltac:(lia)) as Hs. split.
  - pose proof (http_step_outcome httpCallback_ Hcb H _ v Hs ltac:(lia) Hp) as Ho. unfold step_outcome in Ho.
    destruct (http_step httpCallback_ H v) as [[H'|]|[]]; try done; eauto; destruct Ho as [Hf ?]; try done.
    rewrite Hf. auto.
  - destruct Hs as [Hs [Hm1 Hm2]]. intros c ob Eo. destruct (sound_obj _ _ _ _ Hs Eo) as [Hok _]. split; [done|].
    intros Hst. destruct (Hm1 c ob Eo Hst) as [ctx Ec]. exists ctx. split; [done|]. by eapply Hm2.
Qed.

(** A server without I/O threads that has accepted a connection, on which a
    request arrives. *)
Definition demo_http : HttpSystem :=
  match http_start (chars "web") (chars "0.0.0.0:80") 0 with Ok H => H | Fail _ => mkHttpSystem demo_sys ∅ end.
Definition demo_accepted : HttpSystem :=
  match http_step defaultHttpCallback demo_http (HAccept 7) with Ok (Some H) => H | _ => demo_http end.
(** The socket has the bytes, if there is room for them. *)
Definition readv_of (d : list ascii) (vec : list Z) : readv_result :=
  if zlen d <=? foldr Z.add 0 vec then ReadvBytes d else ReadvErr EWOULDBLOCK.
Definition demo_read : hevent := HRead 1 (readv_of (chars "GET / HTTP/1.1" ++ CRLF ++ CRLF)) 5 all_bytes.

Lemma readv_of_fits d : readv_fits (readv_of d).
Proof. intros vec data. unfold readv_of. destruct (Z.leb_spec (zlen d) (foldr Z.add 0 vec)); [by intros [= <-]|done]. Qed.

Lemma default_strings req close :
  Forall (λ d, zlen d ≤ max_size) (response_pieces (defaultHttpCallback req (HttpResponse_ctor close))).
Proof.
  assert (forallb (λ d, zlen d <=? 100) (response_pieces (defaultHttpCallback req (HttpResponse_ctor close))) = true) as Hf
    by (destruct close; vm_compute; reflexivity).
  apply Forall_forall. intros d Hd. rewrite forallb_forall in Hf. apply list_elem_of_In in Hd. specialize (Hf d Hd). bprop.
  unfold max_size. lia.
Qed.

Lemma demo_http_runs : http_runs defaultHttpCallback demo_http 1 demo_accepted.
Proof.
  eapply (http_runs_step _ _ (HAccept 7)); [|vm_compute; reflexivity|constructor]. split; [|done]. vm_compute. discriminate.
Qed.

Lemma demo_read_possible : http_possible demo_accepted demo_read.
Proof.
  split; [|apply all_bytes_fits]. split; [done|]. eexists. split; [vm_compute; reflexivity|].
  split; [vm_compute; reflexivity|]. split; [vm_compute; reflexivity|]. split; [apply readv_of_fits|]. vm_compute. discriminate.
Qed.

Lemma http_system_safe_witness :
  ((∃ H', http_step defaultHttpCallback demo_accepted demo_read = Ok (Some H')) ∨
   (∃ e, http_step defaultHttpCallback demo_accepted demo_read = Fail (FThrow e)) ∨
   (http_step defaultHttpCallback demo_accepted demo_read = Fail (FAssert "method_ == kInvalid") ∧ refused_before demo_accepted demo_read)) ∧
  (∀ c ob, y_objs (h_sys demo_accepted) !! c = Some ob → obj_ok (o_conn ob) ∧
     (m_state (o_conn ob) ≠ kConnecting → ∃ ctx, h_contexts demo_accepted !! c = Some ctx ∧ at_line ctx)).
Proof.
  refine (http_system_safe defaultHttpCallback (chars "web") (chars "0.0.0.0:80") 0 demo_http demo_accepted 1 demo_read
    default_strings _ _ _ _ demo_http_runs demo_read_possible).
  - discriminate.
  - vm_compute. lia.
  - reflexivity.
  - reflexivity.
Defined.

(** The step above answers the request: the connection sends "Not Found",
    shuts down and has a fresh context. *)
Lemma demo_answered :
  ∃ H', http_step defaultHttpCallback demo_accepted demo_read = Ok (Some H') ∧ h_contexts H' !! 1 = Some HttpContext_ctor ∧
    y_held (h_sys H') = ∅ ∧
    (λ ob, (m_state (o_conn ob), wire_of (c_trace (o_conn ob)))) <$> y_objs (h_sys H') !! 1 =
      Some (kDisconnecting, chars "HTTP/1.1 404 Not Found" ++ CRLF ++ chars "Connection: close" ++ CRLF ++ CRLF).
Proof. eexists. split; [vm_compute; reflexivity|]. split_and!; vm_compute; reflexivity. Qed.
