(* ===== verification/Echo.v ===== *)
(** * Applications on a connection: src/test/test_echoServer.cc and
      test_echoClient.cc

    A program uses the library through the callbacks it sets on a TcpServer or
    TcpClient.  [Application] is that interface; a session is a connection
    with the state of its application, driven by what the loop reports on the
    socket.  A [conversation] says what an application answers; [Converses]
    are the laws of its callbacks, and the theorem on sessions is proved once
    from them, for the echo server and the echo client. *)

From S2P Require Import Prelude Buffer Channel Poller EventLoop TcpConnection Http HttpSession.

Open Scope Z_scope.

(** ** Applications *)

(** The answers of the socket to the writes of a callback. *)
Abbreviation socket := (list ascii → write_result).

Class Application (S : Type) : Type := {
  app_onConnection : socket → TcpConnection → S → res (TcpConnection * S);
  app_onMessage : socket → TcpConnection → S → res (TcpConnection * S);
}.

(** What the loop reports on the socket: as for an HTTP session, and that the
    peer has closed. *)
Inductive app_event : Type := Session (e : session_event) | PeerCloses (w : socket).

Section Driver.
Context {S : Type} `{Application S}.

(** The callbacks a handler of the connection called, in order. *)
Fixpoint app_callbacks (w : socket) (t : TcpConnection) (s : S) (es : list effect) : res (TcpConnection * S) :=
  match es with
  | [] => Ok (t, s)
  | EMessageCb :: es' => '(t1, s1) ← app_onMessage w t s; app_callbacks w t1 s1 es'
  | EConnectionCb _ :: es' => '(t1, s1) ← app_onConnection w t s; app_callbacks w t1 s1 es'
  | _ :: es' => app_callbacks w t s es'
  end.

(** A new connection. *)
Definition app_open (w : socket) (t : TcpConnection) (s : S) : res (TcpConnection * S) :=
  t1 ← connectEstablished true t; app_callbacks w t1 s (added t t1).

Definition app_step (ts : TcpConnection * S) (e : app_event) : res (TcpConnection * S) :=
  let '(t, s) := ts in
  match e with
  | Session (Arrives p _ w) => t1 ← handleRead true (λ _, ReadvBytes p) t; app_callbacks w t1 s (added t t1)
  | Session (Writable w) => t1 ← handleWrite true w t; app_callbacks w t1 s (added t t1)
  | PeerCloses w => t1 ← handleRead true (λ _, ReadvBytes []) t; app_callbacks w t1 s (added t t1)
  end.

Definition app_run (ts : TcpConnection * S) (es : list app_event) : res (TcpConnection * S) := foldM app_step ts es.
End Driver.

(** ** The echo server *)

Definition text_line (s : string) : list ascii := chars s ++ [LF].

(** Whether [loop_->quit()] was called. *)
Record EchoServer : Type := mkEchoServer { es_quit : bool }.

Definition server_onConnection (w : socket) (t : TcpConnection) (s : EchoServer) : res (TcpConnection * EchoServer) :=
  t1 ← send true w t (text_line "hello"); Ok (t1, s).

Definition server_onMessage (w : socket) (t : TcpConnection) (s : EchoServer) : res (TcpConnection * EchoServer) :=
  '(msg, b) ← retrieveAllAsString (m_inputBuffer t);
  let t1 := set_input t b in
  t2 ← (if bool_decide (msg = text_line "exit")
        then t' ← send true w t1 (text_line "bye"); shutdown true t'
        else Ok t1);
  let s1 := if bool_decide (msg = text_line "quit") then mkEchoServer true else s in
  t3 ← send true w t2 msg;
  Ok (t3, s1).

#[export] Instance EchoServer_app : Application EchoServer :=
  { app_onConnection := server_onConnection; app_onMessage := server_onMessage }.

(** ** The echo client *)

(** The counter of connections, how many further clients were told to connect,
    and whether the loop was told to quit. *)
Record EchoClient : Type := mkEchoClient { current : Z; ec_started : nat; ec_quit : bool }.

Section Client.
Context (clients_size : Z).

Definition client_onConnection (w : socket) (t : TcpConnection) (s : EchoClient) : res (TcpConnection * EchoClient) :=
  s1 ← (if connected t then
          c ← i32 (current s + 1);
          Ok (mkEchoClient c (if u64 c <? clients_size then S (ec_started s) else ec_started s) (ec_quit s))
        else Ok s);
  t1 ← send true w t (text_line "world");
  Ok (t1, s1).

Definition client_onMessage (w : socket) (t : TcpConnection) (s : EchoClient) : res (TcpConnection * EchoClient) :=
  '(msg, b) ← retrieveAllAsString (m_inputBuffer t);
  let t1 := set_input t b in
  if bool_decide (msg = text_line "quit")
  then t2 ← send true w t1 (text_line "bye"); t3 ← shutdown true t2; Ok (t3, s)
  else if bool_decide (msg = text_line "shutdown") then Ok (t1, mkEchoClient (current s) (ec_started s) true)
  else Ok (t1, s).

Definition EchoClient_app : Application EchoClient :=
  {| app_onConnection := client_onConnection; app_onMessage := client_onMessage |}.
End Client.

(** ** The default callbacks: src/dc/net/tcpConnection.cc *)

(** [defaultConnectionCallback] (its trace line is left out) and
    [defaultMessageCallback]. *)
Definition defaultConnectionCallback (w : socket) (t : TcpConnection) (s : unit) : res (TcpConnection * unit) := Ok (t, s).
Definition defaultMessageCallback (w : socket) (t : TcpConnection) (s : unit) : res (TcpConnection * unit) :=
  Ok (set_input t (retrieveAll (m_inputBuffer t)), s).

#[export] Instance default_app : Application unit :=
  { app_onConnection := defaultConnectionCallback; app_onMessage := defaultMessageCallback }.

(** ** Conversations *)

(** What an application says on a new connection and to a message, which
    messages end the conversation, and what it notes. *)
Record conversation (S : Type) : Type := mkConversation {
  greeting : list ascii;
  says : list ascii → list ascii;
  ends : list ascii → bool;
  joined : S → S;
  notes : list ascii → S → S;
}.
Arguments greeting {S}. Arguments says {S}. Arguments ends {S}. Arguments joined {S}. Arguments notes {S}.

(** The callbacks converse: they return on an open connection whose output
    buffer has the room, and the connection takes charge of what is said. *)
Class Converses {S} (A : Application S) (ok : S → Prop) (k : conversation S) : Prop := {
  conv_up : ∀ w t s, open_conn t → connected t = true → healthy w → ok s →
    zlen (out t) + 2 * zlen (greeting k) + kCheapPrepend ≤ max_size →
    ∃ t', app_onConnection w t s = Ok (t', joined k s) ∧ keeps t t' ∧ advances t (greeting k) t';
  conv_down : ∀ w t s, connected t = false → app_onConnection w t s = Ok (t, s);
  conv_message : ∀ w t s, open_conn t → healthy w →
    zlen (out t) + 2 * zlen (says k (content (m_inputBuffer t))) + kCheapPrepend ≤ max_size →
    ∃ t', app_onMessage w t s = Ok (t', notes k (content (m_inputBuffer t)) s) ∧ content (m_inputBuffer t') = [] ∧
      advances t (if connected t then says k (content (m_inputBuffer t)) else []) t' ∧
      m_state t' = if ends k (content (m_inputBuffer t)) then kDisconnecting else m_state t;
}.

Definition server_conversation : conversation EchoServer := mkConversation _
  (text_line "hello")
  (λ msg, if bool_decide (msg = text_line "exit") then text_line "bye" else msg)
  (λ msg, bool_decide (msg = text_line "exit"))
  id
  (λ msg s, if bool_decide (msg = text_line "quit") then mkEchoServer true else s).

Definition client_conversation (clients_size : Z) : conversation EchoClient := mkConversation _
  (text_line "world")
  (λ msg, if bool_decide (msg = text_line "quit") then text_line "bye" else [])
  (λ msg, bool_decide (msg = text_line "quit"))
  (λ s, mkEchoClient (current s + 1) (if current s + 1 <? clients_size then S (ec_started s) else ec_started s) (ec_quit s))
  (λ msg s, if bool_decide (msg = text_line "quit") then s
            else if bool_decide (msg = text_line "shutdown") then mkEchoClient (current s) (ec_started s) true else s).

(** [retrieveAllAsString] takes the content. *)
Lemma take_all b : wf b → ∃ b', retrieveAllAsString b = Ok (content b, b') ∧ wf b' ∧ content b' = [].
Proof.
  intros Hw. assert (0 ≤ readableBytes b) by (rewrite <- zlen_content by done; apply zlen_nonneg).
  destruct (retrieveAsString_ok b (readableBytes b)) as (b' & E & Hw' & Hc); [done|lia|].
  exists b'. unfold retrieveAllAsString. rewrite E. rewrite <- zlen_content in * by done.
  rewrite Hc. by rewrite ztake_all, zdrop_all.
Qed.

Lemma send_closed w t m : connected t = false → send true w t m = Ok t.
Proof. intros E. unfold send. by rewrite E. Qed.

(** The message is taken from the buffer first. *)
Lemma message_taken t :
  open_conn t → ∃ b, retrieveAllAsString (m_inputBuffer t) = Ok (content (m_inputBuffer t), b) ∧ content b = [] ∧
    advances t [] (set_input t b).
Proof.
  intros Ho. destruct (take_all (m_inputBuffer t)) as (b & E & Hw & Hc); [apply Ho|]. exists b. split_and!; [done..|].
  by apply set_input_advances.
Qed.

#[export] Instance EchoServer_converses : Converses EchoServer_app (λ _, True) server_conversation.
Proof.
  split.
  - intros w t s Ho Hc Hh _ Hm. destruct (send_advances w t (text_line "hello") Ho Hh Hm) as (t' & E & K & A). rewrite Hc in A.
    exists t'. simpl. unfold server_onConnection. by rewrite E.
  - intros w t s Hc. simpl. unfold server_onConnection. by rewrite send_closed.
  - intros w t s Ho Hh Hm. destruct (message_taken t Ho) as (b & E & Hb & A0). simpl in *. unfold server_onMessage. rewrite E.
    cbn [mbind res_bind]. set (msg := content (m_inputBuffer t)) in *. set (t0 := set_input t b) in *.
    destruct (bool_decide (msg = text_line "exit")) eqn:Ee.
    + destruct (last_words w t0 (text_line "bye") (proj1 A0) Hh Hm) as (t1 & t2 & E1 & E2 & S2 & I2 & A2).
      exists t2. rewrite E1. cbn [mbind res_bind]. rewrite E2. cbn [mbind res_bind].
      rewrite send_closed by (unfold connected; by rewrite S2). split_and!; [done|by rewrite I2|apply (advances_trans _ _ _ _ _ A0 A2)|done].
    + destruct (send_advances w t0 msg (proj1 A0) Hh Hm) as (t1 & E1 & [K1 K2] & A1). exists t1. cbn [mbind res_bind].
      rewrite E1. split_and!; [done|by rewrite K2|apply (advances_trans _ _ _ _ _ A0 A1)|by rewrite K1].
Qed.

#[export] Instance EchoClient_converses clients_size :
  Converses (EchoClient_app clients_size) (λ s, 0 ≤ current s < 2 ^ 31 - 1) (client_conversation clients_size).
Proof.
  split.
  - intros w t s Ho Hc Hh Hs Hm. destruct (send_advances w t (text_line "world") Ho Hh Hm) as (t' & E & K & A). rewrite Hc in A.
    exists t'. simpl. unfold client_onConnection. rewrite Hc, i32_Ok by lia. cbn [mbind res_bind]. rewrite u64_small by lia. by rewrite E.
  - intros w t s Hc. simpl. unfold client_onConnection. rewrite Hc. cbn [mbind res_bind]. by rewrite send_closed.
  - intros w t s Ho Hh Hm. destruct (message_taken t Ho) as (b & E & Hb & A0). simpl in *. unfold client_onMessage. rewrite E.
    cbn [mbind res_bind]. set (msg := content (m_inputBuffer t)) in *. set (t0 := set_input t b) in *.
    destruct (bool_decide (msg = text_line "quit")) eqn:Ee.
    + destruct (last_words w t0 (text_line "bye") (proj1 A0) Hh Hm) as (t1 & t2 & E1 & E2 & S2 & I2 & A2).
      exists t2. rewrite E1. cbn [mbind res_bind]. rewrite E2. cbn [mbind res_bind].
      split_and!; [done|by rewrite I2|apply (advances_trans _ _ _ _ _ A0 A2)|done].
    + exists t0. destruct (bool_decide (msg = text_line "shutdown")); split_and!; try done; by destruct (connected t).
Qed.

(** A connection without callbacks of its own says nothing. *)
Definition silence : conversation unit := mkConversation _ [] (λ _, []) (λ _, false) id (λ _, id).

#[export] Instance default_converses : Converses default_app (λ _, True) silence.
Proof.
  split.
  - intros w t s Ho _ _ _ _. exists t. split_and!; [done..|]. by apply advances_refl.
  - done.
  - intros w t s Ho _ _. destruct (retrieveAll_wf (m_inputBuffer t)) as [Hw Hc]; [apply Ho|].
    eexists. split; [done|]. split_and!; [done| |done]. destruct (connected t); by apply set_input_advances.
Qed.

(** ** Sessions *)

(** The messages that arrive, in order. *)
Definition messages (es : list session_event) : list (list ascii) :=
  concat (map (λ e, match e with Arrives p _ _ => [p] | Writable _ => [] end) es).

(** What is said to them: nothing after the message that ends it. *)
Fixpoint spoken {S} (k : conversation S) (ms : list (list ascii)) : list ascii :=
  match ms with [] => [] | m :: ms' => says k m ++ if ends k m then [] else spoken k ms' end.

(** The bytes said to each message, ended or not. *)
Definition volume {S} (k : conversation S) (ms : list (list ascii)) : Z := foldr (λ m n, zlen (says k m) + n) 0 ms.

Lemma volume_nonneg {S} (k : conversation S) ms : 0 ≤ volume k ms.
Proof. induction ms as [|m ms IH]; simpl; [lia|]. pose proof (zlen_nonneg (says k m)). unfold volume in *. lia. Qed.

(** A new connection is open, empty, and has called its callback. *)
Lemma connection_opens sockfd wcb hwcb t0 :
  0 ≤ sockfd → TcpConnection_ctor sockfd wcb hwcb = Ok t0 →
  ∃ t, connectEstablished true t0 = Ok t ∧ added t0 t = [EUpdate EnableReading; EConnectionCb true] ∧ content (m_inputBuffer t) = [] ∧
    m_state t = kConnected ∧ advances t0 [] t ∧ out t0 = [] ∧ c_trace t0 = [].
Proof.
  intros Hfd E. destruct (ctor_fresh sockfd wcb hwcb Hfd) as (t' & E' & Hf & _). assert (t' = t0) as -> by congruence.
  assert (content (m_inputBuffer t0) = []) as Hc.
  { unfold TcpConnection_ctor in E. destruct (Buffer_ctor_ok kInitialSize) as (b & Eb & _ & Hcb & _); [by vm_compute|].
    rewrite Eb in E. by injection E as <-. }
  pose proof Hf as (Hs & _ & _ & Ho & _ & _ & _ & Htr). pose proof (established_good t0 (fresh_inv _ Hf) Hs) as G.
  unfold connectEstablished in *. rewrite Hs in *. cbn [assertInLoopThread mbind res_bind cassert] in *.
  rewrite cassert_true in * by done. cbn [mbind res_bind] in *. eexists. split; [done|].
  split_and!; [|done|done|by eapply good_advances|done|done]. apply added_app. simpl. by rewrite <- app_assoc.
Qed.

Section Conversation.
Context {S : Type} (A : Application S) (ok : S → Prop) (k : conversation S) `{!Converses A ok k}.

Lemma app_callbacks_quiet w t s es : Forall quiet es → app_callbacks w t s es = Ok (t, s).
Proof. induction 1 as [|e es He _ IH]; [done|]. destruct e; simpl in *; done. Qed.

Definition noted (ms : list (list ascii)) (s : S) : S := foldl (λ s m, notes k m s) s ms.

Lemma app_run_ok es : ∀ t s,
  open_conn t → content (m_inputBuffer t) = [] → Forall event_ok es →
  zlen (out t) + 2 * volume k (messages es) + kCheapPrepend ≤ max_size →
  ∃ t', app_run (t, s) (map Session es) = Ok (t', noted (messages es) s) ∧ open_conn t' ∧ content (m_inputBuffer t') = [] ∧
    advances t (if connected t then spoken k (messages es) else []) t' ∧
    m_state t' = if existsb (ends k) (messages es) then kDisconnecting else m_state t.
Proof.
  induction es as [|e es IH]; intros t s Ho Hc Hok Hm.
  - exists t. split_and!; try done. destruct (connected t); by apply advances_refl.
  - apply Forall_cons in Hok as [He Hok]. unfold app_run in *. cbn [map foldM app_step]. destruct e as [p tm w|w].
    + destruct He as (Hp & Hx & Hh). change (messages (Arrives p tm w :: es)) with (p :: messages es) in *.
      assert (Hv : volume k (p :: messages es) = zlen (says k p) + volume k (messages es)) by done.
      pose proof (zlen_nonneg (says k p)). pose proof (volume_nonneg k (messages es)).
      destruct (handleRead_arrives t p Ho Hp Hx) as (b & E & A1 & Hw & Hcb).
      { rewrite Hc, zlen_nil. unfold extrabuf_size in Hx. unfold kCheapPrepend, max_size. lia. }
      rewrite E. cbn [mbind res_bind]. rewrite (added_app _ _ [EMessageCb]) by done. cbn [app_callbacks].
      set (t1 := emit (set_input t b) EMessageCb) in *. assert (Hp1 : content (m_inputBuffer t1) = p) by (rewrite Hc in Hcb; exact Hcb).
      pose proof (advances_out _ _ _ A1) as Ho1. rewrite zlen_nil in Ho1.
      destruct (conv_message w t1 s (proj1 A1) Hh) as (t2 & E2 & Hc2 & A2 & S2); [rewrite Hp1; lia|]. rewrite Hp1 in *.
      rewrite E2. cbn [mbind res_bind]. pose proof (advances_trans _ _ _ _ _ A1 A2) as A12. cbn [app] in A12.
      change (connected t1) with (connected t) in A12. change (m_state t1) with (m_state t) in S2.
      pose proof (advances_out _ _ _ A12) as Ho2.
      destruct (IH t2 (notes k p s) (proj1 A2) Hc2 Hok) as (t' & E' & Ho' & Hc' & A' & S').
      { destruct (connected t); [|rewrite zlen_nil in Ho2]; lia. }
      exists t'. split_and!; try done.
      * pose proof (advances_trans _ _ _ _ _ A12 A') as A3. unfold connected in *. rewrite S2 in A3. cbn [spoken].
        destruct (ends k p); [change (bool_decide (kDisconnecting = kConnected)) with false in A3|];
          destruct (bool_decide (m_state t = kConnected)); try done; by rewrite ?app_nil_r in *.
      * rewrite S', S2. cbn [existsb]. destruct (ends k p), (existsb (ends k) (messages es)); done.
    + destruct (handleWrite_advances w t Ho He) as (t1 & E & [K1 K2] & A1 & Q). rewrite E. cbn [mbind res_bind].
      rewrite app_callbacks_quiet by done. cbn [mbind res_bind]. pose proof (advances_out _ _ _ A1) as Ho1. rewrite zlen_nil in Ho1.
      change (messages (Writable w :: es)) with (messages es) in *.
      destruct (IH t1 s (proj1 A1)) as (t' & E' & Ho' & Hc' & A' & S'); [by rewrite K2|done|lia|].
      exists t'. unfold connected in *. rewrite K1 in *. split_and!; try done. by apply (advances_trans _ _ _ _ _ A1 A').
Qed.

(** The peer closes: the callback is called once more and says nothing. *)
Lemma app_closes w t s :
  open_conn t → content (m_inputBuffer t) = [] →
  ∃ t', app_step (t, s) (PeerCloses w) = Ok (t', s) ∧ m_state t' = kDisconnected ∧ wire_of (c_trace t') = wire_of (c_trace t).
Proof.
  intros [Hi Ho] Hc. destruct (readFd_data (λ _, ReadvBytes []) (m_inputBuffer t) []) as (b & E & _);
    [apply Hi|right; rewrite Hc; change (zlen (@nil ascii)) with 0; unfold kCheapPrepend, max_size; lia|done| |].
  { assert (0 ≤ writableBytes (m_inputBuffer t)) by (rewrite writable_wf by apply Hi; destruct (inv_in _ Hi) as (? & ? & _); lia).
    change (zlen (@nil ascii)) with 0. destruct (_ <? extrabuf_size); simpl; unfold extrabuf_size; lia. }
  unfold app_step, handleRead. cbn [assertInLoopThread mbind res_bind]. rewrite E. change (zlen (@nil ascii)) with 0. cbn [mbind res_bind Z.ltb Z.compare Z.eqb].
  unfold handleClose. cbn [assertInLoopThread mbind res_bind]. change (open_state (set_input t b)) with (open_state t). rewrite Ho.
  cbn [cassert mbind res_bind]. set (t1 := emit (emit _ _) _).
  assert (Et : c_trace t1 = c_trace t ++ [EUpdate DisableAll; EConnectionCb false; ECloseCb]).
  { unfold t1. simpl. by rewrite <- !app_assoc. }
  rewrite (added_app _ _ _ Et). cbn [app_callbacks]. rewrite conv_down by done. cbn [mbind res_bind app_callbacks].
  exists t1. split_and!; [done..|]. by rewrite Et, wire_app, app_nil_r.
Qed.

(** A whole connection, from its construction to the close of the peer. *)
Lemma conversation_held sockfd wcb hwcb t0 w es s :
  0 ≤ sockfd → TcpConnection_ctor sockfd wcb hwcb = Ok t0 → healthy w → ok s → Forall event_ok es →
  2 * (zlen (greeting k) + volume k (messages es)) + kCheapPrepend ≤ max_size →
  ∃ t1 t2, app_open w t0 s = Ok (t1, joined k s) ∧
    app_run (t1, joined k s) (map Session es) = Ok (t2, noted (messages es) (joined k s)) ∧
    wire_of (c_trace t2) ++ content (m_outputBuffer t2) = greeting k ++ spoken k (messages es) ∧
    m_state t2 = (if existsb (ends k) (messages es) then kDisconnecting else kConnected) ∧
    ∃ t3, app_step (t2, noted (messages es) (joined k s)) (PeerCloses w) = Ok (t3, noted (messages es) (joined k s)) ∧
      m_state t3 = kDisconnected ∧ wire_of (c_trace t3) = wire_of (c_trace t2).
Proof.
  intros Hfd E Hh Hs Hok Hm. pose proof (zlen_nonneg (greeting k)). pose proof (volume_nonneg k (messages es)).
  destruct (connection_opens sockfd wcb hwcb t0 Hfd E) as (t & Et & Ha & Hc & S0 & A0 & Hout & Htr).
  pose proof (advances_out _ _ _ A0) as Ho0. rewrite Hout in Ho0. change (zlen (@nil ascii)) with 0 in Ho0.
  unfold app_open. rewrite Et. cbn [mbind res_bind]. rewrite Ha. cbn [app_callbacks].
  destruct (conv_up w t s (proj1 A0)) as (t1 & E1 & [K1 K2] & A1); [by unfold connected; rewrite S0|done|done|lia|].
  rewrite E1. cbn [mbind res_bind]. pose proof (advances_trans _ _ _ _ _ A0 A1) as A01. pose proof (advances_out _ _ _ A01) as Ho1.
  rewrite Hout in Ho1. change (zlen (@nil ascii)) with 0 in Ho1. cbn [app] in Ho1.
  destruct (app_run_ok es t1 (joined k s) (proj1 A1)) as (t2 & E2 & Ho2 & Hc2 & A2 & S2); [by rewrite K2|done|lia|].
  assert (connected t1 = true) as Hco by (unfold connected; by rewrite K1, S0). rewrite Hco in A2.
  exists t1, t2. split; [done|]. split; [done|]. split; [|split; [by rewrite S2, K1, S0|by apply app_closes]].
  pose proof (advances_trans _ _ _ _ _ A01 A2) as (_ & es' & Et' & W). rewrite Htr in Et'. rewrite Hout in W. by rewrite Et'.
Qed.
End Conversation.

Lemma existsb_elem (x : list ascii) ms : existsb (λ m, bool_decide (m = x)) ms = bool_decide (x ∈ ms).
Proof.
  induction ms as [|m ms IH]; cbn [existsb]; [symmetry; apply bool_decide_eq_false_2; set_solver|]. rewrite IH, <- bool_decide_or.
  apply bool_decide_ext. set_solver.
Qed.

Lemma noted_quit ms : ∀ b, es_quit (noted server_conversation ms (mkEchoServer b)) = b || existsb (λ m, bool_decide (m = text_line "quit")) ms.
Proof.
  unfold noted. induction ms as [|m ms IH]; intros b; simpl; [by rewrite orb_false_r|].
  destruct (bool_decide (m = text_line "quit")); rewrite IH; by destruct b.
Qed.

(** The echo server, from the connection to the close of the peer: with
    messages that arrive in any pieces, write events in between and a socket
    that takes any part of what it is given, no callback or handler fails.
    What is on the wire and in the output buffer is the greeting, then every
    message as it came, up to the first that is the exit line, which is
    answered with the bye line and shuts the connection down; the loop is told
    to quit iff a quit line came, and when the peer closes the connection
    callback sends nothing. *)
Theorem echo_session (sockfd : Z) (wcb hwcb : bool) (t0 : TcpConnection) (w : socket) (es : list session_event) :
  0 ≤ sockfd → TcpConnection_ctor sockfd wcb hwcb = Ok t0 → healthy w → Forall event_ok es →
  2 * (6 + volume server_conversation (messages es)) + kCheapPrepend ≤ max_size →
  ∃ t1 t2 s2, app_open w t0 (mkEchoServer false) = Ok (t1, mkEchoServer false) ∧
    app_run (t1, mkEchoServer false) (map Session es) = Ok (t2, s2) ∧
    wire_of (c_trace t2) ++ content (m_outputBuffer t2) = text_line "hello" ++ spoken server_conversation (messages es) ∧
    m_state t2 = (if bool_decide (text_line "exit" ∈ messages es) then kDisconnecting else kConnected) ∧
    es_quit s2 = bool_decide (text_line "quit" ∈ messages es) ∧
    ∃ t3, app_step (t2, s2) (PeerCloses w) = Ok (t3, s2) ∧ m_state t3 = kDisconnected ∧
      wire_of (c_trace t3) = wire_of (c_trace t2).
Proof.
  intros Hfd E Hh Hok Hm.
  destruct (conversation_held EchoServer_app (λ _, True) server_conversation sockfd wcb hwcb t0 w es (mkEchoServer false))
    as (t1 & t2 & E1 & E2 & W & St & Hc); [done..|].
  exists t1, t2, (noted server_conversation (messages es) (mkEchoServer false)). split_and!; [done|done|done| | |done].
  - by rewrite St, (existsb_elem (text_line "exit")).
  - rewrite noted_quit. apply existsb_elem.
Qed.

(** A client that says two words, then leaves; the socket takes two bytes at a
    time. *)
Definition demo_events : list session_event :=
  [Arrives (chars "hi" ++ [LF]) 1 two_bytes; Writable two_bytes; Arrives (text_line "exit") 2 two_bytes; Writable two_bytes].

Lemma echo_session_witness :
  ∃ t1 t2 s2, app_open two_bytes ctor_conn (mkEchoServer false) = Ok (t1, mkEchoServer false) ∧
    app_run (t1, mkEchoServer false) (map Session demo_events) = Ok (t2, s2) ∧
    wire_of (c_trace t2) ++ content (m_outputBuffer t2) = text_line "hello" ++ spoken server_conversation (messages demo_events) ∧
    m_state t2 = (if bool_decide (text_line "exit" ∈ messages demo_events) then kDisconnecting else kConnected) ∧
    es_quit s2 = bool_decide (text_line "quit" ∈ messages demo_events) ∧
    ∃ t3, app_step (t2, s2) (PeerCloses two_bytes) = Ok (t3, s2) ∧ m_state t3 = kDisconnected ∧
      wire_of (c_trace t3) = wire_of (c_trace t2).
Proof.
  refine (echo_session 7 true true ctor_conn two_bytes demo_events _ ctor_conn_eq two_bytes_healthy _ _).
  - vm_compute. discriminate.
  - pose proof two_bytes_healthy. pose proof two_bytes_fits.
    repeat (apply Forall_cons_2; [by split_and! || done|]). apply Forall_nil_2.
  - vm_compute. discriminate.
Defined.

Lemma silent_spoken ms : spoken silence ms = [] ∧ volume silence ms = 0 ∧ existsb (ends silence) ms = false.
Proof. by induction ms as [|m ms (E1 & E2 & E3)]. Qed.

(** A connection with the default callbacks takes and drops whatever arrives:
    no handler fails, nothing is sent, the input buffer is empty after every
    message and the connection stays open until the peer closes. *)
Theorem default_session (sockfd : Z) (wcb hwcb : bool) (t0 : TcpConnection) (w : socket) (es : list session_event) :
  0 ≤ sockfd → TcpConnection_ctor sockfd wcb hwcb = Ok t0 → healthy w → Forall event_ok es →
  ∃ t1 t2, app_open w t0 () = Ok (t1, ()) ∧ app_run (t1, ()) (map Session es) = Ok (t2, ()) ∧
    wire_of (c_trace t2) ++ content (m_outputBuffer t2) = [] ∧ m_state t2 = kConnected ∧
    ∃ t3, app_step (t2, ()) (PeerCloses w) = Ok (t3, ()) ∧ m_state t3 = kDisconnected.
Proof.
  intros Hfd E Hh Hok. destruct (silent_spoken (messages es)) as (Es & Ev & Ee).
  destruct (conversation_held default_app (λ _, True) silence sockfd wcb hwcb t0 w es ()) as (t1 & t2 & E1 & E2 & W & St & t3 & E3 & S3 & _);
    [done..|rewrite Ev; by vm_compute|]. rewrite Es in W. rewrite Ee in St.
  destruct (noted silence (messages es) _) in *. exists t1, t2. split_and!; [done..|]. by exists t3.
Qed.
