(* ===== verification/Date.v ===== *)
(** * Dates and times: src/dc/base/date.{h,cc}, timeStamp.{h,cc}, timeZone.{h,cc}

    The calendar arithmetic is done in [int], as in the code: every
    intermediate value goes through [i32], which faults on signed overflow.
    The round trips are proved on the whole range of years for which the code
    does not overflow. *)

From Stdlib Require Import Sorted.
From S2P Require Import Prelude Endian.

Open Scope Z_scope.

(** ** Date (date.h, date.cc) *)

Record YearMonthDay : Type := mkYMD { year : Z; month : Z; day : Z }.

#[global] Instance YearMonthDay_eq_dec : EqDecision YearMonthDay.
Proof. solve_decision. Defined.

(** [getJulianDayNumber] *)
Definition getJulianDayNumber (year month day : Z) : res Z :=
  t ← i32 (14 - month);
  let a := Z.quot t 12 in
  y0 ← i32 (year + 4800);
  y ← i32 (y0 - a);
  m0 ← i32 (12 * a);
  m1 ← i32 (month + m0);
  m ← i32 (m1 - 3);
  p ← i32 (153 * m);
  p2 ← i32 (p + 2);
  s1 ← i32 (day + Z.quot p2 5);
  y365 ← i32 (y * 365);
  s2 ← i32 (s1 + y365);
  s3 ← i32 (s2 + Z.quot y 4);
  s4 ← i32 (s3 - Z.quot y 100);
  s5 ← i32 (s4 + Z.quot y 400);
  i32 (s5 - 32045).

(** [getYearMonthDay] *)
Definition getYearMonthDay (julianDayNumber : Z) : res YearMonthDay :=
  a ← i32 (julianDayNumber + 32044);
  a4 ← i32 (4 * a);
  a43 ← i32 (a4 + 3);
  let b := Z.quot a43 146097 in
  b4 ← i32 (b * 146097);
  c ← i32 (a - Z.quot b4 4);
  c4 ← i32 (4 * c);
  c43 ← i32 (c4 + 3);
  let d := Z.quot c43 1461 in
  d4 ← i32 (1461 * d);
  e ← i32 (c - Z.quot d4 4);
  e5 ← i32 (5 * e);
  e52 ← i32 (e5 + 2);
  let m := Z.quot e52 153 in
  m153 ← i32 (153 * m);
  m2 ← i32 (m153 + 2);
  day0 ← i32 (e - Z.quot m2 5);
  day ← i32 (day0 + 1);
  month0 ← i32 (m + 3);
  m12 ← i32 (12 * Z.quot m 10);
  month ← i32 (month0 - m12);
  b100 ← i32 (b * 100);
  y0 ← i32 (b100 + d);
  y1 ← i32 (y0 - 4800);
  year ← i32 (y1 + Z.quot m 10);
  Ok (mkYMD year month day).

(** A [Date] is its Julian day number. *)
Record Date : Type := mkDate { julianDayNumber_ : Z }.

Definition kDaysPerWeek : Z := 7.
Definition kJulianDayOf1970_01_01 : Z := 2440588.

Definition Date_default : Date := mkDate 0.
Definition Date_ctor (y m d : Z) : res Date := j ← getJulianDayNumber y m d; Ok (mkDate j).
Definition date_valid (d : Date) : bool := 0 <? julianDayNumber_ d.
Definition yearMonthDay (d : Date) : res YearMonthDay := getYearMonthDay (julianDayNumber_ d).
(** [Date::weekDay], 0 for Sunday *)
Definition weekDay (d : Date) : res Z := j ← i32 (julianDayNumber_ d + 1); Ok (Z.rem j kDaysPerWeek).
Definition date_lt (x y : Date) : bool := julianDayNumber_ x <? julianDayNumber_ y.
Definition date_eq (x y : Date) : bool := julianDayNumber_ x =? julianDayNumber_ y.

(** struct tm, as gmtime_r fills it. *)
Record tm : Type := mkTm { tm_year : Z; tm_mon : Z; tm_mday : Z; tm_hour : Z; tm_min : Z; tm_sec : Z }.

(** [Date::Date(const struct tm&)] *)
Definition Date_of_tm (t : tm) : res Date :=
  y ← i32 (tm_year t + 1900); m ← i32 (tm_mon t + 1); Date_ctor y m (tm_mday t).

(** [Date::toIsoString] *)
Definition date_toIsoString (d : Date) : res (list ascii) :=
  ymd ← yearMonthDay d;
  Ok (snprintf 32 (fmt_d false 4 (year ymd) ++ chars "-" ++ fmt_d true 2 (month ymd) ++ chars "-" ++
                   fmt_d true 2 (day ymd))).

(** ** DateTime and UTC (timeZone.h, timeZone.cc) *)

Record DateTime : Type := mkDateTime {
  m_year : Z; m_month : Z; m_day : Z; m_hour : Z; m_minute : Z; m_second : Z
}.

#[global] Instance DateTime_eq_dec : EqDecision DateTime.
Proof. solve_decision. Defined.

Definition DateTime_default : DateTime := mkDateTime 0 0 0 0 0 0.
(** [DateTime::DateTime(const struct tm&)] *)
Definition DateTime_of_tm (t : tm) : res DateTime :=
  y ← i32 (tm_year t + 1900); m ← i32 (tm_mon t + 1);
  Ok (mkDateTime y m (tm_mday t) (tm_hour t) (tm_min t) (tm_sec t)).

Definition kSecondsPerDay : Z := 24 * 60 * 60.

(** [fillHMS]: [seconds] is unsigned. *)
Definition fillHMS (seconds : Z) (dt : DateTime) : DateTime :=
  let minutes := seconds / 60 in
  mkDateTime (m_year dt) (m_month dt) (m_day dt) (minutes / 60) (minutes mod 60) (seconds mod 60).

(** [BreakTime] *)
Definition BreakTime (t : Z) : res DateTime :=
  let seconds0 := swrap 32 (Z.rem t kSecondsPerDay) in
  let days0 := swrap 32 (Z.quot t kSecondsPerDay) in
  '(seconds, days) ← (if seconds0 <? 0
                      then s ← i32 (seconds0 + kSecondsPerDay); d ← i32 (days0 - 1); Ok (s, d)
                      else Ok (seconds0, days0));
  let dt := fillHMS (uwrap 32 seconds) DateTime_default in
  j ← i32 (days + kJulianDayOf1970_01_01);
  ymd ← yearMonthDay (mkDate j);
  Ok (mkDateTime (year ymd) (month ymd) (day ymd) (m_hour dt) (m_minute dt) (m_second dt)).

(** [TimeZone::toUtcTime] *)
Definition toUtcTime (secondsSinceEpoch : Z) : res DateTime := BreakTime secondsSinceEpoch.

(** [TimeZone::fromUtcTime] *)
Definition fromUtcTime (dt : DateTime) : res Z :=
  date ← Date_ctor (m_year dt) (m_month dt) (m_day dt);
  h ← i32 (m_hour dt * 3600);
  mi ← i32 (m_minute dt * 60);
  hm ← i32 (h + mi);
  secondsInDay ← i32 (hm + m_second dt);
  days ← i32 (julianDayNumber_ date - kJulianDayOf1970_01_01);
  ds ← i64 (days * kSecondsPerDay);
  i64 (ds + secondsInDay).

(** [DateTime::toIsoString] *)
Definition dt_toIsoString (d : DateTime) : list ascii :=
  snprintf 64 (fmt_d true 4 (m_year d) ++ chars "-" ++ fmt_d true 2 (m_month d) ++ chars "-" ++ fmt_d true 2 (m_day d) ++
    chars " " ++ fmt_d true 2 (m_hour d) ++ chars ":" ++ fmt_d true 2 (m_minute d) ++ chars ":" ++ fmt_d true 2 (m_second d)).

(** ** Timestamp (timeStamp.h, timeStamp.cc) *)

Record Timestamp : Type := mkTimestamp { m_microSecondsSinceEpoch : Z }.

Definition kMicroSecondsPerSecond : Z := 1000 * 1000.
Definition Timestamp_invalid : Timestamp := mkTimestamp 0.
Definition ts_valid (t : Timestamp) : bool := 0 <? m_microSecondsSinceEpoch t.
(** [Timestamp::secondsSinceEpoch] *)
Definition secondsSinceEpoch (t : Timestamp) : Z := Z.quot (m_microSecondsSinceEpoch t) kMicroSecondsPerSecond.
(** [Timestamp::fromUnixTime] *)
Definition fromUnixTime (t microseconds : Z) : res Timestamp :=
  s ← i64 (t * kMicroSecondsPerSecond); us ← i64 (s + microseconds); Ok (mkTimestamp us).
Definition ts_lt (a b : Timestamp) : bool := m_microSecondsSinceEpoch a <? m_microSecondsSinceEpoch b.
Definition ts_eq (a b : Timestamp) : bool := m_microSecondsSinceEpoch a =? m_microSecondsSinceEpoch b.

(** [Timestamp::now], from what gettimeofday returned. *)
Definition now (tv_sec tv_usec : Z) : res Timestamp :=
  s ← i64 (tv_sec * kMicroSecondsPerSecond); us ← i64 (s + tv_usec); Ok (mkTimestamp us).

(** [Timestamp::toString] *)
Definition ts_toString (t : Timestamp) : list ascii :=
  let seconds := Z.quot (m_microSecondsSinceEpoch t) kMicroSecondsPerSecond in
  let microseconds := Z.rem (m_microSecondsSinceEpoch t) kMicroSecondsPerSecond in
  snprintf 32 (decimal seconds ++ chars "." ++ fmt_d true 6 microseconds).

(** [Timestamp::toFormattedString]; [gmtime_r] is the C library's. *)
Definition ts_toFormattedString (gmtime_r : Z → tm) (t : Timestamp) (showMicroseconds : bool) : res (list ascii) :=
  let tm_time := gmtime_r (Z.quot (m_microSecondsSinceEpoch t) kMicroSecondsPerSecond) in
  y ← i32 (tm_year tm_time + 1900);
  m ← i32 (tm_mon tm_time + 1);
  let ymdhms := fmt_d false 4 y ++ fmt_d true 2 m ++ fmt_d true 2 (tm_mday tm_time) ++ chars " " ++
                fmt_d true 2 (tm_hour tm_time) ++ chars ":" ++ fmt_d true 2 (tm_min tm_time) ++ chars ":" ++
                fmt_d true 2 (tm_sec tm_time) in
  if showMicroseconds then
    let microseconds := swrap 32 (Z.rem (m_microSecondsSinceEpoch t) kMicroSecondsPerSecond) in
    Ok (snprintf 64 (ymdhms ++ chars "." ++ fmt_d true 6 microseconds))
  else Ok (snprintf 64 ymdhms).

(** ** TimeZone (timeZone.cc) *)

Record Transition : Type := mkTransition { utctime : Z; localtime : Z; localtimeIdx : nat }.
Record LocalTime : Type := mkLocalTime { utcOffset : Z; isDst : bool; desigIdx : Z }.

(** [TimeZone::Data] *)
Record Data : Type := mkData {
  transitions : list Transition;
  localtimes : list LocalTime;
  abbrevition : list ascii;
  tzstring : list ascii;
}.

Definition Data_default : Data := mkData [] [] [] [].

(** [TimeZone::Data::addLocalTime] *)
Definition addLocalTime (d : Data) (off : Z) (dst : bool) (desig : Z) : Data :=
  mkData (transitions d) (localtimes d ++ [mkLocalTime off dst desig]) (abbrevition d) (tzstring d).

(** [TimeZone::Data::addTransition]: [vector::at] throws out_of_range. *)
Definition addTransition (d : Data) (utcTime : Z) (localIdx : nat) : res Data :=
  match localtimes d !! localIdx with
  | None => Fail (FThrow "std::out_of_range")
  | Some lt =>
      l ← i64 (utcTime + utcOffset lt);
      Ok (mkData (transitions d ++ [mkTransition utcTime l localIdx]) (localtimes d) (abbrevition d) (tzstring d))
  end.

(** [std::upper_bound] on a sorted range: the position of the first element
    whose key is greater, the length of the range when there is none. *)
Fixpoint upper_bound (key : Transition → Z) (v : Z) (l : list Transition) : nat :=
  match l with
  | [] => 0
  | t :: l' => if v <? key t then 0%nat else S (upper_bound key v l')
  end.

(** Reading [localtimes[i]], [transitions[i]]: undefined out of range. *)
Definition at_index {A} (l : list A) (i : nat) : res A :=
  match l !! i with Some x => Ok x | None => Fail (FUndef "vector index") end.

(** [TimeZone::Data::findLocalTime(int64_t)] *)
Definition findLocalTime (d : Data) (utcTime : Z) : res LocalTime :=
  match transitions d with
  | [] => at_index (localtimes d) 0
  | first :: _ =>
      if utcTime <? utctime first then at_index (localtimes d) 0
      else
        let it := upper_bound utctime utcTime (transitions d) in
        cassert (negb (Nat.eqb it 0)) "transIt != transitions.begin()";;
        (* the transition before it; the last one when it is the end *)
        tr ← at_index (transitions d) (it - 1);
        at_index (localtimes d) (localtimeIdx tr)
  end.

(** [TimeZone::Data::findLocalTime(const DateTime&, bool)] *)
Definition findLocalTime_local (d : Data) (lt : DateTime) (postTransition : bool) : res LocalTime :=
  local ← fromUtcTime lt;
  match transitions d with
  | [] => at_index (localtimes d) 0
  | first :: _ =>
      if local <? localtime first then at_index (localtimes d) 0
      else
        let it := upper_bound localtime local (transitions d) in
        cassert (Nat.eqb it 0) "transIt == transitions.begin()";;
        if Nat.eqb it (length (transitions d)) then
          tr ← at_index (transitions d) (length (transitions d) - 1);
          at_index (localtimes d) (localtimeIdx tr)
        else
          if Nat.eqb it 0 then Fail (FUndef "transIt - 1") else
          prior_trans ← at_index (transitions d) (it - 1);
          cur ← at_index (transitions d) it;
          plt ← at_index (localtimes d) (localtimeIdx prior_trans);
          ps ← i64 (utctime cur - 1);
          prior_second ← i64 (ps + utcOffset plt);
          if prior_second <? local then
            at_index (localtimes d) (localtimeIdx (if postTransition then cur else prior_trans))
          else
            let it' := (it - 1)%nat in
            cur' ← at_index (transitions d) it';
            '(prior_trans', prior_second') ←
              (if Nat.eqb it' 0 then Ok (prior_trans, prior_second)
               else p ← at_index (transitions d) (it' - 1);
                    pl ← at_index (localtimes d) (localtimeIdx p);
                    ps' ← i64 (utctime cur' - 1);
                    prior ← i64 (ps' + utcOffset pl);
                    Ok (p, prior));
            if local <=? prior_second' then
              at_index (localtimes d) (localtimeIdx (if postTransition then cur' else prior_trans'))
            else at_index (localtimes d) (localtimeIdx cur')
  end.

(** A [TimeZone] is a shared pointer to its data. *)
Definition TimeZone : Type := option Data.

(** [TimeZone::TimeZone(int, const char* )] and [TimeZone::UTC] *)
Definition TimeZone_fixed (eastOfUtc : Z) (name : list ascii) : TimeZone :=
  let d := addLocalTime Data_default eastOfUtc false 0 in
  Some (mkData (transitions d) (localtimes d) name (tzstring d)).
Definition UTC : TimeZone := TimeZone_fixed 0 (chars "UTC").
Definition tz_valid (tz : TimeZone) : bool := bool_decide (is_Some tz).

(** [TimeZone::toLocalTime], with the offset it stores. *)
Definition toLocalTime (tz : TimeZone) (seconds : Z) : res (DateTime * Z) :=
  match tz with
  | None => Fail (FAssert "m_data != NULL")
  | Some d =>
      local ← findLocalTime d seconds;
      l ← i64 (seconds + utcOffset local);
      dt ← BreakTime l;
      Ok (dt, utcOffset local)
  end.

(** [TimeZone::fromLocalTime] *)
Definition fromLocalTime (tz : TimeZone) (lt : DateTime) (postTransition : bool) : res Z :=
  match tz with
  | None => Fail (FAssert "m_data != NULL")
  | Some d =>
      local ← findLocalTime_local d lt postTransition;
      localSeconds ← fromUtcTime lt;
      i64 (localSeconds - utcOffset local)
  end.

(** ** Reading a zone file (timeZone.cc, class File) *)

(** An open file: its bytes and the position of the next read. *)
Record File : Type := mkFile { f_bytes : list ascii; f_pos : Z }.

(** [fread] of [n] bytes: what is left, at most [n]. *)
Definition fread (f : File) (n : Z) : list ascii * File :=
  let got := ztake n (zdrop (f_pos f) (f_bytes f)) in
  (got, mkFile (f_bytes f) (f_pos f + zlen got)).

(** [File::readBytes]: a variable-length array of negative size is
    undefined. *)
Definition readBytes (f : File) (n : Z) : res (list ascii * File) :=
  if n <? 0 then Fail (FUndef "negative array size") else
  let '(got, f') := fread f n in
  if zlen got =? n then Ok (got, f') else Fail (FThrow "std::logic_error").

(** [File::readToEnd] *)
Definition readToEnd (f : File) : list ascii * File := fread f (zlen (f_bytes f)).

(** [File::readInt64], [File::readInt32], [File::readUint8]: the bytes are
    read into a host integer, then converted from big-endian. *)
Definition readInt64 (f : File) : res (Z * File) :=
  let '(got, f') := fread f 8 in
  if zlen got =? 8 then Ok (swrap 64 (networkToHost64 (mem_val got)), f') else Fail (FThrow "std::logic_error").
Definition readInt32 (f : File) : res (Z * File) :=
  let '(got, f') := fread f 4 in
  if zlen got =? 4 then Ok (swrap 32 (networkToHost32 (mem_val got)), f') else Fail (FThrow "std::logic_error").
Definition readUint8 (f : File) : res (Z * File) :=
  let '(got, f') := fread f 1 in
  if zlen got =? 1 then Ok (mem_val got, f') else Fail (FThrow "std::logic_error").

(** [File::skip]: fseek relative to the current position, refused when the
    result would be negative. *)
Definition skip (f : File) (bytes : Z) : File :=
  if f_pos f + bytes <? 0 then f else mkFile (f_bytes f) (f_pos f + bytes).

(** A counted loop reading one item per turn. *)
Fixpoint read_n {A} (read : File → res (A * File)) (n : nat) (f : File) : res (list A * File) :=
  match n with
  | O => Ok ([], f)
  | S n' => '(x, f1) ← read f; '(xs, f2) ← read_n read n' f1; Ok (x :: xs, f2)
  end.

(** [vector::reserve] with a negative count throws length_error. *)
Definition reserve (n : Z) : res unit := if n <? 0 then Fail (FThrow "std::length_error") else Ok tt.

Definition read_localtime (f : File) : res (LocalTime * File) :=
  '(gmtoff, f1) ← readInt32 f;
  '(isdst, f2) ← readUint8 f1;
  '(abbrind, f3) ← readUint8 f2;
  Ok (mkLocalTime gmtoff (negb (isdst =? 0)) abbrind, f3).

(** [readDataBlock] *)
Definition readDataBlock (f : File) (data : Data) (v1 : bool) : res (Data * bool) :=
  let time_size := if v1 then 4 else 8 in
  '(isUtcCnt, f) ← readInt32 f;
  '(isStdCnt, f) ← readInt32 f;
  '(leapCnt, f) ← readInt32 f;
  '(timeCnt, f) ← readInt32 f;
  '(typeCnt, f) ← readInt32 f;
  '(charCnt, f) ← readInt32 f;
  if negb (leapCnt =? 0) then Ok (data, false)
  else if negb (isUtcCnt =? 0) && negb (isUtcCnt =? typeCnt) then Ok (data, false)
  else if negb (isStdCnt =? 0) && negb (isStdCnt =? typeCnt) then Ok (data, false)
  else
    reserve timeCnt;;
    '(trans, f) ← read_n (if v1 then readInt32 else readInt64) (Z.to_nat timeCnt) f;
    '(idx, f) ← read_n readUint8 (Z.to_nat timeCnt) f;
    reserve typeCnt;;
    '(lts, f) ← read_n read_localtime (Z.to_nat typeCnt) f;
    let d1 := foldl (λ d lt, addLocalTime d (utcOffset lt) (isDst lt) (desigIdx lt)) data lts in
    d2 ← foldM (λ d ti, addTransition d (ti : Z * Z).1 (Z.to_nat ti.2)) d1 (zip trans idx);
    '(abbrev, f) ← readBytes f charCnt;
    let f := skip (skip (skip f (leapCnt * (time_size + 4))) isStdCnt) isUtcCnt in
    let tz := if v1 then tzstring d2 else (readToEnd f).1 in
    Ok (mkData (transitions d2) (localtimes d2) abbrev tz, true).

(** The body of the try block of [readTimeZoneFile]; the sum is a size_t. *)
Definition read_zone (f : File) (data : Data) : res (Data * bool) :=
  '(head, f) ← readBytes f 4;
  if negb (bool_decide (head = chars "TZlf")) then Fail (FThrow "std::logic_error") else
  '(version, f) ← readBytes f 1;
  '(_, f) ← readBytes f 15;
  '(isgmtCnt, f) ← readInt32 f;
  '(isStdCnt, f) ← readInt32 f;
  '(leapCnt, f) ← readInt32 f;
  '(timeCnt, f) ← readInt32 f;
  '(typeCnt, f) ← readInt32 f;
  '(charCnt, f) ← readInt32 f;
  if bool_decide (version = chars "2") then
    types ← i32 (6 * typeCnt);
    leaps ← i32 (8 * leapCnt);
    let n := u64 (4 * timeCnt + timeCnt + types + charCnt + leaps + isStdCnt + isgmtCnt) in
    let f := skip f (swrap 64 n) in
    '(head, f) ← readBytes f 4;
    if negb (bool_decide (head = chars "TZlf")) then Fail (FThrow "std::logic_error") else
    readDataBlock (skip f 16) data false
  else readDataBlock (skip f (-4 * 6)) data true.

(** [readTimeZoneFile]: the file, if it could be opened; an exception makes
    it return false (the exceptions that can occur derive from
    std::logic_error; what was read of the data is dropped by the caller). *)
Definition readTimeZoneFile (file : option (list ascii)) (data : Data) : res (Data * bool) :=
  match file with
  | None => Ok (data, false)
  | Some bytes =>
      match read_zone (mkFile bytes 0) data with
      | Fail (FThrow _) => Ok (data, false)
      | r => r
      end
  end.

(** [TimeZone::loadZoneFile] *)
Definition loadZoneFile (file : option (list ascii)) : res TimeZone :=
  '(d, ok) ← readTimeZoneFile file Data_default;
  Ok (if ok : bool then Some d else None).

(** ** The proleptic Gregorian calendar *)

Definition leap_year (y : Z) : bool :=
  (y mod 4 =? 0) && (negb (y mod 100 =? 0) || (y mod 400 =? 0)).

Definition days_in_month (y m : Z) : Z :=
  if m =? 2 then (if leap_year y then 29 else 28)
  else if (m =? 4) || (m =? 6) || (m =? 9) || (m =? 11) then 30 else 31.

Definition valid_ymd (d : YearMonthDay) : Prop :=
  1 ≤ month d ≤ 12 ∧ 1 ≤ day d ≤ days_in_month (year d) (month d).

(** The years for which the arithmetic of date.cc does not overflow [int]. *)
Definition year_range (y : Z) : Prop := -4799 ≤ y ≤ 1400000.

Definition next_day (d : YearMonthDay) : YearMonthDay :=
  if day d <? days_in_month (year d) (month d) then mkYMD (year d) (month d) (day d + 1)
  else if month d <? 12 then mkYMD (year d) (month d + 1) 1
  else mkYMD (year d + 1) 1 1.

(** The day number, without the width checks: the March-based year [y] and
    month [m], then the days before them. *)
Definition march_year (d : YearMonthDay) : Z := if month d <=? 2 then year d + 4799 else year d + 4800.
Definition march_month (d : YearMonthDay) : Z := if month d <=? 2 then month d + 9 else month d - 3.
Definition day_of_year (d : YearMonthDay) : Z := (153 * march_month d + 2) / 5 + day d - 1.
Definition days_before (y : Z) : Z := 365 * y + y / 4 - y / 100 + y / 400.

Lemma div_unique_lia a b q : 0 < b → b * q ≤ a < b * (q + 1) → a / b = q.
Proof. intros. symmetry. apply (Z.div_unique_pos a b q (a - b * q)); lia. Qed.

(** Division and remainder by a constant, for [lia]. *)
Ltac divs := Z.div_mod_to_equations; lia.

Lemma century_split y : 0 ≤ y →
  ∃ q f r k, y = 400 * q + 100 * f + 4 * k + r ∧ 0 ≤ q ∧ 0 ≤ f ≤ 3 ∧ 0 ≤ k ≤ 24 ∧ 0 ≤ r ≤ 3.
Proof.
  intros. exists (y / 400), (y mod 400 / 100), (y mod 4), (y mod 100 / 4). divs.
Qed.

(** The days before a year, in centuries and years of the century. *)
Lemma days_before_split q f k r :
  0 ≤ q → 0 ≤ f ≤ 3 → 0 ≤ k ≤ 24 → 0 ≤ r ≤ 3 →
  days_before (400 * q + 100 * f + 4 * k + r) = 146097 * q + 36524 * f + 1461 * k + 365 * r.
Proof.
  intros. unfold days_before.
  rewrite (div_unique_lia _ 4 (100 * q + 25 * f + k)) by lia.
  rewrite (div_unique_lia _ 100 (4 * q + f)) by lia.
  rewrite (div_unique_lia _ 400 q) by lia. lia.
Qed.

Lemma valid_march d : valid_ymd d → year_range (year d) →
  0 ≤ march_year d ≤ 1404800 ∧ 0 ≤ march_month d ≤ 11 ∧ 0 ≤ day_of_year d ≤ 365 ∧ 1 ≤ day d ≤ 31 ∧
  (day_of_year d = 365 → leap_year (march_year d + 1) = true).
Proof.
  intros [Hm Hd] Hy. unfold year_range in Hy. unfold march_year, day_of_year, march_month, days_in_month, leap_year in *.
  destruct (Z.leb_spec (month d) 2).
  - assert (month d = 1 ∨ month d = 2) as [E|E] by lia; rewrite E in *; simpl in *.
    + split_and!; try lia; divs.
    + replace (year d + 4799 + 1) with (year d + 4800) by lia.
      destruct (year d mod 4 =? 0) eqn:E4, (year d mod 100 =? 0) eqn:E100, (year d mod 400 =? 0) eqn:E400; simpl in *; bprop;
        split_and!; try lia; try divs; intros _; rewrite ?andb_true_iff, ?orb_true_iff, ?negb_true_iff;
        rewrite ?Z.eqb_eq, ?Z.eqb_neq; divs.
  - assert (month d = 3 ∨ month d = 4 ∨ month d = 5 ∨ month d = 6 ∨ month d = 7 ∨ month d = 8 ∨ month d = 9 ∨ month d = 10 ∨ month d = 11 ∨ month d = 12)
      as Hcase by lia.
    repeat destruct Hcase as [Hcase|Hcase]; rewrite Hcase in *; simpl in *; split_and!; try lia; divs.
Qed.

(** One checked [int] operation whose value is in range. *)
Ltac int_op :=
  match goal with
  | |- mbind _ (i32 ?x) = _ => rewrite (i32_Ok x) by divs
  | |- i32 ?x = _ => rewrite (i32_Ok x) by divs
  end; mred.

Lemma getJulianDayNumber_days d : valid_ymd d → year_range (year d) →
  getJulianDayNumber (year d) (month d) (day d) = Ok (days_before (march_year d) + day_of_year d - 32044).
Proof.
  intros Hv Hy. destruct (valid_march d Hv Hy) as (H1 & H2 & H3 & H4 & _). destruct Hv as [Hm _].
  unfold getJulianDayNumber. unfold year_range in Hy.
  int_op. cbn zeta.
  assert (Ha : Z.quot (14 - month d) 12 = if month d <=? 2 then 1 else 0).
  { rewrite Z.quot_div_nonneg by lia. destruct (Z.leb_spec (month d) 2); apply div_unique_lia; lia. }
  revert Ha. generalize (Z.quot (14 - month d) 12). intros a Ha.
  assert (0 ≤ a ≤ 1) by (rewrite Ha; destruct (month d <=? 2); lia).
  do 2 int_op.
  assert (Ey : year d + 4800 - a = march_year d) by (rewrite Ha; unfold march_year; destruct (month d <=? 2); lia).
  rewrite Ey. do 3 int_op.
  assert (Em : month d + 12 * a - 3 = march_month d) by (rewrite Ha; unfold march_month; destruct (month d <=? 2); lia).
  rewrite Em. do 2 int_op. rewrite !Z.quot_div_nonneg by lia.
  assert (0 ≤ (153 * march_month d + 2) / 5 ≤ 337) by divs.
  do 7 int_op. f_equal. unfold days_before, day_of_year. lia.
Qed.

(** The steps of getYearMonthDay on a day number split as its comment does. *)
Lemma getYearMonthDay_days c r doy :
  0 ≤ c ≤ 14048 → 0 ≤ r ≤ 99 → 0 ≤ doy ≤ 365 → (doy = 365 → r mod 4 = 3 ∧ (r = 99 → c mod 4 = 3)) →
  getYearMonthDay (36524 * c + c / 4 + 365 * r + r / 4 + doy - 32044) =
    let m := (5 * doy + 2) / 153 in
    Ok (mkYMD (100 * c + r - 4800 + m / 10) (m + 3 - 12 * (m / 10)) (doy - (153 * m + 2) / 5 + 1)).
Proof.
  intros Hc Hr Hd Hleap. unfold getYearMonthDay.
  int_op. replace (_ - 32044 + 32044) with (36524 * c + c / 4 + 365 * r + r / 4 + doy) by lia.
  set (A := 36524 * c + c / 4 + 365 * r + r / 4 + doy).
  assert (HA : 0 ≤ A ≤ 513200000) by (subst A; divs).
  do 2 int_op. rewrite (Z.quot_div_nonneg (4 * A + 3)) by lia.
  assert ((4 * A + 3) / 146097 = c) as -> by (apply div_unique_lia; subst A; divs).
  int_op. rewrite (Z.quot_div_nonneg (c * 146097)) by lia.
  assert (c * 146097 / 4 = 36524 * c + c / 4) as -> by divs.
  assert (HC : A - (36524 * c + c / 4) = 365 * r + r / 4 + doy) by (subst A; lia).
  int_op. rewrite HC. do 2 int_op. rewrite (Z.quot_div_nonneg (4 * (365 * r + r / 4 + doy) + 3)) by divs.
  assert ((4 * (365 * r + r / 4 + doy) + 3) / 1461 = r) as -> by (apply div_unique_lia; divs).
  int_op. rewrite (Z.quot_div_nonneg (1461 * r)) by lia.
  assert (1461 * r / 4 = 365 * r + r / 4) as -> by divs.
  int_op. replace (365 * r + r / 4 + doy - (365 * r + r / 4)) with doy by lia.
  do 2 int_op. rewrite !(Z.quot_div_nonneg (5 * doy + 2)) by lia.
  set (m := (5 * doy + 2) / 153). assert (Hm : 0 ≤ m ≤ 11) by (subst m; divs).
  do 2 int_op. rewrite (Z.quot_div_nonneg (153 * m + 2)), (Z.quot_div_nonneg m) by lia.
  assert (0 ≤ m / 10 ≤ 1) by divs. assert (0 ≤ (153 * m + 2) / 5 ≤ 337) by divs.
  do 9 int_op. cbn zeta. by rewrite (Z.mul_comm c 100).
Qed.

(** Month and day from the day of the March-based year. *)
Lemma month_day_of_doy m dd : 0 ≤ m ≤ 11 → 1 ≤ dd ≤ 31 → (m = 1 ∨ m = 3 ∨ m = 6 ∨ m = 8 ∨ m = 11 → dd ≤ 30) →
  (5 * ((153 * m + 2) / 5 + dd - 1) + 2) / 153 = m.
Proof.
  intros Hm Hd H.
  assert (m = 0 ∨ m = 1 ∨ m = 2 ∨ m = 3 ∨ m = 4 ∨ m = 5 ∨ m = 6 ∨ m = 7 ∨ m = 8 ∨ m = 9 ∨ m = 10 ∨ m = 11) as Hc by lia.
  repeat destruct Hc as [Hc|Hc]; rewrite Hc in *; apply div_unique_lia; divs.
Qed.

Lemma valid_short_month d : valid_ymd d →
  march_month d = 1 ∨ march_month d = 3 ∨ march_month d = 6 ∨ march_month d = 8 ∨ march_month d = 11 → day d ≤ 30.
Proof.
  intros [Hm Hd]. unfold march_month, days_in_month in *. destruct (Z.leb_spec (month d) 2).
  { intros Hc. assert (month d = 2) as E by lia. rewrite E in Hd. simpl in Hd. destruct (leap_year (year d)); lia. }
  intros Hc. assert (month d = 4 ∨ month d = 6 ∨ month d = 9 ∨ month d = 11) as H4 by lia.
  repeat destruct H4 as [H4|H4]; rewrite H4 in *; simpl in *; lia.
Qed.

Lemma getYearMonthDay_of d : valid_ymd d → year_range (year d) →
  getYearMonthDay (days_before (march_year d) + day_of_year d - 32044) = Ok d.
Proof.
  intros Hv Hy. destruct (valid_march d Hv Hy) as (H1 & H2 & H3 & H4 & H5).
  destruct (century_split (march_year d)) as (q & f & r & k & E & Hq & Hf & Hk & Hr); [lia|].
  rewrite E, days_before_split by done.
  pose proof (getYearMonthDay_days (4 * q + f) (4 * k + r) (day_of_year d)) as G.
  rewrite (div_unique_lia (4 * q + f) 4 q), (div_unique_lia (4 * k + r) 4 k) in G by lia.
  replace (146097 * q + 36524 * f + 1461 * k + 365 * r + day_of_year d - 32044)
    with (36524 * (4 * q + f) + q + 365 * (4 * k + r) + k + day_of_year d - 32044) by lia.
  rewrite G; [|lia|lia|lia|].
  2:{ intros H365. specialize (H5 H365). rewrite E in H5. unfold leap_year in H5. bprop.
      apply orb_true_iff in H0 as [H0|H0]; bprop; divs. }
  clear G. cbn zeta. unfold day_of_year. pose proof (valid_short_month d Hv) as Hs.
  rewrite !month_day_of_doy by done. destruct Hv as [Hm Hd]. unfold day_of_year, march_year, march_month in *.
  destruct d as [y mo dd]; simpl in *. f_equal.
  destruct (Z.leb_spec mo 2).
  - rewrite (div_unique_lia (mo + 9) 10 1) by lia. f_equal; lia.
  - rewrite (div_unique_lia (mo - 3) 10 0) by lia. f_equal; lia.
Qed.

Definition day_count (d : YearMonthDay) : Z := days_before (march_year d) + day_of_year d.

Lemma days_before_succ y : 0 ≤ y → days_before (y + 1) = days_before y + (if leap_year (y + 1) then 366 else 365).
Proof.
  intros Hy. unfold days_before, leap_year.
  destruct ((y + 1) mod 4 =? 0) eqn:E4, ((y + 1) mod 100 =? 0) eqn:E100, ((y + 1) mod 400 =? 0) eqn:E400;
    simpl; bprop; divs.
Qed.

Lemma leap_shift y : leap_year (y + 4800) = leap_year y.
Proof.
  unfold leap_year.
  rewrite (Z_mod_plus_full y 1200 4 : (y + 4800) mod 4 = _), (Z_mod_plus_full y 48 100 : (y + 4800) mod 100 = _).
  by rewrite (Z_mod_plus_full y 12 400 : (y + 4800) mod 400 = _).
Qed.

Lemma next_day_valid d : valid_ymd d → valid_ymd (next_day d).
Proof.
  intros [Hm Hd]. unfold next_day, valid_ymd. destruct (Z.ltb_spec (day d) (days_in_month (year d) (month d))); simpl; [lia|].
  destruct (Z.ltb_spec (month d) 12); simpl; (split; [lia|]).
  - unfold days_in_month. repeat case_match; lia.
  - unfold days_in_month. simpl. lia.
Qed.

(** The next day of the calendar has the next number. *)
Lemma next_day_count d : valid_ymd d → year_range (year d) → day_count (next_day d) = day_count d + 1.
Proof.
  intros Hv Hy. destruct (valid_march d Hv Hy) as (H1 & _). destruct Hv as [Hm Hd].
  unfold next_day, day_count, day_of_year. destruct (Z.ltb_spec (day d) (days_in_month (year d) (month d))) as [Hl|Hl].
  { unfold march_year, march_month. simpl. lia. }
  assert (Ed : day d = days_in_month (year d) (month d)) by lia. rewrite Ed. clear Hd Hl Ed.
  destruct d as [y m dd]. unfold march_year, march_month, days_in_month in *. simpl in *.
  assert (m = 2 ∨ m = 12 ∨ m = 1 ∨ (3 ≤ m ≤ 11)) as [->|[->|[->|Hm']]] by lia; simpl in *.
  - replace (y + 4800) with (y + 4799 + 1) by lia. rewrite days_before_succ by lia.
    replace (y + 4799 + 1) with (y + 4800) by lia. rewrite leap_shift.
    destruct (leap_year y); divs.
  - replace (y + 1 + 4799) with (y + 4800) by lia. divs.
  - divs.
  - assert (m = 3 ∨ m = 4 ∨ m = 5 ∨ m = 6 ∨ m = 7 ∨ m = 8 ∨ m = 9 ∨ m = 10 ∨ m = 11) as Hc by lia. clear -Hc.
    repeat destruct Hc as [Hc|Hc]; rewrite Hc; simpl; divs.
Qed.

(** Every day number of the range is the number of one valid date: walk there
    from 1 January -4799, whose number is 306. *)
Lemma day_count_surjective n : Z.of_nat n ≤ 512000000 - 306 →
  ∃ d, valid_ymd d ∧ year_range (year d) ∧ day_count d = 306 + Z.of_nat n.
Proof.
  induction n as [|n IH]; intros Hn.
  - exists (mkYMD (-4799) 1 1). split_and!; [zcomp|by unfold year_range|done].
  - destruct IH as (d & Hv & Hy & E); [lia|]. exists (next_day d).
    split_and!; [by apply next_day_valid| |rewrite next_day_count by done; lia].
    destruct (valid_march d Hv Hy) as (H1 & _ & H3 & _). unfold day_count, days_before in E.
    unfold year_range in *. unfold next_day. destruct (Z.ltb _ _); [done|]. destruct (Z.ltb_spec (month d) 12); [done|]. simpl.
    assert (march_year d = year d + 4800) as Em by (unfold march_year; destruct (Z.leb_spec (month d) 2); lia).
    rewrite Em in E. split; [lia|]. divs.
Qed.

Lemma getYearMonthDay_valid j : -31738 ≤ j ≤ 511967000 →
  ∃ d, getYearMonthDay j = Ok d ∧ valid_ymd d ∧ year_range (year d) ∧ getJulianDayNumber (year d) (month d) (day d) = Ok j.
Proof.
  intros Hj. destruct (day_count_surjective (Z.to_nat (j + 32044 - 306))) as (d & Hv & Hy & E); [lia|].
  assert (Ej : j = day_count d - 32044) by lia. exists d. rewrite Ej. unfold day_count in *.
  by rewrite getYearMonthDay_of, getJulianDayNumber_days.
Qed.

(** A time of the range in which day numbers are exact. *)
Definition time_range (t : Z) : Prop := -2472326 * 86400 ≤ t < 509526412 * 86400.

Definition valid_dt (dt : DateTime) : Prop :=
  valid_ymd (mkYMD (m_year dt) (m_month dt) (m_day dt)) ∧ year_range (m_year dt) ∧
  0 ≤ m_hour dt < 24 ∧ 0 ≤ m_minute dt < 60 ∧ 0 ≤ m_second dt < 60.

Lemma quot_rem_floor t : let q := Z.quot t 86400 in let r := Z.rem t 86400 in
  if r <? 0 then r + 86400 = t mod 86400 ∧ q - 1 = t / 86400 else r = t mod 86400 ∧ q = t / 86400.
Proof.
  cbn zeta. pose proof (Z.quot_rem' t 86400) as E. destruct (Z.ltb_spec (Z.rem t 86400) 0) as [H|H].
  - assert (-86400 < Z.rem t 86400) by (pose proof (Z.rem_bound_abs t 86400); lia).
    divs.
  - pose proof (Z.rem_bound_abs t 86400). divs.
Qed.

(** BreakTime splits a time at midnight UTC, before the epoch too. *)
Lemma BreakTime_floor t : time_range t →
  BreakTime t = (ymd ← getYearMonthDay (t / 86400 + kJulianDayOf1970_01_01);
    let s := t mod 86400 in Ok (mkDateTime (year ymd) (month ymd) (day ymd) (s / 60 / 60) (s / 60 mod 60) (s mod 60))).
Proof.
  intros Ht. unfold time_range in Ht. unfold BreakTime. change kSecondsPerDay with 86400.
  assert (-2472327 ≤ Z.quot t 86400 ≤ 509526412) by (pose proof (Z.quot_rem' t 86400); pose proof (Z.rem_bound_abs t 86400); lia).
  rewrite !swrap_small; [|lia|unfold in_signed; simpl; lia|lia|unfold in_signed; simpl; pose proof (Z.rem_bound_abs t 86400); lia].
  pose proof (quot_rem_floor t) as Hf. cbn zeta in *.
  assert (0 ≤ t mod 86400 < 86400) by (apply Z.mod_pos_bound; lia).
  assert (-2472326 ≤ t / 86400 < 509526412) by divs.
  assert (E : (if Z.rem t 86400 <? 0
    then i32 (Z.rem t 86400 + 86400) ≫= λ s, i32 (Z.quot t 86400 - 1) ≫= λ d, Ok (s, d)
    else Ok (Z.rem t 86400, Z.quot t 86400)) = Ok (t mod 86400, t / 86400)).
  { destruct (Z.rem t 86400 <? 0); destruct Hf as [F1 F2]; rewrite ?F1, ?F2; [|done]. by do 2 int_op. }
  rewrite E. mred. rewrite uwrap_small by (simpl; lia). unfold yearMonthDay, kJulianDayOf1970_01_01. int_op. done.
Qed.

Lemma toUtcTime_valid t : time_range t → ∃ dt, toUtcTime t = Ok dt ∧ valid_dt dt ∧ fromUtcTime dt = Ok t.
Proof.
  intros Ht. unfold toUtcTime. rewrite BreakTime_floor by done. unfold time_range in Ht.
  assert (-2472326 ≤ t / 86400 < 509526412) by divs. unfold kJulianDayOf1970_01_01.
  destruct (getYearMonthDay_valid (t / 86400 + 2440588)) as (d & -> & Hv & Hy & Ej); [lia|]. mred. cbn zeta.
  eexists. split; [done|]. assert (0 ≤ t mod 86400 < 86400) by (apply Z.mod_pos_bound; lia).
  split.
  - split; simpl; [by destruct d|]. split; [done|]. divs.
  - unfold fromUtcTime, Date_ctor. simpl. rewrite Ej. mred. simpl julianDayNumber_. unfold kJulianDayOf1970_01_01.
    do 5 int_op. change kSecondsPerDay with 86400.
    rewrite i64_Ok by (simpl; divs). mred. rewrite i64_Ok by (simpl; divs). f_equal. divs.
Qed.

Definition ymd_of (dt : DateTime) : YearMonthDay := mkYMD (m_year dt) (m_month dt) (m_day dt).

Lemma day_count_range d : valid_ymd d → year_range (year d) → 0 ≤ day_count d ≤ 514000000.
Proof.
  intros Hv Hy. destruct (valid_march d Hv Hy) as (H1 & _ & H3 & _). unfold day_count, days_before. divs.
Qed.

Lemma fromUtcTime_value dt : valid_dt dt →
  fromUtcTime dt = Ok ((day_count (ymd_of dt) - 2472632) * 86400 + (m_hour dt * 3600 + m_minute dt * 60 + m_second dt)).
Proof.
  intros (Hv & Hy & Hh & Hm & Hs). fold (ymd_of dt) in Hv. pose proof (day_count_range (ymd_of dt) Hv Hy).
  unfold fromUtcTime, Date_ctor.
  pose proof (getJulianDayNumber_days (ymd_of dt) Hv Hy) as E. simpl in E. rewrite E. mred. simpl julianDayNumber_.
  fold (day_count (ymd_of dt)). do 4 int_op. unfold kJulianDayOf1970_01_01. int_op. change kSecondsPerDay with 86400.
  rewrite i64_Ok by lia. mred. rewrite i64_Ok by lia. f_equal. lia.
Qed.

Lemma fromUtcTime_inj dt dt' t :
  valid_dt dt → valid_dt dt' → fromUtcTime dt = Ok t → fromUtcTime dt' = Ok t → dt = dt'.
Proof.
  intros H1 H2. rewrite !fromUtcTime_value by done. destruct H1 as (Hv & Hy & Hh), H2 as (Hv' & Hy' & Hh').
  fold (ymd_of dt) in Hv. fold (ymd_of dt') in Hv'.
  intros [= E] [= E']. assert (Ed : day_count (ymd_of dt) = day_count (ymd_of dt')) by lia.
  pose proof (getYearMonthDay_of _ Hv Hy) as G. pose proof (getYearMonthDay_of _ Hv' Hy') as G'.
  fold (day_count (ymd_of dt)) in G. fold (day_count (ymd_of dt')) in G'. rewrite Ed, G' in G.
  unfold ymd_of in G. injection G as G1 G2 G3. destruct dt, dt'; simpl in *. f_equal; lia.
Qed.

(** ** Transitions *)

(** The data of a usable zone: a local time, transitions in the order of
    their times, each referring to a local time. *)
Definition wf_zone (d : Data) : Prop :=
  localtimes d ≠ [] ∧ Sorted.StronglySorted (λ a b, utctime a < utctime b) (transitions d) ∧
  Forall (λ tr, (localtimeIdx tr < length (localtimes d))%nat) (transitions d) ∧
  Forall (λ lt, -2147483648 ≤ utcOffset lt ≤ 2147483647) (localtimes d).

(** The local time in force at [t]: that of the last transition that is not
    after [t], the first local time when there is none. *)
Definition in_force (d : Data) (t : Z) (lt : LocalTime) : Prop :=
  ∃ before after, transitions d = before ++ after ∧
    Forall (λ tr, utctime tr ≤ t) before ∧ Forall (λ tr, t < utctime tr) after ∧
    localtimes d !! (match last before with Some tr => localtimeIdx tr | None => 0%nat end) = Some lt.

Lemma upper_bound_split key v l :
  Sorted.StronglySorted (λ a b, key a < key b) l →
  Forall (λ tr, key tr ≤ v) (take (upper_bound key v l) l) ∧ Forall (λ tr, v < key tr) (drop (upper_bound key v l) l).
Proof.
  induction 1 as [|t l Hs IH Hf]; simpl; [done|]. destruct (Z.ltb_spec v (key t)) as [Hl|Hl]; simpl.
  - split; [constructor|]. constructor; [done|]. eapply Forall_impl; [exact Hf|]. simpl. lia.
  - destruct IH. by split; [constructor|].
Qed.

Lemma upper_bound_le key v l : (upper_bound key v l ≤ length l)%nat.
Proof. induction l as [|t l IH]; simpl; [lia|]. destruct (v <? key t); lia. Qed.

Lemma at_index_Ok {A} (l : list A) i x : l !! i = Some x → at_index l i = Ok x.
Proof. unfold at_index. by intros ->. Qed.

Lemma wf_index d i : wf_zone d → (i < length (localtimes d))%nat → ∃ lt, localtimes d !! i = Some lt ∧ at_index (localtimes d) i = Ok lt.
Proof. intros _ Hi. destruct (lookup_lt_is_Some_2 _ _ Hi) as [lt E]. exists lt. split; [done|by apply at_index_Ok]. Qed.

Lemma wf_zero d : wf_zone d → (0 < length (localtimes d))%nat.
Proof. intros (H & _). destruct (localtimes d); [done|simpl; lia]. Qed.

Lemma findLocalTime_in_force d t : wf_zone d → ∃ lt, findLocalTime d t = Ok lt ∧ in_force d t lt.
Proof.
  intros Hw. pose proof Hw as (_ & Hs & Hi & _). pose proof (upper_bound_split utctime t _ Hs) as [Hb Ha].
  pose proof (upper_bound_le utctime t (transitions d)) as Hle.
  destruct (wf_index d 0 Hw (wf_zero d Hw)) as (lt0 & L0 & A0). unfold findLocalTime, in_force.
  destruct (transitions d) as [|first rest] eqn:E.
  { exists lt0. split; [done|]. by exists [], []. }
  destruct (Z.ltb_spec t (utctime first)) as [Hl|Hl].
  - exists lt0. split; [done|]. exists [], (first :: rest). split_and!; [done..| |done].
    simpl in Ha. by rewrite (proj2 (Z.ltb_lt _ _) Hl) in Ha.
  - remember (upper_bound utctime t (first :: rest)) as it eqn:Eit.
    assert (it ≠ 0%nat) by (subst it; simpl; by rewrite (proj2 (Z.ltb_ge _ _) Hl)).
    rewrite (proj2 (Nat.eqb_neq it 0)) by done. cbn [negb cassert]. mred.
    destruct (lookup_lt_is_Some_2 (first :: rest) (it - 1)) as [tr Etr]; [lia|].
    rewrite (at_index_Ok _ _ _ Etr). mred.
    destruct (wf_index d (localtimeIdx tr) Hw) as (lt & L & A).
    { eapply (Forall_forall (λ tr, (localtimeIdx tr < length (localtimes d))%nat)); [exact Hi|]. by eapply list_elem_of_lookup_2. }
    exists lt. split; [done|]. exists (take it (first :: rest)), (drop it (first :: rest)).
    rewrite take_drop. split_and!; [done..|]. rewrite last_lookup, length_take, Nat.min_l by done.
    rewrite lookup_take, decide_True by lia. replace (pred it) with (it - 1)%nat by lia. by rewrite Etr.
Qed.

(** ** Properties *)

(** C29.  The Julian day number of date.cc counts the days of the Gregorian
    calendar: on every valid date of the years -4799 to 1400000 the [int]
    arithmetic does not overflow, the next day of the calendar (leap years by
    the 4/100/400 rule) has the next number, the number of 1970-01-01 is the
    constant kJulianDayOf1970_01_01, and getYearMonthDay inverts it. *)
Theorem julian_day_counts (d : YearMonthDay) :
  valid_ymd d → year_range (year d) → year_range (year (next_day d)) →
  ∃ j, getJulianDayNumber (year d) (month d) (day d) = Ok j ∧
    getYearMonthDay j = Ok d ∧
    valid_ymd (next_day d) ∧
    getJulianDayNumber (year (next_day d)) (month (next_day d)) (day (next_day d)) = Ok (j + 1) ∧
    getJulianDayNumber 1970 1 1 = Ok kJulianDayOf1970_01_01.
Proof.
  intros Hv Hy Hy'. exists (day_count d - 32044). pose proof (next_day_valid d Hv) as Hv'.
  split_and!; [by apply getJulianDayNumber_days|by apply getYearMonthDay_of|done| |done].
  rewrite getJulianDayNumber_days by done. pose proof (next_day_count d Hv Hy) as E. unfold day_count in *. f_equal. lia.
Qed.

Lemma julian_day_counts_witness :
  ∃ j, getJulianDayNumber 2000 2 29 = Ok j ∧ getYearMonthDay j = Ok (mkYMD 2000 2 29) ∧
    valid_ymd (mkYMD 2000 3 1) ∧ getJulianDayNumber 2000 3 1 = Ok (j + 1) ∧
    getJulianDayNumber 1970 1 1 = Ok kJulianDayOf1970_01_01.
Proof.
  apply (julian_day_counts (mkYMD 2000 2 29)); [zcomp|unfold year_range; simpl; lia|unfold year_range; simpl; lia].
Defined.

(** C30.  Seconds since the epoch and UTC calendar times convert without loss:
    for every time of some 1.4 million years (before 1970 included),
    TimeZone::toUtcTime returns a valid calendar time, TimeZone::fromUtcTime
    takes it back to the same second, and no other valid calendar time has
    that second. *)
Theorem utc_roundtrip (t : Z) :
  time_range t →
  ∃ dt, toUtcTime t = Ok dt ∧ valid_dt dt ∧ fromUtcTime dt = Ok t ∧
    ∀ dt', valid_dt dt' → fromUtcTime dt' = Ok t → dt' = dt.
Proof.
  intros Ht. destruct (toUtcTime_valid t Ht) as (dt & E & Hv & E'). exists dt. split_and!; [done..|].
  intros dt' Hv' Ef. by apply (fromUtcTime_inj dt' dt t).
Qed.

Lemma utc_roundtrip_witness :
  ∃ dt, toUtcTime (-1) = Ok dt ∧ valid_dt dt ∧ fromUtcTime dt = Ok (-1) ∧
    ∀ dt', valid_dt dt' → fromUtcTime dt' = Ok (-1) → dt' = dt.
Proof. apply (utc_roundtrip (-1)). unfold time_range. lia. Defined.

(** C31.  TimeZone::toLocalTime uses the transition in force: on a zone whose
    transitions are in order it returns, without fault, the offset of the last
    transition at or before the given time (of the first local time when the
    time is before all of them), and the calendar time it returns is that of
    the time plus this offset. *)
Theorem toLocalTime_in_force (d : Data) (t : Z) :
  wf_zone d → (∀ off, -2147483648 ≤ off ≤ 2147483647 → time_range (t + off)) →
  ∃ lt dt, toLocalTime (Some d) t = Ok (dt, utcOffset lt) ∧ in_force d t lt ∧
    valid_dt dt ∧ fromUtcTime dt = Ok (t + utcOffset lt).
Proof.
  intros Hw Ht. destruct (findLocalTime_in_force d t Hw) as (lt & E & Hf). exists lt.
  assert (Ho : -2147483648 ≤ utcOffset lt ≤ 2147483647).
  { destruct Hw as (_ & _ & _ & Ho). destruct Hf as (? & ? & _ & _ & _ & L).
    eapply (Forall_forall (λ lt, -2147483648 ≤ utcOffset lt ≤ 2147483647)); [exact Ho|]. by eapply list_elem_of_lookup_2. }
  pose proof (Ht _ Ho) as Hr. destruct (toUtcTime_valid _ Hr) as (dt & Eb & Hv & Eu). exists dt.
  unfold toLocalTime. rewrite E. mred. unfold time_range in Hr. rewrite i64_Ok by lia. mred.
  unfold toUtcTime in Eb. by rewrite Eb.
Qed.

Definition demo_zone : Data :=
  mkData [mkTransition 100 28900 0; mkTransition 500 32900 1] [mkLocalTime 28800 false 0; mkLocalTime 32400 true 4] [] [].

Lemma toLocalTime_in_force_witness :
  ∃ lt dt, toLocalTime (Some demo_zone) 600 = Ok (dt, utcOffset lt) ∧ in_force demo_zone 600 lt ∧
    valid_dt dt ∧ fromUtcTime dt = Ok (600 + utcOffset lt).
Proof.
  apply (toLocalTime_in_force demo_zone 600).
  - split_and!; [done| | |]; repeat constructor; simpl; lia.
  - unfold time_range. lia.
Defined.

(** In a zone of fixed offset the local time leads back to the same second. *)
Theorem fixed_zone_roundtrip (off t : Z) (name : list ascii) (post : bool) :
  -2147483648 ≤ off ≤ 2147483647 → time_range (t + off) →
  ∃ dt, toLocalTime (TimeZone_fixed off name) t = Ok (dt, off) ∧
    fromLocalTime (TimeZone_fixed off name) dt post = Ok t.
Proof.
  intros Ho Hr. destruct (toUtcTime_valid _ Hr) as (dt & Eb & Hv & Eu). exists dt. unfold time_range in Hr.
  unfold toLocalTime, fromLocalTime. simpl. rewrite i64_Ok by lia. mred. unfold toUtcTime in Eb. rewrite Eb. mred.
  split; [done|]. unfold findLocalTime_local. rewrite Eu. mred. simpl.
  rewrite i64_Ok by lia. f_equal. lia.
Qed.

(** The assertion of timeZone.cc:324 is reversed: in any zone with
    transitions, converting a local time that is not before the first one
    aborts. *)
Theorem fromLocalTime_aborts (d : Data) (first : Transition) (rest : list Transition) (lt : DateTime) (local : Z) (post : bool) :
  transitions d = first :: rest → fromUtcTime lt = Ok local → localtime first ≤ local →
  fromLocalTime (Some d) lt post = Fail (FAssert "transIt == transitions.begin()").
Proof.
  intros E El Hl. unfold fromLocalTime, findLocalTime_local. rewrite El. mred. rewrite E.
  rewrite (proj2 (Z.ltb_ge _ _) Hl). cbn [upper_bound]. by rewrite (proj2 (Z.ltb_ge _ _) Hl).
Qed.

(** timeZone.cc looks for the magic "TZlf", so no file with the magic "TZif"
    of tzfile(5) is loaded. *)
Theorem tzif_rejected (rest : list ascii) : loadZoneFile (Some (chars "TZif" ++ rest)) = Ok None.
Proof. done. Qed.
