(* ===== verification/ZoneFile.v ===== *)
(** * Zone files: the reader of src/dc/base/timeZone.cc against a writer

    The format that readTimeZoneFile reads, written down as an encoder: a
    header with the magic the code expects, the counts, the transition times,
    the local time types, the abbreviations; in version 2 a second block with
    64-bit times and the TZ string follow.  A [Codec] says that a reader of
    class File gives back what an encoder wrote and stops right after it. *)

From S2P Require Import Prelude Endian Date.

Open Scope Z_scope.

(** ** Reading what was written *)

(** A file read up to the end of [pre]. *)
Definition at_pos (pre rest : list ascii) : File := mkFile (pre ++ rest) (zlen pre).

Lemma fread_at pre d rest n : n = zlen d → fread (at_pos pre (d ++ rest)) n = (d, at_pos (pre ++ d) rest).
Proof.
  intros ->. unfold fread, at_pos. cbn [f_pos f_bytes]. pose proof (zlen_nonneg pre).
  rewrite zdrop_app_r by lia. rewrite Z.sub_diag, zdrop_0, ztake_app_l, ztake_all by lia.
  by rewrite zlen_app, <- app_assoc.
Qed.

Lemma skip_at pre d rest n : n = zlen d → skip (at_pos pre (d ++ rest)) n = at_pos (pre ++ d) rest.
Proof.
  intros ->. unfold skip, at_pos. cbn [f_pos f_bytes]. pose proof (zlen_nonneg pre). pose proof (zlen_nonneg d).
  rewrite (proj2 (Z.ltb_ge _ _)) by lia. by rewrite zlen_app, <- app_assoc.
Qed.

Lemma skip_back pre d rest n : n = - zlen d → skip (at_pos (pre ++ d) rest) n = at_pos pre (d ++ rest).
Proof.
  intros ->. unfold skip, at_pos. cbn [f_pos f_bytes]. pose proof (zlen_nonneg pre). rewrite zlen_app.
  rewrite (proj2 (Z.ltb_ge _ _)) by lia. rewrite <- app_assoc. f_equal. lia.
Qed.

Lemma readBytes_at pre d rest n : n = zlen d → readBytes (at_pos pre (d ++ rest)) n = Ok (d, at_pos (pre ++ d) rest).
Proof.
  intros ->. pose proof (zlen_nonneg d). unfold readBytes. rewrite (proj2 (Z.ltb_ge _ _)) by lia.
  rewrite fread_at by done. by rewrite Z.eqb_refl.
Qed.

Lemma readToEnd_at pre rest : (readToEnd (at_pos pre rest)).1 = rest.
Proof.
  unfold readToEnd, fread, at_pos. cbn [f_pos f_bytes fst]. pose proof (zlen_nonneg pre).
  rewrite zdrop_app_r by lia. rewrite Z.sub_diag, zdrop_0. apply ztake_all. rewrite zlen_app. lia.
Qed.

(** The reader [read] gives back what [enc] wrote. *)
Class Codec {A} (read : File → res (A * File)) (enc : A → list ascii) (valid : A → Prop) : Prop :=
  read_enc pre x rest : valid x → read (at_pos pre (enc x ++ rest)) = Ok (x, at_pos (pre ++ enc x) rest).

(** A signed integer of [n] bytes, most significant byte first. *)
Definition be (n : nat) (x : Z) : list ascii := reverse (mem_of n x).

Lemma zlen_be n x : zlen (be n x) = Z.of_nat n.
Proof. unfold be, zlen. by rewrite length_reverse, length_mem_of. Qed.

Lemma be_value (n : nat) (x : Z) : (0 < n)%nat → in_signed (8 * Z.of_nat n) x →
  swrap (8 * Z.of_nat n) (bswap n (uwrap (8 * Z.of_nat n) (mem_val (be n x)))) = x.
Proof.
  intros Hn Hx. assert (length (be n x) = n) as Hl by (unfold be; by rewrite length_reverse, length_mem_of).
  pose proof (wire_value n (be n x) Hn Hl) as E. rewrite uwrap_swrap in E by lia. rewrite E. by apply wire_roundtrip.
Qed.

#[global] Instance int32_codec : Codec readInt32 (be 4) (in_signed 32).
Proof.
  intros pre x rest Hx. unfold readInt32. rewrite fread_at by by rewrite zlen_be. rewrite zlen_be.
  change (Z.of_nat 4 =? 4) with true. cbn iota. do 2 f_equal. unfold networkToHost32. apply (be_value 4); [lia|done].
Qed.

#[global] Instance int64_codec : Codec readInt64 (be 8) (in_signed 64).
Proof.
  intros pre x rest Hx. unfold readInt64. rewrite fread_at by by rewrite zlen_be. rewrite zlen_be.
  change (Z.of_nat 8 =? 8) with true. cbn iota. do 2 f_equal. unfold networkToHost64. apply (be_value 8); [lia|done].
Qed.

Definition u8 (x : Z) : list ascii := mem_of 1 x.

Lemma zlen_u8 x : zlen (u8 x) = 1.
Proof. apply zlen_mem_of. Qed.

#[global] Instance uint8_codec : Codec readUint8 u8 (λ x, 0 ≤ x < 256).
Proof.
  intros pre x rest Hx. unfold readUint8. rewrite fread_at by by rewrite zlen_u8. rewrite zlen_u8.
  cbn [Z.eqb]. do 2 f_equal. unfold u8. rewrite mem_val_of. apply Z.mod_small. done.
Qed.

(** A local time type, and what can be written of it. *)
Definition enc_localtime (lt : LocalTime) : list ascii :=
  be 4 (utcOffset lt) ++ u8 (if isDst lt then 1 else 0) ++ u8 (desigIdx lt).
Definition valid_localtime (lt : LocalTime) : Prop := in_signed 32 (utcOffset lt) ∧ 0 ≤ desigIdx lt < 256.

#[global] Instance localtime_codec : Codec read_localtime enc_localtime valid_localtime.
Proof.
  intros pre lt rest [Ho Hd]. unfold read_localtime, enc_localtime. rewrite <- !app_assoc.
  rewrite (read_enc (enc := be 4)) by done. cbn [mbind res_bind].
  rewrite (read_enc (enc := u8)) by (destruct (isDst lt); done). cbn [mbind res_bind].
  rewrite (read_enc (enc := u8)) by done. cbn [mbind res_bind].
  rewrite <- !app_assoc. do 2 f_equal. destruct lt as [off [] desig]; done.
Qed.

(** A counted list. *)
Lemma read_n_enc {A} {read : File → res (A * File)} {enc valid} `{!Codec read enc valid} (xs : list A) (n : nat) : ∀ pre rest,
  n = length xs → Forall valid xs →
  read_n read n (at_pos pre (concat (map enc xs) ++ rest)) = Ok (xs, at_pos (pre ++ concat (map enc xs)) rest).
Proof.
  intros pre rest -> Hv. revert pre. induction Hv as [|x xs Hx Hv IH]; intros pre; simpl.
  - by rewrite app_nil_r.
  - rewrite <- app_assoc, read_enc by done. cbn [mbind res_bind]. rewrite IH. cbn [mbind res_bind]. by rewrite <- app_assoc.
Qed.

(** ** The format *)

(** The counts of a block, and the bytes after them. *)
Record block : Type := mkBlock {
  b_times : list (Z * Z);              (* transitions: UTC time, index of the type *)
  b_types : list LocalTime;
  b_abbrev : list ascii;
  b_leaps : list (list ascii);         (* leap second records, left uninterpreted *)
  b_isstd : list ascii;                (* the standard/wall and UT/local indicators *)
  b_isut : list ascii;
}.

(** Header counts, times of [w] bytes. *)
Definition enc_counts (b : block) : list ascii :=
  be 4 (zlen (b_isut b)) ++ be 4 (zlen (b_isstd b)) ++ be 4 (zlen (b_leaps b)) ++
  be 4 (zlen (b_times b)) ++ be 4 (zlen (b_types b)) ++ be 4 (zlen (b_abbrev b)).
Definition enc_times (w : nat) (b : block) : list ascii :=
  concat (map (be w) (b_times b).*1) ++ concat (map u8 (b_times b).*2).
Definition enc_body (w : nat) (b : block) : list ascii :=
  enc_times w b ++ concat (map enc_localtime (b_types b)) ++ b_abbrev b ++ concat (b_leaps b) ++ b_isstd b ++ b_isut b.

Definition magic : list ascii := chars "TZlf".

(** A file: version byte, reserved bytes; in version 2 the 32-bit block is
    followed by a second header and the 64-bit block. *)
Definition enc_v1 (version : ascii) (reserved : list ascii) (b : block) : list ascii :=
  magic ++ [version] ++ reserved ++ enc_counts b ++ enc_body 4 b.
Definition enc_v2 (reserved1 header2 : list ascii) (b1 b2 : block) (tz : list ascii) : list ascii :=
  magic ++ chars "2" ++ reserved1 ++ enc_counts b1 ++ enc_body 4 b1 ++
  magic ++ header2 ++ enc_counts b2 ++ enc_body 8 b2 ++ tz.

(** What the counts can express. *)
Record counted (b : block) : Prop := mkCounted {
  c_isut : zlen (b_isut b) < 2 ^ 31;
  c_isstd : zlen (b_isstd b) < 2 ^ 31;
  c_leaps : 8 * zlen (b_leaps b) < 2 ^ 31;
  c_times : zlen (b_times b) < 2 ^ 31;
  c_types : 6 * zlen (b_types b) < 2 ^ 31;
  c_abbrev : zlen (b_abbrev b) < 2 ^ 31;
}.

(** A block that readDataBlock accepts. *)
Record readable_block (w : nat) (b : block) : Prop := mkReadable {
  rb_counted : counted b;
  rb_leaps : b_leaps b = [];
  rb_isut : zlen (b_isut b) = 0 ∨ zlen (b_isut b) = zlen (b_types b);
  rb_isstd : zlen (b_isstd b) = 0 ∨ zlen (b_isstd b) = zlen (b_types b);
  rb_types : Forall valid_localtime (b_types b);
  rb_times : Forall (λ t, in_signed (8 * Z.of_nat w) t.1 ∧ 0 ≤ t.2 < 256 ∧
    ∃ lt, b_types b !! Z.to_nat t.2 = Some lt ∧ in_signed 64 (t.1 + utcOffset lt)) (b_times b);
}.

(** The zone that a block describes. *)
Definition transition_of (types : list LocalTime) (t : Z * Z) : Transition :=
  mkTransition t.1 (t.1 + match types !! Z.to_nat t.2 with Some lt => utcOffset lt | None => 0 end) (Z.to_nat t.2).
Definition zone_of (b : block) (tz : list ascii) : Data :=
  mkData (map (transition_of (b_types b)) (b_times b)) (b_types b) (b_abbrev b) tz.

(** ** The reader *)

Lemma count_32 {A} (l : list A) : zlen l < 2 ^ 31 → in_signed 32 (zlen l).
Proof. intros H. pose proof (zlen_nonneg l). unfold in_signed. change (2 ^ (32 - 1)) with (2 ^ 31). lia. Qed.

Lemma read_count {A} (l : list A) pre rest :
  zlen l < 2 ^ 31 → readInt32 (at_pos pre (be 4 (zlen l) ++ rest)) = Ok (zlen l, at_pos (pre ++ be 4 (zlen l)) rest).
Proof. intros H. apply (read_enc (enc := be 4)). by apply count_32. Qed.

(** Adding the types, then the transitions. *)
Lemma add_types lts : ∀ d,
  foldl (λ d lt, addLocalTime d (utcOffset lt) (isDst lt) (desigIdx lt)) d lts =
  mkData (transitions d) (localtimes d ++ lts) (abbrevition d) (tzstring d).
Proof.
  induction lts as [|lt lts IH]; intros d; simpl; [rewrite app_nil_r; by destruct d|].
  rewrite IH. destruct lt. unfold addLocalTime. simpl. by rewrite <- app_assoc.
Qed.

Lemma add_transitions ts : ∀ d,
  Forall (λ t, ∃ lt, localtimes d !! Z.to_nat t.2 = Some lt ∧ in_signed 64 (t.1 + utcOffset lt)) ts →
  foldM (λ d (ti : Z * Z), addTransition d ti.1 (Z.to_nat ti.2)) d ts =
  Ok (mkData (transitions d ++ map (transition_of (localtimes d)) ts) (localtimes d) (abbrevition d) (tzstring d)).
Proof.
  induction ts as [|t ts IH]; intros d Ht; cbn [foldM map]; [rewrite app_nil_r; by destruct d|].
  apply Forall_cons in Ht as [(lt & Hlt & Hr) Ht].
  assert (addTransition d t.1 (Z.to_nat t.2) =
    Ok (mkData (transitions d ++ [transition_of (localtimes d) t]) (localtimes d) (abbrevition d) (tzstring d))) as ->.
  { unfold addTransition, transition_of. rewrite Hlt. unfold i64. by rewrite signed_check_Ok. }
  cbn [mbind res_bind]. rewrite IH by done. cbn [transitions localtimes abbrevition tzstring]. by rewrite <- app_assoc.
Qed.

Lemma reserve_len {A} (l : list A) : reserve (zlen l) = Ok tt.
Proof. unfold reserve. pose proof (zlen_nonneg l). by rewrite (proj2 (Z.ltb_ge _ _)) by lia. Qed.

(** The six counts at the start of a block. *)
Lemma read_counts {A} (b : block) pre rest (k : Z → Z → Z → Z → Z → Z → File → res A) :
  counted b →
  ('(isUtcCnt, f) ← readInt32 (at_pos pre (enc_counts b ++ rest));
   '(isStdCnt, f) ← readInt32 f; '(leapCnt, f) ← readInt32 f; '(timeCnt, f) ← readInt32 f;
   '(typeCnt, f) ← readInt32 f; '(charCnt, f) ← readInt32 f;
   k isUtcCnt isStdCnt leapCnt timeCnt typeCnt charCnt f) =
  k (zlen (b_isut b)) (zlen (b_isstd b)) (zlen (b_leaps b)) (zlen (b_times b)) (zlen (b_types b)) (zlen (b_abbrev b))
    (at_pos (pre ++ enc_counts b) rest).
Proof.
  intros []. unfold enc_counts. rewrite <- !app_assoc.
  repeat (rewrite read_count by lia; cbn [mbind res_bind]). by rewrite <- !app_assoc.
Qed.

Lemma to_nat_zlen {A} (l : list A) : Z.to_nat (zlen l) = length l.
Proof. unfold zlen. lia. Qed.

Lemma readDataBlock_enc (v1 : bool) b pre rest :
  let w := if v1 then 4%nat else 8%nat in
  readable_block w b →
  readDataBlock (at_pos pre (enc_counts b ++ enc_body w b ++ rest)) Data_default v1 =
    Ok (zone_of b (if v1 then [] else rest), true).
Proof.
  intros w [Hc Hleap Hut Hstd Hty Hti]. unfold readDataBlock. rewrite read_counts by done.
  rewrite Hleap. change (negb (zlen [] =? 0)) with false. cbn iota.
  assert (negb (zlen (b_isut b) =? 0) && negb (zlen (b_isut b) =? zlen (b_types b)) = false) as ->
    by (destruct Hut as [-> | ->]; [done|by rewrite Z.eqb_refl, andb_false_r]).
  assert (negb (zlen (b_isstd b) =? 0) && negb (zlen (b_isstd b) =? zlen (b_types b)) = false) as ->
    by (destruct Hstd as [-> | ->]; [done|by rewrite Z.eqb_refl, andb_false_r]).
  rewrite !reserve_len. cbn [mbind res_bind]. unfold enc_body, enc_times. rewrite Hleap. simpl concat at 4.
  rewrite <- !app_assoc, !to_nat_zlen.
  assert (Ht : Forall (in_signed (8 * Z.of_nat w)) (b_times b).*1) by (apply Forall_fmap; by eapply Forall_impl; [done|intros t (? & _)]).
  assert (Hi : Forall (λ x, 0 ≤ x < 256) (b_times b).*2) by (apply Forall_fmap; by eapply Forall_impl; [done|intros t (_ & ? & _)]).
  assert (E : ∀ pre rest, read_n (if v1 then readInt32 else readInt64) (length (b_times b))
      (at_pos pre (concat (map (be w) (b_times b).*1) ++ rest)) =
    Ok ((b_times b).*1, at_pos (pre ++ concat (map (be w) (b_times b).*1)) rest)).
  { intros pre' rest'. destruct v1; apply read_n_enc; try done; by rewrite length_fmap. }
  rewrite E. cbn [mbind res_bind]. rewrite (read_n_enc (enc := u8)) by (done || by rewrite length_fmap). cbn [mbind res_bind].
  rewrite (read_n_enc (enc := enc_localtime)) by done. cbn [mbind res_bind].
  rewrite add_types, zip_fst_snd. simpl localtimes. rewrite add_transitions.
  2:{ eapply Forall_impl; [exact Hti|]. by intros t (_ & _ & ?). }
  cbn [mbind res_bind]. rewrite readBytes_at by done. cbn [mbind res_bind transitions localtimes tzstring].
  f_equal. f_equal. unfold zone_of. f_equal. destruct v1; [done|].
  match goal with |- context [skip (at_pos ?p ?r) (zlen [] * _)] =>
    rewrite (skip_at p [] r) by done end.
  rewrite ?app_nil_l, !skip_at by done. apply readToEnd_at.
Qed.

(** ** Properties *)

Lemma zlen_concat_map {A} (f : A → list ascii) (n : Z) (l : list A) :
  (∀ x, x ∈ l → zlen (f x) = n) → zlen (concat (map f l)) = n * zlen l.
Proof.
  induction l as [|x l IH]; intros H; simpl; [by rewrite Z.mul_0_r|].
  rewrite zlen_app, IH, H by (by left || by intros; apply H; right). unfold zlen. simpl. lia.
Qed.

(** The length of a block after its counts. *)
Lemma zlen_body w b :
  Forall (λ l, zlen l = Z.of_nat w + 4) (b_leaps b) →
  zlen (enc_body w b) = Z.of_nat w * zlen (b_times b) + zlen (b_times b) + 6 * zlen (b_types b) + zlen (b_abbrev b) +
    (Z.of_nat w + 4) * zlen (b_leaps b) + zlen (b_isstd b) + zlen (b_isut b).
Proof.
  intros Hl. unfold enc_body, enc_times. rewrite !zlen_app.
  rewrite (zlen_concat_map (be w) (Z.of_nat w)) by (intros; apply zlen_be).
  rewrite (zlen_concat_map u8 1) by (intros; apply zlen_u8).
  rewrite (zlen_concat_map enc_localtime 6) by (intros; unfold enc_localtime; by rewrite !zlen_app, zlen_be, !zlen_u8).
  rewrite <- (map_id (b_leaps b)) at 1. rewrite (zlen_concat_map id (Z.of_nat w + 4)) by (by apply Forall_forall).
  assert (zlen (b_times b).*1 = zlen (b_times b) ∧ zlen (b_times b).*2 = zlen (b_times b)) as [-> ->]
    by (unfold zlen; by rewrite !length_fmap). lia.
Qed.


(** Two types, two transitions, the last before 1970. *)
Definition demo_block : block :=
  mkBlock [(-1000, 0); (1000, 1)] [mkLocalTime 28800 false 0; mkLocalTime 32400 true 4]
    (chars "CST" ++ [NUL] ++ chars "CDT" ++ [NUL]) [] [NUL; NUL] [].
Definition empty_block : block := mkBlock [] [] [] [] [] [].
Definition zeros (n : nat) : list ascii := replicate n NUL.

Lemma demo_block_readable w : w = 4%nat ∨ w = 8%nat → readable_block w demo_block.
Proof.
  intros Hw. split; try done.
  - by left.
  - by right.
  - repeat constructor; done.
  - repeat constructor; try done; try (destruct Hw as [->| ->]; done); by eexists.
Qed.

