(* ===== verification/Doubles.v ===== *)
(** * Rounding of doubles

    A non-negative double is an integer number of some fixed unit 2^-k, small
    enough that no value the code computes is subnormal or loses bits to the
    unit.  [dround] is the correctly rounded quotient of two integers: to
    nearest, ties to even, with 53 significant bits. *)

From S2P Require Import Prelude.

Open Scope Z_scope.

(** [p / d] to the nearest integer, ties to even. *)
Definition round_half_even (p d : Z) : Z :=
  let q := p / d in
  let r := p mod d in
  if 2 * r <? d then q
  else if d <? 2 * r then q + 1
  else if Z.even q then q else q + 1.

(** The double nearest to [p / d] (in the unit). *)
Definition dround (p d : Z) : Z :=
  let e := Z.max 0 (Z.log2 (p / d) - 52) in
  round_half_even p (d * 2 ^ e) * 2 ^ e.

(** ** Rounding *)

Lemma rhe_err p d : 0 < d → 2 * Z.abs (round_half_even p d * d - p) ≤ d.
Proof.
  intros Hd. unfold round_half_even. pose proof (Z.div_mod p d ltac:(lia)) as E. pose proof (Z.mod_pos_bound p d Hd).
  destruct (Z.ltb_spec (2 * (p mod d)) d), (Z.ltb_spec d (2 * (p mod d))), (Z.even (p / d)); nia.
Qed.

Lemma rhe_mono p p' d : 0 < d → p ≤ p' → round_half_even p d ≤ round_half_even p' d.
Proof.
  intros Hd Hp. unfold round_half_even.
  pose proof (Z.div_mod p d ltac:(lia)) as E. pose proof (Z.div_mod p' d ltac:(lia)) as E'.
  pose proof (Z.div_le_mono p p' d Hd Hp) as Hq.
  destruct (decide (p / d = p' / d)) as [Eq|Hne].
  - rewrite <- Eq in *. destruct (Z.ltb_spec (2 * (p mod d)) d), (Z.ltb_spec d (2 * (p mod d))),
      (Z.ltb_spec (2 * (p' mod d)) d), (Z.ltb_spec d (2 * (p' mod d))), (Z.even (p / d)); lia.
  - destruct (2 * (p mod d) <? d), (d <? 2 * (p mod d)), (Z.even (p / d)),
      (2 * (p' mod d) <? d), (d <? 2 * (p' mod d)), (Z.even (p' / d)); lia.
Qed.

(** Rounding keeps to integer bounds. *)
Lemma rhe_le p d k : 0 < d → p ≤ k * d → round_half_even p d ≤ k.
Proof.
  intros Hd Hp. trans (round_half_even (k * d) d); [by apply rhe_mono|]. unfold round_half_even.
  rewrite Z.div_mul, Z.mod_mul by lia. by rewrite (proj2 (Z.ltb_lt _ _)) by lia.
Qed.
Lemma rhe_ge p d k : 0 < d → k * d ≤ p → k ≤ round_half_even p d.
Proof.
  intros Hd Hp. trans (round_half_even (k * d) d); [|by apply rhe_mono]. unfold round_half_even.
  rewrite Z.div_mul, Z.mod_mul by lia. by rewrite (proj2 (Z.ltb_lt _ _)) by lia.
Qed.

Definition dexp (p d : Z) : Z := Z.max 0 (Z.log2 (p / d) - 52).

Lemma dexp_above p d : 0 < d → 0 ≤ p → p < 2 ^ (dexp p d + 53) * d.
Proof.
  intros Hd Hp. unfold dexp. pose proof (Z.div_pos p d Hp Hd).
  assert (H1 : p / d < 2 ^ (Z.max 0 (Z.log2 (p / d) - 52) + 53)).
  { destruct (decide (p / d = 0)) as [->|]; [simpl; lia|].
    apply Z.log2_lt_pow2; lia. }
  pose proof (Z.div_mod p d ltac:(lia)). pose proof (Z.mod_pos_bound p d Hd). nia.
Qed.

Lemma dexp_below p d : 0 < d → 0 ≤ p → 0 < dexp p d → 2 ^ (dexp p d + 52) * d ≤ p.
Proof.
  intros Hd Hp He. unfold dexp in *. pose proof (Z.div_pos p d Hp Hd).
  assert (Hne : p / d ≠ 0) by (intros E; rewrite E in He; simpl in He; lia).
  rewrite Z.max_r in * by lia. replace (Z.log2 (p / d) - 52 + 52) with (Z.log2 (p / d)) by lia.
  pose proof (Z.log2_spec (p / d) ltac:(lia)) as [H1 _].
  pose proof (Z.div_mod p d ltac:(lia)). pose proof (Z.mod_pos_bound p d Hd). nia.
Qed.

Lemma dround_err p d : 0 < d → 0 ≤ p → 2 * Z.abs (dround p d * d - p) ≤ Z.max d (p / 2 ^ 52).
Proof.
  intros Hd Hp. unfold dround. fold (dexp p d). assert (He : 0 ≤ dexp p d) by (unfold dexp; lia).
  pose proof (Z.pow_pos_nonneg 2 (dexp p d) ltac:(lia) He) as H2.
  pose proof (rhe_err p (d * 2 ^ dexp p d) ltac:(nia)) as H.
  assert (Hb : d * 2 ^ dexp p d ≤ Z.max d (p / 2 ^ 52)).
  { destruct (decide (dexp p d = 0)) as [->|Hne]; [rewrite Z.pow_0_r; lia|].
    pose proof (dexp_below p d Hd Hp ltac:(lia)) as Hl. rewrite Z.pow_add_r in Hl by lia.
    etrans; [|apply Z.le_max_r]. apply Z.div_le_lower_bound; lia. }
  replace (round_half_even p (d * 2 ^ dexp p d) * 2 ^ dexp p d * d)
    with (round_half_even p (d * 2 ^ dexp p d) * (d * 2 ^ dexp p d)) by ring. lia.
Qed.

Lemma dround_mono p p' d : 0 < d → 0 ≤ p ≤ p' → dround p d ≤ dround p' d.
Proof.
  intros Hd [Hp Hpp]. unfold dround. fold (dexp p d) (dexp p' d).
  assert (He : 0 ≤ dexp p d ≤ dexp p' d).
  { unfold dexp. pose proof (Z.div_le_mono p p' d Hd Hpp). pose proof (Z.log2_le_mono (p / d) (p' / d)). lia. }
  pose proof (Z.pow_pos_nonneg 2 (dexp p d) ltac:(lia) ltac:(lia)).
  destruct (decide (dexp p d = dexp p' d)) as [E|Hne].
  - rewrite <- E. apply Z.mul_le_mono_nonneg_r; [lia|]. apply rhe_mono; [nia|done].
  - trans (2 ^ (dexp p' d + 52)).
    + assert (H1 : round_half_even p (d * 2 ^ dexp p d) ≤ 2 ^ 53).
      { apply rhe_le; [nia|]. pose proof (dexp_above p d Hd Hp) as Ha. rewrite Z.pow_add_r in Ha by lia. nia. }
      trans (2 ^ 53 * 2 ^ dexp p d); [nia|]. rewrite <- Z.pow_add_r by lia. apply Z.pow_le_mono_r; lia.
    + pose proof (Z.pow_pos_nonneg 2 (dexp p' d) ltac:(lia) ltac:(lia)).
      assert (H1 : 2 ^ 52 ≤ round_half_even p' (d * 2 ^ dexp p' d)).
      { apply rhe_ge; [nia|]. pose proof (dexp_below p' d Hd ltac:(lia) ltac:(lia)) as Hb. rewrite Z.pow_add_r in Hb by lia. lia. }
      rewrite Z.pow_add_r by lia. nia.
Qed.

Lemma dround_nonneg p d : 0 < d → 0 ≤ p → 0 ≤ dround p d.
Proof.
  intros Hd Hp. unfold dround. fold (dexp p d). assert (0 ≤ dexp p d) by (unfold dexp; lia).
  pose proof (Z.pow_pos_nonneg 2 (dexp p d) ltac:(lia) ltac:(lia)).
  pose proof (rhe_ge p (d * 2 ^ dexp p d) 0 ltac:(nia) ltac:(lia)). nia.
Qed.
