(* ===== verification/DoubleText.v ===== *)
(** * Doubles as text: LogStream::operator<<(double) of src/dc/base/logStream.cc

    The operator prints with snprintf and "%.12g".  A double is its sign,
    significand and exponent; the conversion is computed exactly: the decimal
    exponent, twelve digits rounded to nearest (ties to even), the choice of
    style, and the removal of trailing zeros.  [read_number] reads a decimal
    numeral; the text is shown to fit and to be read back within half a unit
    of the twelfth digit.  File LogStream puts the text into the stream. *)

From S2P Require Import Prelude Doubles.

Open Scope Z_scope.

(** ** Doubles *)

Inductive double : Type :=
  | Finite (negative : bool) (m e : Z)     (* m * 2^e *)
  | Infinity (negative : bool)
  | NaN (negative : bool).

#[global] Instance double_eq_dec : EqDecision double.
Proof. solve_decision. Defined.

Definition valid (x : double) : Prop :=
  match x with Finite _ m e => 0 ≤ m < 2 ^ 53 ∧ -1074 ≤ e ≤ 971 | _ => True end.

(** The absolute value as a quotient. *)
Definition numer (m e : Z) : Z := m * 2 ^ Z.max 0 e.
Definition denom (e : Z) : Z := 2 ^ Z.max 0 (- e).

(** ** "%.12g" *)

Definition digit (d : Z) : ascii := char_of (48 + d).
(** The last [n] decimal digits of a number. *)
Fixpoint digs (n : nat) (D : Z) : list ascii :=
  match n with O => [] | S n' => digs n' (D / 10) ++ [digit (D mod 10)] end.

Fixpoint skip_zeros (s : list ascii) : list ascii :=
  match s with c :: t => if Ascii.eqb c "0" then skip_zeros t else s | [] => [] end.
Definition strip (s : list ascii) : list ascii := reverse (skip_zeros (reverse s)).

(** 10^X <= num / den *)
Definition at_least (num den X : Z) : bool :=
  if 0 <=? X then 10 ^ X * den <=? num else den <=? num * 10 ^ (- X).

(** The decimal exponent, searched downwards. *)
Fixpoint exponent_from (fuel : nat) (num den X : Z) : Z :=
  match fuel with
  | O => X
  | S fuel' => if at_least num den X then X else exponent_from fuel' num den (X - 1)
  end.
Definition decimal_exponent (num den : Z) : Z := exponent_from 632 num den 308.

(** The quotient num / den times 10^k, as a quotient. *)
Definition scaled (num den k : Z) : Z * Z := if 0 <=? k then (num * 10 ^ k, den) else (num, den * 10 ^ (- k)).

(** Twelve significant digits, and their exponent. *)
Definition significant (num den : Z) : Z * Z :=
  let X := decimal_exponent num den in
  let '(p, d) := scaled num den (11 - X) in
  let D := round_half_even p d in
  if D =? 10 ^ 12 then (10 ^ 11, X + 1) else (D, X).

(** Integer and fraction digits without trailing zeros. *)
Definition point (ip fp : list ascii) : list ascii :=
  ip ++ match strip fp with [] => [] | f => "."%char :: f end.

Definition exponent_text (X : Z) : list ascii :=
  "e"%char :: (if X <? 0 then "-"%char else "+"%char) :: digs (if Z.abs X <? 100 then 2 else 3) (Z.abs X).

Definition general_text (D X : Z) : list ascii :=
  let ds := digs 12 D in
  if (X <? -4) || (12 <=? X) then point (take 1 ds) (drop 1 ds) ++ exponent_text X
  else if 0 <=? X then point (take (Z.to_nat (X + 1)) ds) (drop (Z.to_nat (X + 1)) ds)
  else point ["0"%char] (replicate (Z.to_nat (- X - 1)) "0"%char ++ ds).

Definition sign_text (negative : bool) : list ascii := if negative then ["-"%char] else [].

Definition fmt_g12 (x : double) : list ascii :=
  match x with
  | Finite s m e =>
      if m =? 0 then sign_text s ++ ["0"%char]
      else let '(D, X) := significant (numer m e) (denom e) in sign_text s ++ general_text D X
  | Infinity s => sign_text s ++ chars "inf"
  | NaN s => sign_text s ++ chars "nan"
  end.

(** ** Reading a decimal numeral *)

Definition is_digit (c : ascii) : bool := (48 <=? char_val c) && (char_val c <=? 57).
Definition dec_val (s : list ascii) : Z := foldl (λ a c, 10 * a + (char_val c - 48)) 0 s.

Fixpoint span (s : list ascii) : list ascii * list ascii :=
  match s with
  | c :: t => if is_digit c then let '(a, b) := span t in (c :: a, b) else ([], s)
  | [] => ([], [])
  end.

(** Sign, digits and power of ten of a numeral. *)
Definition read_number (s : list ascii) : bool * Z * Z :=
  let '(neg, s1) := match s with c :: t => if Ascii.eqb c "-" then (true, t) else (false, s) | [] => (false, []) end in
  let '(ip, s2) := span s1 in
  let '(fp, s3) := match s2 with c :: t => if Ascii.eqb c "." then span t else ([], s2) | [] => ([], []) end in
  let x := match s3 with
           | c :: d :: t => if Ascii.eqb c "e" then (if Ascii.eqb d "-" then - dec_val (span t).1 else dec_val (span t).1) else 0
           | _ => 0
           end in
  (neg, dec_val (ip ++ fp), x - zlen fp).

(** ** Digits *)

Lemma digit_spec d : 0 ≤ d ≤ 9 → char_val (digit d) = 48 + d ∧ is_digit (digit d) = true.
Proof.
  intros Hd. assert (char_val (digit d) = 48 + d) as E.
  { unfold digit. rewrite char_val_of. apply Z.mod_small. lia. }
  split; [done|]. unfold is_digit. rewrite E. apply andb_true_intro. split; apply Z.leb_le; lia.
Qed.

Lemma digs_length n : ∀ D, length (digs n D) = n.
Proof. induction n as [|n IH]; intros D; simpl; [done|]. rewrite length_app, IH. simpl. lia. Qed.

Lemma digs_digits n : ∀ D, Forall is_digit (digs n D).
Proof.
  induction n as [|n IH]; intros D; simpl; [constructor|]. apply Forall_app_2; [apply IH|].
  repeat constructor. pose proof (Z.mod_pos_bound D 10). destruct (digit_spec (D mod 10)) as [_ ->]; [lia|done].
Qed.

Lemma dec_val_from s : ∀ a, foldl (λ a c, 10 * a + (char_val c - 48)) a s = a * 10 ^ zlen s + dec_val s.
Proof.
  unfold dec_val. induction s as [|c s IH]; intros a; [unfold zlen; simpl; lia|]. cbn [foldl].
  rewrite IH, (IH (10 * 0 + _)). rewrite zlen_cons, Z.pow_add_r, Z.pow_1_r by (pose proof (zlen_nonneg s); lia). lia.
Qed.

Lemma dec_val_app s t : dec_val (s ++ t) = dec_val s * 10 ^ zlen t + dec_val t.
Proof. unfold dec_val at 1. rewrite foldl_app. apply dec_val_from. Qed.

Lemma dec_val_digs n : ∀ D, 0 ≤ D < 10 ^ Z.of_nat n → dec_val (digs n D) = D.
Proof.
  induction n as [|n IH]; intros D HD; [simpl in *; unfold dec_val; simpl; lia|]. simpl. rewrite dec_val_app.
  rewrite Nat2Z.inj_succ, Z.pow_succ_r in HD by lia. pose proof (Z.mod_pos_bound D 10). pose proof (Z.div_mod D 10).
  rewrite IH by (split; [apply Z.div_pos; lia|apply Z.div_lt_upper_bound; lia]).
  unfold dec_val at 1. unfold zlen. simpl. destruct (digit_spec (D mod 10)) as [-> _]; lia.
Qed.

(** ** Trailing zeros *)

Lemma skip_zeros_spec s : ∃ k, s = replicate k "0"%char ++ skip_zeros s.
Proof.
  induction s as [|c s (k & IH)]; [by exists 0%nat|]. simpl. destruct (Ascii.eqb c "0") eqn:E; [|by exists 0%nat].
  apply Ascii.eqb_eq in E as ->. exists (S k). simpl. by rewrite <- IH.
Qed.

Lemma strip_spec s : ∃ k, s = strip s ++ replicate k "0"%char.
Proof.
  destruct (skip_zeros_spec (reverse s)) as (k & E). exists k. unfold strip.
  rewrite <- (reverse_involutive s) at 1. rewrite E at 1. by rewrite reverse_app, reverse_replicate.
Qed.

Lemma dec_val_zeros k : dec_val (replicate k "0"%char) = 0.
Proof. unfold dec_val. by induction k. Qed.

Lemma strip_digits s : Forall is_digit s → Forall is_digit (strip s).
Proof. intros H. destruct (strip_spec s) as (k & E). rewrite E in H. by apply Forall_app in H as [? _]. Qed.

Lemma strip_length s : (length (strip s) ≤ length s)%nat.
Proof. destruct (strip_spec s) as (k & E). rewrite E at 2. rewrite length_app. lia. Qed.

(** Trailing zeros of the fraction change nothing in the value. *)
Lemma strip_value ip fp x K :
  0 ≤ x - zlen fp + K →
  dec_val (ip ++ strip fp) * 10 ^ (x - zlen (strip fp) + K) = dec_val (ip ++ fp) * 10 ^ (x - zlen fp + K).
Proof.
  intros HK. destruct (strip_spec fp) as (k & E). set (f := strip fp) in *. rewrite E in *. rewrite zlen_app in HK.
  rewrite (app_assoc ip), (dec_val_app (ip ++ f)), dec_val_zeros, zlen_app.
  assert (zlen (replicate k "0"%char) = Z.of_nat k) as Ek by (unfold zlen; by rewrite length_replicate). rewrite Ek in *.
  rewrite Z.add_0_r, <- Z.mul_assoc, <- Z.pow_add_r by lia. f_equal. f_equal. lia.
Qed.

(** ** The numeral is read back *)

Lemma span_app s t : Forall is_digit s → match t with c :: _ => is_digit c = false | [] => True end → span (s ++ t) = (s, t).
Proof.
  induction 1 as [|c s Hc Hs IH]; intros Ht; simpl.
  - destruct t as [|c t]; simpl; [done|]. by rewrite Ht.
  - apply Is_true_true in Hc. by rewrite Hc, IH.
Qed.

(** The exponent that follows, or nothing. *)
Definition exponent_ok (t : list ascii) (x : Z) : Prop :=
  (t = [] ∧ x = 0) ∨ (t = exponent_text x ∧ -999 ≤ x ≤ 999).

Lemma exponent_value x : -999 ≤ x ≤ 999 → ∃ sg ds, exponent_text x = "e"%char :: sg :: ds ∧
  (if Ascii.eqb sg "-" then - dec_val (span ds).1 else dec_val (span ds).1) = x.
Proof.
  intros Hx. unfold exponent_text. eexists _, _. split; [done|]. rewrite <- (app_nil_r (digs _ _)), span_app by (done || apply digs_digits).
  cbn [fst]. rewrite dec_val_digs by (destruct (Z.abs x <? 100) eqn:E; bprop; simpl; lia).
  destruct (x <? 0) eqn:E; bprop; simpl; lia.
Qed.

Lemma read_number_spec neg ip fp t x :
  ip ≠ [] → Forall is_digit ip → Forall is_digit fp → exponent_ok t x →
  read_number (sign_text neg ++ point ip fp ++ t) = (neg, dec_val (ip ++ strip fp), x - zlen (strip fp)).
Proof.
  intros Hne Hi Hf Ht. pose proof (strip_digits _ Hf) as Hs. unfold point. rewrite <- app_assoc.
  set (rest := match strip fp with [] => [] | f => "."%char :: f end ++ t).
  assert (Hnd : match t with c :: _ => is_digit c = false | [] => True end) by (destruct Ht as [[-> _]|[-> _]]; done).
  assert (Hpt : match t with c :: _ => Ascii.eqb c "." = false | [] => True end) by (destruct Ht as [[-> _]|[-> _]]; done).
  assert (Hrest : match rest with c :: _ => is_digit c = false | [] => True end) by (unfold rest; by destruct (strip fp)).
  assert (Hfrac : match rest with c :: u => if Ascii.eqb c "." then span u else ([], rest) | [] => ([], []) end = (strip fp, t)).
  { unfold rest. destruct (strip fp) as [|c f]; [|apply (span_app (c :: f)); done]. simpl. destruct t as [|c u]; [done|]. by rewrite Hpt. }
  assert (Hx : match t with
     | c :: d :: u => if Ascii.eqb c "e" then (if Ascii.eqb d "-" then - dec_val (span u).1 else dec_val (span u).1) else 0
     | _ => 0 end = x).
  { destruct Ht as [[-> ->]|[-> Hx]]; [done|]. by destruct (exponent_value x Hx) as (sg & ds & -> & ?). }
  unfold read_number. assert (Hsg : match sign_text neg ++ ip ++ rest with
    | c :: u => if Ascii.eqb c "-" then (true, u) else (false, sign_text neg ++ ip ++ rest) | [] => (false, []) end = (neg, ip ++ rest)).
  { destruct neg; [done|]. destruct ip as [|c ip]; [done|]. simpl. apply Forall_cons in Hi as [Hc _].
    destruct (Ascii.eqb c "-") eqn:E; [|done]. by apply Ascii.eqb_eq in E as ->. }
  rewrite Hsg, span_app by done. rewrite Hfrac. by rewrite Hx.
Qed.

(** ** The three styles *)

Lemma point_length ip fp : (length (point ip fp) ≤ length ip + 1 + length fp)%nat.
Proof. unfold point. rewrite length_app. pose proof (strip_length fp). destruct (strip fp); simpl in *; lia. Qed.

Lemma exponent_length X : length (exponent_text X) = if Z.abs X <? 100 then 4%nat else 5%nat.
Proof. unfold exponent_text. cbn [length]. rewrite digs_length. by destruct (Z.abs X <? 100). Qed.

Lemma general_shape D X :
  10 ^ 11 ≤ D < 10 ^ 12 → -324 ≤ X ≤ 309 →
  ∃ ip fp t x, general_text D X = point ip fp ++ t ∧ ip ≠ [] ∧ Forall is_digit ip ∧ Forall is_digit fp ∧ exponent_ok t x ∧
    dec_val (ip ++ fp) = D ∧ x - zlen fp = X - 11 ∧ (length (general_text D X) ≤ 18)%nat.
Proof.
  intros HD HX. pose proof (digs_length 12 D) as Hl. pose proof (digs_digits 12 D) as Hd.
  assert (dec_val (digs 12 D) = D) as Hv by (apply dec_val_digs; simpl; lia).
  unfold general_text. set (ds := digs 12 D) in *. clearbody ds.
  assert (Hcut : ∀ n, (1 ≤ n ≤ 12)%nat → take n ds ≠ [] ∧ Forall is_digit (take n ds) ∧ Forall is_digit (drop n ds) ∧
    dec_val (take n ds ++ drop n ds) = D ∧ zlen (drop n ds) = 12 - Z.of_nat n ∧ (length (point (take n ds) (drop n ds)) ≤ 13)%nat).
  { intros n Hn. rewrite take_drop. pose proof (point_length (take n ds) (drop n ds)) as Hp.
    rewrite length_take, length_drop, Hl in Hp. unfold zlen. rewrite length_drop, Hl.
    split_and!; [|by apply Forall_take|by apply Forall_drop|done|lia|lia].
    intros E. apply (f_equal length) in E. rewrite length_take, Hl in E. simpl in E. lia. }
  destruct ((X <? -4) || (12 <=? X)) eqn:Ee; [|apply orb_false_elim in Ee as [E1 E2]; bprop; destruct (0 <=? X) eqn:E0; bprop].
  - destruct (Hcut 1%nat) as (H1 & H2 & H3 & H4 & H5 & H6); [lia|]. exists (take 1 ds), (drop 1 ds), (exponent_text X), X.
    rewrite length_app, exponent_length. split_and!; try done; [right; split; [done|lia]|lia|destruct (_ <? 100); lia].
  - destruct (Hcut (Z.to_nat (X + 1))) as (H1 & H2 & H3 & H4 & H5 & H6); [lia|].
    exists (take (Z.to_nat (X + 1)) ds), (drop (Z.to_nat (X + 1)) ds), [], 0. rewrite app_nil_r.
    split_and!; try done; [by left|lia|lia].
  - exists ["0"%char], (replicate (Z.to_nat (- X - 1)) "0"%char ++ ds), [], 0. rewrite app_nil_r.
    split_and!; try done; [by repeat constructor|by apply Forall_app_2; [apply Forall_replicate|]|by left| | |].
    + rewrite (app_assoc ["0"%char]), dec_val_app, Hv. change (["0"%char] ++ ?l) with ("0"%char :: l).
      change ("0"%char :: replicate ?n "0"%char) with (replicate (S n) "0"%char). rewrite dec_val_zeros. lia.
    + rewrite zlen_app. unfold zlen. rewrite length_replicate, Hl. lia.
    + etrans; [apply point_length|]. rewrite length_app, length_replicate, Hl. simpl length. lia.
Qed.

(** ** The decimal exponent *)

Lemma exponent_from_spec fuel num den : ∀ X,
  at_least num den (X + 1) = false → at_least num den (X - Z.of_nat fuel) = true →
  let Y := exponent_from fuel num den X in
  X - Z.of_nat fuel ≤ Y ≤ X ∧ at_least num den Y = true ∧ at_least num den (Y + 1) = false.
Proof.
  induction fuel as [|fuel IH]; intros X H1 H2; simpl; [rewrite Z.sub_0_r in H2; split_and!; [lia..|done|done]|].
  destruct (at_least num den X) eqn:E; [split_and!; [lia..|done|done]|].
  destruct (IH (X - 1)) as (Ha & Hb & Hc).
  - by replace (X - 1 + 1) with X by lia.
  - by replace (X - 1 - Z.of_nat fuel) with (X - Z.of_nat (S fuel)) by lia.
  - split_and!; [lia..|done|done].
Qed.

(** The scaled quotient has twelve digits before the point. *)
Lemma scaled_range num den X :
  0 < num → 0 < den → at_least num den X = true → at_least num den (X + 1) = false →
  let '(p, d) := scaled num den (11 - X) in 0 < d ∧ 10 ^ 11 * d ≤ p < 10 ^ 12 * d.
Proof.
  intros Hn Hd H1 H2. unfold at_least in *. unfold scaled.
  assert (HP : ∀ k, 0 ≤ k → 0 < 10 ^ k) by (intros; apply Z.pow_pos_nonneg; lia).
  destruct (0 <=? 11 - X) eqn:E; bprop.
  - split; [done|]. destruct (0 <=? X) eqn:E1; bprop.
    + rewrite (proj2 (Z.leb_le 0 (X + 1))) in H2 by lia. bprop.
      replace 11 with (11 - X + X) at 1 by lia. replace 12 with (11 - X + (X + 1)) by lia.
      rewrite !Z.pow_add_r in * by lia. pose proof (HP (11 - X)). nia.
    + assert (10 ^ 11 * den ≤ num * 10 ^ (11 - X)) as Hlo.
      { replace (11 - X) with (11 + - X) by lia. rewrite Z.pow_add_r by lia. pose proof (HP 11). nia. }
      split; [done|]. destruct (0 <=? X + 1) eqn:E2; bprop.
      * assert (X = -1) as -> by lia. simpl in *. lia.
      * replace (11 - X) with (12 + - (X + 1)) by lia. rewrite (Z.pow_add_r 10 12) by lia. pose proof (HP 12). nia.
  - rewrite (proj2 (Z.leb_le 0 X)) in H1 by lia. rewrite (proj2 (Z.leb_le 0 (X + 1))) in H2 by lia. bprop.
    pose proof (HP (- (11 - X)) ltac:(lia)). split; [nia|].
    replace X with (11 + - (11 - X)) in H1 at 1 by lia. replace (X + 1) with (12 + - (11 - X)) in H2 by lia.
    rewrite Z.pow_add_r in H1, H2 by lia. lia.
Qed.

(** [N] times ten to the [x] is the quotient, within 5 in 10^12 of it; the
    powers are shifted by 400 to stay integers. *)
Definition close (num den N x : Z) : Prop :=
  2 * 10 ^ 11 * Z.abs (N * 10 ^ (x + 400) * den - num * 10 ^ 400) ≤ num * 10 ^ 400.

Lemma scaled_close num den X D :
  0 < den → -324 ≤ X ≤ 308 →
  let '(p, d) := scaled num den (11 - X) in
  0 < d → 10 ^ 11 * d ≤ p → 2 * Z.abs (D * d - p) ≤ d → close num den D (X - 11).
Proof.
  intros Hd HX. unfold scaled, close. destruct (0 <=? 11 - X) eqn:E; bprop; intros H0 H1 H2.
  - set (c := 10 ^ (X - 11 + 400)). assert (0 < c) as Hc by (apply Z.pow_pos_nonneg; lia).
    assert (10 ^ (11 - X) * c = 10 ^ 400) as Ec by (unfold c; rewrite <- Z.pow_add_r by lia; f_equal; lia).
    rewrite <- Ec. replace (D * c * den - num * (10 ^ (11 - X) * c)) with (c * (D * den - num * 10 ^ (11 - X))) by ring.
    rewrite Z.abs_mul, (Z.abs_eq c) by lia. nia.
  - set (c := 10 ^ 400). assert (0 < c) as Hc by (apply Z.pow_pos_nonneg; lia).
    assert (10 ^ (X - 11 + 400) = 10 ^ (- (11 - X)) * c) as -> by (unfold c; rewrite <- Z.pow_add_r by lia; f_equal; lia).
    replace (D * (10 ^ (- (11 - X)) * c) * den - num * c) with (c * (D * (den * 10 ^ (- (11 - X))) - num)) by ring.
    rewrite Z.abs_mul, (Z.abs_eq c) by lia. nia.
Qed.

Lemma significant_spec num den :
  0 < num → 0 < den → at_least num den (-324) = true → at_least num den 309 = false →
  let '(D, X) := significant num den in 10 ^ 11 ≤ D < 10 ^ 12 ∧ -324 ≤ X ≤ 309 ∧ close num den D (X - 11).
Proof.
  intros Hn Hd Hlo Hhi. unfold significant, decimal_exponent.
  destruct (exponent_from_spec 632 num den 308 Hhi Hlo) as (HX & H1 & H2).
  set (X := exponent_from 632 num den 308) in *. clearbody X. change (308 - Z.of_nat 632) with (-324) in HX.
  pose proof (scaled_range num den X Hn Hd H1 H2) as Hr. pose proof (λ D, scaled_close num den X D Hd HX) as Hc.
  destruct (scaled num den (11 - X)) as [p d]. destruct Hr as (Hd' & Hp1 & Hp2).
  pose proof (rhe_err p d Hd') as He. pose proof (rhe_ge p d (10 ^ 11) Hd' Hp1). pose proof (rhe_le p d (10 ^ 12) Hd' ltac:(lia)).
  specialize (Hc (round_half_even p d) Hd' Hp1 He). destruct (round_half_even p d =? 10 ^ 12) eqn:E; bprop.
  - split_and!; [lia..|]. unfold close in *. rewrite E in Hc.
    replace (10 ^ 11 * 10 ^ (X + 1 - 11 + 400)) with (10 ^ 12 * 10 ^ (X - 11 + 400)); [done|].
    rewrite <- !Z.pow_add_r by lia. f_equal. lia.
  - split_and!; [lia..|done].
Qed.

Lemma double_range m e :
  0 < m < 2 ^ 53 → -1074 ≤ e ≤ 971 →
  0 < numer m e ∧ 0 < denom e ∧ at_least (numer m e) (denom e) (-324) = true ∧ at_least (numer m e) (denom e) 309 = false.
Proof.
  intros Hm He. unfold numer, denom. pose proof (Z.pow_pos_nonneg 2 (Z.max 0 e) ltac:(lia) ltac:(lia)) as Hp.
  pose proof (Z.pow_pos_nonneg 2 (Z.max 0 (- e)) ltac:(lia) ltac:(lia)) as Hq. split_and!; [nia|done|..].
  - unfold at_least. apply Z.leb_le. assert (2 ^ Z.max 0 (- e) ≤ 2 ^ 1074) by (apply Z.pow_le_mono_r; lia).
    assert (2 ^ 1074 ≤ 10 ^ 324) by by vm_compute. change (- -324) with 324. nia.
  - unfold at_least. apply Z.leb_gt. assert (2 ^ Z.max 0 e ≤ 2 ^ 971) by (apply Z.pow_le_mono_r; lia).
    assert (2 ^ 53 * 2 ^ 971 ≤ 10 ^ 309) by by vm_compute.
    assert (0 < 10 ^ 309) by by vm_compute. nia.
Qed.

(** ** The text *)

(** The text of a double is short and, read as a numeral, is its value
    rounded to twelve significant digits. *)
Lemma fmt_g12_spec s m e :
  0 < m < 2 ^ 53 → -1074 ≤ e ≤ 971 →
  ∃ N x, read_number (fmt_g12 (Finite s m e)) = (s, N, x) ∧ close (numer m e) (denom e) N x ∧ zlen (fmt_g12 (Finite s m e)) ≤ 19.
Proof.
  intros Hm He. destruct (double_range m e Hm He) as (Hn & Hd & Hlo & Hhi). unfold fmt_g12.
  rewrite (proj2 (Z.eqb_neq m 0)) by lia. pose proof (significant_spec _ _ Hn Hd Hlo Hhi) as Hs.
  destruct (significant (numer m e) (denom e)) as [D X]. destruct Hs as (HD & HX & Hc).
  destruct (general_shape D X HD HX) as (ip & fp & t & x & -> & Hne & Hi & Hf & Ht & Hv & Hx & Hl).
  rewrite read_number_spec with (x := x) by done. eexists _, _. split_and!; [done| |].
  - unfold close in *. rewrite strip_value, Hv, Hx by lia. done.
  - rewrite zlen_app. unfold sign_text, zlen in *. destruct s; simpl; lia.
Qed.

Lemma fmt_g12_length x : valid x → zlen (fmt_g12 x) ≤ 19.
Proof.
  destruct x as [s m e|s|s]; simpl valid; [|by destruct s..]. intros [Hm He].
  destruct (decide (m = 0)) as [->|Hne]; [by destruct s|].
  by destruct (fmt_g12_spec s m e) as (N & x & _ & _ & ?); [lia..|].
Qed.

(** ** Literals and addition *)

(** The double nearest to a quotient. *)
Definition nearest (negative : bool) (p d : Z) : double :=
  let e := Z.max (-1074) (Z.log2 (p * 2 ^ 1074 / d) - 52 - 1074) in
  let m := round_half_even (p * 2 ^ Z.max 0 (- e)) (d * 2 ^ Z.max 0 e) in
  if m =? 2 ^ 53 then Finite negative (2 ^ 52) (e + 1) else Finite negative m e.

(** The sum of two finite doubles. *)
Definition plus (x y : double) : double :=
  match x, y with
  | Finite s1 m1 e1, Finite s2 m2 e2 =>
      let v := (if s1 then -1 else 1) * numer m1 e1 * denom e2 + (if s2 then -1 else 1) * numer m2 e2 * denom e1 in
      nearest (v <? 0) (Z.abs v) (denom e1 * denom e2)
  | Finite _ _ _, y => y
  | x, _ => x
  end.
