(* ===== verification/LogStream.v ===== *)
(** * Log streams: src/dc/base/logStream.{h,cc}

    [FixedBuffer] keeps the array and the cursor; writing outside the array
    faults.  The integer conversions are the loops of the source, one digit
    per turn.  The theorems compare the conversions with the decimal and
    hexadecimal text of the number, and the stream with the list of texts put
    into it. *)

From S2P Require Import Prelude Doubles DoubleText.

Open Scope Z_scope.

Abbreviation bytes := (list ascii).

(** ** FixedBuffer<SIZE> *)

Definition kSmallBuffer : Z := 4000.
Definition kLargeBuffer : Z := 4000 * 1000.

Record FixedBuffer : Type := mkFixed { m_data : bytes; m_cur : Z }.

(** The constructor leaves the array as it is: [init] is its content. *)
Definition FixedBuffer_ctor (init : bytes) : FixedBuffer := mkFixed init 0.

(** [FixedBuffer::avail], [FixedBuffer::length]: conversions to int. *)
Definition avail (b : FixedBuffer) : Z := swrap 32 (zlen (m_data b) - m_cur b).
Definition length_ (b : FixedBuffer) : Z := swrap 32 (m_cur b).

(** [FixedBuffer::add], [FixedBuffer::reset], [FixedBuffer::bzero] *)
Definition add (b : FixedBuffer) (len : Z) : FixedBuffer := mkFixed (m_data b) (m_cur b + len).
Definition reset (b : FixedBuffer) : FixedBuffer := mkFixed (m_data b) 0.
Definition bzero (b : FixedBuffer) : FixedBuffer := mkFixed (replicate (length (m_data b)) NUL) (m_cur b).

(** memcpy to [m_cur + off]. *)
Definition poke (b : FixedBuffer) (off : Z) (s : bytes) : res FixedBuffer :=
  d ← write_at (m_cur b + off) s (m_data b); Ok (mkFixed d (m_cur b)).

(** [FixedBuffer::append]: nothing is copied when the bytes do not fit. *)
Definition append (b : FixedBuffer) (buf : bytes) : res FixedBuffer :=
  if uwrap 64 (avail b) >? zlen buf
  then b' ← poke b 0 buf; Ok (add b' (zlen buf))
  else Ok b.

(** [FixedBuffer::toString] and [FixedBuffer::toStringPiece] *)
Definition toString (b : FixedBuffer) : res bytes := read_at 0 (length_ b) (m_data b).

(** [FixedBuffer::debugString]: writes the terminator at the cursor. *)
Definition debugString (b : FixedBuffer) : res FixedBuffer := poke b 0 [NUL].

(** ** Integer conversions *)

Definition digits : bytes := chars "9876543210123456789".
Definition digitsHex : bytes := chars "0123456789ABCDEF".

(** [zero[lsd]], where [zero] points at the middle of [digits]. *)
Definition zero_at (lsd : Z) : res ascii :=
  match digits !! Z.to_nat (9 + lsd) with
  | Some c => if 0 <=? 9 + lsd then Ok c else Fail (FUndef "zero[lsd]")
  | None => Fail (FUndef "zero[lsd]")
  end.

(** The do-while loop of [convert], least significant digit first; [None]
    when the fuel runs out. *)
Fixpoint convert_loop (fuel : nat) (i : Z) : res (option bytes) :=
  match fuel with
  | O => Ok None
  | S fuel' =>
      let lsd := Z.rem i 10 in
      let i' := Z.quot i 10 in
      c ← zero_at lsd;
      if i' =? 0 then Ok (Some [c])
      else r ← convert_loop fuel' i';
           Ok (match r with Some cs => Some (c :: cs) | None => None end)
  end.

(** Turns that are enough for any 64-bit value. *)
Definition convert_fuel : nat := 20.

(** [convert]: the text it leaves in the buffer, before the terminator. *)
Definition convert (value : Z) : res (option bytes) :=
  r ← convert_loop convert_fuel value;
  Ok (match r with
      | Some p => Some (reverse (p ++ if value <? 0 then ["-"%char] else []))
      | None => None
      end).

Definition digitsHex_at (lsd : Z) : res ascii :=
  match digitsHex !! Z.to_nat lsd with Some c => Ok c | None => Fail (FUndef "digitsHex[lsd]") end.

Fixpoint convertHex_loop (fuel : nat) (i : Z) : res (option bytes) :=
  match fuel with
  | O => Ok None
  | S fuel' =>
      let lsd := i mod 16 in
      let i' := i / 16 in
      c ← digitsHex_at lsd;
      if i' =? 0 then Ok (Some [c])
      else r ← convertHex_loop fuel' i';
           Ok (match r with Some cs => Some (c :: cs) | None => None end)
  end.

(** [convertHex] on a uintptr_t *)
Definition convertHex (value : Z) : res (option bytes) :=
  r ← convertHex_loop 16 value;
  Ok (match r with Some p => Some (reverse p) | None => None end).

(** ** LogStream *)

Definition kMaxNumbericSize : Z := 48.

(** What is put into the stream, one constructor per group of operator<<;
    a double is given by the text printf("%.12g") has for it. *)
Inductive item : Type :=
  | IBool (v : bool)
  | IInt (v : Z)
  | IPtr (v : Z)
  | IDouble (v : double)
  | IChar (c : ascii)
  | ICString (str : option bytes)
  | IString (s : bytes).

(** The result of a conversion, written with its terminator at [off]. *)
Definition put_number (b : FixedBuffer) (prefix : bytes) (r : option bytes) : res FixedBuffer :=
  match r with
  | None => Fail (FUndef "the conversion does not end")
  | Some text =>
      b1 ← poke b 0 prefix;
      b2 ← poke b1 (zlen prefix) (text ++ [NUL]);
      Ok (add b2 (zlen text + zlen prefix))
  end.

(** [LogStream::formatInteger] *)
Definition formatInteger (b : FixedBuffer) (v : Z) : res FixedBuffer :=
  if avail b >=? kMaxNumbericSize then r ← convert v; put_number b [] r else Ok b.

(** [LogStream::operator<<(const void* )] *)
Definition put_pointer (b : FixedBuffer) (v : Z) : res FixedBuffer :=
  if avail b >=? kMaxNumbericSize then r ← convertHex v; put_number b (chars "0x") r else Ok b.

(** [LogStream::operator<<(double)]: snprintf writes at most the size it is
    given and returns the length of the whole text. *)
Definition put_double (b : FixedBuffer) (v : double) : res FixedBuffer :=
  if avail b >=? kMaxNumbericSize
  then b1 ← poke b 0 (snprintf (Z.to_nat kMaxNumbericSize) (fmt_g12 v) ++ [NUL]); Ok (add b1 (zlen (fmt_g12 v)))
  else Ok b.

(** The operators << of LogStream *)
Definition put (b : FixedBuffer) (x : item) : res FixedBuffer :=
  match x with
  | IBool v => append b (if v then chars "1" else chars "0")
  | IInt v => formatInteger b v
  | IPtr v => put_pointer b v
  | IDouble v => put_double b v
  | IChar c => append b [c]
  | ICString (Some s) => append b s
  | ICString None => append b (chars "(null)")
  | IString s => append b s
  end.

(** A chain [stream << x1 << x2 << ...]. *)
Definition puts (b : FixedBuffer) (xs : list item) : res FixedBuffer := foldM put b xs.

(** [Fmt::Fmt]: the text snprintf formats, which must fit in 32 bytes. *)
Definition Fmt_ctor (text : bytes) : res bytes :=
  cassert (zlen text <? 32) "m_length < sizeof m_buf";; Ok text.

(** ** The conversions give the text of the number *)

Lemma zero_at_digit d : (d < 10)%N → zero_at (Z.of_N d) = Ok (pretty_N_char d) ∧ zero_at (- Z.of_N d) = Ok (pretty_N_char d).
Proof.
  intros Hd. assert (d = 0 ∨ d = 1 ∨ d = 2 ∨ d = 3 ∨ d = 4 ∨ d = 5 ∨ d = 6 ∨ d = 7 ∨ d = 8 ∨ d = 9)%N as Hc by lia.
  repeat destruct Hc as [Hc|Hc]; subst d; by split.
Qed.

Lemma rem10 (neg : bool) x : let v := if neg then - Z.of_N x else Z.of_N x in
  Z.rem v 10 = (if neg then - Z.of_N (x mod 10) else Z.of_N (x mod 10)) ∧
  Z.quot v 10 = (if neg then - Z.of_N (x / 10) else Z.of_N (x / 10)).
Proof.
  cbn zeta. pose proof (N2Z.is_nonneg x).
  assert (E1 : Z.rem (Z.of_N x) 10 = Z.of_N (x mod 10)) by (rewrite Z.rem_mod_nonneg by lia; by rewrite N2Z.inj_mod).
  assert (E2 : Z.quot (Z.of_N x) 10 = Z.of_N (x / 10)) by (rewrite Z.quot_div_nonneg by lia; by rewrite N2Z.inj_div).
  destruct neg; [|done]. by rewrite Z.rem_opp_l', Z.quot_opp_l, E1, E2 by lia.
Qed.

Lemma convert_loop_spec (neg : bool) n : ∀ x, (x < 10 ^ N.of_nat n)%N → (0 < n)%nat →
  ∃ cs, convert_loop n (if neg then - Z.of_N x else Z.of_N x) = Ok (Some cs) ∧
    (1 ≤ length cs ≤ n)%nat ∧ (x = 0%N → cs = ["0"%char]) ∧
    ∀ s, (0 < x)%N → chars (pretty_N_go x s) = reverse cs ++ chars s.
Proof.
  induction n as [|n IH]; intros x Hx Hn; [lia|]. cbn [convert_loop].
  destruct (rem10 neg x) as [Er Eq]. cbn zeta in Er, Eq. rewrite Er, Eq.
  destruct (zero_at_digit (x mod 10)) as [Z1 Z2]; [by apply N.mod_lt|].
  assert (Ez : zero_at (if neg then - Z.of_N (x mod 10) else Z.of_N (x mod 10)) = Ok (pretty_N_char (x mod 10))) by by destruct neg.
  rewrite Ez. mred. destruct (decide (x / 10 = 0)%N) as [E0|E0].
  - assert (Eb : ((if neg then - Z.of_N (x / 10) else Z.of_N (x / 10)) =? 0) = true) by (rewrite E0; by destruct neg).
    rewrite Eb. eexists. split; [done|]. split; [simpl; lia|]. split; [by intros ->|]. intros s Hpos.
    by rewrite pretty_N_go_step, E0, pretty_N_go_0.
  - assert (Eb : ((if neg then - Z.of_N (x / 10) else Z.of_N (x / 10)) =? 0) = false) by (destruct neg; btrue).
    rewrite Eb. rewrite Nat2N.inj_succ, N.pow_succ_r' in Hx.
    assert (Hd : (x / 10 < 10 ^ N.of_nat n)%N) by (apply N.Div0.div_lt_upper_bound; lia).
    destruct n as [|n]; [by apply N.lt_1_r in Hd|].
    destruct (IH _ Hd) as (cs & E & Hl & _ & Hp); [lia|]. rewrite E. mred.
    eexists. split; [done|]. split; [simpl; lia|]. split; [by intros ->|]. intros s Hpos.
    rewrite pretty_N_go_step by done. rewrite Hp by by apply N.neq_0_lt_0. cbn [chars]. by rewrite reverse_cons, <- app_assoc.
Qed.

Lemma convert_ok v : - 2 ^ 63 ≤ v < 2 ^ 64 → convert v = Ok (Some (decimal v)) ∧ 1 ≤ zlen (decimal v) ≤ 21.
Proof.
  intros Hv. unfold convert.
  assert (Hx : (Z.abs_N v < 10 ^ N.of_nat convert_fuel)%N).
  { apply N2Z.inj_lt. rewrite N2Z.inj_abs_N. change (Z.of_N (10 ^ N.of_nat convert_fuel)) with 100000000000000000000. lia. }
  destruct (convert_loop_spec (v <? 0) convert_fuel _ Hx) as (cs & E & Hl & H0 & Hp); [unfold convert_fuel; lia|].
  assert (Ev : (if v <? 0 then - Z.of_N (Z.abs_N v) else Z.of_N (Z.abs_N v)) = v)
    by (rewrite N2Z.inj_abs_N; destruct (Z.ltb_spec v 0); lia).
  rewrite Ev in E. rewrite E. mred.
  assert (Ed : reverse (cs ++ if v <? 0 then ["-"%char] else []) = decimal v).
  { unfold decimal. destruct v as [|p|p]; simpl Z.ltb; cbn iota.
    - rewrite H0 by done. done.
    - rewrite app_nil_r. change (pretty (Z.pos p)) with (pretty_N_go (N.pos p) ""). rewrite Hp by done. by rewrite app_nil_r.
    - rewrite reverse_app. change (pretty (Z.neg p)) with ("-" +:+ pretty_N_go (N.pos p) ""). simpl.
      f_equal. pose proof (Hp EmptyString eq_refl) as Hp'. simpl in Hp'. rewrite app_nil_r in Hp'. by symmetry. }
  rewrite Ed. split; [done|]. rewrite <- Ed. unfold zlen, convert_fuel in *. rewrite length_reverse, length_app.
  destruct (v <? 0); simpl; lia.
Qed.

(** The value of hexadecimal text. *)
Definition hex_digit (c : ascii) : Z := Z.of_nat (std_find c digitsHex).
Definition hex_val (s : bytes) : Z := foldl (λ a c, 16 * a + hex_digit c) 0 s.

Lemma digitsHex_at_ok d : 0 ≤ d < 16 → ∃ c, digitsHex_at d = Ok c ∧ hex_digit c = d.
Proof.
  intros Hd. assert (d = 0 ∨ d = 1 ∨ d = 2 ∨ d = 3 ∨ d = 4 ∨ d = 5 ∨ d = 6 ∨ d = 7 ∨ d = 8 ∨ d = 9 ∨ d = 10 ∨ d = 11 ∨
    d = 12 ∨ d = 13 ∨ d = 14 ∨ d = 15) as Hc by lia.
  repeat destruct Hc as [Hc|Hc]; subst d; eexists; split; reflexivity.
Qed.

Lemma hex_val_snoc s c : hex_val (s ++ [c]) = 16 * hex_val s + hex_digit c.
Proof. unfold hex_val. by rewrite foldl_app. Qed.

Lemma convertHex_loop_spec n : ∀ x, 0 ≤ x < 16 ^ Z.of_nat n → (0 < n)%nat →
  ∃ cs, convertHex_loop n x = Ok (Some cs) ∧ (1 ≤ length cs ≤ n)%nat ∧ hex_val (reverse cs) = x ∧
    (0 < x → ∃ c cs', reverse cs = c :: cs' ∧ hex_digit c ≠ 0).
Proof.
  induction n as [|n IH]; intros x Hx Hn; [lia|]. cbn [convertHex_loop]. cbn zeta.
  destruct (digitsHex_at_ok (x mod 16)) as (c & Ec & Hc); [by apply Z.mod_pos_bound|]. rewrite Ec. mred.
  pose proof (Z.div_mod x 16). destruct (Z.eqb_spec (x / 16) 0) as [E0|E0].
  - eexists. split; [done|]. split; [simpl; lia|]. split; [unfold hex_val; simpl; lia|].
    intros Hp. exists c, []. split; [done|]. lia.
  - rewrite Nat2Z.inj_succ, Z.pow_succ_r in Hx by lia.
    assert (Hd : 0 ≤ x / 16 < 16 ^ Z.of_nat n) by (split; [apply Z.div_pos; lia|apply Z.div_lt_upper_bound; lia]).
    destruct n as [|n]; [change (16 ^ Z.of_nat 0) with 1 in Hd; exfalso; lia|].
    destruct (IH _ Hd) as (cs & E & Hl & Hval & Hnz); [lia|]. rewrite E. mred.
    eexists. split; [done|]. split; [simpl; lia|]. rewrite reverse_cons, hex_val_snoc. split; [lia|].
    intros _. destruct Hnz as (c' & cs' & Ers & Hc'); [lia|]. rewrite Ers. exists c', (cs' ++ [c]). done.
Qed.

Lemma convertHex_ok v : 0 ≤ v < 2 ^ 64 →
  ∃ text, convertHex v = Ok (Some text) ∧ 1 ≤ zlen text ≤ 16 ∧ hex_val text = v ∧
    (0 < v → ∃ c cs, text = c :: cs ∧ hex_digit c ≠ 0).
Proof.
  intros Hv. destruct (convertHex_loop_spec 16 v) as (cs & E & Hl & Hval & Hnz); [simpl; lia|lia|].
  unfold convertHex. rewrite E. mred. eexists. split; [done|]. unfold zlen. rewrite length_reverse. split; [lia|]. done.
Qed.

(** ** The stream *)

(** The cursor stays inside the array (so the terminator of debugString does
    too), and the size is that of an int. *)
Definition wf (b : FixedBuffer) : Prop := 0 ≤ m_cur b < zlen (m_data b) ∧ zlen (m_data b) ≤ 2147483647.

Definition content (b : FixedBuffer) : bytes := ztake (m_cur b) (m_data b).

(** The text an item stands for. *)
Inductive shows : item → bytes → Prop :=
  | shows_bool v : shows (IBool v) (if v then chars "1" else chars "0")
  | shows_int v : - 2 ^ 63 ≤ v < 2 ^ 64 → shows (IInt v) (decimal v)
  | shows_ptr v h : 0 ≤ v < 2 ^ 64 → hex_val h = v → (0 < v → ∃ c cs, h = c :: cs ∧ hex_digit c ≠ 0) → 1 ≤ zlen h ≤ 16 →
      shows (IPtr v) (chars "0x" ++ h)
  | shows_double v : valid v → shows (IDouble v) (fmt_g12 v)
  | shows_char c : shows (IChar c) [c]
  | shows_cstring s : shows (ICString (Some s)) s
  | shows_null : shows (ICString None) (chars "(null)")
  | shows_string s : shows (IString s) s.

(** The values the C++ types admit. *)
Definition good_item (x : item) : Prop :=
  match x with
  | IInt v => - 2 ^ 63 ≤ v < 2 ^ 64
  | IPtr v => 0 ≤ v < 2 ^ 64
  | IDouble v => valid v
  | ICString (Some s) | IString s => zlen s < 2 ^ 64
  | _ => True
  end.

Lemma avail_wf b : wf b → avail b = zlen (m_data b) - m_cur b.
Proof. intros [H1 H2]. apply swrap_small; [done|]. unfold in_signed. simpl. lia. Qed.

(** Writing at the cursor and advancing over the first bytes written. *)
Lemma poke_add b s extra :
  wf b → m_cur b + zlen s + zlen extra ≤ zlen (m_data b) → m_cur b + zlen s < zlen (m_data b) →
  ∃ b1, poke b 0 (s ++ extra) = Ok b1 ∧ wf (add b1 (zlen s)) ∧ content (add b1 (zlen s)) = content b ++ s ∧
    zlen (m_data b1) = zlen (m_data b) ∧ m_cur b1 = m_cur b.
Proof.
  intros [Hc Hz] Hfit Hlt. pose proof (zlen_nonneg s). pose proof (zlen_nonneg extra). unfold poke. rewrite Z.add_0_r.
  rewrite write_at_Ok by (rewrite ?zlen_app; lia). mred. eexists. split; [done|].
  assert (E : zlen (ztake (m_cur b) (m_data b) ++ (s ++ extra) ++ zdrop (m_cur b + zlen (s ++ extra)) (m_data b)) = zlen (m_data b))
    by (apply zlen_write; rewrite ?zlen_app; lia).
  split_and!; [|unfold content|done|done].
  - unfold wf, add. cbn [m_data m_cur]. rewrite E. lia.
  - simpl. rewrite <- app_assoc, ztake_app_r by (autorewrite with zlist; lia). f_equal.
    rewrite zlen_ztake by lia. replace (m_cur b + zlen s - m_cur b) with (zlen s) by lia.
    rewrite ztake_app_l by lia. apply ztake_all. lia.
Qed.

Lemma append_cases b s : wf b → zlen s < 2 ^ 64 →
  ∃ b' (k : bool), append b s = Ok b' ∧ wf b' ∧ zlen (m_data b') = zlen (m_data b) ∧
    content b' = content b ++ (if k then s else []) ∧ (m_cur b + zlen s < zlen (m_data b) → k = true).
Proof.
  intros Hw Hs. pose proof Hw as [H1 H2]. unfold append. rewrite avail_wf by done. rewrite uwrap_small by lia.
  destruct (Z.gtb_spec (zlen (m_data b) - m_cur b) (zlen s)) as [Hg|Hg].
  - destruct (poke_add b s [] Hw) as (b1 & E & Hw1 & Hc1 & Hd1 & _); [rewrite zlen_nil; lia|lia|].
    rewrite app_nil_r in E. rewrite E. mred. exists (add b1 (zlen s)), true. done.
  - exists b, false. rewrite app_nil_r. split_and!; [done..|]. lia.
Qed.

(** One number: the digits and the terminator stay inside the array. *)
Lemma put_number_ok b prefix text : wf b → 48 ≤ zlen (m_data b) - m_cur b → zlen prefix ≤ 2 → 1 ≤ zlen text ≤ 45 →
  ∃ b', put_number b prefix (Some text) = Ok b' ∧ wf b' ∧ zlen (m_data b') = zlen (m_data b) ∧
    content b' = content b ++ prefix ++ text.
Proof.
  intros Hw Ha Hp Ht. pose proof (zlen_nonneg prefix). unfold put_number.
  destruct (poke_add b prefix [] Hw) as (b1 & E1 & Hw1 & Hc1 & Hd1 & Hm1); [rewrite zlen_nil; lia|lia|].
  rewrite app_nil_r in E1. rewrite E1. mred.
  destruct (poke_add (add b1 (zlen prefix)) text [NUL] Hw1) as (b2 & E2 & Hw2 & Hc2 & Hd2 & Hm2);
    [simpl; rewrite Hd1, Hm1, zlen_cons, zlen_nil; lia|simpl; lia|].
  unfold poke in *. simpl in E2. rewrite Z.add_0_r in E2.
  destruct (write_at (m_cur b1 + zlen prefix) (text ++ [NUL]) (m_data b1)) as [d|f]; [|done]. cbn [mbind res_bind] in E2.
  injection E2 as <-. eexists. split; [reflexivity|].
  replace (add (mkFixed d (m_cur b1)) (zlen text + zlen prefix)) with (add (mkFixed d (m_cur b1 + zlen prefix)) (zlen text))
    by (unfold add; simpl; f_equal; lia).
  split; [done|]. simpl in *. split; [lia|]. by rewrite Hc2, Hc1, app_assoc.
Qed.

(** What putting an item does: its whole text, or nothing when the buffer is
    nearly full. *)
Definition outcome (b : FixedBuffer) (x : item) (r : res FixedBuffer) : Prop :=
  ∃ b' t (k : bool), r = Ok b' ∧ wf b' ∧ zlen (m_data b') = zlen (m_data b) ∧ shows x t ∧
    content b' = content b ++ (if k then t else []) ∧ (m_cur b + zlen t + 48 ≤ zlen (m_data b) → k = true).

Lemma outcome_append b x s : wf b → shows x s → zlen s < 2 ^ 64 → outcome b x (append b s).
Proof.
  intros Hw Hsh Hs. destruct (append_cases b s Hw Hs) as (b' & k & ? & ? & ? & ? & Hk).
  exists b', s, k. split_and!; [done..|]. intros. apply Hk. lia.
Qed.

(** The numeric operators write only when 48 bytes are free. *)
Lemma outcome_number b x t (r : res FixedBuffer) :
  wf b → shows x t →
  (48 ≤ zlen (m_data b) - m_cur b → ∃ b', r = Ok b' ∧ wf b' ∧ zlen (m_data b') = zlen (m_data b) ∧ content b' = content b ++ t) →
  outcome b x (if avail b >=? kMaxNumbericSize then r else Ok b).
Proof.
  intros Hw Hsh Hr. pose proof (zlen_nonneg t). rewrite avail_wf by done. unfold kMaxNumbericSize.
  destruct (Z.geb_spec (zlen (m_data b) - m_cur b) 48) as [Ha|Ha].
  - destruct Hr as (b' & -> & Hw' & Hd & Hc); [lia|]. by exists b', t, true.
  - exists b, t, false. rewrite app_nil_r. split_and!; [done..|]. lia.
Qed.

Lemma put_double_ok b s : wf b → zlen s ≤ 46 → 48 ≤ zlen (m_data b) - m_cur b →
  ∃ b', (b1 ← poke b 0 (snprintf (Z.to_nat kMaxNumbericSize) s ++ [NUL]); Ok (add b1 (zlen s))) = Ok b' ∧
    wf b' ∧ zlen (m_data b') = zlen (m_data b) ∧ content b' = content b ++ s.
Proof.
  intros Hw Hs Ha. pose proof (zlen_nonneg s). unfold snprintf, kMaxNumbericSize.
  rewrite take_ge by (unfold zlen in *; simpl; lia).
  destruct (poke_add b s [NUL] Hw) as (b1 & -> & Hw' & Hc & Hd & _); [rewrite zlen_cons, zlen_nil; lia|lia|].
  mred. by exists (add b1 (zlen s)).
Qed.

Lemma put_ok b x : wf b → good_item x → outcome b x (put b x).
Proof.
  intros Hw Hg. destruct x as [v|v|v|s|c|[s|]|s]; simpl in Hg; unfold put.
  - apply outcome_append; [done|constructor|]. destruct v; unfold zlen; simpl; lia.
  - destruct (convert_ok v Hg) as [Ec Hl]. unfold formatInteger. rewrite Ec. mred.
    apply (outcome_number b _ (decimal v)); [done|by constructor|]. intros Ha. apply put_number_ok; [done..|unfold zlen; simpl; lia|lia].
  - destruct (convertHex_ok v Hg) as (h & Ec & Hl & Hval & Hnz). unfold put_pointer. rewrite Ec. mred.
    apply (outcome_number b _ (chars "0x" ++ h)); [done|by constructor|]. intros Ha.
    apply put_number_ok; [done..|unfold zlen; simpl; lia|lia].
  - unfold put_double. apply (outcome_number b _ (fmt_g12 s)); [done|by constructor|]. intros Ha.
    pose proof (fmt_g12_length s Hg). apply put_double_ok; [done|lia|done].
  - apply outcome_append; [done|constructor|unfold zlen; simpl; lia].
  - by apply outcome_append; [|constructor|].
  - apply outcome_append; [done|constructor|unfold zlen; simpl; lia].
  - by apply outcome_append; [|constructor|].
Qed.

(** A bound on the text of an item. *)
Definition item_size (x : item) : Z :=
  match x with
  | IBool _ | IChar _ => 1
  | IInt _ => 21
  | IPtr _ => 18
  | IDouble _ => 19
  | ICString (Some s) | IString s => zlen s
  | ICString None => 6
  end.
Definition items_size (xs : list item) : Z := foldr (λ x n, item_size x + n) 0 xs.

Lemma shows_size xs ts : Forall2 shows xs ts → zlen (concat ts) ≤ items_size xs.
Proof.
  induction 1 as [|x t xs ts Hs _ IH]; [done|]. simpl. rewrite zlen_app.
  assert (zlen t ≤ item_size x); [|unfold items_size in *; lia].
  destruct Hs as [[]|v Hv|v h ? ? ? Hh|v Hv|c|s| |s]; simpl; try done; [by apply convert_ok| |by apply fmt_g12_length].
  rewrite !zlen_cons. lia.
Qed.

(** The texts that were kept. *)
Definition kept (ts : list bytes) (ks : list bool) : bytes := concat (zip_with (λ t (k : bool), if k then t else []) ts ks).

Lemma content_len b : wf b → zlen (content b) = m_cur b.
Proof. intros [H1 H2]. unfold content. apply zlen_ztake. lia. Qed.

(** A chain of items. *)
Lemma puts_ok (xs : list item) : ∀ (b : FixedBuffer),
  wf b → Forall good_item xs →
  ∃ b' ts ks, puts b xs = Ok b' ∧ wf b' ∧ zlen (m_data b') = zlen (m_data b) ∧
    Forall2 shows xs ts ∧ length ks = length ts ∧ content b' = content b ++ kept ts ks ∧
    (zlen (content b) + zlen (concat ts) + 48 ≤ zlen (m_data b) → content b' = content b ++ concat ts).
Proof.
  induction xs as [|x xs IH]; intros b Hw Hg.
  - exists b, [], []. unfold kept. simpl. rewrite app_nil_r. split_and!; done || constructor.
  - apply Forall_cons in Hg as [Hx Hg]. destruct (put_ok b x Hw Hx) as (b1 & t & k & E1 & Hw1 & Hd1 & Hs & Hc1 & Hk1).
    destruct (IH b1 Hw1 Hg) as (b' & ts & ks & E & Hw' & Hd & Hsh & Hl & Hc & Hk).
    exists b', (t :: ts), (k :: ks). unfold puts in *. simpl. rewrite E1. mred. simpl. unfold kept in *. simpl.
    split_and!; [done|done|congruence|by constructor|by rewrite Hl|by rewrite Hc, Hc1, app_assoc|].
    rewrite zlen_app. intros Hfit. pose proof (zlen_nonneg (concat ts)). rewrite content_len in Hfit by done.
    rewrite Hk1 in Hc1 by lia. rewrite Hk, Hc1, <- app_assoc; [done|].
    rewrite Hc1, zlen_app, content_len by done. lia.
Qed.

(** ** Properties *)

(** Integer conversion: for every value of a signed or unsigned type of
    at most 64 bits (the most negative one included) the digit loop of convert
    ends within twenty turns, indexes its digit table in bounds and leaves the
    decimal text of the number; convertHex leaves text of at most sixteen hex
    digits, without leading zero, whose value is the pointer. *)
Theorem convert_correct (v p : Z) :
  - 2 ^ 63 ≤ v < 2 ^ 64 → 0 ≤ p < 2 ^ 64 →
  convert v = Ok (Some (decimal v)) ∧ 1 ≤ zlen (decimal v) ≤ 21 ∧
  ∃ h, convertHex p = Ok (Some h) ∧ 1 ≤ zlen h ≤ 16 ∧ hex_val h = p ∧
    (0 < p → ∃ c cs, h = c :: cs ∧ hex_digit c ≠ 0).
Proof. intros Hv Hp. destruct (convert_ok v Hv). split; [done|]. split; [done|]. by apply convertHex_ok. Qed.

Lemma convert_correct_witness :
  convert (- 2 ^ 63) = Ok (Some (decimal (- 2 ^ 63))) ∧ 1 ≤ zlen (decimal (- 2 ^ 63)) ≤ 21 ∧
  ∃ h, convertHex 48879 = Ok (Some h) ∧ 1 ≤ zlen h ≤ 16 ∧ hex_val h = 48879 ∧
    (0 < 48879 → ∃ c cs, h = c :: cs ∧ hex_digit c ≠ 0).
Proof. apply (convert_correct (- 2 ^ 63) 48879); lia. Defined.

(** C34.  A chain of operator<< on a stream writes no byte outside the buffer
    and keeps or drops each item as a whole: the buffer then holds its former
    content followed by the texts of the kept items in order, and every item
    is kept as long as 48 bytes of the buffer stay free after it. *)
Theorem stream_items (xs : list item) (b : FixedBuffer) :
  wf b → Forall good_item xs →
  ∃ b' ts ks, puts b xs = Ok b' ∧ wf b' ∧ zlen (m_data b') = zlen (m_data b) ∧
    Forall2 shows xs ts ∧ length ks = length ts ∧ content b' = content b ++ kept ts ks ∧
    (zlen (content b) + zlen (concat ts) + 48 ≤ zlen (m_data b) → content b' = content b ++ concat ts).
Proof. apply puts_ok. Qed.

Lemma stream_items_witness :
  let xs := [ICString (Some (chars "n = ")); IInt (-42); IChar " "%char; IPtr 48879; IDouble (Finite true 5 (-3))] in
  ∃ b' ts ks, puts (FixedBuffer_ctor (replicate 100 NUL)) xs = Ok b' ∧ wf b' ∧
    zlen (m_data b') = zlen (replicate 100 NUL) ∧
    Forall2 shows xs ts ∧ length ks = length ts ∧ content b' = [] ++ kept ts ks ∧
    (zlen (content (FixedBuffer_ctor (replicate 100 NUL))) + zlen (concat ts) + 48 ≤ zlen (replicate 100 NUL) →
      content b' = [] ++ concat ts).
Proof.
  intros xs. apply (stream_items xs (FixedBuffer_ctor (replicate 100 NUL))).
  - zcomp.
  - repeat constructor; simpl; lia.
Defined.


