(* ===== verification/LogFormat.v ===== *)
(** * Sizes as text: formatSI and formatIEC of src/dc/base/logStream.cc

    The two functions compute in [double].  A double here is an integer [v]
    that stands for [v / 2^64], rounded as in file Doubles.  That
    covers the doubles the functions meet, which are zero or at least 2^-12:
    none is subnormal and all are multiples of 2^-64.  printf's %.2f rounds
    the exact value of the double, ties to even. *)

From S2P Require Import Prelude Doubles.

Open Scope Z_scope.

(** ** Doubles *)

Definition one : Z := 2 ^ 64.

(** [static_cast<double>(s)] *)
Definition double_of (s : Z) : Z := dround (s * one) 1.
(** A literal [p / d]; [x * y] and [x / y] on doubles. *)
Definition literal (p d : Z) : Z := dround (p * one) d.
Definition dmul (x y : Z) : Z := dround (x * y) one.
Definition ddiv (x y : Z) : Z := dround (x * one) y.

(** ["%.<prec>f"]: the digits, and the text. *)
Definition fixed_digits (prec : nat) (v : Z) : Z := round_half_even (v * 10 ^ Z.of_nat prec) one.
Definition fixed_text (prec : nat) (digits : Z) : list ascii :=
  decimal (digits / 10 ^ Z.of_nat prec) ++
  match prec with O => [] | _ => "."%char :: fmt_d true prec (digits mod 10 ^ Z.of_nat prec) end.
Definition fmt_f (prec : nat) (v : Z) : list ascii := fixed_text prec (fixed_digits prec v).

(** ** formatSI, formatIEC *)

(** A branch of the chain: the bound on the number, the divisor, the
    precision, the unit. *)
Record branch : Type := mkBranch { limit : Z; unit_ : Z; prec : nat; suffix : string }.

(** The first branch whose bound is above [x], or the last one. *)
Fixpoint choose (x : Z) (bs : list branch) (last : branch) : branch :=
  match bs with
  | [] => last
  | b :: bs' => if x <? limit b then b else choose x bs' last
  end.

(** The if-else chain of formatSI from [s < 9995] on; 1e3 .. 1e18 are exact
    doubles.  The last two branches of T differ from the others: %.0f up to
    99.95T and none up to 999.5T. *)
Definition SI_branches : list branch :=
  [mkBranch 9995 (double_of (10 ^ 3)) 2 "k"; mkBranch 99950 (double_of (10 ^ 3)) 1 "k"; mkBranch 999500 (double_of (10 ^ 3)) 0 "k";
   mkBranch 9995000 (double_of (10 ^ 6)) 2 "M"; mkBranch 99950000 (double_of (10 ^ 6)) 1 "M"; mkBranch 999500000 (double_of (10 ^ 6)) 0 "M";
   mkBranch 9995000000 (double_of (10 ^ 9)) 2 "G"; mkBranch 99950000000 (double_of (10 ^ 9)) 1 "G"; mkBranch 999500000000 (double_of (10 ^ 9)) 0 "G";
   mkBranch 9995000000000 (double_of (10 ^ 12)) 2 "T"; mkBranch 99950000000000 (double_of (10 ^ 12)) 0 "T";
   mkBranch 9995000000000000 (double_of (10 ^ 15)) 2 "P"; mkBranch 99950000000000000 (double_of (10 ^ 15)) 1 "P"; mkBranch 999500000000000000 (double_of (10 ^ 15)) 0 "P"].
Definition SI_last : branch := mkBranch 0 (double_of (10 ^ 18)) 2 "E".

Definition branch_text (b : branch) (n : Z) : list ascii := fmt_f (prec b) (ddiv n (unit_ b)) ++ chars (suffix b).

(** [formatSI(int64_t s)] *)
Definition formatSI (s : Z) : list ascii :=
  let n := double_of s in
  if s <? 1000 then snprintf 64 (decimal s)
  else snprintf 64 (branch_text (choose s SI_branches SI_last) n).

(** Ki .. Ei, computed by repeated multiplication. *)
Definition Ki : Z := double_of 1024.
Definition Mi : Z := dmul Ki Ki.
Definition Gi : Z := dmul Mi Ki.
Definition Ti : Z := dmul Gi Ki.
Definition Pi : Z := dmul Ti Ki.
Definition Ei : Z := dmul Pi Ki.

(** The chain of formatIEC compares the double. *)
Definition IEC_unit (u : Z) (suf : string) : list branch :=
  [mkBranch (dmul u (literal 9995 1000)) u 2 suf; mkBranch (dmul u (literal 9995 100)) u 1 suf;
   mkBranch (dmul u (literal 10235 10)) u 0 suf].
Definition IEC_branches : list branch :=
  IEC_unit Ki "Ki" ++ IEC_unit Mi "Mi" ++ IEC_unit Gi "Gi" ++ IEC_unit Ti "Ti" ++ IEC_unit Pi "Pi" ++
  [mkBranch (dmul Ei (literal 9995 1000)) Ei 2 "Ei"].
Definition IEC_last : branch := mkBranch 0 Ei 1 "Ei".

(** [formatIEC(int64_t s)] *)
Definition formatIEC (s : Z) : list ascii :=
  let n := double_of s in
  if n <? Ki then snprintf 64 (decimal s)
  else snprintf 64 (branch_text (choose n IEC_branches IEC_last) n).

(** ** The digits a branch shows *)

Definition digits (b : branch) (s : Z) : Z := fixed_digits (prec b) (ddiv (double_of s) (unit_ b)).

Lemma one_pos : 0 < one.
Proof. done. Qed.

Lemma double_of_mono s s' : 0 ≤ s ≤ s' → double_of s ≤ double_of s'.
Proof. intros. apply dround_mono; [lia|]. pose proof one_pos. nia. Qed.

Lemma double_of_nonneg s : 0 ≤ s → 0 ≤ double_of s.
Proof. intros. apply dround_nonneg; [lia|]. pose proof one_pos. nia. Qed.

Lemma digits_mono b s s' : 0 < unit_ b → 0 ≤ s ≤ s' → digits b s ≤ digits b s'.
Proof.
  intros Hu Hs. pose proof one_pos. apply rhe_mono; [done|]. apply Z.mul_le_mono_nonneg_r; [apply Z.pow_nonneg; lia|].
  apply dround_mono; [done|]. pose proof (double_of_mono s s' Hs). pose proof (double_of_nonneg s ltac:(lia)). nia.
Qed.

Lemma digits_nonneg b s : 0 < unit_ b → 0 ≤ s → 0 ≤ digits b s.
Proof.
  intros Hu Hs. pose proof one_pos. apply rhe_ge; [done|]. rewrite Z.mul_0_l. apply Z.mul_nonneg_nonneg; [|apply Z.pow_nonneg; lia].
  apply dround_nonneg; [done|]. pose proof (double_of_nonneg s Hs). nia.
Qed.

(** The three roundings together move the number by less than one unit of the
    last digit shown. *)
Lemma digits_err b U s :
  unit_ b = U * one → 0 < U → 0 ≤ s → (prec b ≤ 2)%nat → s * 10 ^ Z.of_nat (prec b) ≤ 2000 * U →
  Z.abs (digits b s * U - s * 10 ^ Z.of_nat (prec b)) < U.
Proof.
  intros Hu HU Hs Hp Hb. unfold digits, ddiv, fixed_digits. rewrite Hu.
  set (N := double_of s). set (q := dround (N * one) (U * one)).
  assert (HN : 0 ≤ N) by by apply double_of_nonneg. pose proof one_pos as H1.
  assert (HT : 1 ≤ 10 ^ Z.of_nat (prec b) ≤ 100) by (destruct (prec b) as [|[|[|?]]]; simpl; lia).
  set (T := 10 ^ Z.of_nat (prec b)) in *. set (D := round_half_even (q * T) one).
  pose proof (dround_err (s * one) 1 ltac:(lia) ltac:(nia)) as E1. change (dround (s * one) 1) with N in E1.
  pose proof (dround_err (N * one) (U * one) ltac:(nia) ltac:(nia)) as E2. fold q in E2.
  pose proof (rhe_err (q * T) one H1) as E3. fold D in E3.
  assert (F1 : 2 * Z.abs (N - s * one) ≤ 1 + s * 2 ^ 12).
  { replace (s * one / 2 ^ 52) with (s * 2 ^ 12) in E1; [lia|].
    unfold one. change (2 ^ 64) with (2 ^ 12 * 2 ^ 52). rewrite Z.mul_assoc, Z.div_mul; lia. }
  assert (F2 : 2 * (Z.abs (q * U - N) * one) ≤ U * one + N * 2 ^ 12).
  { replace (N * one / 2 ^ 52) with (N * 2 ^ 12) in E2
      by (unfold one; change (2 ^ 64) with (2 ^ 12 * 2 ^ 52); rewrite Z.mul_assoc, Z.div_mul; lia).
    replace (q * (U * one) - N * one) with ((q * U - N) * one) in E2 by ring.
    rewrite Z.abs_mul, (Z.abs_eq one) in E2 by lia. nia. }
  set (a := D * one - q * T) in *. set (e := q * U - N) in *. set (c := N - s * one) in *.
  assert (Hc : N = s * one + c) by (unfold c; ring).
  assert (Hid : (D * U - s * T) * one = a * U + e * T + c * T) by (unfold a, e, c; ring).
  clearbody a e c D q. clear E1 E2.
  assert (G1 : 2 * Z.abs (a * U) ≤ U * one).
  { rewrite Z.abs_mul, (Z.abs_eq U), Z.mul_assoc, (Z.mul_comm U) by lia. by apply Z.mul_le_mono_nonneg_r; [lia|]. }
  assert (G3 : 2 * Z.abs (c * T) ≤ 100 + 2000 * U * 2 ^ 12).
  { rewrite Z.abs_mul, (Z.abs_eq T) by lia. rewrite Z.mul_assoc.
    trans ((1 + s * 2 ^ 12) * T); [by apply Z.mul_le_mono_nonneg_r; [lia|]|]. lia. }
  assert (G2 : 2 * Z.abs (e * T) ≤ U * 10000000).
  { rewrite Z.abs_mul, (Z.abs_eq T) by lia.
    assert (HNT : N * T ≤ 2000 * U * one + 100 + 2000 * U * 2 ^ 12).
    { replace (N * T) with (s * T * one + c * T) by (rewrite Hc; ring).
      pose proof (Z.mul_le_mono_nonneg_r (s * T) (2000 * U) one ltac:(lia) Hb). lia. }
    assert (H2 : 2 * (Z.abs e * T) * one ≤ 100 * (U * one) + 2 ^ 12 * (N * T)).
    { replace (2 * (Z.abs e * T) * one) with (2 * (Z.abs e * one) * T) by ring.
      trans ((U * one + N * 2 ^ 12) * T); [by apply Z.mul_le_mono_nonneg_r; [lia|]|].
      pose proof (Z.mul_le_mono_nonneg_l T 100 (U * one) ltac:(unfold one; lia) ltac:(lia)). lia. }
    unfold one in *. lia. }
  assert (2 * Z.abs ((D * U - s * T) * one) < 2 * (U * one)).
  { rewrite Hid. unfold one in *. lia. }
  rewrite Z.abs_mul, (Z.abs_eq one) in H by lia. unfold one in H. lia.
Qed.

Lemma fixed_text_length p D w : 0 ≤ D < 10 ^ Z.of_nat (p + w) → (0 < w)%nat →
  (length (fixed_text p D) ≤ w + match p with O => 0 | _ => S p end)%nat.
Proof.
  intros HD Hw. unfold fixed_text. pose proof (Z.pow_pos_nonneg 10 (Z.of_nat p) ltac:(lia) ltac:(lia)) as Hp.
  rewrite Nat2Z.inj_add, Z.pow_add_r in HD by lia.
  assert (H1 : (length (decimal (D / 10 ^ Z.of_nat p)) ≤ w)%nat).
  { apply decimal_length; [|done]. split; [apply Z.div_pos; lia|]. apply Z.div_lt_upper_bound; lia. }
  rewrite length_app. destruct p as [|p]; [simpl; lia|]. cbn [length].
  rewrite fmt_d_length; [lia| |lia]. apply Z.mod_pos_bound. lia.
Qed.

(** What a branch gives for the numbers up to [hi]. *)
Lemma branch_ok b U s hi w :
  unit_ b = U * one → 0 < U → 0 ≤ s ≤ hi → (prec b ≤ 2)%nat → hi * 10 ^ Z.of_nat (prec b) ≤ 2000 * U →
  digits b hi < 10 ^ Z.of_nat (prec b + w) → (0 < w)%nat → (w + 3 + String.length (suffix b) ≤ 63)%nat →
  ∃ D, snprintf 64 (branch_text b (double_of s)) = fixed_text (prec b) D ++ chars (suffix b) ∧
    Z.abs (D * U - s * 10 ^ Z.of_nat (prec b)) < U ∧
    (length (fixed_text (prec b) D ++ chars (suffix b)) ≤
       w + match prec b with O => 0 | _ => S (prec b) end + String.length (suffix b))%nat.
Proof.
  intros Hu HU Hs Hp Hb Hd Hw Hl. exists (digits b s). pose proof one_pos.
  assert (Hu' : 0 < unit_ b) by nia.
  pose proof (digits_mono b s hi Hu' Hs). pose proof (digits_nonneg b s Hu' ltac:(lia)).
  assert (HL : (length (fixed_text (prec b) (digits b s) ++ chars (suffix b)) ≤
       w + match prec b with O => 0 | _ => S (prec b) end + String.length (suffix b))%nat).
  { rewrite length_app, chars_length. pose proof (fixed_text_length (prec b) (digits b s) w ltac:(lia) Hw). lia. }
  split_and!; [|apply digits_err; try done; try lia|done].
  - unfold branch_text, fmt_f, snprintf. fold (digits b s). apply take_ge. destruct (prec b) as [|[|[|?]]]; lia.
  - trans (hi * 10 ^ Z.of_nat (prec b)); [|done]. apply Z.mul_le_mono_nonneg_r; [apply Z.pow_nonneg; lia|lia].
Qed.

(** ** Theorems *)

Definition SI_units : list (string * Z) :=
  [("k", 10 ^ 3); ("M", 10 ^ 6); ("G", 10 ^ 9); ("T", 10 ^ 12); ("P", 10 ^ 15); ("E", 10 ^ 18)].
Definition IEC_units : list (string * Z) :=
  [("Ki", 2 ^ 10); ("Mi", 2 ^ 20); ("Gi", 2 ^ 30); ("Ti", 2 ^ 40); ("Pi", 2 ^ 50); ("Ei", 2 ^ 60)].

(** A text shows [s]: a decimal number and a unit, with an error below one
    unit of the last digit, in at most [len] characters. *)
Definition shown (units : list (string * Z)) (s : Z) (t : list ascii) (len : nat) : Prop :=
  ∃ p D suf U, (suf, U) ∈ units ∧ t = fixed_text p D ++ chars suf ∧ Z.abs (D * U - s * 10 ^ Z.of_nat p) < U ∧ (length t ≤ len)%nat.

Lemma branch_shown units b U s hi w len :
  (suffix b, U) ∈ units → unit_ b = U * one → 0 < U → 0 ≤ s ≤ hi → (prec b ≤ 2)%nat →
  hi * 10 ^ Z.of_nat (prec b) ≤ 2000 * U → digits b hi < 10 ^ Z.of_nat (prec b + w) → (0 < w)%nat →
  (w + 3 + String.length (suffix b) ≤ 63)%nat →
  (w + match prec b with O => 0 | _ => S (prec b) end + String.length (suffix b) ≤ len)%nat →
  shown units s (snprintf 64 (branch_text b (double_of s))) len.
Proof.
  intros Hin Hu HU Hs Hp Hb Hd Hw Hl Hlen. destruct (branch_ok b U s hi w) as (D & E & H & L); try done.
  exists (prec b), D, (suffix b), U. rewrite E. split_and!; [done..|lia].
Qed.

(** [row U hi w]: the branch in the goal, by evaluation at its largest number. *)
Ltac row U hi w :=
  apply (branch_shown _ _ U _ hi w); [by apply (bool_decide_unpack _); vm_compute|by vm_compute|lia|lia|by vm_compute; lia|
    vm_compute; congruence|by vm_compute|lia|by vm_compute; lia|by vm_compute; lia].

Ltac rows U hi w := split; [row U hi w|intros _; row U hi w].

(** formatSI shows every number that is not negative exactly below 1000, and
    otherwise with an error below one unit of the last digit, in five
    characters up to 9.995P and from 99.95P on, in six in between. *)
Theorem formatSI_shows (s : Z) :
  0 ≤ s < 2 ^ 63 →
  (s < 1000 ∧ formatSI s = decimal s ∧ (length (formatSI s) ≤ 3)%nat) ∨
  (1000 ≤ s ∧ shown SI_units s (formatSI s) 6 ∧
   (s < 9995000000000000 ∨ 99950000000000000 ≤ s → shown SI_units s (formatSI s) 5)).
Proof.
  intros Hs. unfold formatSI. destruct (Z.ltb_spec s 1000) as [H|H].
  { left. pose proof (decimal_length 3 s ltac:(simpl; lia) ltac:(lia)). unfold snprintf. rewrite take_ge by lia. split_and!; [lia|done|lia]. }
  right. split; [done|]. unfold SI_branches. cbn [choose limit].
  repeat match goal with |- context [if s <? ?k then _ else _] => destruct (Z.ltb_spec s k) end.
  - rows (10 ^ 3) 9994 1%nat.
  - rows (10 ^ 3) 99949 2%nat.
  - rows (10 ^ 3) 999499 3%nat.
  - rows (10 ^ 6) 9994999 1%nat.
  - rows (10 ^ 6) 99949999 2%nat.
  - rows (10 ^ 6) 999499999 3%nat.
  - rows (10 ^ 9) 9994999999 1%nat.
  - rows (10 ^ 9) 99949999999 2%nat.
  - rows (10 ^ 9) 999499999999 3%nat.
  - rows (10 ^ 12) 9994999999999 1%nat.
  - rows (10 ^ 12) 99949999999999 3%nat.
  - rows (10 ^ 15) 9994999999999999 1%nat.
  - split; [row (10 ^ 15) 99949999999999999 3%nat|lia].
  - rows (10 ^ 15) 999499999999999999 4%nat.
  - rows (10 ^ 18) 9223372036854775807 1%nat.
Qed.

Lemma formatSI_shows_witness :
  shown SI_units 1536000 (formatSI 1536000) 5 ∧ formatSI 1536000 = chars "1.54M".
Proof.
  destruct (formatSI_shows 1536000) as [(H & _)|(_ & _ & H)]; [lia..|].
  split; [apply H; left; lia|by vm_compute].
Defined.

(** The comment promises five characters; just below 99.95P and 999.5P the
    conversion to double rounds up, which gives six, resp. a number of four
    digits; and a number of hundreds of T is shown in P with leading zero. *)
Theorem formatSI_rounds_up :
  formatSI 99949999999999999 = chars "100.0P" ∧ formatSI 999499999999999999 = chars "1000P" ∧
  formatSI 100000000000000 = chars "0.10P".
Proof. by vm_compute. Qed.

(** A number below the bound of a branch, in terms of the integer. *)
Lemma double_below s hi l : 0 ≤ s → 0 ≤ hi → double_of s < l → l ≤ double_of (hi + 1) → s ≤ hi.
Proof. intros Hs Hh Hl Hb. destruct (decide (s ≤ hi)); [done|]. pose proof (double_of_mono (hi + 1) s). lia. Qed.

Ltac irow U hi w :=
  match goal with H : double_of ?s < _ |- _ =>
    pose proof (double_below s hi _ ltac:(lia) ltac:(lia) H ltac:(vm_compute; congruence)) end;
  row U hi w.

(** formatIEC shows every number that is not negative exactly below 1024, and
    otherwise with an error below one unit of the last digit, in at most six
    characters. *)
Theorem formatIEC_shows (s : Z) :
  0 ≤ s < 2 ^ 63 →
  (s < 1024 ∧ formatIEC s = decimal s ∧ (length (formatIEC s) ≤ 4)%nat) ∨
  (1024 ≤ s ∧ shown IEC_units s (formatIEC s) 6).
Proof.
  intros Hs. unfold formatIEC. destruct (Z.ltb_spec (double_of s) Ki) as [H|H].
  { left. pose proof (double_below s 1023 _ ltac:(lia) ltac:(lia) H ltac:(vm_compute; congruence)).
    pose proof (decimal_length 4 s ltac:(simpl; lia) ltac:(lia)). unfold snprintf. rewrite take_ge by lia. split_and!; [lia|done|lia]. }
  right. split.
  { destruct (decide (1024 ≤ s)); [done|]. pose proof (double_of_mono s 1023 ltac:(lia)) as Hm.
    assert (double_of 1023 < Ki) by by vm_compute. lia. }
  unfold IEC_branches, IEC_unit. cbn [app choose limit].
  repeat match goal with |- context [if double_of s <? ?k then _ else _] => destruct (Z.ltb_spec (double_of s) k) end.
  - irow (2 ^ 10) 10234 1%nat.
  - irow (2 ^ 10) 102348 2%nat.
  - irow (2 ^ 10) 1048063 4%nat.
  - irow (2 ^ 20) 10480517 1%nat.
  - irow (2 ^ 20) 104805171 2%nat.
  - irow (2 ^ 20) 1073217535 4%nat.
  - irow (2 ^ 30) 10732049530 1%nat.
  - irow (2 ^ 30) 107320495308 2%nat.
  - irow (2 ^ 30) 1098974756863 4%nat.
  - irow (2 ^ 40) 10989618719621 1%nat.
  - irow (2 ^ 40) 109896187196211 2%nat.
  - irow (2 ^ 40) 1125350151028735 4%nat.
  - irow (2 ^ 50) 11253369568892025 1%nat.
  - irow (2 ^ 50) 112533695688920264 2%nat.
  - irow (2 ^ 50) 1152358554653425599 4%nat.
  - row (2 ^ 60) 9223372036854775807 1%nat.
  - exfalso. pose proof (double_of_mono s 9223372036854775807 ltac:(lia)).
    assert (double_of 9223372036854775807 < dmul Ei (literal 9995 1000)) by by vm_compute. lia.
Qed.

Lemma formatIEC_shows_witness :
  shown IEC_units 1572864 (formatIEC 1572864) 6 ∧ formatIEC 1572864 = chars "1.50Mi".
Proof.
  destruct (formatIEC_shows 1572864) as [(H & _)|(_ & H)]; [lia..|]. split; [exact H|by vm_compute].
Defined.
