(* ===== verification/Seconds.v ===== *)
(** * Seconds as doubles: timeDifference and addTime of
      src/dc/base/timeStamp.h, ProcessInfo::cpuTime of
      src/dc/base/processInfo.cc

    The timer calls of EventLoop take their delay as a double number of
    seconds, which addTime scales to microseconds and truncates.  A double is
    an integer number of units 2^-128 here: a microsecond is 2^-20 and its last
    bit 2^-72, so no double that these functions compute is lost to the unit. *)

From S2P Require Import Prelude Doubles TimerQueue Timers.

Open Scope Z_scope.

(** ** Doubles *)

Definition tick : Z := 2 ^ 128.

(** Rounding is symmetric in the sign. *)
Definition sround (p d : Z) : Z := Z.sgn p * dround (Z.abs p) d.

(** [static_cast<double>(n)], [x * y] and [x / y] for a positive [y],
    [static_cast<int64_t>(x)]. *)
Definition double_of_int (n : Z) : Z := sround (n * tick) 1.
Definition dtimes (x y : Z) : Z := sround (x * y) tick.
Definition dover (x y : Z) : Z := sround (x * tick) y.
Definition int64_of_double (x : Z) : res Z :=
  let n := Z.quot x tick in
  if (- 2 ^ 63 <=? n) && (n <? 2 ^ 63) then Ok n else Fail (FUndef "double out of the range of int64_t").

(** ** Timestamp *)

(** [timeDifference] *)
Definition timeDifference (high low : Z) : res Z :=
  diff ← i64 (high - low);
  Ok (dover (double_of_int diff) (double_of_int kMicroSecondsPerSecond)).

(** [addTime(Timestamp, double)] *)
Definition addSeconds (timestamp seconds : Z) : res Z :=
  delta ← int64_of_double (dtimes seconds (double_of_int kMicroSecondsPerSecond));
  i64 (timestamp + delta).

(** ** ProcessInfo::cpuTime *)

Record CpuTime : Type := mkCpu { userSeconds : Z; systemSeconds : Z }.
Definition CpuTime_ctor : CpuTime := mkCpu 0 0.
Definition total (c : CpuTime) : Z := sround (userSeconds c + systemSeconds c) 1.

(** [times]: the user and system ticks times(2) reported, or its failure. *)
Definition cpuTime (times : option (Z * Z)) (clockTicksPerSecond : Z) : CpuTime :=
  match times with
  | Some (utime, stime) =>
      let hz := double_of_int clockTicksPerSecond in
      mkCpu (dover (double_of_int utime) hz) (dover (double_of_int stime) hz)
  | None => CpuTime_ctor
  end.

(** ** Exact values *)

(** An integer of at most 53 bits is a double. *)
Lemma double_exact n : 0 ≤ n < 2 ^ 53 → dround (n * tick) 1 = n * tick.
Proof.
  intros Hn. destruct (decide (n = 0)) as [->|Hne]; [done|].
  unfold dround. rewrite Z.div_1_r, Z.mul_1_l.
  assert (Hl : Z.log2 (n * tick) = Z.log2 n + 128) by (unfold tick; rewrite Z.log2_mul_pow2 by lia; lia).
  assert (0 ≤ Z.log2 n ≤ 52).
  { split; [apply Z.log2_nonneg|]. pose proof (proj1 (Z.log2_lt_pow2 n 53 ltac:(lia)) ltac:(lia)). lia. }
  rewrite Hl, Z.max_r by lia. set (e := Z.log2 n + 128 - 52).
  assert (Hp : n * tick = (n * 2 ^ (52 - Z.log2 n)) * 2 ^ e).
  { unfold tick. rewrite <- Z.mul_assoc, <- Z.pow_add_r by lia. do 2 f_equal. lia. }
  assert (0 < 2 ^ e) by (apply Z.pow_pos_nonneg; lia).
  rewrite Hp at 1. unfold round_half_even. rewrite Z.div_mul, Z.mod_mul by lia.
  rewrite (proj2 (Z.ltb_lt _ _)) by lia. by rewrite <- Hp.
Qed.

Lemma double_of_int_exact n : Z.abs n < 2 ^ 53 → double_of_int n = n * tick.
Proof.
  intros Hn. unfold double_of_int, sround. assert (Z.abs (n * tick) = Z.abs n * tick) as -> by (rewrite Z.abs_mul; done).
  rewrite double_exact by lia. assert (Z.sgn (n * tick) = Z.sgn n) as -> by (rewrite Z.sgn_mul; unfold tick; simpl; lia).
  rewrite Z.mul_assoc. f_equal. lia.
Qed.

(** ** From a difference back to a time *)

(** Microseconds to seconds and back, rounded twice. *)
Definition there_and_back (D : Z) : Z :=
  dround (dround (D * tick * tick) (1000000 * tick) * (1000000 * tick)) tick.

Lemma there_and_back_err D : 0 ≤ D ≤ 2 ^ 51 → Z.abs (there_and_back D - D * tick) < tick ∧ 0 ≤ there_and_back D.
Proof.
  intros HD. unfold there_and_back. set (q := dround (D * tick * tick) (1000000 * tick)).
  assert (Hq : 0 ≤ q) by (apply dround_nonneg; unfold tick; lia).
  set (p := dround (q * (1000000 * tick)) tick).
  assert (Hp : 0 ≤ p) by (apply dround_nonneg; unfold tick; lia). split; [|done].
  pose proof (dround_err (D * tick * tick) (1000000 * tick) ltac:(done) ltac:(unfold tick; lia)) as E1. fold q in E1.
  pose proof (dround_err (q * (1000000 * tick)) tick ltac:(done) ltac:(unfold tick; lia)) as E2. fold p in E2.
  replace (D * tick * tick / 2 ^ 52) with (D * 2 ^ 204) in E1
    by (unfold tick; replace (D * 2 ^ 128 * 2 ^ 128) with (D * 2 ^ 204 * 2 ^ 52) by ring; rewrite Z.div_mul; lia).
  replace (q * (1000000 * tick) / 2 ^ 52) with (q * 1000000 * 2 ^ 76) in E2
    by (unfold tick; replace (q * (1000000 * 2 ^ 128)) with (q * 1000000 * 2 ^ 76 * 2 ^ 52) by ring; rewrite Z.div_mul; lia).
  clearbody p q. unfold tick in *. set (q6 := q * 1000000) in *.
  replace (q * (1000000 * 2 ^ 128)) with (q6 * 2 ^ 128) in * by (unfold q6; ring). clearbody q6. lia.
Qed.

Lemma back_down D : 0 ≤ D ≤ 2 ^ 51 → D - 1 ≤ there_and_back D / tick ≤ D.
Proof.
  intros HD. destruct (there_and_back_err D HD) as [H1 H2]. pose proof (eq_refl : (0 <? tick) = true). unfold tick in *.
  pose proof (Z.div_mod (there_and_back D) (2 ^ 128) ltac:(lia)). pose proof (Z.mod_pos_bound (there_and_back D) (2 ^ 128) ltac:(lia)).
  lia.
Qed.

Lemma sround_sgn s p d : 0 < d → 0 ≤ p → -1 ≤ s ≤ 1 → sround (s * p) d = s * dround p d.
Proof.
  intros Hd Hp Hs. unfold sround. rewrite Z.abs_mul, (Z.abs_eq p) by done.
  destruct (decide (p = 0)) as [->|Hne].
  { rewrite !Z.mul_0_r. assert (dround 0 d = 0) as ->; [|lia]. unfold dround, round_half_even. simpl.
    rewrite Z.mod_0_l, Z.div_0_l by lia. by rewrite (proj2 (Z.ltb_lt _ _)) by lia. }
  assert (s = -1 ∨ s = 0 ∨ s = 1) as [->|[->| ->]] by lia; rewrite ?Z.mul_0_l; [|done|];
    rewrite Z.sgn_mul, (Z.sgn_pos p) by lia; by rewrite ?Z.mul_1_l, ?Z.mul_1_r.
Qed.

Lemma difference_scaled d :
  Z.abs d ≤ 2 ^ 51 →
  dtimes (dover (double_of_int d) (double_of_int kMicroSecondsPerSecond)) (double_of_int kMicroSecondsPerSecond) =
  Z.sgn d * there_and_back (Z.abs d).
Proof.
  intros Hd. unfold dover, dtimes. rewrite !double_of_int_exact by (unfold kMicroSecondsPerSecond; lia).
  change (kMicroSecondsPerSecond * tick) with (1000000 * tick).
  replace (d * tick * tick) with (Z.sgn d * (Z.abs d * tick * tick)) by (rewrite !Z.mul_assoc; do 2 f_equal; lia).
  assert (-1 ≤ Z.sgn d ≤ 1) by lia.
  rewrite (sround_sgn _ (Z.abs d * tick * tick)) by (done || (unfold tick; lia)).
  rewrite <- Z.mul_assoc, sround_sgn; [done|done| |done].
  apply Z.mul_nonneg_nonneg; [|done]. apply dround_nonneg; unfold tick; lia.
Qed.

(** ** Properties *)

(** Times and doubles: for two times at most 2^51 microseconds (about
    seventy years) apart, adding their timeDifference to the earlier or later
    one with addTime fails nowhere and misses the other time by at most one
    microsecond, always on the near side: the truncation of the scaled double
    never goes past it. *)
Theorem add_difference (high low : Z) :
  in_signed 64 high → in_signed 64 low → Z.abs (high - low) ≤ 2 ^ 51 →
  ∃ seconds t, timeDifference high low = Ok seconds ∧ addSeconds low seconds = Ok t ∧
    (low ≤ high → high - 1 ≤ t ≤ high ∧ low ≤ t) ∧ (high ≤ low → high ≤ t ≤ high + 1 ∧ t ≤ low).
Proof.
  intros Hh Hl Hd. unfold in_signed in *. change (2 ^ (64 - 1)) with (2 ^ 63) in *.
  unfold timeDifference. unfold i64 at 1. rewrite signed_check_Ok by (unfold in_signed; simpl; lia). cbn [mbind res_bind].
  eexists _, (low + Z.sgn (high - low) * (there_and_back (Z.abs (high - low)) / tick)). split; [done|].
  unfold addSeconds. rewrite difference_scaled by done.
  set (d := high - low) in *. pose proof (back_down (Z.abs d) ltac:(lia)) as Hb.
  destruct (there_and_back_err (Z.abs d) ltac:(lia)) as [_ Hn].
  assert (Hq : Z.quot (Z.sgn d * there_and_back (Z.abs d)) tick = Z.sgn d * (there_and_back (Z.abs d) / tick)).
  { assert (Z.sgn d = -1 ∨ Z.sgn d = 0 ∨ Z.sgn d = 1) as [->|[->| ->]] by lia.
    - replace (-1 * there_and_back (Z.abs d)) with (- there_and_back (Z.abs d)) by lia.
      rewrite Z.quot_opp_l, Z.quot_div_nonneg by (done || unfold tick; lia). lia.
    - done.
    - by rewrite !Z.mul_1_l, Z.quot_div_nonneg by (done || unfold tick; lia). }
  assert (0 ≤ there_and_back (Z.abs d) / tick) by (apply Z.div_pos; done).
  unfold int64_of_double. rewrite Hq. set (T := there_and_back (Z.abs d) / tick) in *. clearbody T.
  assert (Hs : Z.sgn d = -1 ∧ d < 0 ∨ Z.sgn d = 0 ∧ d = 0 ∨ Z.sgn d = 1 ∧ 0 < d) by lia.
  assert (- 2 ^ 51 ≤ Z.sgn d * T ≤ 2 ^ 51) by (destruct Hs as [[-> ?]|[[-> ?]|[-> ?]]]; lia).
  rewrite (proj2 (andb_true_iff _ _)) by (rewrite Z.leb_le, Z.ltb_lt; lia). cbn [mbind res_bind].
  assert (Ht : (d ≤ 0 → d ≤ Z.sgn d * T ≤ d + 1 ∧ Z.sgn d * T ≤ 0) ∧ (0 ≤ d → d - 1 ≤ Z.sgn d * T ≤ d ∧ 0 ≤ Z.sgn d * T))
    by (destruct Hs as [[-> ?]|[[-> ?]|[-> ?]]]; lia).
  unfold i64. rewrite signed_check_Ok by (unfold in_signed; simpl; lia). split; [done|]. lia.
Qed.

Lemma add_difference_witness :
  ∃ seconds t, timeDifference 1700000000000249 1700000000000000 = Ok seconds ∧ addSeconds 1700000000000000 seconds = Ok t ∧
    (1700000000000000 ≤ 1700000000000249 → 1700000000000249 - 1 ≤ t ≤ 1700000000000249 ∧ 1700000000000000 ≤ t) ∧
    (1700000000000249 ≤ 1700000000000000 → 1700000000000249 ≤ t ≤ 1700000000000249 + 1 ∧ t ≤ 1700000000000000).
Proof. apply (add_difference 1700000000000249 1700000000000000); unfold in_signed; simpl; lia. Defined.

(** The microsecond can be lost: addTime truncates 248.99999999999997 to 248
    where the delay was 249 microseconds, and runAfter sets its timer early. *)
Theorem addTime_short : (seconds ← timeDifference 249 0; addSeconds 0 seconds) = Ok 248.
Proof. vm_compute. reflexivity. Qed.

(** [EventLoop::runAfter] with the delay it is given, a double: the time the
    timer is set for is the one addTime computes. *)
Definition runAfter_seconds (alloc : gmap Z Timer → option Z) (inLoop : bool) (s : LoopTimers) (now delay : Z) (cb : nat) :
    res (LoopTimers * Z) :=
  time ← addSeconds now delay;
  runAt alloc inLoop s time cb.

Lemma runAfter_seconds_scaled alloc inLoop s now delay cb time :
  addSeconds now delay = Ok time → runAfter_seconds alloc inLoop s now delay cb = runAfter alloc inLoop s now (time - now) cb.
Proof.
  intros E. unfold runAfter_seconds, runAfter, addTime. rewrite E. cbn [mbind res_bind]. f_equal. lia.
Qed.
