(* ===== verification/Logging.v ===== *)
(** * The logger: src/dc/base/logging.{h,cc}, and the thread id text of
      currentThread.h and thread.cc

    A log statement is one call of the model: it builds the line in a
    [FixedBuffer] of 4000 bytes, with the thread-local cache of the formatted
    second, and hands the line to the output function.  The clock, the thread
    id and strerror_r are parameters. *)

From S2P Require Import Prelude Date LogStream.

Open Scope Z_scope.

(** ** Levels and source files *)

Inductive LogLevel : Type := TRACE | DEBUG | INFO | WARN | ERROR | FATAL.

#[global] Instance LogLevel_eq_dec : EqDecision LogLevel.
Proof. solve_decision. Defined.

Definition level_value (l : LogLevel) : Z :=
  match l with TRACE => 0 | DEBUG => 1 | INFO => 2 | WARN => 3 | ERROR => 4 | FATAL => 5 end.

Definition LogLevelName (l : LogLevel) : bytes :=
  match l with
  | TRACE => chars "TRACE "
  | DEBUG => chars "DEBUG "
  | INFO => chars "INFO  "
  | WARN => chars "WARN  "
  | ERROR => chars "ERROR "
  | FATAL => chars "FATAL "
  end.

(** [initLogLevel], from the two environment variables. *)
Definition initLogLevel (dc_log_trace dc_log_debug : bool) : LogLevel :=
  if dc_log_trace then TRACE else if dc_log_debug then DEBUG else INFO.

Definition SLASH : ascii := "/"%char.

(** [Logger::SourceFile]: what follows the last slash (strrchr). *)
Definition SourceFile (filename : bytes) : bytes :=
  let i := std_find SLASH (reverse filename) in
  if Nat.ltb i (length filename) then drop (length filename - i) filename else filename.

(** ** Thread-local state *)

Record ThreadLocals : Type := mkLocals {
  t_time : bytes;
  t_lastSecond : Z;
  t_cachedTid : Z;
  t_tidString : bytes;
}.

(** A new thread: zero-initialised. *)
Definition locals_init : ThreadLocals := mkLocals [] 0 0 [].

(** [CurrentThread::tid] and [CurrentThread::cachedTid] *)
Definition cachedTid (gettid : Z) (tl : ThreadLocals) : ThreadLocals :=
  if t_cachedTid tl =? 0
  then mkLocals (t_time tl) (t_lastSecond tl) gettid (snprintf 32 (fmt_d false 5 gettid))
  else tl.

(** [CurrentThread::isMainThread] *)
Definition isMainThread (gettid getpid : Z) (tl : ThreadLocals) : bool := t_cachedTid (cachedTid gettid tl) =? getpid.

(** [afterFork], run in the child: the thread locals and the thread name. *)
Definition afterFork (gettid : Z) (tl : ThreadLocals) : ThreadLocals * bytes :=
  (cachedTid gettid (mkLocals (t_time tl) (t_lastSecond tl) 0 (t_tidString tl)), chars "main").

(** Class T: the length given must be that of the string. *)
Definition put_T (b : FixedBuffer) (str : bytes) (len : Z) : res FixedBuffer :=
  cassert (zlen str =? len) "strlen(str) == m_len";; append b str.

(** The text of a broken-down second, "%4d%02d%02d %02d:%02d:%02d". *)
Definition second_text (dt : DateTime) : bytes :=
  fmt_d false 4 (m_year dt) ++ fmt_d true 2 (m_month dt) ++ fmt_d true 2 (m_day dt) ++ chars " " ++
  fmt_d true 2 (m_hour dt) ++ chars ":" ++ fmt_d true 2 (m_minute dt) ++ chars ":" ++ fmt_d true 2 (m_second dt).

Section logger.
Context (g_logTimeZone : TimeZone) (strerror_tl : Z → bytes).

(** The broken-down time formatTime uses. *)
Definition log_time (seconds : Z) : res DateTime :=
  if tz_valid g_logTimeZone then r ← toLocalTime g_logTimeZone seconds; Ok r.1 else toUtcTime seconds.

(** [Logger::Impl::formatTime] *)
Definition formatTime (tl : ThreadLocals) (microSecondsSinceEpoch : Z) (b : FixedBuffer) :
    res (ThreadLocals * FixedBuffer) :=
  let seconds := Z.quot microSecondsSinceEpoch kMicroSecondsPerSecond in
  let microseconds := swrap 32 (Z.rem microSecondsSinceEpoch kMicroSecondsPerSecond) in
  tl1 ← (if negb (seconds =? t_lastSecond tl) then
           dt ← log_time seconds;
           cassert (zlen (second_text dt) =? 17) "len == 17";;
           Ok (mkLocals (snprintf 64 (second_text dt)) seconds (t_cachedTid tl) (t_tidString tl))
         else Ok tl);
  if tz_valid g_logTimeZone then
    us ← Fmt_ctor (chars "." ++ fmt_d true 6 microseconds ++ chars " ");
    cassert (zlen us =? 8) "us.length() == 8";;
    b1 ← put_T b (t_time tl1) 17;
    b2 ← put_T b1 us 8;
    Ok (tl1, b2)
  else
    us ← Fmt_ctor (chars "." ++ fmt_d true 6 microseconds ++ chars "z ");
    cassert (zlen us =? 9) "us.length() == 9";;
    b1 ← put_T b (t_time tl1) 17;
    b2 ← put_T b1 us 9;
    Ok (tl1, b2).

(** [Logger::Impl::Impl] *)
Definition Impl_ctor (tl : ThreadLocals) (gettid now : Z) (level : LogLevel) (savedErrno : Z) (b : FixedBuffer) :
    res (ThreadLocals * FixedBuffer) :=
  '(tl1, b1) ← formatTime tl now b;
  let tl2 := cachedTid gettid tl1 in
  b2 ← put_T b1 (t_tidString tl2) (zlen (t_tidString tl2));
  b3 ← put b2 (IChar " "%char);
  b4 ← put_T b3 (LogLevelName level) 6;
  if negb (savedErrno =? 0) then
    b5 ← puts b4 [ICString (Some (strerror_tl savedErrno)); ICString (Some (chars " (errno ="));
                  IInt savedErrno; ICString (Some (chars ") "))];
    Ok (tl2, b5)
  else Ok (tl2, b4).

(** [Logger::Impl::finish] *)
Definition finish (file : bytes) (line : Z) (b : FixedBuffer) : res FixedBuffer :=
  puts b [ICString (Some (chars " - ")); IString file; IChar ":"%char; IInt line; IChar LF].

(** What a log statement leaves behind: the bytes given to the output
    function, and whether the process goes on. *)
Inductive fate : Type := Continues | Aborts.

(** [Logger::~Logger] *)
Definition Logger_dtor (level : LogLevel) (file : bytes) (line : Z) (b : FixedBuffer) : res (bytes * fate) :=
  b1 ← finish file line b;
  out ← toString b1;
  Ok (out, if bool_decide (level = FATAL) then Aborts else Continues).

(** The constructors: with the function name for TRACE and DEBUG, with errno
    for the SYS forms. *)
Inductive log_form : Type :=
  | LFunc (level : LogLevel) (func : bytes)
  | LLevel (level : LogLevel)
  | LSys (toAbort : bool) (saved_errno : Z).

Definition form_level (f : log_form) : LogLevel :=
  match f with LFunc l _ => l | LLevel l => l | LSys a _ => if a then FATAL else ERROR end.
Definition form_errno (f : log_form) : Z := match f with LSys _ e => e | _ => 0 end.
Definition form_items (f : log_form) : list item :=
  match f with LFunc _ func => [ICString (Some func); IChar " "%char] | _ => [] end.

(** A whole statement [Logger(file, line, ...).stream() << msg...]; [b0] is
    the buffer of the new stream. *)
Definition log_statement (tl : ThreadLocals) (gettid now : Z) (f : log_form) (filename : bytes) (line : Z)
    (msg : list item) (b0 : FixedBuffer) : res (ThreadLocals * (bytes * fate)) :=
  '(tl1, b1) ← Impl_ctor tl gettid now (form_level f) (form_errno f) b0;
  b2 ← puts b1 (form_items f);
  b3 ← puts b2 msg;
  r ← Logger_dtor (form_level f) (SourceFile filename) line b3;
  Ok (tl1, r).
End logger.

(** The macros LOG_TRACE, LOG_DEBUG, LOG_INFO: the level is compared first;
    the others always log. *)
Definition macro_enabled (g_logLevel level : LogLevel) : bool :=
  match level with
  | TRACE | DEBUG | INFO => level_value g_logLevel <=? level_value level
  | _ => true
  end.

(** ** The line of a statement *)

(** Zones whose offsets are at most a day. *)
Definition zone_ok (tz : TimeZone) : Prop :=
  match tz with
  | None => True
  | Some d => wf_zone d ∧ Forall (λ lt, -86400 ≤ utcOffset lt ≤ 86400) (localtimes d)
  end.

(** The offset the zone applies at a second. *)
Definition offset_at (tz : TimeZone) (seconds off : Z) : Prop :=
  match tz with
  | None => off = 0
  | Some d => ∃ lt, in_force d seconds lt ∧ off = utcOffset lt
  end.

(** The seconds of the years 1970 to 9999, less a day. *)
Definition log_seconds (s : Z) : Prop := 1 ≤ s < 253402300800 - 86400.

(** The cached text is that of the cached second. *)
Definition cache_ok (tz : TimeZone) (tl : ThreadLocals) : Prop :=
  (t_lastSecond tl ≠ 0 → ∃ dt, log_time tz (t_lastSecond tl) = Ok dt ∧ t_time tl = second_text dt ∧ zlen (t_time tl) = 17) ∧
  (t_cachedTid tl ≠ 0 → t_tidString tl = fmt_d false 5 (t_cachedTid tl)).

Lemma year_bound dt t : valid_dt dt → fromUtcTime dt = Ok t → -62167219200 ≤ t < 253402300800 → 0 ≤ m_year dt ≤ 9999.
Proof.
  intros Hv. rewrite fromUtcTime_value by done. destruct Hv as (Hv & Hy & Hh & Hm & Hs). intros [= E] Ht.
  fold (ymd_of dt) in Hv. destruct (valid_march _ Hv Hy) as (H1 & _ & H3 & H31 & _). destruct Hv as [Hmo Hd]. simpl in *.
  unfold day_count in E. split.
  - destruct (decide (0 ≤ m_year dt)) as [?|Hneg]; [done|exfalso]. unfold march_year, day_of_year, days_before, march_month in *. simpl in *.
    destruct (Z.leb_spec (m_month dt) 2); [divs|]. destruct (decide (m_year dt = -1)) as [Ey|Ey]; [|divs].
    rewrite Ey in E. change ((-1 + 4800) / 4) with 1199 in E. change ((-1 + 4800) / 100) with 47 in E.
    change ((-1 + 4800) / 400) with 11 in E. assert (day_le : m_day dt ≤ 31) by lia. divs.
  - destruct (decide (m_year dt ≤ 9999)) as [?|Hneg]; [done|exfalso]. unfold march_year, day_of_year, days_before, march_month in *. simpl in *.
    destruct (Z.leb_spec (m_month dt) 2); [|divs]. destruct (decide (m_year dt = 10000)) as [Ey|Ey]; [|divs].
    rewrite Ey in E. change ((10000 + 4799) / 4) with 3699 in E. change ((10000 + 4799) / 100) with 147 in E.
    change ((10000 + 4799) / 400) with 36 in E. divs.
Qed.

Lemma second_text_length dt : valid_dt dt → 0 ≤ m_year dt ≤ 9999 → zlen (second_text dt) = 17.
Proof.
  intros ([Hmo Hd] & _ & Hh & Hmi & Hs) Hy. simpl in *. unfold second_text, zlen. rewrite !length_app.
  assert (days_in_month (m_year dt) (m_month dt) ≤ 31) by (unfold days_in_month; repeat case_match; lia).
  rewrite !fmt_d_length by (simpl; lia). done.
Qed.

(** The time a line carries, and that its text has the asserted length. *)
Lemma log_time_ok tz s : zone_ok tz → log_seconds s →
  ∃ dt off, log_time tz s = Ok dt ∧ offset_at tz s off ∧ fromUtcTime dt = Ok (s + off) ∧ zlen (second_text dt) = 17.
Proof.
  intros Hz Hs. unfold log_seconds in Hs. destruct tz as [d|]; unfold log_time; simpl.
  - destruct Hz as [Hw Ho]. destruct (findLocalTime_in_force d s Hw) as (lt & E & Hf).
    assert (Hlt : -86400 ≤ utcOffset lt ≤ 86400).
    { destruct Hf as (? & ? & _ & _ & _ & L).
      eapply (Forall_forall (λ lt, -86400 ≤ utcOffset lt ≤ 86400)); [exact Ho|]. by eapply list_elem_of_lookup_2. }
    destruct (toUtcTime_valid (s + utcOffset lt)) as (dt & Eb & Hv & Eu); [unfold time_range; lia|].
    exists dt, (utcOffset lt). rewrite E. mred. rewrite i64_Ok by lia. mred. unfold toUtcTime in Eb. rewrite Eb. mred.
    split_and!; [done|by exists lt|done|]. apply second_text_length; [done|]. apply (year_bound dt _ Hv Eu). lia.
  - destruct (toUtcTime_valid s) as (dt & Eb & Hv & Eu); [unfold time_range; lia|]. exists dt, 0. rewrite Z.add_0_r.
    split_and!; [done..|]. apply second_text_length; [done|]. apply (year_bound dt _ Hv Eu). lia.
Qed.

Lemma snprintf_fits n s : (length s < n)%nat → snprintf n s = s.
Proof. intros. unfold snprintf. apply take_ge. lia. Qed.

Lemma put_T_ok b s n : zlen s = n → put_T b s n = put b (IString s).
Proof. intros <-. unfold put_T. by rewrite Z.eqb_refl. Qed.

Definition us_text (tz : TimeZone) (now : Z) : bytes :=
  chars "." ++ fmt_d true 6 (now mod 1000000) ++ (if tz_valid tz then chars " " else chars "z ").

(** formatTime puts the text of the second and of the microseconds, through
    the cache or not. *)
Lemma formatTime_ok tz tl now b :
  zone_ok tz → cache_ok tz tl → log_seconds (now / 1000000) →
  ∃ dt off tl', log_time tz (now / 1000000) = Ok dt ∧ offset_at tz (now / 1000000) off ∧
    fromUtcTime dt = Ok (now / 1000000 + off) ∧
    formatTime tz tl now b = (b' ← puts b [IString (second_text dt); IString (us_text tz now)]; Ok (tl', b')) ∧
    cache_ok tz tl' ∧ t_cachedTid tl' = t_cachedTid tl ∧ zlen (second_text dt) = 17.
Proof.
  intros Hz [Hc Hct] Hs. destruct (log_time_ok tz _ Hz Hs) as (dt & off & E & Ho & Eu & Hl). unfold log_seconds in Hs.
  assert (0 ≤ now) by divs. assert (Hmu : 0 ≤ now mod 1000000 < 1000000) by (by apply Z.mod_pos_bound).
  set (tl' := if negb (now / 1000000 =? t_lastSecond tl) then mkLocals (second_text dt) (now / 1000000) (t_cachedTid tl) (t_tidString tl) else tl).
  assert (Htime : t_time tl' = second_text dt).
  { subst tl'. destruct (Z.eqb_spec (now / 1000000) (t_lastSecond tl)) as [Es|Es]; simpl; [|done].
    destruct Hc as (dt' & E' & Ht & _); [lia|]. rewrite <- Es in E'. by rewrite Ht; congruence. }
  exists dt, off, tl'. split; [done|]. split; [done|]. split; [done|].
  split; [|split; [|split; [subst tl'; by destruct (negb _)|done]]].
  - unfold formatTime. unfold kMicroSecondsPerSecond. change (1000 * 1000) with 1000000.
    rewrite Z.quot_div_nonneg, Z.rem_mod_nonneg by lia. rewrite swrap_small; [|lia|unfold in_signed; simpl; lia]. cbn zeta.
    assert (Et : (if negb (now / 1000000 =? t_lastSecond tl)
        then dt0 ← log_time tz (now / 1000000); cassert (zlen (second_text dt0) =? 17) "len == 17";;
             Ok (mkLocals (snprintf 64 (second_text dt0)) (now / 1000000) (t_cachedTid tl) (t_tidString tl))
        else Ok tl) = Ok tl').
    { subst tl'. destruct (negb _); [|done]. rewrite E. mred. rewrite Hl. mred. simpl.
      by rewrite snprintf_fits by (unfold zlen in Hl; lia). }
    rewrite Et. mred. unfold us_text. pose proof (fmt_d_length true 6 _ Hmu ltac:(lia)) as H6.
    destruct (tz_valid tz); unfold Fmt_ctor; unfold zlen; rewrite !length_app, H6; cbn [length chars]; mred; simpl cassert; mred;
      rewrite !length_app, H6; cbn [length chars]; simpl cassert; mred; rewrite Htime, put_T_ok by done;
      unfold puts; cbn [foldM]; destruct (put b (IString (second_text dt))) as [b1|f]; mred; try done;
      rewrite put_T_ok by (unfold zlen; rewrite !length_app, H6; done); by destruct (put b1 _).
  - subst tl'. destruct (negb _); [|done]. split; [|done]. intros _. exists dt. done.
Qed.

(** The items of a line, in order. *)
Definition errno_items (strerror_tl : Z → bytes) (e : Z) : list item :=
  if e =? 0 then [] else [ICString (Some (strerror_tl e)); ICString (Some (chars " (errno =")); IInt e; ICString (Some (chars ") "))].
Definition rest_items (tz : TimeZone) (strerror_tl : Z → bytes) (tid now : Z) (f : log_form)
    (filename : bytes) (line : Z) (msg : list item) : list item :=
  [IString (us_text tz now); IString (fmt_d false 5 tid); IChar " "%char;
   IString (LogLevelName (form_level f))] ++ errno_items strerror_tl (form_errno f) ++ form_items f ++ msg ++
  [ICString (Some (chars " - ")); IString (SourceFile filename); IChar ":"%char; IInt line; IChar LF].

Definition tid_of (tl : ThreadLocals) (gettid : Z) : Z := if t_cachedTid tl =? 0 then gettid else t_cachedTid tl.

Lemma tid_text tz tl gettid : cache_ok tz tl → 0 < gettid < 2 ^ 31 →
  t_tidString (cachedTid gettid tl) = fmt_d false 5 (tid_of tl gettid) ∧ cache_ok tz (cachedTid gettid tl).
Proof.
  intros [Hc Ht] Hg. unfold cachedTid, tid_of. destruct (Z.eqb_spec (t_cachedTid tl) 0) as [E|E]; simpl; [|by split; [apply Ht|split]].
  assert (Hl : (length (fmt_d false 5 gettid) < 32)%nat).
  { unfold fmt_d. rewrite (proj2 (Z.ltb_ge _ _)) by lia. rewrite Z.abs_eq by lia. simpl. rewrite length_app, length_replicate.
    pose proof (decimal_length 10 gettid ltac:(simpl; lia) ltac:(lia)). lia. }
  rewrite snprintf_fits by done. split; [done|]. split; simpl; done.
Qed.

(** The child of a fork, whose only thread has the id of the process, logs
    under its own id and is the main thread, whatever the parent had cached. *)
Lemma afterFork_own_id tz tl pid : cache_ok tz tl → 0 < pid < 2 ^ 31 →
  let child := (afterFork pid tl).1 in
  cache_ok tz child ∧ tid_of child pid = pid ∧ t_tidString child = fmt_d false 5 pid ∧ isMainThread pid pid child = true.
Proof.
  intros [Hc Ht] Hp child. assert (Hc0 : cache_ok tz (mkLocals (t_time tl) (t_lastSecond tl) 0 (t_tidString tl))) by (by split).
  destruct (tid_text tz _ pid Hc0 Hp) as [Et Hok]. change (cachedTid pid _) with child in *.
  assert (t_cachedTid child = pid) as E by done. split_and!; [done| |done|].
  - unfold tid_of. rewrite E. by destruct (pid =? 0).
  - unfold isMainThread, cachedTid. rewrite E. rewrite (proj2 (Z.eqb_neq pid 0)) by lia. rewrite E. apply Z.eqb_refl.
Qed.

Lemma puts_app b xs ys : puts b (xs ++ ys) = (b' ← puts b xs; puts b' ys).
Proof. apply foldM_app. Qed.

Lemma puts_cons b x xs : puts b (x :: xs) = (b' ← put b x; puts b' xs).
Proof. done. Qed.

Lemma log_statement_items tz strerror_tl tl gettid now f filename line msg b0 :
  zone_ok tz → cache_ok tz tl → log_seconds (now / 1000000) → 0 < gettid < 2 ^ 31 →
  ∃ dt off tl', log_time tz (now / 1000000) = Ok dt ∧ offset_at tz (now / 1000000) off ∧
    fromUtcTime dt = Ok (now / 1000000 + off) ∧ cache_ok tz tl' ∧
    log_statement tz strerror_tl tl gettid now f filename line msg b0 =
      (b ← puts b0 (IString (second_text dt) :: rest_items tz strerror_tl (tid_of tl gettid) now f filename line msg);
       out ← toString b; Ok (tl', (out, if bool_decide (form_level f = FATAL) then Aborts else Continues))) ∧
    zlen (second_text dt) = 17 ∧ t_cachedTid tl' = tid_of tl gettid.
Proof.
  intros Hz Hc Hs Hg. destruct (formatTime_ok tz tl now b0 Hz Hc Hs) as (dt & off & tl1 & E1 & Ho & Eu & Ef & Hc1 & Etid & Hl).
  destruct (tid_text tz tl1 gettid Hc1 Hg) as [Et Hc2].
  exists dt, off, (cachedTid gettid tl1). split_and!; [done..| |done|].
  2:{ unfold cachedTid, tid_of. rewrite Etid. by destruct (t_cachedTid tl =? 0). }
  unfold log_statement, Impl_ctor, Logger_dtor, finish. rewrite Ef. clear Ef. unfold rest_items.
  assert (Htid : tid_of tl1 gettid = tid_of tl gettid) by (unfold tid_of; by rewrite Etid).
  set (fin := [ICString (Some (chars " - ")); _; _; _; _]).
  change (?x :: [?y; ?z; ?u; ?v] ++ ?r) with ([x; y] ++ z :: u :: v :: r). rewrite puts_app.
  destruct (puts b0 _) as [b2|]; mred; [|done]. cbn [app].
  rewrite puts_cons, put_T_ok by done. rewrite Et, Htid. destruct (put b2 (IString _)) as [b3|]; mred; [|done].
  rewrite puts_cons. destruct (put b3 (IChar _)) as [b4|]; mred; [|done].
  rewrite puts_cons, put_T_ok by (destruct (form_level f); done). destruct (put b4 (IString _)) as [b5|]; mred; [|done].
  unfold errno_items. destruct (form_errno f =? 0); cbn [negb]; [rewrite app_nil_l|rewrite puts_app; destruct (puts b5 _) as [b6|]; mred; [|done]];
    mred; rewrite puts_app;
    (destruct (puts _ (form_items f)) as [b7|]; mred; [|done]); rewrite puts_app;
    (destruct (puts b7 msg) as [b8|]; mred; [|done]); (destruct (puts b8 fin) as [b9|]; mred; [|done]); by destruct (toString b9).
Qed.

(** The text of a statement's line, at the time [now] in a zone. *)
Definition line_text (tz : TimeZone) (strerror_tl : Z → bytes) (tid now : Z) (f : log_form)
    (filename : bytes) (line : Z) (msg : list item) (text : bytes) : Prop :=
  ∃ dt off ts, offset_at tz (now / 1000000) off ∧ fromUtcTime dt = Ok (now / 1000000 + off) ∧
    Forall2 shows (IString (second_text dt) :: rest_items tz strerror_tl tid now f filename line msg) ts ∧
    text = concat ts.

(** A statement whose text fits writes it. *)
Lemma log_statement_writes tz strerror_tl tl gettid now f filename line msg b0 :
  zone_ok tz → cache_ok tz tl → log_seconds (now / 1000000) → 0 < gettid < 2 ^ 31 →
  wf b0 → m_cur b0 = 0 →
  Forall good_item (rest_items tz strerror_tl (tid_of tl gettid) now f filename line msg) →
  17 + items_size (rest_items tz strerror_tl (tid_of tl gettid) now f filename line msg) + 48 ≤ zlen (m_data b0) →
  ∃ text tl', line_text tz strerror_tl (tid_of tl gettid) now f filename line msg text ∧
    log_statement tz strerror_tl tl gettid now f filename line msg b0 =
      Ok (tl', (text, if bool_decide (form_level f = FATAL) then Aborts else Continues)) ∧
    cache_ok tz tl' ∧ t_cachedTid tl' = tid_of tl gettid ∧ zlen text < zlen (m_data b0).
Proof.
  intros Hz Hc Hs Hg Hw H0 Hgood Hfit.
  destruct (log_statement_items tz strerror_tl tl gettid now f filename line msg b0 Hz Hc Hs Hg)
    as (dt & off & tl' & E1 & Ho & Eu & Hc' & -> & Hl & Et).
  assert (Hgood' : Forall good_item (IString (second_text dt) :: rest_items tz strerror_tl (tid_of tl gettid) now f filename line msg))
    by (constructor; [simpl; lia|done]).
  destruct (puts_ok _ b0 Hw Hgood') as (b & ts & ks & -> & Hwb & Hd & Hsh & _ & _ & Hall).
  pose proof (shows_size _ _ Hsh) as Hsz. simpl in Hsz, Hfit.
  assert (Hcb : content b = concat ts).
  { assert (content b0 = []) as E0 by (unfold content; by rewrite H0). rewrite E0 in Hall.
    rewrite Hall; [done|]. rewrite zlen_nil. lia. }
  exists (concat ts), tl'. split_and!; [by exists dt, off, ts| |done|done|lia].
  mred. unfold toString, length_. destruct Hwb as [Hwb1 Hwb2].
  rewrite swrap_small; [|lia|unfold in_signed; simpl; lia]. rewrite read_at_Ok by lia. mred.
  unfold slice. rewrite zdrop_0, Z.sub_0_r. rewrite <- Hcb. done.
Qed.

(** ** Properties *)


