(* ===== verification/LogFile.v ===== *)
(** * Log files: src/dc/base/fileUtil.{h,cc} (AppendFile), logFile.{h,cc}

    The file system is a map from names to contents; the answers of fwrite
    and the clock are parameters. *)

From S2P Require Import Prelude LogStream.

Open Scope Z_scope.

(** ** AppendFile *)

Record AppendFile : Type := mkAppendFile { af_name : bytes; m_writtenBytes : Z }.

Abbreviation files := (gmap bytes bytes).

(** [AppendFile::AppendFile]: opens for appending, creating the file. *)
Definition AppendFile_ctor (fs : files) (filename : bytes) : files * AppendFile :=
  (<[filename := default [] (fs !! filename)]> fs, mkAppendFile filename 0).

(** One call of fwrite_unlocked: how many bytes it takes, and ferror after
    it. *)
Definition fwrite_answer : Type := Z * bool.

(** The loop of [AppendFile::append] on what remains to be written: the bytes
    the stream took and the count [written]; [None] when the answers run out
    (fwrite keeps taking nothing without an error). *)
Fixpoint append_loop (answers : list fwrite_answer) (remain : bytes) (taken : bytes) (written : Z) : option (bytes * Z) :=
  if Nat.eqb (length remain) 0 then Some (taken, written)
  else match answers with
       | [] => None
       | (n, err) :: answers' =>
           if negb (n =? zlen remain) && err then Some (taken ++ ztake n remain, written)
           else append_loop answers' (zdrop n remain) (taken ++ ztake n remain) (written + n)
       end.

(** [AppendFile::append] *)
Definition file_append (answers : list fwrite_answer) (fs : files) (f : AppendFile) (logline : bytes) :
    option (files * AppendFile) :=
  match append_loop answers logline [] 0 with
  | None => None
  | Some (taken, written) =>
      Some (<[af_name f := default [] (fs !! af_name f) ++ taken]> fs,
            mkAppendFile (af_name f) (m_writtenBytes f + written))
  end.

(** ** LogFile *)

Definition _kRollPerSeconds : Z := 60 * 60 * 24.

Record LogFile : Type := mkLogFile {
  m_basename : bytes;
  m_rollSize : Z;
  m_flushInterval : Z;
  m_checkEveryN : Z;
  m_count : Z;
  m_startOfPeriod : Z;
  m_lastRoll : Z;
  m_lastFlush : Z;
  m_file : option AppendFile;
  flushes : nat;
}.

Section logfile.
(** ProcessInfo::hostname, and the successive answers of time(nullptr). *)
Context (hostname : bytes) (clock : nat → Z).

(** The file system and how often the clock was read. *)
Record World : Type := mkWorld { w_files : files; w_ticks : nat }.

Definition time_ (w : World) : Z * World := (clock (w_ticks w), mkWorld (w_files w) (S (w_ticks w))).

(** [LogFile::getLogFileName]: the time and the pid are formatted but not
    added to the name. *)
Definition getLogFileName (basename : bytes) (w : World) : bytes * Z * World :=
  let '(now, w1) := time_ w in
  (basename ++ hostname ++ chars ".log", now, w1).

(** [LogFile::rollFile] *)
Definition rollFile (l : LogFile) (w : World) : LogFile * World * bool :=
  let '(filename, now, w1) := getLogFileName (m_basename l) w in
  let start := Z.quot now _kRollPerSeconds * _kRollPerSeconds in
  if now >? m_lastRoll l then
    let '(fs, file) := AppendFile_ctor (w_files w1) filename in
    (mkLogFile (m_basename l) (m_rollSize l) (m_flushInterval l) (m_checkEveryN l) (m_count l) start now now (Some file)
       (flushes l), mkWorld fs (w_ticks w1), true)
  else (l, w1, false).

(** [LogFile::LogFile] *)
Definition LogFile_ctor (basename : bytes) (rollSize flushInterval checkEveryN : Z) (w : World) : res (LogFile * World) :=
  cassert (negb (bool_decide ("/"%char ∈ basename))) "basename.find('/') == npos";;
  let '(l, w1, _) := rollFile (mkLogFile basename rollSize flushInterval checkEveryN 0 0 0 0 None 0) w in
  Ok (l, w1).

(** m_file->flush() *)
Definition do_flush (l : LogFile) : res LogFile :=
  match m_file l with
  | None => Fail (FUndef "m_file is null")
  | Some _ => Ok (mkLogFile (m_basename l) (m_rollSize l) (m_flushInterval l) (m_checkEveryN l) (m_count l)
                    (m_startOfPeriod l) (m_lastRoll l) (m_lastFlush l) (m_file l) (S (flushes l)))
  end.

Definition set_count (l : LogFile) (n : Z) : LogFile :=
  mkLogFile (m_basename l) (m_rollSize l) (m_flushInterval l) (m_checkEveryN l) n
    (m_startOfPeriod l) (m_lastRoll l) (m_lastFlush l) (m_file l) (flushes l).
Definition set_lastFlush (l : LogFile) (t : Z) : LogFile :=
  mkLogFile (m_basename l) (m_rollSize l) (m_flushInterval l) (m_checkEveryN l) (m_count l)
    (m_startOfPeriod l) (m_lastRoll l) t (m_file l) (flushes l).
Definition set_file (l : LogFile) (f : AppendFile) : LogFile :=
  mkLogFile (m_basename l) (m_rollSize l) (m_flushInterval l) (m_checkEveryN l) (m_count l)
    (m_startOfPeriod l) (m_lastRoll l) (m_lastFlush l) (Some f) (flushes l).

(** [LogFile::append_unlocked].  The operands of > in
    [m_file->writtenBytes() > rollFile()] are unsequenced: [lhs_first] says whether
    the left one is evaluated first.  [None] when fwrite takes nothing for
    ever. *)
Definition append_unlocked (lhs_first : bool) (answers : list fwrite_answer) (l : LogFile) (w : World) (logline : bytes) :
    res (option (LogFile * World)) :=
  match m_file l with
  | None => Fail (FUndef "m_file is null")
  | Some f =>
      match file_append answers (w_files w) f logline with
      | None => Ok None
      | Some (fs, f1) =>
          let l1 := set_file l f1 in
          let '(l2, w2, rolled) := rollFile l1 (mkWorld fs (w_ticks w)) in
          let writtenBytes := match m_file (if lhs_first then l1 else l2) with Some g => m_writtenBytes g | None => 0 end in
          if writtenBytes >? (if rolled then 1 else 0)
          then let '(l3, w3, _) := rollFile l2 w2 in Ok (Some (l3, w3))
          else
            let l3 := set_count l2 (m_count l2 + 1) in
            if m_count l3 >? m_checkEveryN l3 then
              let l4 := set_count l3 0 in
              let '(now, w3) := time_ w2 in
              let thisPeriod := Z.quot now _kRollPerSeconds * _kRollPerSeconds in
              if negb (thisPeriod =? m_startOfPeriod l4)
              then let '(l5, w4, _) := rollFile l4 w3 in Ok (Some (l5, w4))
              else if now - m_lastFlush l4 >? m_flushInterval l4
                   then l5 ← do_flush (set_lastFlush l4 now); Ok (Some (l5, w3))
                   else Ok (Some (l4, w3))
            else Ok (Some (l3, w2))
      end
  end.

(** [LogFile::append]: the same under the mutex. *)
Definition lf_append (lhs_first : bool) (answers : list fwrite_answer) (l : LogFile) (w : World) (logline : bytes) :
    res (option (LogFile * World)) := append_unlocked lhs_first answers l w logline.

(** [LogFile::flush] *)
Definition lf_flush (l : LogFile) : res LogFile := do_flush l.
End logfile.

(** ** Nothing is lost when the file is rolled *)

(** What fwrite documents: it takes some of the bytes it is given, all of
    them unless an error occurs, which does not happen here. *)
Fixpoint obeys (answers : list fwrite_answer) (remain : bytes) : Prop :=
  match answers with
  | [] => remain = []
  | (n, err) :: answers' => 0 < n ≤ zlen remain ∧ err = false ∧ obeys answers' (zdrop n remain)
  end.

Lemma append_loop_all answers : ∀ remain taken written, obeys answers remain →
  append_loop answers remain taken written = Some (taken ++ remain, written + zlen remain).
Proof.
  induction answers as [|[n err] answers IH]; intros remain taken written H; simpl in H.
  - subst. simpl. by rewrite app_nil_r, zlen_nil, Z.add_0_r.
  - destruct H as (Hn & -> & H). cbn [append_loop].
    destruct remain as [|c remain]; [unfold zlen in Hn; simpl in Hn; lia|]. cbn [length Nat.eqb].
    rewrite andb_false_r, IH by done. rewrite <- app_assoc, ztake_zdrop. f_equal. f_equal.
    rewrite zlen_zdrop by lia. lia.
Qed.

Section keeps.
Context (hostname : bytes) (clock : nat → Z).

Definition log_name (l : LogFile) : bytes := m_basename l ++ hostname ++ chars ".log".
Definition lf_ok (l : LogFile) : Prop := ∃ f, m_file l = Some f ∧ af_name f = log_name l.

Definition contents (w : World) (name : bytes) : bytes := default [] (w_files w !! name).

(** Two worlds with the same contents in every file. *)
Definition same_contents (w w' : World) : Prop := ∀ name, contents w name = contents w' name.

#[local] Instance same_contents_trans : Transitive same_contents.
Proof. intros w1 w2 w3 H1 H2 n. by rewrite H1. Qed.

Lemma rollFile_keeps l w l' w' b :
  lf_ok l → rollFile hostname clock l w = (l', w', b) → lf_ok l' ∧ m_basename l' = m_basename l ∧ same_contents w w'.
Proof.
  intros (f & Ef & En). unfold rollFile, getLogFileName, time_. simpl.
  destruct (clock (w_ticks w) >? m_lastRoll l); intros [= <- <- <-].
  - split_and!; [by eexists|done|]. intros name. unfold contents. simpl.
    destruct (decide (name = m_basename l ++ hostname ++ chars ".log")) as [->|Hne].
    + rewrite lookup_insert_eq. by destruct (w_files w !! _).
    + by rewrite lookup_insert_ne.
  - split_and!; [by exists f|done|done].
Qed.

Lemma append_keeps lhs_first answers l w s :
  lf_ok l → obeys answers s →
  ∃ l' w', lf_append hostname clock lhs_first answers l w s = Ok (Some (l', w')) ∧ lf_ok l' ∧ m_basename l' = m_basename l ∧
    contents w' (log_name l) = contents w (log_name l) ++ s ∧
    ∀ name, name ≠ log_name l → contents w' name = contents w name.
Proof.
  intros (f & Ef & En) Ho. unfold lf_append, append_unlocked. rewrite Ef. unfold file_append.
  rewrite append_loop_all by done. simpl. set (fs := <[_ := _]> (w_files w)). set (l1 := set_file l _).
  assert (Hok1 : lf_ok l1) by (by eexists).
  assert (Hadd : contents (mkWorld fs (w_ticks w)) (log_name l) = contents w (log_name l) ++ s ∧
    ∀ name, name ≠ log_name l → contents (mkWorld fs (w_ticks w)) name = contents w name).
  { unfold contents, fs. simpl. rewrite En. split; [by rewrite lookup_insert_eq|]. intros. by rewrite lookup_insert_ne. }
  assert (Hres : ∀ l' w', lf_ok l' → m_basename l' = m_basename l1 → same_contents (mkWorld fs (w_ticks w)) w' →
    lf_ok l' ∧ m_basename l' = m_basename l ∧ contents w' (log_name l) = contents w (log_name l) ++ s ∧
    ∀ name, name ≠ log_name l → contents w' name = contents w name).
  { intros l' w' H1 H2 H3. split; [done|]. split; [by rewrite H2|]. destruct Hadd as [A1 A2]. split; [by rewrite <- H3|].
    intros name Hn. by rewrite <- H3, A2. }
  destruct (rollFile hostname clock l1 (mkWorld fs (w_ticks w))) as [[l2 w2] rolled] eqn:E2.
  destruct (rollFile_keeps _ _ _ _ _ Hok1 E2) as (Hok2 & Hb2 & Hs2).
  match goal with |- context [if ?c then _ else _] => destruct c end.
  { destruct (rollFile hostname clock l2 w2) as [[l3 w3] r3] eqn:E3.
    destruct (rollFile_keeps _ _ _ _ _ Hok2 E3) as (Hok3 & Hb3 & Hs3).
    eexists _, _. split; [done|]. apply Hres; [done|congruence|by etrans]. }
  match goal with |- context [if ?c then _ else _] => destruct c end; [|eexists _, _; split; [done|]; by apply Hres].
  unfold time_. cbn zeta iota. match goal with |- context [if ?c then _ else _] => destruct c end.
  - match goal with |- context [rollFile hostname clock ?x ?y] => destruct (rollFile hostname clock x y) as [[l5 w4] r5] eqn:E5 end. apply rollFile_keeps in E5 as (Hok5 & Hb5 & Hs5); [|done].
    eexists _, _. split; [done|]. apply Hres; [done|by rewrite Hb5|]. etrans; [done|]. exact Hs5.
  - destruct Hok2 as (f2 & Ef2 & En2). destruct (_ - _ >? _); eexists _, _.
    + unfold do_flush. simpl. rewrite Ef2. mred. split; [done|]. apply Hres; [by exists f2|done|done].
    + split; [done|]. apply Hres; [by exists f2|done|done].
Qed.

(** Appending line after line. *)
Fixpoint append_all (steps : list (bool * list fwrite_answer * bytes)) (l : LogFile) (w : World) : res (option (LogFile * World)) :=
  match steps with
  | [] => Ok (Some (l, w))
  | (lhs_first, answers, s) :: steps' =>
      r ← lf_append hostname clock lhs_first answers l w s;
      match r : option (LogFile * World) with
      | None => Ok None
      | Some (l', w') => append_all steps' l' w'
      end
  end.

(** No line is lost, repeated or reordered by rolling: as long as fwrite
    takes the bytes it is given, in however many pieces, every LogFile::append
    returns, and the log file then holds its former content followed by the
    lines in the order of the calls, whenever the file was reopened in
    between; no other file changes. *)
Theorem logfile_keeps_lines (steps : list (bool * list fwrite_answer * bytes)) (l : LogFile) (w : World) :
  lf_ok l → Forall (λ st, obeys st.1.2 st.2) steps →
  ∃ l' w', append_all steps l w = Ok (Some (l', w')) ∧ lf_ok l' ∧
    contents w' (log_name l) = contents w (log_name l) ++ concat (map snd steps) ∧
    ∀ name, name ≠ log_name l → contents w' name = contents w name.
Proof.
  revert l w. induction steps as [|[[lhs_first answers] s] steps IH]; intros l w Hok Hf.
  - exists l, w. split_and!; [done..|simpl; by rewrite app_nil_r|done].
  - apply Forall_cons in Hf as [H1 Hf]. simpl in H1.
    destruct (append_keeps lhs_first answers l w s Hok H1) as (l1 & w1 & E1 & Hok1 & Hb1 & Hc1 & Ho1).
    destruct (IH l1 w1 Hok1 Hf) as (l' & w' & E & Hok' & Hc & Ho).
    assert (En : log_name l1 = log_name l) by (unfold log_name; by rewrite Hb1).
    exists l', w'. cbn [append_all]. rewrite E1. mred. rewrite En in *.
    split_and!; [done|done|by rewrite Hc, Hc1, <- app_assoc|]. intros name Hn. by rewrite Ho, Ho1.
Qed.

Definition set_rollSize (l : LogFile) (n : Z) : LogFile :=
  mkLogFile (m_basename l) n (m_flushInterval l) (m_checkEveryN l) (m_count l)
    (m_startOfPeriod l) (m_lastRoll l) (m_lastFlush l) (m_file l) (flushes l).

(** logFile.cc:60 compares the size with the result of rollFile, so the roll
    size given to the constructor has no effect on append. *)
Theorem roll_size_ignored (lhs_first : bool) (answers : list fwrite_answer) (l : LogFile) (w : World) (s : bytes) (n : Z) :
  lf_append hostname clock lhs_first answers (set_rollSize l n) w s =
    (r ← lf_append hostname clock lhs_first answers l w s;
     Ok (match r : option (LogFile * World) with Some (l', w') => Some (set_rollSize l' n, w') | None => None end)).
Proof.
  unfold lf_append, append_unlocked. destruct l as [bn rs fi ce ct sp lr lfl mf fl]. simpl.
  destruct mf as [f|]; [|done]. destruct (file_append answers (w_files w) f s) as [[fs f1]|]; [|done].
  unfold rollFile, getLogFileName, time_, do_flush, set_rollSize, set_count, set_lastFlush, set_file, AppendFile_ctor.
  cbn -[Z.quot Z.mul Z.gtb Z.eqb Z.sub Z.add]. destruct lhs_first;
    repeat (match goal with |- context [if ?c then _ else _] => destruct c end; cbn -[Z.quot Z.mul Z.gtb Z.eqb Z.sub Z.add]); try done.
Qed.
End keeps.

Lemma logfile_keeps_lines_witness :
  let clock := λ n, Z.of_nat n * 100000 in
  let l := mkLogFile (chars "app") 500 3 1024 0 0 0 0 (Some (mkAppendFile (chars "apphost.log") 0)) 0 in
  ∃ l' w', append_all (chars "host") clock
      [(true, [(1, false); (2, false)], chars "abc"); (false, [(2, false)], chars "de")] l (mkWorld ∅ 1) = Ok (Some (l', w')) ∧
    lf_ok (chars "host") l' ∧
    contents w' (chars "apphost.log") = chars "abcde" ∧
    ∀ name, name ≠ chars "apphost.log" → contents w' name = [].
Proof.
  intros clock l.
  refine (logfile_keeps_lines (chars "host") clock [(true, [(1, false); (2, false)], chars "abc"); (false, [(2, false)], chars "de")] l (mkWorld ∅ 1) _ _).
  - by eexists.
  - repeat constructor; vm_compute; congruence.
Defined.
