(* ===== verification/AsyncLogging.v ===== *)
(** * The asynchronous logger: src/dc/base/asyncLogging.{h,cc}

    A transition system.  Front-end threads append under the mutex; the
    back-end thread swaps the buffers under the mutex, then writes them to the
    log file and recycles two of them without it.  Each critical section is
    one step, so a run is any interleaving of steps.  A unique_ptr is an
    option; dereferencing or asserting on a null one faults. *)

From S2P Require Import Prelude LogStream.

Open Scope Z_scope.

(** Where the back-end thread is: about to test is_running, past the test and
    waiting for the mutex or the condition, between the swap and the end of
    the turn with the buffers to write, or past the loop. *)
Inductive bphase : Type :=
  | AtHead
  | Waiting
  | Writing (buffersToWrite : list FixedBuffer)
  | Exited.

(** What is handed to the log file: the data of a buffer, or the notice that
    buffers were dropped. *)
Inductive chunk : Type := CData (data : bytes) | CDropped (n : Z).

Record AsyncLogging : Type := mkAsync {
  is_running : bool;
  m_currentBuffer : option FixedBuffer;
  m_nextBuffer : option FixedBuffer;
  m_buffers : list FixedBuffer;
  newBuffer1 : option FixedBuffer;
  newBuffer2 : option FixedBuffer;
  back : bphase;
  output : list chunk;
}.

Definition is_empty_buffer (b : option FixedBuffer) : bool :=
  match b with Some b => length_ b =? 0 | None => false end.

Section async.
(** The size of a buffer: kLargeBuffer in the code. *)
Context (SIZE : nat).

Definition new_Buffer : FixedBuffer := bzero (FixedBuffer_ctor (replicate SIZE NUL)).

(** The state after [AsyncLogging::AsyncLogging] and [start], with the
    buffers threadFunc allocates before its loop. *)
Definition started : AsyncLogging :=
  mkAsync true (Some new_Buffer) (Some new_Buffer) [] (Some new_Buffer) (Some new_Buffer) AtHead [].

(** [AsyncLogging::append] *)
Definition async_append (s : AsyncLogging) (logline : bytes) : res AsyncLogging :=
  let '(cur, next) :=
    match m_currentBuffer s with
    | Some c => (Some c, m_nextBuffer s)
    | None => (m_nextBuffer s, None)
    end in
  match cur with
  | None => Fail (FUndef "m_currentBuffer is null")
  | Some c =>
      if avail c >? zlen logline then
        c' ← append c logline;
        Ok (mkAsync (is_running s) (Some c') next (m_buffers s) (newBuffer1 s) (newBuffer2 s) (back s) (output s))
      else
        let bufs := m_buffers s ++ [c] in
        let '(c1, next1) := match next with Some n => (n, None) | None => (new_Buffer, None) end in
        c' ← append c1 logline;
        Ok (mkAsync (is_running s) (Some c') next1 bufs (newBuffer1 s) (newBuffer2 s) (back s) (output s))
  end.

Definition set_running (s : AsyncLogging) (r : bool) (p : bphase) : AsyncLogging :=
  mkAsync r (m_currentBuffer s) (m_nextBuffer s) (m_buffers s) (newBuffer1 s) (newBuffer2 s) p (output s).

(** The head of the loop of [AsyncLogging::threadFunc]. *)
Definition async_head (s : AsyncLogging) : res AsyncLogging :=
  if is_running s then
    cassert (is_empty_buffer (newBuffer1 s)) "newBuffer1 && newBuffer1->length() == 0";;
    cassert (is_empty_buffer (newBuffer2 s)) "newBuffer2 && newBuffer2->length() == 0";;
    Ok (set_running s (is_running s) Waiting)
  else Ok (set_running s (is_running s) Exited).

(** The critical section, after the wait. *)
Definition async_swap (s : AsyncLogging) : res AsyncLogging :=
  match m_currentBuffer s with
  | None => Fail (FUndef "a null buffer is written")
  | Some c =>
      let toWrite := m_buffers s ++ [c] in
      let '(next, nb2) := match m_nextBuffer s with
                          | None => (newBuffer2 s, None)
                          | Some n => (Some n, newBuffer2 s)
                          end in
      Ok (mkAsync (is_running s) (newBuffer1 s) next [] None nb2 (Writing toWrite) (output s))
  end.

(** Taking the last buffer of the vector back, emptied. *)
Definition recycle (bufs : list FixedBuffer) : res (FixedBuffer * list FixedBuffer) :=
  match last bufs with
  | None => Fail (FAssert "!buffersToWrite.empty()")
  | Some b => Ok (reset b, take (length bufs - 1) bufs)
  end.

Definition write_chunks (bufs : list FixedBuffer) : res (list chunk) :=
  foldM (λ out b, d ← toString b; Ok (out ++ [CData d])) [] bufs.

(** The second half of a turn. *)
Definition async_write (s : AsyncLogging) (bufs : list FixedBuffer) : res AsyncLogging :=
  cassert (negb (Nat.eqb (length bufs) 0)) "!buffersToWrite.empty()";;
  let '(out0, bufs1) :=
    if Nat.ltb 25 (length bufs)
    then ([CDropped (Z.of_nat (length bufs) - 2)], take 2 bufs)
    else ([], bufs) in
  data ← write_chunks bufs1;
  let bufs2 := if Nat.ltb 2 (length bufs1) then take 2 bufs1 else bufs1 in
  '(nb1, bufs3) ← match newBuffer1 s with
                  | Some b => Ok (b, bufs2)
                  | None => recycle bufs2
                  end;
  '(nb2, _) ← match newBuffer2 s with
              | Some b => Ok (b, bufs3)
              | None => recycle bufs3
              end;
  Ok (mkAsync (is_running s) (m_currentBuffer s) (m_nextBuffer s) (m_buffers s) (Some nb1) (Some nb2)
        AtHead (output s ++ out0 ++ data)).

(** The steps of the threads. *)
Inductive async_event : Type := EAppend (logline : bytes) | EBack | EStop.

(** One step: a front-end append, the next step of the back end, or
    [AsyncLogging::stop]. *)
Definition async_step (s : AsyncLogging) (e : async_event) : res AsyncLogging :=
  match e with
  | EAppend l => async_append s l
  | EBack => match back s with
             | AtHead => async_head s
             | Waiting => async_swap s
             | Writing bufs => async_write s bufs
             | Exited => Ok s
             end
  | EStop => Ok (set_running s false (back s))
  end.

Definition async_run (s : AsyncLogging) (es : list async_event) : res AsyncLogging := foldM async_step s es.
End async.

(** ** What has been written and what is pending *)

Definition chunk_data (c : chunk) : bytes := match c with CData d => d | CDropped _ => [] end.
Definition written (s : AsyncLogging) : bytes := concat (map chunk_data (output s)).

(** Whether the back end has dropped buffers. *)
Definition dropped (s : AsyncLogging) : bool := existsb (λ c, match c with CDropped _ => true | CData _ => false end) (output s).

Definition contents_of (bufs : list FixedBuffer) : bytes := concat (map content bufs).

(** The bytes accepted and not yet written, oldest first. *)
Definition pending (s : AsyncLogging) : bytes :=
  match back s with Writing w => contents_of w | _ => [] end ++ contents_of (m_buffers s) ++
  match m_currentBuffer s with Some c => content c | None => [] end.

Section proofs.
Context (SIZE : nat).
Hypothesis HSIZE : (0 < SIZE)%nat ∧ Z.of_nat SIZE ≤ 2147483647.

Definition good_buf (b : FixedBuffer) : Prop := wf b ∧ zlen (m_data b) = Z.of_nat SIZE.
Definition fresh_buf (b : FixedBuffer) : Prop := good_buf b ∧ m_cur b = 0.

Definition back_ok (s : AsyncLogging) : Prop :=
  match back s with
  | AtHead | Waiting => (∃ b, newBuffer1 s = Some b ∧ fresh_buf b) ∧ (∃ b, newBuffer2 s = Some b ∧ fresh_buf b)
  | Writing w => newBuffer1 s = None ∧ w ≠ [] ∧ Forall good_buf w ∧
      match newBuffer2 s with None => (2 ≤ length w)%nat | Some b => fresh_buf b end
  | Exited => True
  end.

(** The invariant: the current buffer exists, and the next one is absent
    only when a full buffer is queued, so that the back end always finds two
    buffers to recycle. *)
Definition inv (s : AsyncLogging) : Prop :=
  (∃ c, m_currentBuffer s = Some c ∧ good_buf c) ∧
  match m_nextBuffer s with Some n => fresh_buf n | None => m_buffers s ≠ [] end ∧
  Forall good_buf (m_buffers s) ∧ back_ok s.

Lemma new_Buffer_fresh : fresh_buf (new_Buffer SIZE).
Proof.
  unfold new_Buffer, bzero, FixedBuffer_ctor. cbn [m_data m_cur]. rewrite length_replicate.
  split; [|done]. unfold good_buf, wf. cbn [m_data m_cur]. unfold zlen. rewrite length_replicate. lia.
Qed.

Lemma async_started_inv : inv (started SIZE).
Proof.
  pose proof new_Buffer_fresh as H. unfold inv, back_ok. simpl.
  split_and!; [eexists; split; [done|apply H]|done|constructor|eauto|eauto].
Qed.

(** Appending where there is room keeps the line. *)
Lemma append_room b l : good_buf b → m_cur b + zlen l < Z.of_nat SIZE →
  ∃ b', append b l = Ok b' ∧ good_buf b' ∧ content b' = content b ++ l.
Proof.
  intros [Hw Hz] Hr. pose proof Hw as [H1 H2]. pose proof (zlen_nonneg l).
  destruct (append_cases b l Hw) as (b' & k & E & Hw' & Hd & Hc & Hk); [lia|].
  exists b'. rewrite Hk in Hc by lia. split_and!; [done|split; [done|congruence]|done].
Qed.

Lemma fresh_content b : fresh_buf b → content b = [].
Proof. intros [_ E]. unfold content. by rewrite E. Qed.

Lemma async_append_ok s l : inv s → zlen l < Z.of_nat SIZE →
  ∃ s', async_append SIZE s l = Ok s' ∧ inv s' ∧ pending s' = pending s ++ l ∧ output s' = output s.
Proof.
  intros ((c & Ec & Hc) & Hn & Hb & Hbk) Hl. unfold async_append. rewrite Ec.
  rewrite avail_wf by apply Hc. pose proof Hc as [_ Hz]. rewrite Hz.
  destruct (Z.gtb_spec (Z.of_nat SIZE - m_cur c) (zlen l)) as [Hg|Hg].
  - destruct (append_room c l Hc) as (c' & E & Hc' & Ect); [lia|]. rewrite E. mred. eexists. split; [done|].
    split; [split_and!; [by exists c'|done..]|]. split; [|done]. unfold pending. simpl. rewrite Ec, Ect. by rewrite !app_assoc.
  - assert (Hfresh : fresh_buf (match m_nextBuffer s with Some n => n | None => new_Buffer SIZE end))
      by (destruct (m_nextBuffer s); [done|apply new_Buffer_fresh]).
    destruct (append_room (match m_nextBuffer s with Some n => n | None => new_Buffer SIZE end) l) as (c' & E & Hc' & Ect);
      [apply Hfresh|destruct Hfresh as [_ ->]; lia|].
    assert (E' : (let '(c1, next1) := match m_nextBuffer s with Some n => (n, None) | None => (new_Buffer SIZE, None) end in
        c' ← append c1 l; Ok (mkAsync (is_running s) (Some c') next1 (m_buffers s ++ [c]) (newBuffer1 s) (newBuffer2 s) (back s) (output s)))
      = Ok (mkAsync (is_running s) (Some c') None (m_buffers s ++ [c]) (newBuffer1 s) (newBuffer2 s) (back s) (output s)))
      by (destruct (m_nextBuffer s); by rewrite E).
    eexists. split; [exact E'|]. split.
    + split_and!; simpl; [by exists c'|by destruct (m_buffers s)|by apply Forall_app; split; [|constructor]|done].
    + split; [|done]. unfold pending, contents_of. simpl. rewrite Ec, Ect, (fresh_content _ Hfresh), map_app, concat_app.
      simpl. by rewrite !app_nil_r, !app_assoc.
Qed.

Lemma fresh_empty b : fresh_buf b → is_empty_buffer (Some b) = true.
Proof. intros [_ E]. unfold is_empty_buffer, length_. by rewrite E. Qed.

Lemma head_ok s : inv s → back s = AtHead →
  ∃ s', async_head s = Ok s' ∧ inv s' ∧ pending s' = pending s ∧ output s' = output s.
Proof.
  intros (Hc & Hn & Hb & Hbk) Eb. unfold back_ok in Hbk. rewrite Eb in Hbk. unfold async_head, pending. rewrite Eb.
  pose proof Hbk as [(b1 & E1 & F1) (b2 & E2 & F2)]. destruct (is_running s).
  - rewrite E1, E2, !fresh_empty by done. eexists. split; [done|]. by split_and!.
  - eexists. split; [done|]. by split_and!.
Qed.

Lemma swap_ok s : inv s → back s = Waiting →
  ∃ s' w, async_swap s = Ok s' ∧ inv s' ∧ back s' = Writing w ∧ pending s' = pending s ∧ output s' = output s ∧
    pending s = contents_of w ∧ length w = S (length (m_buffers s)) ∧ is_running s' = is_running s.
Proof.
  intros ((c & Ec & Hc) & Hn & Hb & Hbk) Eb. unfold back_ok in Hbk. rewrite Eb in Hbk.
  destruct Hbk as [(b1 & E1 & F1) (b2 & E2 & F2)]. unfold async_swap. rewrite Ec, E1, E2.
  assert (Hp : pending s = contents_of (m_buffers s ++ [c])).
  { unfold pending, contents_of. rewrite Eb, Ec, map_app, concat_app. simpl. by rewrite app_nil_r. }
  assert (Hw : Forall good_buf (m_buffers s ++ [c])) by (apply Forall_app; split; [done|by constructor]).
  assert (Hne : m_buffers s ++ [c] ≠ []) by by destruct (m_buffers s).
  assert (Hlen : length (m_buffers s ++ [c]) = S (length (m_buffers s))) by (rewrite length_app; simpl; lia).
  assert (Hp' : contents_of (m_buffers s ++ [c]) ++ contents_of [] ++ content b1 = contents_of (m_buffers s ++ [c])).
  { rewrite (fresh_content b1 F1). unfold contents_of. simpl. by rewrite app_nil_r. }
  destruct (m_nextBuffer s) as [n|] eqn:En; eexists _, _; (split; [reflexivity|]);
    (split; [|split; [done|split; [by rewrite Hp|done]]]); unfold inv, back_ok; simpl.
  - split_and!; try done. exists b1. split; [done|apply F1].
  - split_and!; try done; [exists b1; split; [done|apply F1]|].
    rewrite Hlen. destruct (m_buffers s); [done|simpl; lia].
Qed.

Lemma toString_content b : good_buf b → toString b = Ok (content b).
Proof.
  intros [[H1 H2] _]. unfold toString, length_. rewrite swrap_small; [|lia|unfold in_signed; simpl; lia].
  rewrite read_at_Ok by lia. unfold slice, content. by rewrite zdrop_0, Z.sub_0_r.
Qed.

Lemma write_chunks_ok w : Forall good_buf w → write_chunks w = Ok (map (λ b, CData (content b)) w).
Proof.
  intros Hw. unfold write_chunks. assert (G : ∀ out, foldM (λ out b, d ← toString b; Ok (out ++ [CData d])) out w
    = Ok (out ++ map (λ b, CData (content b)) w)); [|by rewrite G].
  induction Hw as [|b w Hb Hw IH]; intros out; simpl; [by rewrite app_nil_r|].
  rewrite toString_content by done. mred. by rewrite IH, <- app_assoc.
Qed.

Lemma recycle_ok w : w ≠ [] → Forall good_buf w →
  ∃ b w', recycle w = Ok (b, w') ∧ fresh_buf b ∧ Forall good_buf w' ∧ length w' = (length w - 1)%nat.
Proof.
  intros Hne Hw. unfold recycle. destruct (last w) as [b|] eqn:E; [|by apply last_None in E].
  assert (Hb : good_buf b) by (apply last_Some in E as [w' ->]; apply Forall_app in Hw as [_ Hw]; by inversion Hw).
  eexists _, _. split; [done|]. split_and!; [|by apply Forall_take|rewrite length_take; lia].
  split; [|done]. destruct Hb as [[H1 H2] Hz]. split; [split; [simpl; lia|done]|done].
Qed.

Lemma chunk_data_contents w : concat (map chunk_data (map (λ b, CData (content b)) w)) = contents_of w.
Proof. unfold contents_of. induction w; simpl; congruence. Qed.

Lemma no_drop_chunks w : existsb (λ c, match c with CDropped _ => true | CData _ => false end) (map (λ b, CData (content b)) w) = false.
Proof. by induction w. Qed.

(** The recycling of the second half always finds its buffers. *)
Lemma recycle_two w (nb2 : option FixedBuffer) :
  w ≠ [] → Forall good_buf w → match nb2 with None => (2 ≤ length w)%nat | Some b => fresh_buf b end →
  ∃ b1 b2 r3 r4, recycle w = Ok (b1, r3) ∧
    match nb2 with Some b => Ok (b, r3) | None => recycle r3 end = Ok (b2, r4) ∧ fresh_buf b1 ∧ fresh_buf b2.
Proof.
  intros Hne Hw H2. destruct (recycle_ok w Hne Hw) as (b1 & w' & E1 & F1 & Hw' & Hl). destruct nb2 as [b|].
  - by exists b1, b, w', w'.
  - destruct (recycle_ok w') as (b2 & w2 & E2 & F2 & _); [by destruct w'; simpl in *; [lia|]|done|].
    by exists b1, b2, w', w2.
Qed.

Lemma write_ok s w : inv s → back s = Writing w →
  ∃ s', async_write s w = Ok s' ∧ inv s' ∧ back s' = AtHead ∧ is_running s' = is_running s ∧ m_buffers s' = m_buffers s ∧
    (dropped s' = false → dropped s = false ∧ written s' ++ pending s' = written s ++ pending s ∧ written s' = written s ++ contents_of w) ∧
    (dropped s = false → (length w ≤ 25)%nat → dropped s' = false).
Proof.
  intros (Hc & Hn & Hb & Hbk) Eb. unfold back_ok in Hbk. rewrite Eb in Hbk. destruct Hbk as (E1 & Hne & Hw & H2).
  unfold async_write. rewrite E1. destruct w as [|w0 w']; [done|]. set (w := w0 :: w') in *. cbn [length Nat.eqb negb cassert]. mred.
  set (bufs1 := if Nat.ltb 25 (length w) then take 2 w else w).
  set (bufs2 := if Nat.ltb 2 (length bufs1) then take 2 bufs1 else bufs1).
  assert (Hw1 : Forall good_buf bufs1) by (subst bufs1; destruct (Nat.ltb 25 (length w)); [by apply Forall_take|done]).
  assert (Hw2 : Forall good_buf bufs2) by (subst bufs2; destruct (Nat.ltb 2 (length bufs1)); [by apply Forall_take|done]).
  assert (Hl2 : length bufs2 = (2 `min` length w)%nat).
  { subst bufs2 bufs1. destruct (Nat.ltb_spec 25 (length w)).
    - rewrite length_take. replace (Nat.ltb 2 (2 `min` length w)) with false by (symmetry; apply Nat.ltb_ge; lia). by rewrite length_take.
    - destruct (Nat.ltb_spec 2 (length w)); [by rewrite length_take|lia]. }
  destruct (recycle_two bufs2 (newBuffer2 s)) as (b1 & b2 & r3 & r4 & R1 & R2 & F1 & F2);
    [by destruct bufs2; simpl in Hl2|done|destruct (newBuffer2 s); [done|lia]|].
  set (out0 := if Nat.ltb 25 (length w) then [CDropped (Z.of_nat (length w) - 2)] else []).
  exists (mkAsync (is_running s) (m_currentBuffer s) (m_nextBuffer s) (m_buffers s) (Some b1) (Some b2) AtHead
    (output s ++ out0 ++ map (λ b, CData (content b)) bufs1)).
  split.
  { assert (Ep : (if Nat.ltb 25 (length w) then ([CDropped (Z.of_nat (length w) - 2)], take 2 w) else ([], w)) = (out0, bufs1))
      by (unfold out0, bufs1; by destruct (Nat.ltb 25 (length w))).
    change (S (length w')) with (length w). rewrite Ep, write_chunks_ok by done. mred. fold bufs2. rewrite R1. mred. by rewrite R2. }
  split; [split_and!; [done..|split; eauto]|]. split; [done|]. split; [done|]. split; [done|].
  unfold dropped, written, pending. cbn [output back m_buffers m_currentBuffer]. rewrite Eb, !existsb_app, !map_app, !concat_app, chunk_data_contents, no_drop_chunks.
  subst out0 bufs1. destruct (Nat.ltb_spec 25 (length w)) as [Hd|Hd]; simpl existsb; simpl concat; rewrite ?orb_true_r, ?orb_false_r.
  - split; [done|lia].
  - split; [|done]. intros ->. by rewrite <- !app_assoc.
Qed.

Definition line_of (e : async_event) : bytes := match e with EAppend l => l | _ => [] end.
Definition accepted (es : list async_event) : bytes := concat (map line_of es).

(** The bytes written and pending are those accepted, unless some were
    dropped. *)
Definition accounts (s : AsyncLogging) (acc : bytes) : Prop :=
  inv s ∧ (dropped s = false → written s ++ pending s = acc).

Lemma step_ok s acc e : accounts s acc → zlen (line_of e) < Z.of_nat SIZE →
  ∃ s', async_step SIZE s e = Ok s' ∧ accounts s' (acc ++ line_of e).
Proof.
  intros [Hi Ha] Hl. destruct e as [l| |]; simpl in *; rewrite ?app_nil_r.
  - destruct (async_append_ok s l Hi Hl) as (s' & E & Hi' & Hp & Ho). exists s'. split; [done|]. split; [done|].
    unfold dropped, written in *. rewrite Ho, Hp, app_assoc. intros Hd. by rewrite Ha.
  - destruct (back s) as [| |w|] eqn:Eb.
    + destruct (head_ok s Hi Eb) as (s' & E & Hi' & Hp & Ho). exists s'. split; [done|]. split; [done|].
      unfold dropped, written in *. by rewrite Ho, Hp.
    + destruct (swap_ok s Hi Eb) as (s' & w & E & Hi' & _ & Hp & Ho & _). exists s'. split; [done|]. split; [done|].
      unfold dropped, written in *. by rewrite Ho, Hp.
    + destruct (write_ok s w Hi Eb) as (s' & E & Hi' & _ & _ & _ & Hd & _). exists s'. split; [done|]. split; [done|].
      intros Hd'. destruct (Hd Hd') as (H0 & -> & _). by apply Ha.
    + by exists s.
  - eexists. split; [done|]. destruct Hi as (? & ? & ? & Hb). split; [done|]. exact Ha.
Qed.

Lemma async_run_ok es : ∀ s acc, accounts s acc → Forall (λ e, zlen (line_of e) < Z.of_nat SIZE) es →
  ∃ s', async_run SIZE s es = Ok s' ∧ accounts s' (acc ++ accepted es).
Proof.
  induction es as [|e es IH]; intros s acc Hs Hf; unfold async_run, accepted in *; simpl.
  - exists s. by rewrite app_nil_r.
  - apply Forall_cons in Hf as [H1 Hf]. destruct (step_ok s acc e Hs H1) as (s1 & -> & Hs1). mred.
    destruct (IH s1 _ Hs1 Hf) as (s' & E & Hs'). exists s'. split; [done|]. by rewrite app_assoc.
Qed.

Lemma started_accounts : accounts (started SIZE) [].
Proof.
  split; [apply async_started_inv|]. intros _. unfold written, pending. simpl. apply fresh_content, new_Buffer_fresh.
Qed.

(** C22.  The asynchronous logger loses nothing between front end and file: in
    every interleaving of appends (of lines shorter than a buffer) with the
    steps of the back end, and with stop, no assertion of threadFunc fails and
    no null buffer is used; and unless the back end announced that it dropped
    buffers, the bytes written followed by those still buffered are exactly
    the lines appended, in order.  Once the back end waits for the mutex or
    the condition, the rest of its turn writes everything accepted so far,
    stopped or not, provided at most 24 buffers are full. *)
Theorem async_no_loss (es : list async_event) :
  Forall (λ e, zlen (line_of e) < Z.of_nat SIZE) es →
  ∃ s, async_run SIZE (started SIZE) es = Ok s ∧
    (dropped s = false → written s ++ pending s = accepted es) ∧
    (dropped s = false → back s = Waiting → (length (m_buffers s) ≤ 24)%nat →
     ∃ s', async_run SIZE s [EBack; EBack] = Ok s' ∧ written s' = accepted es ∧ dropped s' = false).
Proof.
  intros Hf. destruct (async_run_ok es (started SIZE) [] started_accounts Hf) as (s & E & Hi & Ha). exists s.
  split; [done|]. split; [done|]. intros Hd Eb Hlen.
  destruct (swap_ok s Hi Eb) as (s1 & w & E1 & Hi1 & Eb1 & Hp1 & Ho1 & Hpw & Hlw & _).
  destruct (write_ok s1 w Hi1 Eb1) as (s' & E2 & _ & _ & _ & _ & Hw & Hnd).
  assert (Hd1 : dropped s1 = false) by (unfold dropped in *; by rewrite Ho1).
  assert (Hd' : dropped s' = false) by (apply Hnd; [done|lia]).
  exists s'. split; [|split; [|done]].
  - unfold async_run. cbn [foldM async_step]. rewrite Eb, E1. mred. cbn [foldM async_step]. by rewrite Eb1, E2.
  - destruct (Hw Hd') as (_ & _ & ->). unfold written. rewrite Ho1. fold (written s). rewrite <- Hpw. by apply Ha.
Qed.
End proofs.

Lemma async_no_loss_witness :
  let es := [EAppend (chars "ab"); EBack; EBack; EAppend (chars "cde"); EAppend (chars "fg"); EBack; EBack; EStop] in
  ∃ s, async_run 5 (started 5) es = Ok s ∧
    (dropped s = false → written s ++ pending s = accepted es) ∧
    (dropped s = false → back s = Waiting → (length (m_buffers s) ≤ 24)%nat →
     ∃ s', async_run 5 s [EBack; EBack] = Ok s' ∧ written s' = accepted es ∧ dropped s' = false).
Proof.
  intros es. apply (async_no_loss 5 ltac:(split; lia) es). repeat constructor; vm_compute; congruence.
Defined.

(** stop() is not a flush: a line appended while the back end writes the
    buffers of its turn, before stop, is never written. *)
Theorem async_stop_loses :
  ∃ s, async_run 100 (started 100) [EBack; EBack; EAppend (chars "last words"); EStop; EBack; EBack] = Ok s ∧
    back s = Exited ∧ written s = [] ∧ pending s = chars "last words" ∧
    ∀ n, async_run 100 s (replicate n EBack) = Ok s.
Proof.
  eexists. split; [vm_compute; reflexivity|]. split_and!; [done..|]. induction n as [|n IH]; [done|exact IH].
Qed.
