(* ===== verification/LogPipeline.v ===== *)
(** * From a log statement to the file: the globals of src/dc/base/logging.cc
      with asyncLogging.cc and logFile.cc

    Logging has one statement, AsyncLogging the buffers between the threads,
    LogFile the file.  Here they are put together as a process does: the
    statements of any threads pass the level test of the macros, format their
    line with the thread's own cache and hand it to the output function; with
    AsyncLogging::append as the output function the back end writes the lines
    to its LogFile. *)

From S2P Require Import Prelude Date LogStream Logging LogFile AsyncLogging.

Open Scope Z_scope.

(** ** The globals of the logger *)

(** What an output function acts on: what was given to stdout, how much of it
    fflush has forced out, and the asynchronous logger. *)
Record Sinks : Type := mkSinks {
  so_given : bytes;
  so_flushed : bytes;
  sk_async : AsyncLogging;
}.

Definition OutputFunc : Type := Sinks → bytes → res Sinks.
Definition FlushFunc : Type := Sinks → Sinks.

Record Globals : Type := mkGlobals {
  g_logLevel : LogLevel;
  g_output : OutputFunc;
  g_flush : FlushFunc;
  g_logTimeZone : TimeZone;
}.

(** [defaultFlush]: fflush(stdout) *)
Definition defaultFlush : FlushFunc := λ s, mkSinks (so_given s) (so_given s) (sk_async s).

(** [Logger::setLogLevel], [setOutput], [setFlush], [setTimeZone] *)
Definition setLogLevel (level : LogLevel) (g : Globals) : Globals :=
  mkGlobals level (g_output g) (g_flush g) (g_logTimeZone g).
Definition setOutput (out : OutputFunc) (g : Globals) : Globals :=
  mkGlobals (g_logLevel g) out (g_flush g) (g_logTimeZone g).
Definition setFlush (flush : FlushFunc) (g : Globals) : Globals :=
  mkGlobals (g_logLevel g) (g_output g) flush (g_logTimeZone g).
Definition setTimeZone (tz : TimeZone) (g : Globals) : Globals :=
  mkGlobals (g_logLevel g) (g_output g) (g_flush g) tz.

(** ** The process *)

Record Process : Type := mkProcess {
  p_globals : Globals;
  p_locals : gmap Z ThreadLocals;      (* by thread id; absent: not used yet *)
  p_sinks : Sinks;
  p_file : LogFile;
  p_world : World;
  p_aborted : bool;
}.

(** The source text of a statement: its macro, place and message. *)
Record statement : Type := mkStatement {
  st_form : log_form;
  st_file : bytes;
  st_line : Z;
  st_msg : list item;
}.

(** What a statement finds when it runs: the thread, the clock, errno at its
    end, and the bytes of the stack its buffer takes. *)
Record moment : Type := mkMoment { mo_tid : Z; mo_now : Z; mo_errno : Z; mo_stack : bytes }.

(** What a turn of the back end finds: two readings of the clock around the
    statement it logs, how fwrite takes the data, the order of the operands
    in append_unlocked. *)
Record turn : Type := mkTurn { tu_moment : moment; tu_now : Z; tu_fwrite : bytes → list fwrite_answer; tu_lhs_first : bool }.

Inductive event : Type :=
  | ELog (m : moment) (st : statement)
  | ESet (f : Globals → Globals)
  | ETurn (t : turn)
  | EStopLogging.

Section process.
Context (SIZE : nat) (strerror_tl : Z → bytes) (fwrite_stdout : bytes → bytes → Z) (gmtime_r : Z → tm).
Context (hostname : bytes) (clock : nat → Z).

(** [defaultOutput]: fwrite to stdout, the count it returns not looked at. *)
Definition defaultOutput : OutputFunc := λ s msg,
  Ok (mkSinks (so_given s ++ ztake (fwrite_stdout (so_given s) msg) msg) (so_flushed s) (sk_async s)).

(** [asyncOutput] of a program that logs through an AsyncLogging. *)
Definition asyncOutput : OutputFunc := λ s msg,
  a ← async_append SIZE (sk_async s) msg; Ok (mkSinks (so_given s) (so_flushed s) a).

(** The initial globals. *)
Definition globals_init (dc_log_trace dc_log_debug : bool) : Globals :=
  mkGlobals (initLogLevel dc_log_trace dc_log_debug) defaultOutput defaultFlush None.

(** A statement: the test of the macro, the line, the output function, and for
    FATAL the message on stdout, the flush function and abort. *)
Definition log_macro (p : Process) (m : moment) (st : statement) : res Process :=
  let g := p_globals p in
  if macro_enabled (g_logLevel g) (form_level (st_form st)) then
    r ← log_statement (g_logTimeZone g) strerror_tl (default locals_init (p_locals p !! mo_tid m)) (mo_tid m) (mo_now m)
          (st_form st) (st_file st) (st_line st) (st_msg st) (FixedBuffer_ctor (mo_stack m));
    let '(tl, (out, after)) := r in
    s ← g_output g (p_sinks p) out;
    let locals := <[mo_tid m := tl]> (p_locals p) in
    match after with
    | Continues => Ok (mkProcess g locals s (p_file p) (p_world p) (p_aborted p))
    | Aborts =>
        let text := chars "fatal error" ++ [LF] ++ strerror_tl (mo_errno m) ++ [LF] in
        let s1 := g_flush g (mkSinks (so_given s ++ text) (so_flushed s) (sk_async s)) in
        Ok (mkProcess g locals s1 (p_file p) (p_world p) true)
    end
  else Ok p.

(** [CheckNotNull]; a null pointer logs a FATAL line. *)
Definition CheckNotNull (p : Process) (m : moment) (file : bytes) (line : Z) (names : bytes) (ptr : option Z) :
    res Process :=
  match ptr with
  | None => log_macro p m (mkStatement (LLevel FATAL) file line [ICString (Some names)])
  | Some _ => Ok p
  end.

(** The statement threadFunc logs when it drops buffers, and the notice it
    writes to the file. *)
Definition dropped_statement : statement :=
  mkStatement (LLevel INFO) (chars "asyncLogging.cc") 100 [ICString (Some (chars "Dropped log message at here"))].

Definition dropped_text (now n : Z) : res bytes :=
  at_ ← ts_toFormattedString gmtime_r (mkTimestamp now) true;
  Ok (snprintf 256 (chars "Dropped log message at " ++ at_ ++ chars ", " ++ decimal n ++ chars " larger buffers" ++ [LF])).

(** The bytes of a chunk, and the appends of a turn to the file. *)
Definition chunk_bytes (now : Z) (c : chunk) : res bytes :=
  match c with CData d => Ok d | CDropped n => dropped_text now n end.

Fixpoint write_file (t : turn) (l : LogFile) (w : World) (cs : list chunk) : res (option (LogFile * World)) :=
  match cs with
  | [] => Ok (Some (l, w))
  | c :: cs' =>
      d ← chunk_bytes (tu_now t) c;
      r ← lf_append hostname clock (tu_lhs_first t) (tu_fwrite t d) l w d;
      match r : option (LogFile * World) with
      | None => Ok None
      | Some (l', w') => write_file t l' w' cs'
      end
  end.

(** Whether the step of the back end ends with output.flush(). *)
Definition turn_flushes (before after : bphase) : bool :=
  match before, after with Writing _, _ | AtHead, Exited => true | _, _ => false end.

Definition set_async (s : Sinks) (a : AsyncLogging) : Sinks := mkSinks (so_given s) (so_flushed s) a.

(** The line threadFunc logs itself when it is about to drop buffers. *)
Definition drop_notice (p : Process) (t : turn) : res Process :=
  match back (sk_async (p_sinks p)) with
  | Writing w => if Nat.ltb 25 (length w) then log_macro p (tu_moment t) dropped_statement else Ok p
  | _ => Ok p
  end.

(** A step of [AsyncLogging::threadFunc] with what it does to the file. *)
Definition back_turn (p : Process) (t : turn) : res (option Process) :=
  p1 ← drop_notice p t;
  let a := sk_async (p_sinks p1) in
  a' ← async_step SIZE a EBack;
  r ← write_file t (p_file p1) (p_world p1) (drop (length (output a)) (output a'));
  match r : option (LogFile * World) with
  | None => Ok None
  | Some (l, w) =>
      l1 ← (if turn_flushes (back a) (back a') then lf_flush l else Ok l);
      Ok (Some (mkProcess (p_globals p1) (p_locals p1) (set_async (p_sinks p1) a') l1 w (p_aborted p1)))
  end.

(** One event; an aborted process does nothing more. *)
Definition process_step (p : Process) (e : event) : res (option Process) :=
  if p_aborted p then Ok (Some p) else
  match e with
  | ELog m st => p' ← log_macro p m st; Ok (Some p')
  | ESet f => Ok (Some (mkProcess (f (p_globals p)) (p_locals p) (p_sinks p) (p_file p) (p_world p) (p_aborted p)))
  | ETurn t => back_turn p t
  | EStopLogging =>
      a ← async_step SIZE (sk_async (p_sinks p)) EStop;
      Ok (Some (mkProcess (p_globals p) (p_locals p) (set_async (p_sinks p) a) (p_file p) (p_world p) (p_aborted p)))
  end.

Fixpoint process_run (p : Process) (es : list event) : res (option Process) :=
  match es with
  | [] => Ok (Some p)
  | e :: es' =>
      r ← process_step p e;
      match r : option Process with None => Ok None | Some p' => process_run p' es' end
  end.
End process.

Lemma aborted_stays SIZE strerror_tl gmtime_r hostname clock p es :
  p_aborted p = true → process_run SIZE strerror_tl gmtime_r hostname clock p es = Ok (Some p).
Proof. intros Ha. induction es as [|e es IH]; [done|]. simpl. unfold process_step. by rewrite Ha. Qed.

(** ** The lines that reach the file *)

Section pipeline.
Context (SIZE : nat) (strerror_tl : Z → bytes) (gmtime_r : Z → tm) (hostname : bytes) (clock : nat → Z).
Hypothesis HSIZE : (0 < SIZE)%nat ∧ Z.of_nat SIZE ≤ 2147483647.
(** A line fits in a buffer of the asynchronous logger. *)
Hypothesis Hline : kSmallBuffer ≤ Z.of_nat SIZE.
(** gmtime_r fills struct tm with values of the calendar. *)
Hypothesis Hgmtime : ∀ t, in_signed 32 (tm_year (gmtime_r t) + 1900) ∧ in_signed 32 (tm_mon (gmtime_r t) + 1).

Lemma chunk_bytes_ok now c : ∃ d, chunk_bytes gmtime_r now c = Ok d ∧ (∀ x, c = CData x → d = x).
Proof.
  destruct c as [x|n]; simpl; [exists x; split; [done|congruence]|]. unfold dropped_text, ts_toFormattedString.
  destruct (Hgmtime (Z.quot (m_microSecondsSinceEpoch (mkTimestamp now)) kMicroSecondsPerSecond)) as [H1 H2].
  unfold in_signed in *. rewrite !i32_Ok by (simpl in *; lia). mred. eexists. by split.
Qed.

(** The appends of a turn return and add the data to the file. *)
Lemma write_file_ok t cs : ∀ l w,
  lf_ok hostname l → (∀ d, obeys (tu_fwrite t d) d) →
  ∃ l' w', write_file gmtime_r hostname clock t l w cs = Ok (Some (l', w')) ∧ lf_ok hostname l' ∧ m_basename l' = m_basename l ∧
    (existsb (λ c, match c with CDropped _ => true | CData _ => false end) cs = false →
     contents w' (log_name hostname l) = contents w (log_name hostname l) ++ concat (map chunk_data cs)).
Proof.
  induction cs as [|c cs IH]; intros l w Hl Ho; simpl.
  - exists l, w. split_and!; [done..|]. intros _. by rewrite app_nil_r.
  - destruct (chunk_bytes_ok (tu_now t) c) as (d & -> & Hd). mred.
    destruct (append_keeps hostname clock (tu_lhs_first t) (tu_fwrite t d) l w d Hl (Ho d)) as (l1 & w1 & -> & Hl1 & Hb1 & Hc1 & _).
    mred. destruct (IH l1 w1 Hl1 Ho) as (l' & w' & -> & Hl' & Hb' & Hc'). exists l', w'.
    split_and!; [done|done|congruence|]. intros Hx. apply orb_false_iff in Hx as [Hx1 Hx2]. specialize (Hc' Hx2).
    unfold log_name in *. rewrite Hb1 in Hc'. rewrite Hc', Hc1. destruct c as [x|]; [|done]. rewrite (Hd x eq_refl). simpl.
    by rewrite <- app_assoc.
Qed.

Lemma async_write_output s w s' :
  async_write s w = Ok s' →
  ∃ data, output s' = output s ++ (if Nat.ltb 25 (length w) then [CDropped (Z.of_nat (length w) - 2)] else []) ++ data.
Proof.
  unfold async_write. intros E. apply bind_Ok in E as (_ & _ & E).
  destruct (Nat.ltb 25 (length w)); apply bind_Ok in E as (data & _ & E); apply bind_Ok in E as ([b1 w1] & _ & E);
    apply bind_Ok in E as ([b2 w2] & _ & [= <-]); by exists data.
Qed.

(** A step of the back end on the buffers: what it adds to the output, and
    that dropping is announced. *)
Lemma back_step_ok a :
  inv SIZE a →
  ∃ a' cs, async_step SIZE a EBack = Ok a' ∧ inv SIZE a' ∧ output a' = output a ++ cs ∧
    (dropped a' = false → written a' ++ pending a' = written a ++ pending a) ∧
    (∀ w, back a = Writing w → (25 < length w)%nat → dropped a' = true).
Proof.
  intros Hi. destruct (step_ok SIZE HSIZE a (written a ++ pending a) EBack) as (a' & E & Hi' & Hacc);
    [by split|simpl; rewrite zlen_nil; lia|]. simpl in Hacc. rewrite app_nil_r in Hacc.
  assert (∃ cs, output a' = output a ++ cs ∧ (∀ w, back a = Writing w → (25 < length w)%nat → dropped a' = true)) as (cs & Eo & Hd).
  { simpl in E. destruct (back a) as [| |w|] eqn:Eb.
    - exists []. rewrite app_nil_r. unfold async_head in E. destruct (is_running a);
        [apply bind_Ok in E as (_ & _ & E); apply bind_Ok in E as (_ & _ & E)|]; by injection E as <-.
    - exists []. rewrite app_nil_r. unfold async_swap in E. destruct (m_currentBuffer a); [|done].
      destruct (m_nextBuffer a); by injection E as <-.
    - destruct (async_write_output _ _ _ E) as [data Eo]. exists ((if Nat.ltb 25 (length w) then [CDropped (Z.of_nat (length w) - 2)] else []) ++ data).
      split; [done|]. intros w' [= <-] Hw. unfold dropped. rewrite Eo, !existsb_app, (proj2 (Nat.ltb_lt _ _)) by done.
      simpl. by rewrite orb_true_r.
    - exists []. injection E as <-. by rewrite app_nil_r. }
  by exists a', cs.
Qed.

Section run.
Context (tz : TimeZone).
Hypothesis Htz : zone_ok tz.

(** A statement whose line fits in the stream's buffer, run by a thread. *)
Definition fits (m : moment) (st : statement) : Prop :=
  log_seconds (mo_now m / 1000000) ∧ 0 < mo_tid m < 2 ^ 31 ∧ zlen (mo_stack m) = kSmallBuffer ∧
  Forall good_item (rest_items tz strerror_tl (mo_tid m) (mo_now m) (st_form st) (st_file st) (st_line st) (st_msg st)) ∧
  17 + items_size (rest_items tz strerror_tl (mo_tid m) (mo_now m) (st_form st) (st_file st) (st_line st) (st_msg st)) + 48 ≤ kSmallBuffer.

Definition turn_ok (t : turn) : Prop := fits (tu_moment t) dropped_statement ∧ ∀ d, obeys (tu_fwrite t d) d.

(** The events of the threads: statements that do not abort, changes of the
    level, turns of the back end, stop. *)
Definition event_ok (e : event) : Prop :=
  match e with
  | ELog m st => fits m st ∧ form_level (st_form st) ≠ FATAL
  | ESet f => ∃ level, f = setLogLevel level
  | ETurn t => turn_ok t
  | EStopLogging => True
  end.

(** The statements that pass the test of their macro. *)
Definition level_after (level : LogLevel) (e : event) (g : Globals) : LogLevel :=
  match e with ESet f => g_logLevel (f g) | _ => level end.
Definition passes (level : LogLevel) (e : event) : list (moment * statement) :=
  match e with ELog m st => if macro_enabled level (form_level (st_form st)) then [(m, st)] else [] | _ => [] end.
Fixpoint logged (g : Globals) (es : list event) : list (moment * statement) :=
  match es with
  | [] => []
  | e :: es' => passes (g_logLevel g) e ++ logged (match e with ESet f => f g | _ => g end) es'
  end.

Definition writes_line (ms : moment * statement) (text : bytes) : Prop :=
  line_text tz strerror_tl (mo_tid ms.1) (mo_now ms.1) (st_form ms.2) (st_file ms.2) (st_line ms.2) (st_msg ms.2) text.

(** A process that logs through the asynchronous logger. *)
Definition locals_ok (locals : gmap Z ThreadLocals) : Prop :=
  ∀ tid tl, locals !! tid = Some tl → cache_ok tz tl ∧ (t_cachedTid tl = 0 ∨ t_cachedTid tl = tid).

Record ready (p : Process) : Prop := mkReady {
  rd_output : g_output (p_globals p) = asyncOutput SIZE;
  rd_zone : g_logTimeZone (p_globals p) = tz;
  rd_locals : locals_ok (p_locals p);
  rd_async : inv SIZE (sk_async (p_sinks p));
  rd_file : lf_ok hostname (p_file p);
  rd_alive : p_aborted p = false;
}.

Definition the_log (p : Process) : bytes := contents (p_world p) (log_name hostname (p_file p)).

(** What [base] and the lines since are, in the file and in the buffers. *)
Definition balance (p : Process) (base acc : bytes) : Prop :=
  dropped (sk_async (p_sinks p)) = false →
  the_log p = base ++ written (sk_async (p_sinks p)) ∧
  written (sk_async (p_sinks p)) ++ pending (sk_async (p_sinks p)) = acc.

(** A statement on a ready process: its line is taken, the file is not
    touched. *)
Lemma log_macro_ok p m st :
  ready p → fits m st → form_level (st_form st) ≠ FATAL →
  ∃ p' lines, log_macro strerror_tl p m st = Ok p' ∧ ready p' ∧ p_globals p' = p_globals p ∧
    p_file p' = p_file p ∧ p_world p' = p_world p ∧
    Forall2 writes_line (passes (g_logLevel (p_globals p)) (ELog m st)) lines ∧
    output (sk_async (p_sinks p')) = output (sk_async (p_sinks p)) ∧
    pending (sk_async (p_sinks p')) = pending (sk_async (p_sinks p)) ++ concat lines ∧
    back (sk_async (p_sinks p')) = back (sk_async (p_sinks p)).
Proof.
  intros [Ho Hz Hl Ha Hf Hal] (Hs & Ht & Hst & Hg & Hfit) Hnf. unfold log_macro. simpl.
  destruct (macro_enabled _ _) eqn:Em.
  2:{ exists p, []. split_and!; try done; by rewrite app_nil_r. }
  set (tl := default locals_init (p_locals p !! mo_tid m)).
  assert (cache_ok tz tl ∧ tid_of tl (mo_tid m) = mo_tid m) as [Hc Htid].
  { unfold tl, tid_of. destruct (p_locals p !! mo_tid m) as [tl'|] eqn:E; [|by split].
    destruct (Hl _ _ E) as [Hc Hx]. split; [done|]. simpl.
    destruct (Z.eqb_spec (t_cachedTid tl') 0); [done|]. by destruct Hx. }
  destruct (log_statement_writes tz strerror_tl tl (mo_tid m) (mo_now m) (st_form st) (st_file st) (st_line st) (st_msg st)
    (FixedBuffer_ctor (mo_stack m))) as (text & tl' & Htext & E & Hc' & Htid' & Hlen); try done.
  { unfold FixedBuffer_ctor, wf. cbn [m_data m_cur]. rewrite Hst. unfold kSmallBuffer. lia. }
  { by rewrite Htid. }
  { rewrite Htid. cbn [m_data FixedBuffer_ctor]. by rewrite Hst. }
  rewrite Hz, E. mred. rewrite Ho. unfold asyncOutput. rewrite bool_decide_false by done.
  cbn [m_data FixedBuffer_ctor] in Hlen.
  destruct (async_append_ok SIZE HSIZE (sk_async (p_sinks p)) text Ha) as (a & Ea & Ha' & Hp & Hout); [lia|].
  rewrite Ea. mred. rewrite Htid in *. eexists _, [text].
  split; [done|]. split; [|split_and!; try done].
  - split; cbn [p_globals p_locals p_sinks p_file p_aborted sk_async]; try done.
    intros tid tl0. rewrite lookup_insert_Some. intros [[<- <-]|[_ E0]]; [|by apply Hl]. split; [done|by right].
  - constructor; [exact Htext|constructor].
  - cbn [p_sinks sk_async concat]. by rewrite app_nil_r.
  - cbn [p_sinks sk_async]. unfold async_append in Ea. destruct (m_currentBuffer (sk_async (p_sinks p))) as [c|];
      [|destruct (m_nextBuffer (sk_async (p_sinks p))) as [c|]; [|done]];
      repeat (match type of Ea with context [if ?b then _ else _] => destruct b end); try (destruct (m_nextBuffer _));
      apply bind_Ok in Ea as (c' & _ & [= <-]); done.
Qed.

Lemma flush_ok b l : lf_ok hostname l →
  ∃ l', (if b : bool then lf_flush l else Ok l) = Ok l' ∧ lf_ok hostname l' ∧ m_basename l' = m_basename l.
Proof. intros (f & Ef & En). destruct b; [|exists l; split_and!; [done|by exists f|done]]. unfold lf_flush, do_flush. rewrite Ef. eexists. split; [done|]. split; [by exists f|done]. Qed.

(** A turn of the back end moves pending bytes to the file. *)
Lemma back_turn_ok p t base acc :
  ready p → turn_ok t → balance p base acc →
  ∃ p', back_turn SIZE strerror_tl gmtime_r hostname clock p t = Ok (Some p') ∧ ready p' ∧ p_globals p' = p_globals p ∧ balance p' base acc.
Proof.
  intros Hr [Hfit Hfw] Hbal. unfold back_turn.
  assert (∃ p1, drop_notice strerror_tl p t = Ok p1 ∧ ready p1 ∧ p_globals p1 = p_globals p ∧ back (sk_async (p_sinks p1)) = back (sk_async (p_sinks p)) ∧
    (p1 = p ∨ ∃ w, back (sk_async (p_sinks p)) = Writing w ∧ (25 < length w)%nat)) as (p1 & -> & Hr1 & Eg & Eb & Hp1).
  { assert (Hsame : ∃ p1, Ok p = Ok p1 ∧ ready p1 ∧ p_globals p1 = p_globals p ∧ back (sk_async (p_sinks p1)) = back (sk_async (p_sinks p)) ∧
      (p1 = p ∨ ∃ w, back (sk_async (p_sinks p)) = Writing w ∧ (25 < length w)%nat)) by (exists p; split_and!; auto).
    unfold drop_notice. destruct (back (sk_async (p_sinks p))) as [| |w|] eqn:Eb; try done.
    destruct (Nat.ltb_spec 25 (length w)); [|done].
    destruct (log_macro_ok p (tu_moment t) dropped_statement Hr Hfit) as (p1 & lines & -> & Hr1 & Eg & _ & _ & _ & _ & _ & Eb1); [done|].
    exists p1. split_and!; [done..|by rewrite Eb1|]. right. by exists w. }
  mred. destruct Hr1 as [Ho Hz Hl Ha Hf Hal].
  destruct (back_step_ok (sk_async (p_sinks p1)) Ha) as (a' & cs & -> & Ha' & Eo & Hacc & Hdrop). mred.
  rewrite Eo, drop_app_length.
  destruct (write_file_ok t cs (p_file p1) (p_world p1) Hf Hfw) as (l & w & -> & Hlok & Hbase & Hcont). mred.
  destruct (flush_ok (turn_flushes (back (sk_async (p_sinks p1))) (back a')) l Hlok) as (l1 & -> & Hl1 & Hb1). mred.
  eexists. split; [done|]. split; [by split|]. split; [done|].
  intros Hd. cbn [p_sinks set_async sk_async] in *.
  destruct Hp1 as [->|(w' & Ew & Hw)]; [|by rewrite (Hdrop w') in Hd by (rewrite ?Eb; done)].
  assert (Hd2 := Hd). unfold dropped in Hd2. rewrite Eo, existsb_app in Hd2. apply orb_false_iff in Hd2 as [Hd0 Hdc].
  destruct (Hbal Hd0) as [H1 H2]. split; [|by rewrite Hacc].
  unfold the_log in *. cbn [p_world p_file]. unfold log_name in *. rewrite Hb1, Hbase, Hcont, H1 by done.
  unfold written. by rewrite Eo, map_app, concat_app, app_assoc.
Qed.

Lemma process_step_ok p e base acc :
  ready p → event_ok e → balance p base acc →
  ∃ p' lines, process_step SIZE strerror_tl gmtime_r hostname clock p e = Ok (Some p') ∧ ready p' ∧
    p_globals p' = match e with ESet f => f (p_globals p) | _ => p_globals p end ∧
    Forall2 writes_line (passes (g_logLevel (p_globals p)) e) lines ∧ balance p' base (acc ++ concat lines).
Proof.
  intros Hr He Hbal. unfold process_step. rewrite (rd_alive _ Hr). destruct e as [m st|f|t|].
  - destruct He as [Hfit Hnf]. destruct (log_macro_ok p m st Hr Hfit Hnf) as (p' & lines & -> & Hr' & Eg & Ef & Ew & Hl & Eo & Ep & _).
    exists p', lines. mred. split_and!; [done..|]. unfold balance, the_log, dropped, written in *. rewrite Eo, Ef, Ew, Ep. intros Hd.
    destruct (Hbal Hd) as [H1 H2]. split; [done|]. by rewrite app_assoc, H2.
  - destruct He as [level ->]. eexists _, []. split; [done|]. destruct Hr. split; [by split|]. split; [done|]. split; [constructor|].
    by rewrite app_nil_r.
  - destruct (back_turn_ok p t base acc Hr He Hbal) as (p' & -> & Hr' & Eg & Hb). exists p', []. split_and!; [done..|constructor|by rewrite app_nil_r].
  - eexists _, []. split; [done|]. destruct Hr. split; [by split|].
    split; [done|]. split; [constructor|]. rewrite app_nil_r. exact Hbal.
Qed.

(** Without a notice, the buffers take the step of the back end alone. *)
Lemma back_turn_async p t p' :
  back_turn SIZE strerror_tl gmtime_r hostname clock p t = Ok (Some p') →
  (∀ w, back (sk_async (p_sinks p)) = Writing w → (length w ≤ 25)%nat) →
  async_step SIZE (sk_async (p_sinks p)) EBack = Ok (sk_async (p_sinks p')) ∧ p_aborted p' = p_aborted p.
Proof.
  intros E Hw. unfold back_turn in E.
  assert (Hn : drop_notice strerror_tl p t = Ok p).
  { unfold drop_notice. destruct (back _) as [| |w|]; try done. specialize (Hw w eq_refl). by rewrite (proj2 (Nat.ltb_ge _ _)) by lia. }
  rewrite Hn in E. apply bind_Ok in E as (p1 & [= <-] & E). apply bind_Ok in E as (a & -> & E).
  apply bind_Ok in E as ([[l w]|] & _ & E); [|done]. by apply bind_Ok in E as (l1 & _ & [= <-]).
Qed.

(** Two steps of a back end that waits write what is pending. *)
Lemma two_turns p t1 t2 p2 :
  ready p → dropped (sk_async (p_sinks p)) = false → back (sk_async (p_sinks p)) = Waiting →
  (length (m_buffers (sk_async (p_sinks p))) ≤ 24)%nat →
  process_run SIZE strerror_tl gmtime_r hostname clock p [ETurn t1; ETurn t2] = Ok (Some p2) →
  dropped (sk_async (p_sinks p2)) = false ∧
  written (sk_async (p_sinks p2)) = written (sk_async (p_sinks p)) ++ pending (sk_async (p_sinks p)).
Proof.
  intros Hr Hd Hb Hlen E. simpl in E. unfold process_step in E. rewrite (rd_alive _ Hr) in E.
  apply bind_Ok in E as ([p1|] & E1 & E); [|done]. apply bind_Ok in E as ([p2'|] & E2 & [= ->]).
  apply back_turn_async in E1 as [E1 Hal]; [|by rewrite Hb].
  simpl in E1. rewrite Hb in E1. rewrite Hal, (rd_alive _ Hr) in E2.
  destruct (swap_ok SIZE HSIZE _ (rd_async _ Hr) Hb) as (a1 & w & Es & Hi1 & Eb1 & Hp1 & Ho1 & Hpw & Hlw & _).
  rewrite E1 in Es. injection Es as Ea. rewrite <- Ea in *. clear Ea E1.
  apply back_turn_async in E2 as [E2 _]; [|rewrite Eb1; intros ? [= <-]; lia]. simpl in E2. rewrite Eb1 in E2.
  destruct (write_ok SIZE HSIZE _ w Hi1 Eb1) as (a2 & Ew & _ & _ & _ & _ & Hw & Hnd).
  rewrite E2 in Ew. injection Ew as <-.
  assert (Hd1 : dropped (sk_async (p_sinks p1)) = false) by (unfold dropped in *; by rewrite Ho1).
  assert (Hd2 : dropped (sk_async (p_sinks p2)) = false) by (apply Hnd; [done|lia]).
  split; [done|]. destruct (Hw Hd2) as (_ & _ & ->). unfold written. by rewrite Ho1, Hpw.
Qed.

Lemma process_run_ok es : ∀ p base acc, ready p → Forall event_ok es → balance p base acc →
  ∃ p' lines, process_run SIZE strerror_tl gmtime_r hostname clock p es = Ok (Some p') ∧ ready p' ∧
    Forall2 writes_line (logged (p_globals p) es) lines ∧ balance p' base (acc ++ concat lines).
Proof.
  induction es as [|e es IH]; intros p base acc Hr Hes Hbal; simpl.
  - exists p, []. split_and!; [done..|constructor|by rewrite app_nil_r].
  - apply Forall_cons in Hes as [He Hes]. destruct (process_step_ok p e base acc Hr He Hbal) as (p1 & l1 & -> & Hr1 & Eg & Hl1 & Hb1).
    mred. destruct (IH p1 base _ Hr1 Hes Hb1) as (p' & l2 & -> & Hr' & Hl2 & Hb2). exists p', (l1 ++ l2).
    split_and!; [done..| |by rewrite concat_app, app_assoc]. apply Forall2_app; [done|]. by rewrite <- Eg.
Qed.
End run.

End pipeline.

(** ** A process at work *)

Definition sample_tm : tm := mkTm 70 0 1 0 0 1.
Definition sample_moment (tid now : Z) : moment := mkMoment tid now 0 (replicate 4000 NUL).
Definition sample_statement (level : LogLevel) (text : string) : statement :=
  mkStatement (LLevel level) (chars "src/main.cc") 7 [ICString (Some (chars text))].
Definition sample_turn : turn :=
  mkTurn (sample_moment 5 1900000) 1900000 (λ d, match d with [] => [] | _ => [(zlen d, false)] end) true.
Definition sample_process (out : OutputFunc) (level : LogLevel) : Process :=
  mkProcess (mkGlobals level out defaultFlush None) ∅ (mkSinks [] [] (started 4000))
    (mkLogFile (chars "app") 500 3 1024 0 0 0 0 (Some (mkAppendFile (chars "apphost.log") 0)) 0) (mkWorld ∅ 1) false.


(** ** Where the lines do not follow the settings *)

Section settings.
Let run := process_run 4000 (λ _, chars "Success") (λ _, sample_tm) (chars "host") (λ n, Z.of_nat n).
Let stdout := defaultOutput (λ _ msg, zlen msg).

(** Logger::setTimeZone does not reset the cached second of the threads: a
    thread that logs again in the same second writes the time of the former
    zone, without the mark of UTC. *)
Theorem setTimeZone_stale :
  ∃ p', run (sample_process stdout INFO)
      [ELog (sample_moment 77 1500000) (sample_statement INFO "a"); ESet (setTimeZone (TimeZone_fixed (8 * 3600) (chars "CST")));
       ELog (sample_moment 77 1600000) (sample_statement INFO "b"); ELog (sample_moment 77 2600000) (sample_statement INFO "c")] = Ok (Some p') ∧
    so_given (p_sinks p') =
      chars "19700101 00:00:01.500000z    77 INFO  a - main.cc:7" ++ [LF] ++
      chars "19700101 00:00:01.600000    77 INFO  b - main.cc:7" ++ [LF] ++
      chars "19700101 08:00:02.600000    77 INFO  c - main.cc:7" ++ [LF].
Proof.
  match goal with |- ∃ p', ?r = _ ∧ _ = ?out =>
    assert (H : match r with Ok (Some p') => so_given (p_sinks p') = out | _ => False end) by (vm_compute; reflexivity);
    destruct r as [[p'|]|]; [by exists p'|done..] end.
Qed.

(** A FATAL line through the asynchronous logger is lost: the destructor
    appends it to a buffer, flushes stdout and aborts, and nothing that
    happens afterwards writes it to the file. *)
Theorem fatal_line_lost :
  ∃ p' line, run (sample_process (asyncOutput 4000) INFO)
      [ETurn sample_turn; ELog (sample_moment 77 1500000) (sample_statement FATAL "the end")] = Ok (Some p') ∧
    pending (sk_async (p_sinks p')) = line ∧ line ≠ [] ∧ the_log (chars "host") p' = [] ∧
    so_flushed (p_sinks p') = chars "fatal error" ++ [LF] ++ chars "Success" ++ [LF] ∧
    ∀ es, run p' es = Ok (Some p').
Proof.
  match goal with |- ∃ p' line, ?r = _ ∧ _ =>
    assert (H : match r with
                | Ok (Some p') => pending (sk_async (p_sinks p')) = chars "19700101 00:00:01.500000z    77 FATAL the end - main.cc:7" ++ [LF] ∧
                    the_log (chars "host") p' = [] ∧ so_flushed (p_sinks p') = chars "fatal error" ++ [LF] ++ chars "Success" ++ [LF] ∧
                    p_aborted p' = true
                | _ => False
                end) by (vm_compute; by split_and!);
    destruct r as [[p'|]|]; [|done..] end.
  destruct H as (H1 & H2 & H3 & Ha). eexists p', _. split_and!; [done|exact H1|done..|].
  intros es. by apply aborted_stays.
Qed.
End settings.
