(* ===== verification/Sync.v ===== *)
(** * Blocking structures: src/dc/base/blockingQueue.h, boundedBlockingQueue.h,
      countDownLatch.{h,cc}, threadpool.{h,cc}, src/dc/net/eventLoopThread.{h,cc}

    Each structure is a monitor: its methods run under one mutex and wait on
    condition variables.  A critical section is one step.  A thread inside a
    method is ready (it will next run the critical section from its while
    test) or asleep on a condition; notify wakes any one sleeper, and a
    sleeper may also wake spuriously.  The step relations allow every
    interleaving; threads are numbered, and a thread that waits keeps its
    argument. *)

From S2P Require Import Prelude.

Open Scope nat_scope.

(** ** Condition variables *)

(** [Condition::notify]: one sleeper, if any, becomes ready. *)
Inductive notify {A} : list A → list A → list A → list A → Prop :=
  | notify_none rd : notify [] rd [] rd
  | notify_one s1 t s2 rd : notify (s1 ++ t :: s2) rd (s1 ++ s2) (rd ++ [t]).

(** [Condition::notifyAll] *)
Definition notifyAll {A} (sl rd : list A) : list A * list A := ([], rd ++ sl).

(** There are as many ready threads as there is work, as long as a thread
    sleeps: the invariant that makes one notify per unit of work enough. *)
Definition covered {A} (work : nat) (sl rd : list A) : Prop := sl ≠ [] → work ≤ length rd.

Lemma notify_covered {A} n (sl rd sl' rd' : list A) :
  covered n sl rd → notify sl rd sl' rd' → covered (S n) sl' rd'.
Proof.
  intros Hc H. destruct H as [rd|s1 t s2 rd]; unfold covered in *; [done|]. intros _.
  rewrite length_app. simpl. assert (n ≤ length rd) by (apply Hc; by destruct s1). lia.
Qed.

Lemma covered_less {A} n m (sl rd : list A) : covered n sl rd → m ≤ n → covered m sl rd.
Proof. unfold covered. intros H Hm Hs. specialize (H Hs). lia. Qed.

(** The ready thread that runs leaves, with one unit of work. *)
Lemma covered_run {A} n (sl r1 r2 : list A) t : covered (S n) sl (r1 ++ t :: r2) → covered n sl (r1 ++ r2).
Proof. unfold covered. rewrite !length_app. simpl. intros H Hs. specialize (H Hs). lia. Qed.

Lemma covered_wake {A} n (s1 s2 rd : list A) t : covered n (s1 ++ t :: s2) rd → covered n (s1 ++ s2) (rd ++ [t]).
Proof. unfold covered. rewrite length_app. intros H _. assert (n ≤ length rd) by (apply H; by destruct s1). lia. Qed.

Lemma covered_zero {A} (sl rd : list A) : covered 0 sl rd.
Proof. unfold covered. lia. Qed.

(** ** BlockingQueue<T> and BoundedBlockingQueue<T> *)

Module Queue.
Section queue.
Context {T : Type}.

(** The critical section of [BlockingQueue::take]: [None] is wait(). *)
Definition take (q : list T) : option (T * list T) :=
  match q with [] => None | x :: q' => Some (x, q') end.

(** [BlockingQueue::put] *)
Definition put (q : list T) (x : T) : list T := q ++ [x].

(** [BlockingQueue::drain]: the deque returned, and what is left. *)
Definition drain (q : list T) : list T * list T := (q, []).

(** boost::circular_buffer: push_back on a full one overwrites the oldest
    element. *)
Definition full (capacity : nat) (q : list T) : bool := Nat.eqb (length q) capacity.
Definition push_back (capacity : nat) (q : list T) (x : T) : list T :=
  if full capacity q then tail (q ++ [x]) else q ++ [x].

(** The critical section of [BoundedBlockingQueue::put]: [None] is
    m_notFull.wait(). *)
Definition bounded_put (capacity : nat) (q : list T) (x : T) : res (option (list T)) :=
  if full capacity q then Ok None
  else cassert (negb (full capacity q)) "!m_queue.full()";; Ok (Some (push_back capacity q x)).

(** The critical section of [BoundedBlockingQueue::take] *)
Definition bounded_take (q : list T) : res (option (T * list T)) :=
  match q with
  | [] => Ok None
  | x :: q' => Ok (Some (x, q'))
  end.

(** The queue with its threads: takers and putters, ready or asleep, and as
    ghost state the sequences of completed puts and takes. *)
Record State : Type := mkState {
  queue : list T;
  tk_ready : list nat; tk_sleep : list nat;
  pt_ready : list (nat * T); pt_sleep : list (nat * T);
  puts_done : list T; takes_done : list T;
}.

(** The bounded queue. *)
Inductive step (capacity : nat) : State → State → Prop :=
  | take_call s t :
      step capacity s (mkState (queue s) (tk_ready s ++ [t]) (tk_sleep s) (pt_ready s) (pt_sleep s) (puts_done s) (takes_done s))
  | put_call s t x :
      step capacity s (mkState (queue s) (tk_ready s) (tk_sleep s) (pt_ready s ++ [(t, x)]) (pt_sleep s) (puts_done s) (takes_done s))
  | take_waits s r1 t r2 :
      tk_ready s = r1 ++ t :: r2 → bounded_take (queue s) = Ok None →
      step capacity s (mkState (queue s) (r1 ++ r2) (tk_sleep s ++ [t]) (pt_ready s) (pt_sleep s) (puts_done s) (takes_done s))
  | take_returns s r1 t r2 x q' pr ps :
      tk_ready s = r1 ++ t :: r2 → bounded_take (queue s) = Ok (Some (x, q')) →
      notify (pt_sleep s) (pt_ready s) ps pr →
      step capacity s (mkState q' (r1 ++ r2) (tk_sleep s) pr ps (puts_done s) (takes_done s ++ [x]))
  | put_waits s r1 t x r2 :
      pt_ready s = r1 ++ (t, x) :: r2 → bounded_put capacity (queue s) x = Ok None →
      step capacity s (mkState (queue s) (tk_ready s) (tk_sleep s) (r1 ++ r2) (pt_sleep s ++ [(t, x)]) (puts_done s) (takes_done s))
  | put_returns s r1 t x r2 q' tr ts :
      pt_ready s = r1 ++ (t, x) :: r2 → bounded_put capacity (queue s) x = Ok (Some q') →
      notify (tk_sleep s) (tk_ready s) ts tr →
      step capacity s (mkState q' tr ts (r1 ++ r2) (pt_sleep s) (puts_done s ++ [x]) (takes_done s))
  | take_spurious s s1 t s2 :
      tk_sleep s = s1 ++ t :: s2 →
      step capacity s (mkState (queue s) (tk_ready s ++ [t]) (s1 ++ s2) (pt_ready s) (pt_sleep s) (puts_done s) (takes_done s))
  | put_spurious s s1 p s2 :
      pt_sleep s = s1 ++ p :: s2 →
      step capacity s (mkState (queue s) (tk_ready s) (tk_sleep s) (pt_ready s ++ [p]) (s1 ++ s2) (puts_done s) (takes_done s)).

Definition init : State := mkState [] [] [] [] [] [] [].

(** The invariant: the bound, the order, and both coverings. *)
Definition inv (capacity : nat) (s : State) : Prop :=
  length (queue s) ≤ capacity ∧ puts_done s = takes_done s ++ queue s ∧
  covered (length (queue s)) (tk_sleep s) (tk_ready s) ∧
  covered (capacity - length (queue s)) (pt_sleep s) (pt_ready s).

Lemma init_inv capacity : inv capacity init.
Proof. split_and!; simpl; [lia|done|by unfold covered|by unfold covered]. Qed.

Lemma queue_step_inv capacity s s' : inv capacity s → step capacity s s' → inv capacity s'.
Proof.
  intros (Hb & Ho & Ht & Hp) H. destruct H as [s t|s t x|s r1 t r2 E1 E2|s r1 t r2 x q' pr ps E1 E2 Hn|s r1 t x r2 E1 E2|
    s r1 t x r2 q' tr ts E1 E2 Hn|s s1 t s2 E|s s1 p s2 E]; unfold inv; simpl.
  - split_and!; [done..| |done]. unfold covered in *. rewrite length_app. intros. specialize (Ht H). lia.
  - split_and!; [done..|]. unfold covered in *. rewrite length_app. intros. specialize (Hp H). lia.
  - unfold bounded_take in E2. destruct (queue s); [|done]. split_and!; [done..| |done]. apply covered_zero.
  - unfold bounded_take in E2. destruct (queue s) as [|y q] eqn:Eq; [done|]. injection E2 as <- <-. simpl in *.
    rewrite E1 in Ht. split_and!; [lia|by rewrite Ho, <- app_assoc|by eapply covered_run|].
    apply (covered_less (S (capacity - S (length q)))); [by eapply notify_covered|lia].
  - unfold bounded_put in E2. destruct (full capacity (queue s)) eqn:Ef; [|done]. apply Nat.eqb_eq in Ef.
    split_and!; [done..|]. replace (capacity - length (queue s)) with 0 by lia. apply covered_zero.
  - unfold bounded_put in E2. destruct (full capacity (queue s)) eqn:Ef; [done|]. simpl in E2. injection E2 as <-.
    unfold push_back. rewrite Ef. apply Nat.eqb_neq in Ef. rewrite length_app. simpl. rewrite E1 in Hp.
    split_and!; [lia|by rewrite Ho, <- app_assoc| |].
    + rewrite Nat.add_1_r. by eapply notify_covered.
    + eapply covered_run. eapply covered_less; [exact Hp|lia].
  - rewrite E in Ht. split_and!; [done..| |done]. by apply covered_wake.
  - rewrite E in Hp. split_and!; [done..|]. by apply covered_wake.
Qed.

Lemma reachable_inv capacity s : rtc (step capacity) init s → inv capacity s.
Proof.
  intros H. remember init as s0 eqn:E0. assert (Hi : inv capacity s0) by (subst; apply init_inv). clear E0.
  induction H as [|s1 s2 s3 H1 _ IH]; [done|]. by eapply IH, queue_step_inv.
Qed.

(** C23.  BoundedBlockingQueue: in every interleaving of any number of putters
    and takers, with any choice of the thread each notify wakes and spurious
    wakeups, the queue never exceeds its capacity, elements are taken in the
    order they were put, and no wakeup is lost: while elements are queued and
    a taker sleeps some taker is ready, while there is room and a putter
    sleeps some putter is ready, so (with a positive capacity) takers and
    putters never all sleep at once. *)
Theorem bounded_queue_safe (capacity : nat) (s : State) :
  rtc (step capacity) init s →
  length (queue s) ≤ capacity ∧ puts_done s = takes_done s ++ queue s ∧
  (queue s ≠ [] → tk_sleep s ≠ [] → tk_ready s ≠ []) ∧
  (length (queue s) < capacity → pt_sleep s ≠ [] → pt_ready s ≠ []) ∧
  (0 < capacity → tk_sleep s ≠ [] → pt_sleep s ≠ [] → tk_ready s ≠ [] ∨ pt_ready s ≠ []).
Proof.
  intros (Hb & Ho & Ht & Hp)%reachable_inv. unfold covered in *.
  assert (H1 : queue s ≠ [] → tk_sleep s ≠ [] → tk_ready s ≠ []).
  { intros Hq Hs E. specialize (Ht Hs). rewrite E in Ht. destruct (queue s); simpl in *; [done|lia]. }
  assert (H2 : length (queue s) < capacity → pt_sleep s ≠ [] → pt_ready s ≠ []).
  { intros Hq Hs E. specialize (Hp Hs). rewrite E in Hp. simpl in Hp. lia. }
  split_and!; [done..|]. intros Hc Hs Hs'. destruct (queue s) eqn:E; [right; apply H2; [simpl; lia|done]|left; by apply H1].
Qed.
End queue.
Arguments State : clear implicits.

Lemma bounded_queue_safe_witness :
  let s := mkState [7] [1] [] [] [] [7] [] in
  length (queue s) ≤ 1 ∧ puts_done s = takes_done s ++ queue s ∧
  (queue s ≠ [] → tk_sleep s ≠ [] → tk_ready s ≠ []) ∧
  (length (queue s) < 1 → pt_sleep s ≠ [] → pt_ready s ≠ []) ∧
  (0 < 1 → tk_sleep s ≠ [] → pt_sleep s ≠ [] → tk_ready s ≠ [] ∨ pt_ready s ≠ []).
Proof.
  intros s. apply (bounded_queue_safe 1 s).
  eapply rtc_l; [exact (take_call 1 init 1)|]. simpl.
  eapply rtc_l; [eapply (take_waits 1 _ [] 1 []); done|]. simpl.
  eapply rtc_l; [exact (put_call 1 _ 2 7)|]. simpl.
  eapply rtc_l; [eapply (put_returns 1 _ [] 2 7 [] [7]); [done|done|exact (notify_one [] 1 [] [])]|]. simpl.
  apply rtc_refl.
Defined.
End Queue.

(** ** CountDownLatch *)

Module Latch.
Open Scope Z_scope.

(** [m_count], the waiters ready at their while test or asleep, those that
    have returned, and as ghost state how often countDown was called. *)
Record State : Type := mkState { m_count : Z; ready : list nat; asleep : list nat; returned : list nat; calls : Z }.

(** The while test of [CountDownLatch::wait] *)
Definition must_wait (count : Z) : bool := count >? 0.

(** [CountDownLatch::countDown]: the count, and whether it notifies all. *)
Definition countDown (count : Z) : Z * bool := (count - 1, count - 1 =? 0).

Inductive step : State → State → Prop :=
  | wait_call s t : step s (mkState (m_count s) (ready s ++ [t]) (asleep s) (returned s) (calls s))
  | wait_sleeps s r1 t r2 :
      ready s = r1 ++ t :: r2 → must_wait (m_count s) = true →
      step s (mkState (m_count s) (r1 ++ r2) (asleep s ++ [t]) (returned s) (calls s))
  | wait_returns s r1 t r2 :
      ready s = r1 ++ t :: r2 → must_wait (m_count s) = false →
      step s (mkState (m_count s) (r1 ++ r2) (asleep s) (returned s ++ [t]) (calls s))
  | count_down s c all :
      countDown (m_count s) = (c, all) →
      step s (mkState c (if all then (notifyAll (asleep s) (ready s)).2 else ready s)
                        (if all then [] else asleep s) (returned s) (calls s + 1))
  | spurious s s1 t s2 :
      asleep s = s1 ++ t :: s2 →
      step s (mkState (m_count s) (ready s ++ [t]) (s1 ++ s2) (returned s) (calls s)).

(** [CountDownLatch::CountDownLatch] *)
Definition init (count : Z) : State := mkState count [] [] [] 0.

Definition inv (count : Z) (s : State) : Prop :=
  m_count s = count - calls s ∧ 0 ≤ calls s ∧ (m_count s ≤ 0 → asleep s = []) ∧ (returned s ≠ [] → m_count s ≤ 0).

Lemma latch_step_inv count s s' : inv count s → step s s' → inv count s'.
Proof.
  intros (Hc & H0 & Hs & Hr) H. destruct H as [s t|s r1 t r2 E Hm|s r1 t r2 E Hm|s c all E|s s1 t s2 E]; unfold inv; simpl; [done|..].
  - unfold must_wait in Hm. apply Z.gtb_lt in Hm. split_and!; [done..|lia|done].
  - unfold must_wait in Hm. destruct (Z.gtb_spec (m_count s) 0); [done|]. by split_and!.
  - unfold countDown in E. injection E as <- <-. destruct (Z.eqb_spec (m_count s - 1) 0) as [E|E].
    + split_and!; [lia|lia|done|lia].
    + split_and!; [lia|lia| |intros Hn; specialize (Hr Hn); lia]. intros. apply Hs. lia.
  - split_and!; [done..| |done]. intros Hle. specialize (Hs Hle). rewrite Hs in E. by destruct s1.
Qed.

(** CountDownLatch: a waiter returns only after countDown was called at
    least [count] times, and once it was, no waiter is asleep and every ready
    waiter passes its test, so all of them return; no interleaving loses the
    broadcast. *)
Theorem latch_correct (count : Z) (s : State) :
  rtc step (init count) s →
  (returned s ≠ [] → count ≤ calls s) ∧
  (count ≤ calls s → asleep s = [] ∧ must_wait (m_count s) = false) ∧
  (calls s < count → returned s = []).
Proof.
  intros H. assert (Hi : inv count s).
  { remember (init count) as s0 eqn:E0. assert (Hi : inv count s0) by (subst; unfold inv; simpl; split_and!; [lia|lia|done|done]).
    clear E0. induction H as [|s1 s2 s3 H1 _ IH]; [done|]. by eapply IH, latch_step_inv. }
  destruct Hi as (Hc & H0 & Hs & Hr). split_and!.
  - intros Hn. specialize (Hr Hn). lia.
  - intros Hle. split; [apply Hs; lia|]. unfold must_wait. destruct (Z.gtb_spec (m_count s) 0); [lia|done].
  - intros Hlt. destruct (returned s) eqn:E; [done|]. assert (m_count s ≤ 0) by by apply Hr. lia.
Qed.

Lemma latch_correct_witness :
  let s := mkState 0 [5%nat] [] [] 1 in
  (returned s ≠ [] → 1 ≤ calls s) ∧
  (1 ≤ calls s → asleep s = [] ∧ must_wait (m_count s) = false) ∧
  (calls s < 1 → returned s = []).
Proof.
  intros s. apply (latch_correct 1 s).
  eapply rtc_l; [exact (wait_call (init 1) 5)|]. simpl.
  eapply rtc_l; [eapply (wait_sleeps _ [] 5 []); done|]. simpl.
  eapply rtc_l; [by eapply (count_down _ 0 true)|]. apply rtc_refl.
Defined.
End Latch.

(** ** ThreadPool *)

Module Pool.

(** Tasks are numbered.  A worker is at the head of the loop of runInThread,
    ready or asleep in take, running a task, or past the loop; a caller of
    run is ready or asleep with its task. *)
Record State : Type := mkState {
  m_queue : list nat;
  is_running : bool;
  w_head : list nat; w_ready : list nat; w_sleep : list nat; w_task : list (nat * nat); w_exit : list nat;
  r_ready : list (nat * nat); r_sleep : list (nat * nat);
  accepted : list nat; started : list nat;
}.

(** [ThreadPool::isFull]; [_maxQueueSize] 0 means unbounded. *)
Definition isFull (maxQueueSize : nat) (q : list nat) : bool :=
  Nat.ltb 0 maxQueueSize && Nat.leb maxQueueSize (length q).

(** The critical section of [ThreadPool::run] when there are threads. *)
Inductive run_result : Type := RunWaits | RunRefused | RunQueued (q : list nat).
Definition run (maxQueueSize : nat) (q : list nat) (running : bool) (task : nat) : res run_result :=
  if isFull maxQueueSize q && running then Ok RunWaits
  else if negb running then Ok RunRefused
  else cassert (negb (isFull maxQueueSize q)) "!isFull()";; Ok (RunQueued (q ++ [task])).

(** The critical section of [ThreadPool::take]: wait, the empty task, or a
    task with the queue left and whether _notFull is notified. *)
Inductive take_result : Type := TakeWaits | TakeNone | TakeTask (task : nat) (q : list nat) (notifies : bool).
Definition take (maxQueueSize : nat) (q : list nat) (running : bool) : take_result :=
  match q with
  | [] => if running then TakeWaits else TakeNone
  | t :: q' => TakeTask t q' (Nat.ltb 0 maxQueueSize)
  end.

(** [ThreadPool::start] with at least one thread: every worker is at the head
    of its loop. *)
Definition start (workers : list nat) : State := mkState [] true workers [] [] [] [] [] [] [] [].

Inductive step (maxQueueSize : nat) : State → State → Prop :=
  | run_call s t task :
      step maxQueueSize s (mkState (m_queue s) (is_running s) (w_head s) (w_ready s) (w_sleep s) (w_task s) (w_exit s)
        (r_ready s ++ [(t, task)]) (r_sleep s) (accepted s) (started s))
  | run_waits s r1 p r2 :
      r_ready s = r1 ++ p :: r2 → run maxQueueSize (m_queue s) (is_running s) p.2 = Ok RunWaits →
      step maxQueueSize s (mkState (m_queue s) (is_running s) (w_head s) (w_ready s) (w_sleep s) (w_task s) (w_exit s)
        (r1 ++ r2) (r_sleep s ++ [p]) (accepted s) (started s))
  | run_refused s r1 p r2 :
      r_ready s = r1 ++ p :: r2 → run maxQueueSize (m_queue s) (is_running s) p.2 = Ok RunRefused →
      step maxQueueSize s (mkState (m_queue s) (is_running s) (w_head s) (w_ready s) (w_sleep s) (w_task s) (w_exit s)
        (r1 ++ r2) (r_sleep s) (accepted s) (started s))
  | run_queued s r1 p r2 q wr ws :
      r_ready s = r1 ++ p :: r2 → run maxQueueSize (m_queue s) (is_running s) p.2 = Ok (RunQueued q) →
      notify (w_sleep s) (w_ready s) ws wr →
      step maxQueueSize s (mkState q (is_running s) (w_head s) wr ws (w_task s) (w_exit s)
        (r1 ++ r2) (r_sleep s) (accepted s ++ [p.2]) (started s))
  | head_loops s h1 w h2 :
      w_head s = h1 ++ w :: h2 → is_running s = true →
      step maxQueueSize s (mkState (m_queue s) (is_running s) (h1 ++ h2) (w_ready s ++ [w]) (w_sleep s) (w_task s) (w_exit s)
        (r_ready s) (r_sleep s) (accepted s) (started s))
  | head_exits s h1 w h2 :
      w_head s = h1 ++ w :: h2 → is_running s = false →
      step maxQueueSize s (mkState (m_queue s) (is_running s) (h1 ++ h2) (w_ready s) (w_sleep s) (w_task s) (w_exit s ++ [w])
        (r_ready s) (r_sleep s) (accepted s) (started s))
  | take_waits s r1 w r2 :
      w_ready s = r1 ++ w :: r2 → take maxQueueSize (m_queue s) (is_running s) = TakeWaits →
      step maxQueueSize s (mkState (m_queue s) (is_running s) (w_head s) (r1 ++ r2) (w_sleep s ++ [w]) (w_task s) (w_exit s)
        (r_ready s) (r_sleep s) (accepted s) (started s))
  | take_none s r1 w r2 :
      w_ready s = r1 ++ w :: r2 → take maxQueueSize (m_queue s) (is_running s) = TakeNone →
      step maxQueueSize s (mkState (m_queue s) (is_running s) (w_head s ++ [w]) (r1 ++ r2) (w_sleep s) (w_task s) (w_exit s)
        (r_ready s) (r_sleep s) (accepted s) (started s))
  | take_task s r1 w r2 task q n rr rs :
      w_ready s = r1 ++ w :: r2 → take maxQueueSize (m_queue s) (is_running s) = TakeTask task q n →
      (if n : bool then notify (r_sleep s) (r_ready s) rs rr else rs = r_sleep s ∧ rr = r_ready s) →
      step maxQueueSize s (mkState q (is_running s) (w_head s) (r1 ++ r2) (w_sleep s) (w_task s ++ [(w, task)]) (w_exit s)
        rr rs (accepted s) (started s ++ [task]))
  | task_ends s k1 w task k2 :
      w_task s = k1 ++ (w, task) :: k2 →
      step maxQueueSize s (mkState (m_queue s) (is_running s) (w_head s ++ [w]) (w_ready s) (w_sleep s) (k1 ++ k2) (w_exit s)
        (r_ready s) (r_sleep s) (accepted s) (started s))
  | stop s :
      step maxQueueSize s (mkState (m_queue s) false (w_head s) (w_ready s ++ w_sleep s) [] (w_task s) (w_exit s)
        (r_ready s ++ r_sleep s) [] (accepted s) (started s))
  | worker_spurious s s1 w s2 :
      w_sleep s = s1 ++ w :: s2 →
      step maxQueueSize s (mkState (m_queue s) (is_running s) (w_head s) (w_ready s ++ [w]) (s1 ++ s2) (w_task s) (w_exit s)
        (r_ready s) (r_sleep s) (accepted s) (started s))
  | run_spurious s s1 p s2 :
      r_sleep s = s1 ++ p :: s2 →
      step maxQueueSize s (mkState (m_queue s) (is_running s) (w_head s) (w_ready s) (w_sleep s) (w_task s) (w_exit s)
        (r_ready s ++ [p]) (s1 ++ s2) (accepted s) (started s)).

Section pool.
Context (maxQueueSize : nat).

Definition inv (s : State) : Prop :=
  (maxQueueSize ≠ 0 → length (m_queue s) ≤ maxQueueSize) ∧ accepted s = started s ++ m_queue s ∧
  covered (length (m_queue s)) (w_sleep s) (w_ready s) ∧
  (maxQueueSize = 0 → r_sleep s = []) ∧ covered (maxQueueSize - length (m_queue s)) (r_sleep s) (r_ready s) ∧
  (is_running s = false → w_sleep s = [] ∧ r_sleep s = []).

Lemma isFull_spec q : isFull maxQueueSize q = true ↔ maxQueueSize ≠ 0 ∧ maxQueueSize ≤ length q.
Proof. unfold isFull. rewrite andb_true_iff, Nat.ltb_lt, Nat.leb_le. lia. Qed.

Lemma covered_more {A} n (sl rd : list A) t : covered n sl rd → covered n sl (rd ++ [t]).
Proof. unfold covered. rewrite length_app. intros H Hs. specialize (H Hs). lia. Qed.

Lemma run_step s (p : nat * nat) :
  match run maxQueueSize (m_queue s) (is_running s) p.2 with
  | Ok RunWaits => is_running s = true ∧ maxQueueSize ≠ 0 ∧ maxQueueSize ≤ length (m_queue s)
  | Ok RunRefused => is_running s = false
  | Ok (RunQueued q) => q = m_queue s ++ [p.2] ∧ is_running s = true ∧ (maxQueueSize ≠ 0 → length (m_queue s) < maxQueueSize)
  | Fail _ => False
  end.
Proof.
  unfold run. destruct (isFull maxQueueSize (m_queue s)) eqn:Ef, (is_running s); simpl; try done.
  - by apply isFull_spec in Ef.
  - split_and!; [done..|]. intros Hm. destruct (decide (length (m_queue s) < maxQueueSize)); [done|].
    rewrite (proj2 (isFull_spec _)) in Ef by lia. done.
Qed.

Lemma pool_step_inv s s' : inv s → step maxQueueSize s s' → inv s'.
Proof.
  intros Hi H. pose proof Hi as (Hb & Ho & Hw & H0 & Hr & Hstop).
  destruct H as [s t task|s r1 p r2 E E2|s r1 p r2 E E2|s r1 p r2 q wr ws E E2 Hn|s h1 w h2 E Er|s h1 w h2 E Er|s r1 w r2 E E2|
    s r1 w r2 E E2|s r1 w r2 task q n rr rs E E2 Hn|s k1 w task k2 E|s|s s1 w s2 E|s s1 p s2 E]; unfold inv; simpl;
    try (pose proof (run_step s p) as Hrun; rewrite E2 in Hrun; rewrite E in Hr).
  - split_and!; try done. by apply covered_more.
  - destruct Hrun as (Er & Hm & Hf). split_and!; try done; [|by rewrite Er].
    replace (maxQueueSize - length (m_queue s)) with 0 by lia. apply covered_zero.
  - split_and!; try done. destruct (Hstop Hrun) as [_ ->]. by unfold covered.
  - destruct Hrun as (-> & Er & Hf). rewrite length_app, Nat.add_1_r. split_and!; try done.
    + by rewrite Ho, app_assoc.
    + by eapply notify_covered.
    + destruct (decide (maxQueueSize = 0)) as [Em|Em]; [rewrite (H0 Em); by unfold covered|].
      eapply covered_run. eapply covered_less; [exact Hr|]. specialize (Hf Em). lia.
    + by rewrite Er.
  - split_and!; try done. by apply covered_more.
  - by split_and!.
  - unfold take in E2. destruct (m_queue s); [|done]. destruct (is_running s); [|done]. split_and!; try done. apply covered_zero.
  - unfold take in E2. destruct (m_queue s); [|done]. destruct (is_running s); [done|]. split_and!; try done. apply covered_zero.
  - unfold take in E2. destruct (m_queue s) as [|t q'] eqn:Eq; [by destruct (is_running s)|]. injection E2 as <- <- <-. rewrite E in Hw. simpl in *.
    assert (Hr' : covered (maxQueueSize - length q') rs rr ∧ (maxQueueSize = 0 → rs = []) ∧ (is_running s = false → rs = [])).
    { destruct (Nat.ltb_spec 0 maxQueueSize).
      - split; [|split; [lia|]]; [eapply covered_less; [by eapply notify_covered|lia]|].
        intros Hst. destruct (Hstop Hst) as [_ Ers]. rewrite Ers in Hn. by inversion Hn as [|? ? ? ? Hx]; [|destruct s1].
      - destruct Hn as [-> ->]. rewrite H0 by lia. by unfold covered. }
    destruct Hr' as (Hr1 & Hr2 & Hr3). split_and!; try done.
    + intros Hm. specialize (Hb Hm). lia.
    + by rewrite Ho, <- app_assoc.
    + by eapply covered_run.
    + intros Hst. split; [by apply Hstop|by apply Hr3].
  - by split_and!.
  - split_and!; try done; by unfold covered.
  - rewrite E in Hw. split_and!; try done; [by apply covered_wake|]. intros Hst. destruct (Hstop Hst) as [Hx _]. rewrite E in Hx. by destruct s1.
  - rewrite E in Hr. split_and!; try done; [|by apply covered_wake|].
    + intros Hm. specialize (H0 Hm). rewrite E in H0. by destruct s1.
    + intros Hst. destruct (Hstop Hst) as [_ Hx]. rewrite E in Hx. by destruct s1.
Qed.

Lemma start_inv ws : inv (start ws).
Proof. unfold inv, covered. simpl. split_and!; done || lia. Qed.

Lemma pool_reachable_inv workers s : rtc (step maxQueueSize) (start workers) s → inv s.
Proof.
  intros H. remember (start workers) as s0 eqn:E0. assert (Hi : inv s0) by (subst; apply start_inv). clear E0.
  induction H as [|s1 s2 s3 H1 _ IH]; [done|]. by eapply IH, pool_step_inv.
Qed.

(** C24.  ThreadPool: in every interleaving, a bounded queue never exceeds its
    size, tasks are started in the order run accepted them, each once, and no
    wakeup is lost: while tasks are queued and a worker sleeps some worker is
    ready, while a bounded queue has room and a caller of run sleeps some
    caller is ready.  After stop nobody sleeps and nobody goes to sleep again,
    so every worker reaches the end of its loop and run returns. *)
Theorem threadpool_safe (workers : list nat) (s : State) :
  rtc (step maxQueueSize) (start workers) s →
  (maxQueueSize ≠ 0 → length (m_queue s) ≤ maxQueueSize) ∧
  accepted s = started s ++ m_queue s ∧
  (m_queue s ≠ [] → w_sleep s ≠ [] → w_ready s ≠ []) ∧
  (length (m_queue s) < maxQueueSize → r_sleep s ≠ [] → r_ready s ≠ []) ∧
  (is_running s = false →
    w_sleep s = [] ∧ r_sleep s = [] ∧ take maxQueueSize (m_queue s) false ≠ TakeWaits ∧
    ∀ task, run maxQueueSize (m_queue s) false task = Ok RunRefused).
Proof.
  intros H. destruct (pool_reachable_inv _ _ H) as (Hb & Ho & Hw & H0 & Hr & Hstop). unfold covered in *. split_and!; [done|done| | |].
  - intros Hq Hs E. specialize (Hw Hs). rewrite E in Hw. destruct (m_queue s); simpl in *; [done|lia].
  - intros Hq Hs E. specialize (Hr Hs). rewrite E in Hr. simpl in Hr. lia.
  - intros Hst. destruct (Hstop Hst) as [-> ->]. split_and!; [done|done|by destruct (m_queue s)|].
    intros task. unfold run. by rewrite andb_false_r.
Qed.
End pool.

Lemma threadpool_safe_witness :
  let s := mkState [9] true [] [1] [] [] [] [] [] [9] [] in
  (2 ≠ 0 → length (m_queue s) ≤ 2) ∧
  accepted s = started s ++ m_queue s ∧
  (m_queue s ≠ [] → w_sleep s ≠ [] → w_ready s ≠ []) ∧
  (length (m_queue s) < 2 → r_sleep s ≠ [] → r_ready s ≠ []) ∧
  (is_running s = false →
    w_sleep s = [] ∧ r_sleep s = [] ∧ take 2 (m_queue s) false ≠ TakeWaits ∧
    ∀ task, run 2 (m_queue s) false task = Ok RunRefused).
Proof.
  intros s. apply (threadpool_safe 2 [1] s).
  eapply rtc_l; [by eapply (head_loops 2 _ [] 1 [])|]. simpl.
  eapply rtc_l; [by eapply (take_waits 2 _ [] 1 [])|]. simpl.
  eapply rtc_l; [exact (run_call 2 _ 8 9)|]. simpl.
  eapply rtc_l; [eapply (run_queued 2 _ [] (8, 9) [] [9]); [done|done|exact (notify_one [] 1 [] [])]|]. simpl.
  apply rtc_refl.
Defined.
End Pool.

(** ** EventLoopThread *)

Module LoopThread.

(** The caller of startLoop: before the thread is started, ready at its while
    test, asleep, or returned with the pointer it read. *)
Inductive caller : Type := CNew | CReady | CAsleep | CReturned (loop : nat).

(** threadFunc: not started, constructing the loop (numbered) and running the
    callback, looping with the callback done, ended. *)
Inductive thread : Type := TNone | TInit | TLooping | TEnded.

Record State : Type := mkState {
  m_loop : option nat;
  the_caller : caller;
  the_thread : thread;
  callback_ran : bool;
  quit_asked : bool;
}.

(** [EventLoopThread::EventLoopThread] *)
Definition init : State := mkState None CNew TNone false false.

(** [EventLoopThread::startLoop]: starting the thread; the assertion. *)
Definition startLoop (s : State) : res State :=
  cassert (match the_thread s with TNone => true | _ => false end) "!m_thread.started()";;
  Ok (mkState (m_loop s) CReady TInit (callback_ran s) (quit_asked s)).

(** The critical section of [EventLoopThread::startLoop] *)
Definition startLoop_test (s : State) : State :=
  mkState (m_loop s) (match m_loop s with None => CAsleep | Some l => CReturned l end) (the_thread s) (callback_ran s) (quit_asked s).

(** [EventLoopThread::threadFunc] up to the end of its first critical
    section: the callback on the new loop, then m_loop and notify. *)
Definition threadFunc_publish (s : State) (loop : nat) : State :=
  mkState (Some loop) (match the_caller s with CAsleep => CReady | c => c end) TLooping true (quit_asked s).

(** The end of [EventLoopThread::threadFunc], after loop() returned. *)
Definition threadFunc_end (s : State) : State :=
  mkState None (the_caller s) TEnded (callback_ran s) (quit_asked s).

(** [EventLoopThread::~EventLoopThread]: it asks the loop to quit and joins,
    if the loop is published. *)
Definition dtor (s : State) : State :=
  match m_loop s with
  | None => s
  | Some _ => mkState (m_loop s) (the_caller s) (the_thread s) (callback_ran s) true
  end.

Inductive step : State → State → Prop :=
  | do_start s s' : the_caller s = CNew → startLoop s = Ok s' → step s s'
  | do_test s : the_caller s = CReady → step s (startLoop_test s)
  | do_spurious s : the_caller s = CAsleep →
      step s (mkState (m_loop s) CReady (the_thread s) (callback_ran s) (quit_asked s))
  | do_publish s loop : the_thread s = TInit → step s (threadFunc_publish s loop)
  | do_end s : the_thread s = TLooping → quit_asked s = true → step s (threadFunc_end s)
  | do_dtor s l : the_caller s = CReturned l → step s (dtor s).

Definition inv (s : State) : Prop :=
  (match the_thread s with TLooping => is_Some (m_loop s) ∧ callback_ran s = true | TEnded => callback_ran s = true | _ => m_loop s = None end) ∧
  match the_caller s with
  | CNew => the_thread s = TNone ∧ quit_asked s = false
  | CReady => the_thread s ≠ TNone ∧ the_thread s ≠ TEnded ∧ quit_asked s = false
  | CAsleep => the_thread s = TInit ∧ quit_asked s = false
  | CReturned l => callback_ran s = true ∧ (m_loop s = Some l ∨ the_thread s = TEnded) ∧ the_thread s ≠ TNone ∧ the_thread s ≠ TInit
  end.

Lemma handshake_step_inv s s' : inv s → step s s' → inv s'.
Proof.
  intros [Ht Hc] H. destruct H as [s s' Ec E|s Ec|s Ec|s loop Et|s Et Hq|s l Ec]; unfold inv; simpl.
  - unfold startLoop in E. rewrite Ec in Hc. destruct Hc as [Hn Hq]. rewrite Hn in *. simpl in E. injection E as <-. by simpl.
  - rewrite Ec in Hc. destruct Hc as (Hn & He & Hq). split; [done|]. destruct (the_thread s); try done.
    + by rewrite Ht.
    + destruct Ht as [[l El] Hcb]. rewrite El. by split_and!; [|left|..].
  - rewrite Ec in Hc. destruct Hc as [Hn Hq]. split; [done|]. by rewrite Hn.
  - rewrite Et in *. split; [by split|]. destruct (the_caller s); naive_solver.
  - rewrite Et in *. destruct Ht as [_ Hcb]. split; [done|]. destruct (the_caller s); naive_solver congruence.
  - rewrite Ec in *. unfold dtor. destruct (m_loop s) as [l'|] eqn:El; simpl; rewrite ?El, ?Ec; done.
Qed.

(** EventLoopThread: startLoop returns only a published loop, after the
    init callback ran on it; it is never left asleep once the loop is
    published (the notify cannot be lost, spurious wakeups are absorbed); and
    while threadFunc is in loop() the pointer is published.  A pointer that
    startLoop returned stays the published one until threadFunc is over. *)
Theorem loop_thread_handshake (s : State) :
  rtc step init s →
  (the_caller s = CAsleep → m_loop s = None ∧ the_thread s = TInit) ∧
  (∀ l, the_caller s = CReturned l → callback_ran s = true ∧ (m_loop s = Some l ∨ the_thread s = TEnded)) ∧
  (the_thread s = TLooping → is_Some (m_loop s) ∧ callback_ran s = true).
Proof.
  intros H. assert (Hi : inv s).
  { remember init as s0 eqn:E0. assert (Hi : inv s0) by by subst. clear E0.
    induction H as [|s1 s2 s3 H1 _ IH]; [done|]. by eapply IH, handshake_step_inv. }
  destruct Hi as [Ht Hc]. split_and!.
  - intros Ec. rewrite Ec in Hc. destruct Hc as [Hn _]. by rewrite Hn in Ht.
  - intros l Ec. rewrite Ec in Hc. by destruct Hc as (? & ? & _).
  - intros Et. by rewrite Et in Ht.
Qed.

Lemma loop_thread_handshake_witness :
  let s := mkState (Some 4) (CReturned 4) TLooping true false in
  (the_caller s = CAsleep → m_loop s = None ∧ the_thread s = TInit) ∧
  (∀ l, the_caller s = CReturned l → callback_ran s = true ∧ (m_loop s = Some l ∨ the_thread s = TEnded)) ∧
  (the_thread s = TLooping → is_Some (m_loop s) ∧ callback_ran s = true).
Proof.
  intros s. apply (loop_thread_handshake s).
  eapply rtc_l; [by eapply do_start|]. eapply rtc_l; [by apply do_test|].
  eapply rtc_l; [by apply (do_publish _ 4)|]. eapply rtc_l; [by apply do_test|]. apply rtc_refl.
Defined.
End LoopThread.
