(* ===== verification/Threads.v ===== *)
(** * Threads and locks: src/dc/base/mutex.h, condition.{h,cc}, atomic.h,
      thread.{h,cc}, currentThread.{h,cc}, singleton.h, threadLocal.h,
      threadLocalSingleton.h, weakCallback.h

    The pthread primitives are modelled by their documented behaviour: a mutex
    has at most one holder, pthread_cond_wait releases it and sleeps in one
    step, pthread_once runs its routine once, thread-specific data has one
    value per thread and key, and its destructor runs at thread exit. *)

From S2P Require Import Prelude.

Open Scope Z_scope.

(** ** Atomic integers *)

Module Atomic.

(** [AtomicIntegerT<T>] for a T of [w] bits: the atomic operations wrap; the
    addition of the returned value is signed arithmetic. *)
Definition getAndAdd (w : Z) (m_value x : Z) : Z * Z := (swrap w (m_value + x), m_value).
Definition addAndGet (w : Z) (m_value x : Z) : res (Z * Z) :=
  let '(v, old) := getAndAdd w m_value x in
  r ← signed_check w (old + x);
  Ok (v, r).
Definition incrementAndGet (w m_value : Z) : res (Z * Z) := addAndGet w m_value 1.
Definition decrementAndGet (w m_value : Z) : res (Z * Z) := addAndGet w m_value (-1).
Definition add (w m_value x : Z) : Z := (getAndAdd w m_value x).1.
Definition increment (w m_value : Z) : res Z := '(v, _) ← incrementAndGet w m_value; Ok v.
Definition decrement (w m_value : Z) : res Z := '(v, _) ← decrementAndGet w m_value; Ok v.
Definition getAndSet (m_value newValue : Z) : Z * Z := (newValue, m_value).

(** What is returned is what was stored, as long as it is representable. *)
Lemma addAndGet_stored w v x : 0 < w → in_signed w (v + x) → addAndGet w v x = Ok (v + x, v + x).
Proof.
  intros Hw Hv. unfold addAndGet, getAndAdd. rewrite signed_check_Ok by done. mred. by rewrite swrap_small.
Qed.
End Atomic.

(** ** MutexLock and Condition *)

Module Mutex.

(** Where a thread is: outside; holding the pthread mutex but before
    assignTid; inside the critical section; past unassignTid and before
    pthread_mutex_unlock, or before pthread_cond_wait; asleep in it; woken and
    wanting the mutex; holding it again, before the guard's assignTid. *)
Inductive pc : Type :=
  | Out | Locked | Inside | Unlocking | WaitBegin | Asleep | Woken | Reacquired.

#[global] Instance pc_eq_dec : EqDecision pc.
Proof. solve_decision. Defined.

Record State : Type := mkState {
  holder : option Z;            (* of the pthread mutex, by thread id *)
  m_tid : Z;
  threads : gmap Z pc;
}.

Definition pc_of (s : State) (t : Z) : pc := default Out (threads s !! t).
Definition goto (s : State) (t : Z) (p : pc) : State := mkState (holder s) (m_tid s) (<[t := p]> (threads s)).
Definition set_tid (s : State) (tid : Z) : State := mkState (holder s) tid (threads s).
Definition set_holder (s : State) (h : option Z) : State := mkState h (m_tid s) (threads s).

(** [MutexLock::MutexLock] *)
Definition init : State := mkState None 0 ∅.

(** [MutexLock::assignTid], [unassignTid], [isLockedByThisThread], [assertLocked], with the
    thread id of the caller. *)
Definition assignTid (t : Z) (s : State) : State := set_tid s t.
Definition unassignTid (s : State) : State := set_tid s 0.
Definition isLockedByThisThread (t : Z) (s : State) : bool := m_tid s =? t.
Definition assertLocked (t : Z) (s : State) : res unit := cassert (isLockedByThisThread t s) "isLockedByThisThread()".

(** [MutexLock::~MutexLock] *)
Definition MutexLock_dtor (s : State) : res unit := cassert (m_tid s =? 0) "m_tid == 0".

(** The parts of [lock], [unlock] and [Condition::wait] between two
    synchronisation points. *)
Definition lock_acquire (t : Z) (s : State) : State := goto (set_holder s (Some t)) t Locked.
Definition lock_assign (t : Z) (s : State) : State := goto (assignTid t s) t Inside.
Definition unlock_unassign (t : Z) (s : State) : State := goto (unassignTid s) t Unlocking.
Definition unlock_release (t : Z) (s : State) : State := goto (set_holder s None) t Out.
Definition wait_unassign (t : Z) (s : State) : State := goto (unassignTid s) t WaitBegin.
Definition wait_sleep (t : Z) (s : State) : State := goto (set_holder s None) t Asleep.
Definition wait_wake (t : Z) (s : State) : State := goto s t Woken.
Definition wait_reacquire (t : Z) (s : State) : State := goto (set_holder s (Some t)) t Reacquired.
Definition wait_assign (t : Z) (s : State) : State := goto (assignTid t s) t Inside.

Inductive step : State → State → Prop :=
  | do_lock t s : 0 < t → pc_of s t = Out → holder s = None → step s (lock_acquire t s)
  | do_locked t s : pc_of s t = Locked → step s (lock_assign t s)
  | do_unlock t s : pc_of s t = Inside → step s (unlock_unassign t s)
  | do_unlocked t s : pc_of s t = Unlocking → step s (unlock_release t s)
  | do_wait t s : pc_of s t = Inside → step s (wait_unassign t s)
  | do_sleep t s : pc_of s t = WaitBegin → step s (wait_sleep t s)
  | do_wake t s : pc_of s t = Asleep → step s (wait_wake t s)         (* notified or spurious *)
  | do_reacquire t s : pc_of s t = Woken → holder s = None → step s (wait_reacquire t s)
  | do_reassign t s : pc_of s t = Reacquired → step s (wait_assign t s).

Definition holds (p : pc) : bool :=
  match p with Locked | Inside | Unlocking | WaitBegin | Reacquired => true | _ => false end.

Definition inv (s : State) : Prop :=
  (∀ t, holds (pc_of s t) = true ↔ holder s = Some t) ∧
  (∀ t, pc_of s t = Inside → m_tid s = t) ∧
  (m_tid s ≠ 0 → pc_of s (m_tid s) = Inside) ∧
  (∀ t, pc_of s t ≠ Out → 0 < t).

Lemma pc_goto s t p u : pc_of (goto s t p) u = if decide (u = t) then p else pc_of s u.
Proof. unfold pc_of, goto. simpl. case_decide as H; [subst; by rewrite lookup_insert_eq|by rewrite lookup_insert_ne]. Qed.

(** A thread at [p] moves to [p']: when it holds the mutex before or after, no
    other thread does, and [m_tid] follows. *)
Lemma move_inv s t p' h m :
  inv s → 0 < t → (holds (pc_of s t) = true ∨ holder s = None) →
  (if holds p' then h = Some t else h = if holds (pc_of s t) then None else holder s) →
  m = (if decide (p' = Inside) then t else if decide (pc_of s t = Inside) then 0 else m_tid s) →
  inv (goto (set_tid (set_holder s h) m) t p').
Proof.
  intros (Hh & Hi & Hm & Hp) Ht Hc Eh Em.
  assert (Hother : ∀ u, u ≠ t → holds (pc_of s u) = false).
  { intros u Hu. destruct (holds (pc_of s u)) eqn:E; [|done]. apply Hh in E. destruct Hc as [Hc|Hc]; [apply Hh in Hc|]; congruence. }
  assert (Hpc : ∀ u, pc_of (goto (set_tid (set_holder s h) m) t p') u = if decide (u = t) then p' else pc_of s u)
    by (intros u; exact (pc_goto (set_tid (set_holder s h) m) t p' u)).
  assert (Hin : ∀ u, u ≠ t → pc_of s u ≠ Inside) by (intros u Hu E; specialize (Hother u Hu); by rewrite E in Hother).
  split_and!; [intros u; rewrite Hpc|intros u; rewrite Hpc|rewrite Hpc|intros u; rewrite Hpc]; simpl.
  - destruct (decide (u = t)) as [->|E].
    + destruct (holds p') eqn:E'; [by rewrite Eh|]. split; [done|]. rewrite Eh.
      destruct (holds (pc_of s t)) eqn:E2; [done|]. intros E3%Hh. congruence.
    + rewrite (Hother u E). split; [done|]. destruct (holds p'); [congruence|]. rewrite Eh.
      destruct (holds (pc_of s t)) eqn:E2; [done|]. intros E3%Hh. rewrite Hother in E3; done.
  - destruct (decide (u = t)) as [->|E]; [|by intros ?%Hin]. intros ->. by rewrite decide_True in Em.
  - intros Hne. subst m. destruct (decide (p' = Inside)) as [->|Hp']; [by rewrite decide_True|].
    destruct (decide (pc_of s t = Inside)) as [Ei|Ei]; [done|]. specialize (Hm Hne).
    case_decide as Emt; [congruence|done].
  - destruct (decide (u = t)) as [->|E]; [done|]. apply Hp.
Qed.

(** A sleeper wakes up. *)
Lemma wake_inv s t : inv s → pc_of s t = Asleep → inv (wait_wake t s).
Proof.
  intros (Hh & Hi & Hm & Hp) E. unfold wait_wake.
  assert (Hn : holder s ≠ Some t) by (intros H%Hh; by rewrite E in H).
  split_and!; [intros u|intros u| |intros u]; rewrite pc_goto; simpl; case_decide as Eu; subst; auto.
  - by split.
  - done.
  - intros Hne. specialize (Hm Hne). congruence.
  - intros _. apply Hp. by rewrite E.
Qed.

Lemma mutex_step_inv s s' : inv s → step s s' → inv s'.
Proof.
  intros Hi H. pose proof Hi as (Hh & Hin & Hm & Hp).
  assert (Hin' : ∀ t, pc_of s t = Inside → holder s = Some t) by (intros t E; apply Hh; by rewrite E).
  destruct H as [t s Ht E Hn|t s E|t s E|t s E|t s E|t s E|t s E|t s E Hn|t s E];
    try (assert (0 < t) by (apply Hp; by rewrite E)); try (assert (Hho : holds (pc_of s t) = true) by (by rewrite E); apply Hh in Hho).
  - apply (move_inv s t Locked (Some t) (m_tid s)); rewrite ?E; first [done|by left|by right].
  - apply (move_inv s t Inside (holder s) t); rewrite ?E; first [done|by left|by right].
  - apply (move_inv s t Unlocking (holder s) 0); rewrite ?E; first [done|by left|by right].
  - apply (move_inv s t Out None (m_tid s)); rewrite ?E; first [done|by left|by right].
  - apply (move_inv s t WaitBegin (holder s) 0); rewrite ?E; first [done|by left|by right].
  - apply (move_inv s t Asleep None (m_tid s)); rewrite ?E; first [done|by left|by right].
  - by apply wake_inv.
  - apply (move_inv s t Reacquired (Some t) (m_tid s)); rewrite ?E; first [done|by left|by right].
  - apply (move_inv s t Inside (holder s) t); rewrite ?E; first [done|by left|by right].
Qed.

Lemma mutex_init_inv : inv init.
Proof. split_and!; intros; unfold pc_of in *; simpl in *; try rewrite lookup_empty in *; done. Qed.

(** C27.  MutexLock and Condition: in every interleaving of threads that lock,
    unlock, wait on a condition and are woken (also spuriously), with the
    owner id written outside the pthread calls, at most one thread is in a
    critical section, and a thread that asks finds isLockedByThisThread true
    exactly while it is in one: assertLocked never fails there, never succeeds
    elsewhere, and the assertion of the destructor holds whenever nobody is
    in a critical section. *)
Theorem mutex_owner_exact (s : State) :
  rtc step init s →
  (∀ t u, pc_of s t = Inside → pc_of s u = Inside → t = u) ∧
  (∀ t, 0 < t → isLockedByThisThread t s = true ↔ pc_of s t = Inside) ∧
  (∀ t, pc_of s t = Inside → assertLocked t s = Ok tt) ∧
  ((∀ t, pc_of s t ≠ Inside) → MutexLock_dtor s = Ok tt).
Proof.
  intros H. assert (Hi : inv s).
  { pose proof mutex_init_inv as Hi. remember init as s0 eqn:E0. clear E0.
    induction H as [|s1 s2 s3 H1 _ IH]; [done|]. by eapply IH, mutex_step_inv. }
  destruct Hi as (Hh & Hi & Hm & Hp). unfold assertLocked, isLockedByThisThread, MutexLock_dtor. split_and!.
  - intros t u Ht Hu. by rewrite <- (Hi t Ht), <- (Hi u Hu).
  - intros t Ht. rewrite Z.eqb_eq. split; [|apply Hi]. intros <-. apply Hm. lia.
  - intros t Ht. apply cassert_true, Z.eqb_eq. by apply Hi.
  - intros Hn. apply cassert_true, Z.eqb_eq. destruct (decide (m_tid s = 0)) as [|Hne]; [done|].
    by destruct (Hn _ (Hm Hne)).
Qed.

(** Two threads: one waits on the condition while the other is inside. *)
Definition demo : State :=
  lock_assign 8 (lock_acquire 8 (wait_sleep 7 (wait_unassign 7 (lock_assign 7 (lock_acquire 7 init))))).

Lemma mutex_owner_exact_witness : isLockedByThisThread 8 demo = true ∧ isLockedByThisThread 7 demo = false.
Proof.
  assert (H : rtc step init demo).
  { unfold demo. repeat (eapply rtc_r; [|first [by apply do_locked|by apply do_lock|by apply do_sleep|by apply do_wait]]). apply rtc_refl. }
  pose proof (mutex_owner_exact demo H) as (_ & Hex & _ & _). split; [by apply Hex|].
  apply not_true_iff_false. intros E. by apply Hex in E.
Defined.

(** ** Deadlines *)

Definition kNanoSecondsPerSecond : Z := 1000000000.

(** The absolute time [Condition::waitForSeconds] computes from the clock
    ([tv_sec], [tv_nsec]) and the interval in nanoseconds (the [double] times
    1e9, converted); C division truncates. *)
Definition deadline (tv_sec tv_nsec nanoseconds : Z) : res (Z * Z) :=
  t ← i64 (tv_nsec + nanoseconds);
  sec ← i64 (tv_sec + Z.quot t kNanoSecondsPerSecond);
  Ok (sec, Z.rem t kNanoSecondsPerSecond).

(** The timespec of [CurrentThread::sleepUsec] *)
Definition sleepUsec (usec : Z) : res (Z * Z) :=
  ns ← i64 (Z.rem usec 1000000 * 1000);
  Ok (Z.quot usec 1000000, ns).

(** The deadline of a timed wait: for a clock reading and an interval that is
    not negative (up to some 292 years) the computation does not overflow, the
    timespec is normalised (0 <= tv_nsec < 1e9, as pthread_cond_timedwait
    requires) and lies exactly the interval after the reading; so does
    sleepUsec's for the time it sleeps. *)
Theorem wait_deadline (tv_sec tv_nsec nanoseconds : Z) :
  0 ≤ tv_sec < 2 ^ 62 → 0 ≤ tv_nsec < kNanoSecondsPerSecond → 0 ≤ nanoseconds < 2 ^ 63 - kNanoSecondsPerSecond →
  (∃ sec nsec, deadline tv_sec tv_nsec nanoseconds = Ok (sec, nsec) ∧
    0 ≤ nsec < kNanoSecondsPerSecond ∧
    sec * kNanoSecondsPerSecond + nsec = tv_sec * kNanoSecondsPerSecond + tv_nsec + nanoseconds) ∧
  (∃ sec nsec, sleepUsec nanoseconds = Ok (sec, nsec) ∧ 0 ≤ nsec < kNanoSecondsPerSecond ∧
    sec * kNanoSecondsPerSecond + nsec = nanoseconds * 1000).
Proof.
  unfold kNanoSecondsPerSecond. intros Hs Hn Hd. split.
  - unfold deadline, kNanoSecondsPerSecond. rewrite i64_Ok by lia. mred.
    rewrite Z.quot_div_nonneg, Z.rem_mod_nonneg by lia.
    pose proof (Z.div_mod (tv_nsec + nanoseconds) 1000000000 ltac:(lia)).
    pose proof (Z.mod_pos_bound (tv_nsec + nanoseconds) 1000000000 ltac:(lia)).
    rewrite i64_Ok by lia. mred. do 2 eexists. split; [done|]. lia.
  - unfold sleepUsec. rewrite Z.quot_div_nonneg, Z.rem_mod_nonneg by lia.
    pose proof (Z.div_mod nanoseconds 1000000 ltac:(lia)).
    pose proof (Z.mod_pos_bound nanoseconds 1000000 ltac:(lia)).
    rewrite i64_Ok by lia. mred. do 2 eexists. split; [done|]. lia.
Qed.

Lemma wait_deadline_witness :
  (∃ sec nsec, deadline 1700000000 999999999 3000000001 = Ok (sec, nsec) ∧
    0 ≤ nsec < kNanoSecondsPerSecond ∧
    sec * kNanoSecondsPerSecond + nsec = 1700000000 * kNanoSecondsPerSecond + 999999999 + 3000000001) ∧
  (∃ sec nsec, sleepUsec 3000000001 = Ok (sec, nsec) ∧ 0 ≤ nsec < kNanoSecondsPerSecond ∧
    sec * kNanoSecondsPerSecond + nsec = 3000000001 * 1000).
Proof. apply (wait_deadline 1700000000 999999999 3000000001); unfold kNanoSecondsPerSecond; lia. Defined.
End Mutex.

(** ** Thread *)

Module ThreadObject.

(** The thread that owns the object: it has it, waits for the latch in
    start(), has it started, waits in pthread_join, or has destroyed it. *)
Inductive owner : Type := ONew | OWaiting | OStarted | OJoining | OGone.

(** The new thread: none yet; in [runInThread] before storing its id; before
    counting down; running func_ (under its name); ended. *)
Inductive child : Type := KNone | KBegin | KCount | KRunning (name : list ascii) | KEnded.

Record State : Type := mkState {
  is_started : bool;
  is_joined : bool;
  m_pid : Z;
  m_latch : Z;
  m_name : list ascii;
  the_owner : owner;
  the_child : child;
  joins : nat;                  (* pthread_join and pthread_detach calls that took effect *)
  detaches : nat;
}.

(** [Thread::setDefaultName] with the number incrementAndGet returned. *)
Definition setDefaultName (name : list ascii) (num : Z) : list ascii :=
  match name with [] => snprintf 32 (chars "Thread" ++ decimal num ++ chars " ") | _ :: _ => name end.

(** [Thread::Thread] *)
Definition Thread_ctor (name : list ascii) (num : Z) : State :=
  mkState false false 0 1 (setDefaultName name num) ONew KNone 0 0.

Definition with_owner (s : State) (o : owner) : State :=
  mkState (is_started s) (is_joined s) (m_pid s) (m_latch s) (m_name s) o (the_child s) (joins s) (detaches s).
Definition with_child (s : State) (k : child) : State :=
  mkState (is_started s) (is_joined s) (m_pid s) (m_latch s) (m_name s) (the_owner s) k (joins s) (detaches s).

(** [Thread::start] up to the wait; [ok]: pthread_create succeeded. *)
Definition start (ok : bool) (s : State) : res State :=
  cassert (negb (is_started s)) "!is_started";;
  if ok then
    Ok (mkState true (is_joined s) (m_pid s) (m_latch s) (m_name s) OWaiting KBegin (joins s) (detaches s))
  else Fail (FAbort "Failed in pthread_create").

(** The rest of [Thread::start], once the latch is open. *)
Definition start_return (s : State) : res State :=
  cassert (0 <? m_pid s) "m_pid > 0";;
  Ok (with_owner s OStarted).

(** The pointers of ThreadData into the Thread object: using them once it is
    destroyed is undefined. *)
Definition alive (s : State) : res unit :=
  match the_owner s with OGone => Fail (FUndef "Thread destroyed") | _ => Ok tt end.

(** [ThreadData::runInThread] *)
Definition run_setTid (tid : Z) (s : State) : res State :=
  alive s;;
  Ok (mkState (is_started s) (is_joined s) tid (m_latch s) (m_name s) (the_owner s) KCount (joins s) (detaches s)).
Definition run_countDown (s : State) : res State :=
  alive s;;
  let name := match m_name s with [] => chars "dcThread" | _ :: _ => m_name s end in
  Ok (mkState (is_started s) (is_joined s) (m_pid s) (m_latch s - 1) (m_name s) (the_owner s) (KRunning name)
        (joins s) (detaches s)).
Definition run_end (s : State) : State := with_child s KEnded.

(** What ends func_: it returns; an Exception or a std::exception aborts; any
    other exception is thrown on. *)
Inductive func_result : Type := Returns | ThrowsException | ThrowsOther.
Definition run_func (r : func_result) (s : State) : res State :=
  match r with
  | Returns => Ok (run_end s)
  | ThrowsException => Fail (FAbort "exception caught in Thread")
  | ThrowsOther => Fail (FThrow "unknown exception caught in Thread")
  end.

(** [Thread::join] up to, and after, pthread_join *)
Definition join (s : State) : res State :=
  cassert (is_started s) "is_started";;
  cassert (negb (is_joined s)) "!is_joined";;
  Ok (mkState (is_started s) true (m_pid s) (m_latch s) (m_name s) OJoining (the_child s) (joins s) (detaches s)).
Definition join_return (s : State) : State :=
  mkState (is_started s) (is_joined s) (m_pid s) (m_latch s) (m_name s) OStarted (the_child s) (S (joins s)) (detaches s).

(** [Thread::~Thread] *)
Definition Thread_dtor (s : State) : State :=
  let d := if is_started s && negb (is_joined s) then S (detaches s) else detaches s in
  mkState (is_started s) (is_joined s) (m_pid s) (m_latch s) (m_name s) OGone (the_child s) (joins s) d.

Inductive event : Type :=
  | VStart | VStartReturn | VSetTid (tid : Z) | VCountDown | VFuncReturns | VJoin | VJoinReturn | VDtor.

(** When each may happen: the owner calls start once, join at most once after
    it, and the destructor between calls; start() and join() return when the
    latch is open and the thread has ended. *)
Definition enabled (s : State) (v : event) : Prop :=
  match v with
  | VStart => the_owner s = ONew
  | VStartReturn => the_owner s = OWaiting ∧ m_latch s ≤ 0
  | VSetTid tid => the_child s = KBegin ∧ 0 < tid
  | VCountDown => the_child s = KCount
  | VFuncReturns => ∃ n, the_child s = KRunning n
  | VJoin => the_owner s = OStarted ∧ is_joined s = false
  | VJoinReturn => the_owner s = OJoining ∧ the_child s = KEnded
  | VDtor => the_owner s = ONew ∨ the_owner s = OStarted
  end.

Definition do_event (s : State) (v : event) : res State :=
  match v with
  | VStart => start true s
  | VStartReturn => start_return s
  | VSetTid tid => run_setTid tid s
  | VCountDown => run_countDown s
  | VFuncReturns => run_func Returns s
  | VJoin => join s
  | VJoinReturn => Ok (join_return s)
  | VDtor => Ok (Thread_dtor s)
  end.

Inductive step : State → State → Prop :=
  | do_step s v s' : enabled s v → do_event s v = Ok s' → step s s'.

(** Past the latch, the thread runs or has ended. *)
Definition live (s : State) : Prop :=
  is_started s = true ∧ 0 < m_pid s ∧ match the_child s with KRunning _ | KEnded => True | _ => False end.

Definition inv (s : State) : Prop :=
  match the_owner s with
  | ONew => is_started s = false ∧ is_joined s = false ∧ the_child s = KNone ∧ m_latch s = 1 ∧ (joins s + detaches s = 0)%nat
  | OWaiting => is_started s = true ∧ is_joined s = false ∧ (joins s + detaches s = 0)%nat ∧
      match the_child s with
      | KNone => False | KBegin => m_latch s = 1 | KCount => m_latch s = 1 ∧ 0 < m_pid s | _ => 0 < m_pid s
      end
  | OStarted => live s ∧ (joins s + detaches s = if is_joined s then 1 else 0)%nat
  | OJoining => live s ∧ is_joined s = true ∧ (joins s + detaches s = 0)%nat
  | OGone => (is_started s = false ∧ the_child s = KNone ∧ (joins s + detaches s = 0)%nat) ∨
             (live s ∧ (joins s + detaches s = 1)%nat)
  end.

Lemma thread_step_ok s v : inv s → enabled s v → ∃ s', do_event s v = Ok s' ∧ inv s'.
Proof.
  intros Hi He. destruct s as [st jo pid la nm o k j d]. unfold inv, live, enabled in *. simpl in *.
  destruct v; simpl in *.
  - subst. destruct Hi as (-> & -> & -> & -> & Hj). simpl. eexists. split; [done|]. simpl. auto.
  - destruct He as [-> Hl]. destruct Hi as (-> & -> & Hj & Hk). unfold start_return. simpl.
    destruct k; try lia; rewrite (proj2 (Z.ltb_lt _ _)) by lia; eexists; (split; [done|]); simpl; auto.
  - destruct He as [-> Ht]. unfold run_setTid, alive. simpl. destruct o; naive_solver.
  - subst. unfold run_countDown, alive. simpl. destruct o; naive_solver.
  - destruct He as [n ->]. eexists. split; [done|]. simpl. destruct o; naive_solver.
  - destruct He as [-> ->]. destruct Hi as ((-> & Hp & Hk) & Hj). unfold join. simpl. eexists. split; [done|]. simpl. auto.
  - destruct He as [-> ->]. destruct Hi as ((-> & Hp & Hk) & -> & Hj). eexists. split; [done|]. simpl. auto with lia.
  - eexists. split; [done|]. simpl. destruct He as [-> | ->].
    + destruct Hi as (-> & -> & -> & -> & Hj). left. auto.
    + destruct Hi as ((-> & Hp & Hk) & Hj). right. destruct jo; simpl; auto with lia.
Qed.

Lemma ctor_inv name num : inv (Thread_ctor name num).
Proof. done. Qed.

(** C26.  Thread: in every interleaving of the owner with the new thread, no
    assertion fails (start returns with the thread's id stored), the new
    thread never uses a Thread object that was destroyed, and a started thread
    is joined or detached exactly once by the time its object is destroyed (at
    most once before). *)
Theorem thread_start_safe (name : list ascii) (num : Z) (s : State) (v : event) :
  rtc step (Thread_ctor name num) s → enabled s v →
  (∃ s', do_event s v = Ok s') ∧
  (the_owner s = OStarted → 0 < m_pid s) ∧
  (joins s + detaches s ≤ 1)%nat ∧
  (the_owner s = OGone → is_started s = true → joins s + detaches s = 1)%nat.
Proof.
  intros H He. assert (Hi : inv s).
  { pose proof (ctor_inv name num) as Hi. remember (Thread_ctor name num) as s0 eqn:E0. clear E0 He.
    induction H as [|s1 s2 s3 [s1' w s2' Hw E] _ IH]; [done|]. apply IH.
    destruct (thread_step_ok _ _ Hi Hw) as (s4 & E4 & H4). congruence. }
  split_and!.
  - destruct (thread_step_ok s v Hi He) as (s' & E & _). eauto.
  - intros E. unfold inv in Hi. rewrite E in Hi. by destruct Hi as [(_ & ? & _) _].
  - unfold inv in Hi. destruct (the_owner s), (is_joined s); naive_solver lia.
  - intros E Hst. unfold inv in Hi. rewrite E in Hi. destruct Hi as [(? & _)|(_ & ?)]; congruence.
Qed.

Lemma thread_start_safe_witness :
  let s0 := Thread_ctor [] 1 in
  let run := λ s v, match do_event s v with Ok s' => s' | Fail _ => s end in
  let s := foldl run s0 [VStart; VSetTid 77; VCountDown; VStartReturn; VFuncReturns; VJoin; VJoinReturn] in
  (∃ s', do_event s VDtor = Ok s') ∧ (the_owner s = OStarted → 0 < m_pid s) ∧ (joins s + detaches s ≤ 1)%nat ∧
  (the_owner s = OGone → is_started s = true → joins s + detaches s = 1)%nat.
Proof.
  intros s0 run s. apply (thread_start_safe [] 1 s VDtor); [|by right].
  assert (Hr : ∀ t v, enabled t v → do_event t v = Ok (run t v) → step t (run t v)) by (intros; by eapply do_step).
  unfold s. cbn [foldl].
  eapply rtc_l; [by apply (Hr _ VStart)|]. eapply rtc_l; [by apply (Hr _ (VSetTid 77))|].
  eapply rtc_l; [by apply (Hr _ VCountDown)|]. eapply rtc_l; [by apply (Hr _ VStartReturn)|].
  eapply rtc_l; [by apply (Hr _ VFuncReturns); [eexists|]|]. eapply rtc_l; [by apply (Hr _ VJoin)|].
  eapply rtc_l; [by apply (Hr _ VJoinReturn)|]. apply rtc_refl.
Defined.
End ThreadObject.

(** ** Singleton, ThreadLocal, ThreadLocalSingleton *)

Module Objects.

Definition addr : Type := nat.

(** Singleton<T>: pthread_once and the object; [made]: constructor calls. *)
Record Singleton : Type := mkSingleton { m_ponce : bool; m_value : option addr; made : nat; at_exit : bool }.
Definition Singleton_init : Singleton := mkSingleton false None 0%nat false.

(** [Singleton::init]; [has_no_destroy]: T has a member no_destroy. *)
Definition singleton_make (has_no_destroy : bool) (s : Singleton) : Singleton :=
  mkSingleton true (Some (made s)) (S (made s)) (negb has_no_destroy).

(** [Singleton::instance] *)
Definition instance (has_no_destroy : bool) (s : Singleton) : res (Singleton * addr) :=
  let s1 := if m_ponce s then s else singleton_make has_no_destroy s in
  match m_value s1 with
  | Some a => Ok (s1, a)
  | None => Fail (FAssert "m_value != nullptr")
  end.

(** [Singleton::destroy], run by exit() *)
Definition destroy (s : Singleton) : Singleton := mkSingleton (m_ponce s) None (made s) (at_exit s).

(** The values of one key: by thread; the objects that exist. *)
Record Local : Type := mkLocal { specific : gmap Z addr; t_value : gmap Z addr; objects : gset addr; fresh_addr : addr }.
Definition Local_init : Local := mkLocal ∅ ∅ ∅ 0%nat.

(** [ThreadLocal::value] in thread [t] *)
Definition value (t : Z) (s : Local) : Local * addr :=
  match specific s !! t with
  | Some a => (s, a)
  | None =>
      let a := fresh_addr s in
      (mkLocal (<[t := a]> (specific s)) (t_value s) ({[a]} ∪ objects s) (S a), a)
  end.

(** [ThreadLocal::destructor], when thread [t] exits with a value *)
Definition thread_exit (t : Z) (s : Local) : Local :=
  match specific s !! t with
  | Some a => mkLocal (delete t (specific s)) (t_value s) (objects s ∖ {[a]}) (fresh_addr s)
  | None => s
  end.

(** [ThreadLocalSingleton::instance]; [Deletor::set] asserts that the key has
    no value yet. *)
Definition tls_instance (t : Z) (s : Local) : res (Local * addr) :=
  match t_value s !! t with
  | Some a => Ok (s, a)
  | None =>
      let a := fresh_addr s in
      cassert (bool_decide (specific s !! t = None)) "pthread_getspecific(m_pkey) == NULL";;
      Ok (mkLocal (<[t := a]> (specific s)) (<[t := a]> (t_value s)) ({[a]} ∪ objects s) (S a), a)
  end.
Definition pointer (t : Z) (s : Local) : option addr := t_value s !! t.

(** [ThreadLocalSingleton::destructor] at the exit of thread [t] *)
Definition tls_exit (t : Z) (s : Local) : res Local :=
  match specific s !! t with
  | Some obj =>
      cassert (bool_decide (t_value s !! t = Some obj)) "obj == t_value";;
      Ok (mkLocal (delete t (specific s)) (delete t (t_value s)) (objects s ∖ {[obj]}) (fresh_addr s))
  | None => Ok s
  end.

Inductive tls_event : Type := EInstance (t : Z) | EExit (t : Z).
Definition tls_step (s : Local) (v : tls_event) : res Local :=
  match v with
  | EInstance t => '(s', _) ← tls_instance t s; Ok s'
  | EExit t => tls_exit t s
  end.

(** The objects are those of the threads, each of one thread. *)
Definition tls_inv (s : Local) : Prop :=
  specific s = t_value s ∧
  (∀ t u a, t_value s !! t = Some a → t_value s !! u = Some a → t = u) ∧
  (∀ a, a ∈ objects s ↔ ∃ t, t_value s !! t = Some a) ∧
  (∀ a, a ∈ objects s → (a < fresh_addr s)%nat).

Lemma tls_step_inv s v : tls_inv s → ∃ s', tls_step s v = Ok s' ∧ tls_inv s'.
Proof.
  intros (He & Hu & Ho & Hf). destruct v as [t|t]; simpl.
  - unfold tls_instance. destruct (t_value s !! t) as [a|] eqn:E; [by eexists|].
    rewrite He, E, bool_decide_eq_true_2 by done. mred. eexists. split; [done|].
    assert (Hn : ∀ u b, t_value s !! u = Some b → (b < fresh_addr s)%nat) by (intros u b Hb; apply Hf, Ho; eauto).
    split_and!; simpl; [done|..].
    + intros u w b. rewrite !lookup_insert_Some.
      intros [[<- <-]|[? H1]] [[<- ?]|[? H2]]; subst; try done; [apply Hn in H2; lia|apply Hn in H1; lia|by eapply Hu].
    + intros b. rewrite elem_of_union, elem_of_singleton, Ho. split.
      * intros [->|[u Hb]]; [exists t; by rewrite lookup_insert_eq|]. exists u. rewrite lookup_insert_ne; [done|congruence].
      * intros [u Hb]. apply lookup_insert_Some in Hb as [[_ <-]|[_ Hb]]; eauto.
    + intros b. rewrite elem_of_union, elem_of_singleton. intros [->|Hb%Hf]; lia.
  - unfold tls_exit. destruct (specific s !! t) as [a|] eqn:E; [|by eexists].
    rewrite He in *. rewrite E, bool_decide_eq_true_2 by done. mred. eexists. split; [done|]. split_and!; simpl; [done|..].
    + intros u w b. rewrite !lookup_delete_Some. intros [? H1] [? H2]. by eapply Hu.
    + intros b. rewrite elem_of_difference, elem_of_singleton, Ho. split.
      * intros [[u Hb] Hne]. exists u. rewrite lookup_delete_Some. split; [congruence|done].
      * intros [u [Hne Hb]%lookup_delete_Some]. split; [eauto|]. intros ->. apply Hne. by eapply Hu.
    + intros b [Hb%Hf _]%elem_of_difference. done.
Qed.

(** Thread-local singletons: whatever threads call instance() and exit in
    whatever order, no assertion fails; a thread keeps getting its own object,
    two threads never share one, and exactly the objects of the threads that
    have one exist (none leaks, none is deleted twice). *)
Theorem tls_objects (es : list tls_event) (t u : Z) :
  ∃ s, foldM tls_step Local_init es = Ok s ∧
    (∀ a, a ∈ objects s ↔ ∃ w, pointer w s = Some a) ∧
    ∃ s1 a s2 b, tls_instance t s = Ok (s1, a) ∧ tls_instance t s1 = Ok (s1, a) ∧
      tls_instance u s1 = Ok (s2, b) ∧ (a = b ↔ t = u).
Proof.
  assert (Hr : ∃ s, foldM tls_step Local_init es = Ok s ∧ tls_inv s).
  { assert (H0 : tls_inv Local_init) by (split_and!; simpl; try done; set_solver).
    revert H0. generalize Local_init. induction es as [|v es IH]; intros s Hs; [by eexists|]. simpl.
    destruct (tls_step_inv s v Hs) as (s' & -> & Hs'). mred. by apply IH. }
  destruct Hr as (s & E & Hi). exists s. split; [done|]. split; [apply Hi|].
  assert (Hgo : ∀ s w, tls_inv s → ∃ s' a, tls_instance w s = Ok (s', a) ∧ tls_inv s' ∧ t_value s' !! w = Some a).
  { intros s' w Hs. destruct (tls_step_inv s' (EInstance w) Hs) as (s'' & E'' & Hs''). simpl in E''.
    apply bind_Ok in E'' as ([x a] & Ex & [= ->]). exists s'', a. split_and!; [done..|].
    unfold tls_instance in Ex. destruct (t_value s' !! w) eqn:Ew; [congruence|].
    minv Ex. simplify_eq. simpl. apply lookup_insert_eq. }
  destruct (Hgo s t Hi) as (s1 & a & E1 & H1 & Ha). destruct (Hgo s1 u H1) as (s2 & b & E2 & H2 & Hb).
  exists s1, a, s2, b. split_and!; [done|by unfold tls_instance; rewrite Ha|done|].
  assert (Ha2 : t_value s2 !! t = Some a).
  { unfold tls_instance in E2. destruct (t_value s1 !! u) eqn:Eu; [congruence|]. minv E2. simplify_eq. simpl.
    rewrite lookup_insert_ne; congruence. }
  split; [intros ->; by eapply (proj1 (proj2 H2))|]. intros ->. congruence.
Qed.

(** Every call of instance() before exit returns the one object that was
    constructed; after exit() has destroyed it, instance() fails its
    assertion. *)
Lemma singleton_once (nd : bool) (n : nat) :
  ∃ s, Nat.iter (S n) (λ r, '(s, _) ← r; instance nd s) (Ok (Singleton_init, 0%nat)) = Ok (s, 0%nat) ∧ made s = 1%nat ∧
    instance nd (destroy s) = Fail (FAssert "m_value != nullptr").
Proof.
  exists (singleton_make nd Singleton_init). split; [|done]. induction n as [|n IH]; [done|].
  change (Nat.iter (S (S n)) ?f ?x) with (f (Nat.iter (S n) f x)). cbn beta. by rewrite IH.
Qed.

(** [WeakCallback::operator()]: the function is called on the object while a
    shared_ptr to it exists. *)
Definition weak_call {S : Type} (expired : bool) (function : S → res S) (object : S) : res S :=
  if expired then Ok object else function object.
End Objects.

(** ** CurrentThread::stackTrace *)

Module StackTrace.

(** The last '(' and the last '+' of a symbol, as the scan leaves them. *)
Fixpoint scan (i : nat) (s : list ascii) (left_par plus : option nat) : option nat * option nat :=
  match s with
  | [] => (left_par, plus)
  | c :: s' =>
      if bool_decide (c = "("%char) then scan (S i) s' (Some i) plus
      else if bool_decide (c = "+"%char) then scan (S i) s' left_par (Some i)
      else scan (S i) s' left_par plus
  end.

(** The C string at an address. *)
Definition c_string (s : list ascii) : list ascii := take (std_find NUL s) s.

Section trace.
(** abi::__cxa_demangle: the name, or a status other than 0. *)
Context (cxa_demangle : list ascii → option (list ascii)).

(** One turn of the loop: the line for a symbol. *)
Definition frame_line (demangle : bool) (s : list ascii) : list ascii :=
  match (if demangle then scan 0 s None None else (None, None)) with
  | (Some left_par, Some plus) =>
      match cxa_demangle (c_string (drop (S left_par) (<[plus := NUL]> s))) with
      | Some demangled => take (S left_par) s ++ demangled ++ drop plus s ++ [LF]
      | None => s ++ [LF]
      end
  | _ => s ++ [LF]
  end.

(** [stackTrace]; [strings] is what backtrace_symbols returned, [None] when
    it could not allocate. *)
Definition stackTrace (demangle : bool) (strings : option (list (list ascii))) : list ascii :=
  match strings with
  | Some ss => concat (map (frame_line demangle) (drop 1 ss))
  | None => []
  end.

(** [dc::Exception]: the message, and the symbols of the stack at its
    construction, not demangled. *)
Record Exception : Type := mkException { m_message : list ascii; m_stack : list ascii }.
Definition Exception_ctor (what : list ascii) (strings : option (list (list ascii))) : Exception :=
  mkException what (stackTrace false strings).
Definition exception_what (e : Exception) : list ascii := c_string (m_message e).
Definition exception_stackTrace (e : Exception) : list ascii := c_string (m_stack e).

Lemma scan_app s1 : ∀ i s2 l p,
  scan i (s1 ++ s2) l p = let '(l', p') := scan i s1 l p in scan (i + length s1) s2 l' p'.
Proof.
  induction s1 as [|c s1 IH]; intros i s2 l p; simpl.
  - by rewrite Nat.add_0_r.
  - replace (i + S (length s1))%nat with (S i + length s1)%nat by lia.
    destruct (bool_decide _); [apply IH|]. destruct (bool_decide _); apply IH.
Qed.

Lemma scan_plain s : ∀ i l p, "("%char ∉ s → "+"%char ∉ s → scan i s l p = (l, p).
Proof.
  induction s as [|c s IH]; intros i l p H1 H2; simpl; [done|].
  apply not_elem_of_cons in H1 as [N1 H1], H2 as [N2 H2].
  rewrite !bool_decide_false by congruence. by apply IH.
Qed.

(** A symbol "object(name+offset) [address]" whose name can be demangled is
    shown with the demangled name in its place, any other as it is; the
    frame of stackTrace itself is left out. *)
Theorem frame_demangled (object name offset : list ascii) :
  "("%char ∉ name → "+"%char ∉ name → "("%char ∉ offset → "+"%char ∉ offset → NUL ∉ name →
  let s := object ++ "("%char :: name ++ "+"%char :: offset in
  frame_line true s =
    match cxa_demangle name with
    | Some demangled => object ++ "("%char :: demangled ++ "+"%char :: offset ++ [LF]
    | None => s ++ [LF]
    end ∧ frame_line false s = s ++ [LF].
Proof.
  intros H1 H2 H3 H4 Hn s. split; [|done].
  set (left_par := length object). set (plus := (left_par + S (length name))%nat).
  assert (scan 0 s None None = (Some left_par, Some plus)) as Es.
  { unfold s. rewrite scan_app. destruct (scan 0 object None None) as [l p]. cbn [scan bool_decide].
    rewrite bool_decide_true by done. rewrite scan_app, scan_plain by done. cbn [scan].
    rewrite bool_decide_false, bool_decide_true, scan_plain by done. unfold left_par, plus. do 2 f_equal. simpl. lia. }
  unfold frame_line. rewrite Es.
  assert (Hdrop : drop (S left_par) (<[plus := NUL]> s) = name ++ NUL :: offset).
  { unfold s. change (object ++ "("%char :: ?x) with (object ++ ["("%char] ++ x). rewrite app_assoc.
    replace plus with (length (object ++ ["("%char]) + length name)%nat by (rewrite length_app; unfold plus, left_par; simpl; lia).
    rewrite insert_app_r. replace (S left_par) with (length (object ++ ["("%char])) by (rewrite length_app; unfold left_par; simpl; lia).
    rewrite drop_app_length. by rewrite <- (Nat.add_0_r (length name)), insert_app_r. }
  rewrite Hdrop. unfold c_string. rewrite std_find_app, take_app_length by done.
  destruct (cxa_demangle name) as [d|]; [|done].
  assert (take (S left_par) s = object ++ ["("%char]) as ->.
  { unfold s. change (object ++ "("%char :: ?x) with (object ++ ["("%char] ++ x). rewrite app_assoc.
    apply take_app_length'. rewrite length_app. unfold left_par. simpl. lia. }
  assert (drop plus s = "+"%char :: offset) as ->; [|by rewrite <- app_assoc].
  unfold s. change (object ++ "("%char :: name ++ ?x) with (object ++ ("("%char :: name) ++ x). rewrite app_assoc.
  apply drop_app_length'. rewrite length_app. unfold plus, left_par. simpl. lia.
Qed.

Lemma c_string_plain s : NUL ∉ s → c_string s = s.
Proof. intros Hs. unfold c_string. rewrite std_find_none by done. apply firstn_all. Qed.

(** An exception says the message it was made with and shows one line per
    frame above its constructor's stackTrace, each as backtrace_symbols gave
    it. *)
Theorem exception_says (msg : list ascii) (own : list ascii) (frames : list (list ascii)) :
  NUL ∉ msg → Forall (λ f, NUL ∉ f) frames →
  let e := Exception_ctor msg (Some (own :: frames)) in
  exception_what e = msg ∧ exception_stackTrace e = concat (map (λ f, f ++ [LF]) frames).
Proof.
  intros Hm Hf. split; [by apply c_string_plain|]. apply c_string_plain. simpl.
  induction Hf as [|f fs Hn _ IH]; simpl; [apply not_elem_of_nil|]. rewrite !not_elem_of_app. split_and!; [done| |done].
  by rewrite list_elem_of_singleton.
Qed.
End trace.
End StackTrace.
