(* ===== verification/PoolLife.v ===== *)
(** * The life of a ThreadPool: src/dc/base/threadpool.h, threadpool.cc

    Sync models the pool while its threads work.  Here are start, stop and the
    destructor, run on a pool without threads, what an exception of a task
    does, and the proof that stop returns: once is_running is false every
    worker reaches the end of runInThread, so that the joins return. *)

From S2P Require Import Prelude Sync Threads.

Open Scope Z_scope.

(** ** The object *)

(** A thread of the pool: its name, and whether it was joined.  The deque of
    tasks is shared with the workers and is part of [Pool.State]. *)
Record ThreadPool : Type := mkPool {
  m_name : list ascii;
  m_threads : list (list ascii * bool);
  _maxQueueSize : Z;               (* a size_t *)
  p_running : bool;
  _threadInitCallback : bool;      (* the std::function is not empty *)
  p_inits : nat;                   (* its calls in the thread of the caller *)
  p_called : list nat;             (* tasks run by the caller of run *)
}.

(** [ThreadPool::ThreadPool] *)
Definition ThreadPool_ctor (nameArg : list ascii) : ThreadPool := mkPool nameArg [] 0 false false 0 [].

Definition setThreadInitCallback (p : ThreadPool) : ThreadPool :=
  mkPool (m_name p) (m_threads p) (_maxQueueSize p) (p_running p) true (p_inits p) (p_called p).

(** [ThreadPool::setMaxQueueSize]: the int is converted to size_t. *)
Definition setMaxQueueSize (p : ThreadPool) (maxSize : Z) : ThreadPool :=
  mkPool (m_name p) (m_threads p) (u64 maxSize) (p_running p) (_threadInitCallback p) (p_inits p) (p_called p).

(** [ThreadPool::queueSize] *)
Definition queueSize (q : list nat) : Z := zlen q.

Definition thread_name (p : ThreadPool) (i : nat) : list ascii := m_name p ++ snprintf 32 (decimal (Z.of_nat i + 1)).

(** [ThreadPool::start]; reserve of a negative int throws. *)
Definition pool_start (p : ThreadPool) (numThreads : Z) : res ThreadPool :=
  cassert (bool_decide (m_threads p = [])) "m_threads.empty()";;
  if numThreads <? 0 then Fail (FThrow "std::length_error") else
  let threads := map (λ i, (thread_name p i, false)) (seq 0 (Z.to_nat numThreads)) in
  Ok (mkPool (m_name p) threads (_maxQueueSize p) true (_threadInitCallback p)
        (if (numThreads =? 0) && _threadInitCallback p then S (p_inits p) else p_inits p) (p_called p)).

(** [thr->join()], with the assertion of Thread::join. *)
Definition join_thread (t : list ascii * bool) : res (list ascii * bool) :=
  cassert (negb t.2) "!is_joined";; Ok (t.1, true).

Fixpoint mapM_res {A B} (f : A → res B) (l : list A) : res (list B) :=
  match l with [] => Ok [] | x :: l' => y ← f x; ys ← mapM_res f l'; Ok (y :: ys) end.

(** [ThreadPool::stop]: the critical section is the step [Pool.stop]. *)
Definition pool_stop (p : ThreadPool) : res ThreadPool :=
  threads ← mapM_res join_thread (m_threads p);
  Ok (mkPool (m_name p) threads (_maxQueueSize p) false (_threadInitCallback p) (p_inits p) (p_called p)).

(** [ThreadPool::~ThreadPool] *)
Definition ThreadPool_dtor (p : ThreadPool) : res ThreadPool := if p_running p then pool_stop p else Ok p.

(** [ThreadPool::run]: in the caller when there are no threads; otherwise the
    critical section [Pool.run] on the deque [q]. *)
Definition pool_run (p : ThreadPool) (q : list nat) (task : nat) : res (ThreadPool * option Pool.run_result) :=
  match m_threads p with
  | [] => Ok (mkPool (m_name p) (m_threads p) (_maxQueueSize p) (p_running p) (_threadInitCallback p) (p_inits p) (p_called p ++ [task]), None)
  | _ :: _ => r ← Pool.run (Z.to_nat (_maxQueueSize p)) q (p_running p) task; Ok (p, Some r)
  end.

(** The handlers of [ThreadPool::runInThread]: a dc::Exception and any other
    std::exception end the process, what is thrown otherwise is thrown on. *)
Inductive task_result : Type := TaskReturns | TaskThrows (std_exception : bool).
Definition runInThread_catch (r : task_result) : res unit :=
  match r with
  | TaskReturns => Ok tt
  | TaskThrows true => Fail (FAbort "exception caught in ThreadPool")
  | TaskThrows false => Fail (FThrow "exception caught in ThreadPool")
  end.

(** The calls of an owner; [q] is the deque a call of run finds. *)
Inductive pool_call : Type := CStart (numThreads : Z) | CStop | CRun (q : list nat) (task : nat).

Definition do_call (p : ThreadPool) (c : pool_call) : res ThreadPool :=
  match c with
  | CStart n => pool_start p n
  | CStop => pool_stop p
  | CRun q task => '(p', _) ← pool_run p q task; Ok p'
  end.

(** ** Joining *)

Lemma joins_ok ts : Forall (λ t, t.2 = false) ts → mapM_res join_thread ts = Ok (map (λ t, (t.1, true)) ts).
Proof. induction 1 as [|[n b] ts Hb _ IH]; simpl in *; [done|]. subst b. simpl. by rewrite IH. Qed.

Lemma run_running maxQueueSize q task : ∃ r, Pool.run maxQueueSize q true task = Ok r.
Proof. unfold Pool.run. destruct (Pool.isFull maxQueueSize q); simpl; eauto. Qed.

(** Tasks given to a started pool: run by the caller iff there are no threads. *)
Lemma runs_ok name ts m i tasks : ∀ called,
  foldM do_call (mkPool name ts m true false i called) (map (λ x, CRun x.1 x.2) tasks) =
    Ok (mkPool name ts m true false i (match ts with [] => called ++ map snd tasks | _ => called end)).
Proof.
  induction tasks as [|[q t] tasks IH]; intros called; simpl; [destruct ts; by rewrite ?app_nil_r|].
  unfold pool_run. cbn [m_threads _maxQueueSize p_running p_called]. destruct ts as [|t0 ts].
  - simpl. rewrite IH. by rewrite <- app_assoc.
  - destruct (run_running (Z.to_nat m) q t) as [r ->]. simpl. apply IH.
Qed.

(** Once started, a pool is stopped by its owner at most once, and the
    destructor joins exactly the threads that were not joined yet. *)
Theorem pool_joins_once (name : list ascii) (maxSize n : Z) (stopped : bool) (tasks : list (list nat * nat)) :
  0 ≤ n →
  ∃ p p', foldM do_call (setMaxQueueSize (ThreadPool_ctor name) maxSize)
      (CStart n :: map (λ x, CRun x.1 x.2) tasks ++ (if stopped then [CStop] else [])) = Ok p ∧
    ThreadPool_dtor p = Ok p' ∧ p_running p' = false ∧
    m_threads p' = map (λ i, (thread_name (ThreadPool_ctor name) i, true)) (seq 0 (Z.to_nat n)) ∧
    p_called p' = if n =? 0 then map snd tasks else [].
Proof.
  intros Hn. cbn [foldM do_call]. unfold pool_start at 1, setMaxQueueSize, ThreadPool_ctor at 1. cbn [m_threads].
  rewrite bool_decide_true by done. cbn [cassert mbind res_bind]. rewrite (proj2 (Z.ltb_ge _ _)) by done.
  cbn [mbind res_bind m_name _threadInitCallback p_inits p_called _maxQueueSize ThreadPool_ctor]. rewrite andb_false_r.
  set (ts := map _ (seq 0 (Z.to_nat n))). rewrite foldM_app, runs_ok. cbn [mbind res_bind].
  assert (Hc : match ts with [] => [] ++ map snd tasks | _ :: _ => [] end = if n =? 0 then map snd tasks else []).
  { destruct (Z.eqb_spec n 0) as [->|Hne]; [done|]. destruct ts as [|? ?] eqn:E; [|done]. apply (f_equal length) in E. subst ts.
    rewrite length_map, length_seq in E. simpl in E. lia. }
  assert (Hj : mapM_res join_thread ts = Ok (map (λ t, (t.1, true)) ts)) by (apply joins_ok, Forall_map, Forall_true; done).
  assert (Ht : map (λ t : list ascii * bool, (t.1, true)) ts = map (λ i, (thread_name (ThreadPool_ctor name) i, true)) (seq 0 (Z.to_nat n)))
    by (unfold ts; by rewrite map_map).
  destruct stopped; cbn [foldM do_call]; unfold ThreadPool_dtor, pool_stop; cbn [p_running m_threads]; rewrite ?Hj; cbn [mbind res_bind];
    eexists _, _; (split; [done|]); cbn [p_running m_threads p_called]; rewrite ?Hj; by split_and!.
Qed.

(** A second call of stop joins the threads again, which fails the assertion of
    Thread::join. *)
Theorem stop_twice_aborts :
  foldM do_call (ThreadPool_ctor (chars "pool")) [CStart 2; CStop; CStop] = Fail (FAssert "!is_joined").
Proof. reflexivity. Qed.

(** ** Stopping *)

(** What the workers of a stopped pool have left to do: a worker in take ends
    it with a task or without one, runs the task, and leaves at the head. *)
Definition work (s : Pool.State) : nat :=
  3 * length (Pool.w_ready s) + 2 * length (Pool.w_task s) + length (Pool.w_head s).

Definition workers (s : Pool.State) : nat :=
  length (Pool.w_head s) + length (Pool.w_ready s) + length (Pool.w_sleep s) + length (Pool.w_task s) + length (Pool.w_exit s).

Lemma notify_lengths {A} (sl rd sl' rd' : list A) :
  notify sl rd sl' rd' → (length sl' + length rd' = length sl + length rd)%nat.
Proof. destruct 1; rewrite ?length_app; simpl; lia. Qed.

Section stopping.
Context (maxQueueSize : nat).

Lemma step_workers s s' : Pool.step maxQueueSize s s' → workers s' = workers s.
Proof.
  destruct 1; unfold workers; simpl; repeat match goal with
  | H : notify _ _ _ _ |- _ => apply notify_lengths in H
  | H : _ = _ ++ _ :: _ |- _ => apply (f_equal length) in H; rewrite ?length_app in H; simpl in H
  end; rewrite ?length_app; simpl; try lia.
Qed.

Lemma step_work s s' :
  Pool.inv maxQueueSize s → Pool.is_running s = false → Pool.step maxQueueSize s s' →
  Pool.is_running s' = false ∧ (work s' ≤ work s)%nat.
Proof.
  intros (_ & _ & _ & _ & _ & Hstop) Hr H. destruct (Hstop Hr) as [Hw _].
  destruct H; simpl; try rewrite Hr in *; unfold work; simpl; try congruence; (split; [done|]); try lia.
  all: repeat match goal with H : _ = _ ++ _ :: _ |- _ => rewrite H end; rewrite ?length_app; simpl; try lia.
  all: try (rewrite Hw; simpl; lia).
  - unfold Pool.run in *. rewrite andb_false_r in *. done.
  - rewrite Hw in *. by destruct s1.
Qed.

Lemma step_progress s :
  Pool.is_running s = false → work s ≠ 0%nat →
  ∃ s', Pool.step maxQueueSize s s' ∧ (work s' < work s)%nat.
Proof.
  intros Hr Hw. unfold work in Hw.
  destruct (Pool.w_ready s) as [|w rd] eqn:Er.
  - destruct (Pool.w_task s) as [|[w t] tk] eqn:Et.
    + destruct (Pool.w_head s) as [|w hd] eqn:Eh; [done|]. eexists. split; [by eapply (Pool.head_exits _ s [] w hd)|].
      unfold work. rewrite Eh, Er, Et. simpl. lia.
    + eexists. split; [by eapply (Pool.task_ends _ s [] w t tk)|]. unfold work. rewrite Er, Et. simpl. rewrite length_app. simpl. lia.
  - destruct (Pool.m_queue s) as [|t q] eqn:Eq.
    + eexists. split; [eapply (Pool.take_none _ s [] w rd); [done|by rewrite Eq, Hr]|].
      unfold work. rewrite Er. simpl. rewrite length_app. simpl. lia.
    + assert (∃ rr rs, if Nat.ltb 0 maxQueueSize then notify (Pool.r_sleep s) (Pool.r_ready s) rs rr
        else rs = Pool.r_sleep s ∧ rr = Pool.r_ready s) as (rr & rs & Hn).
      { destruct (Nat.ltb 0 maxQueueSize); [|by eexists _, _].
        destruct (Pool.r_sleep s) as [|p sl]; eexists _, _; [apply notify_none|apply (notify_one [] p sl)]. }
      eexists. split; [eapply (Pool.take_task _ s [] w rd t q); [done|by rewrite Eq|exact Hn]|].
      unfold work. rewrite Er. simpl. rewrite length_app. simpl. lia.
Qed.

(** Every worker is past its loop. *)
Definition all_exited (ids : list nat) (s : Pool.State) : Prop :=
  Pool.w_head s = [] ∧ Pool.w_ready s = [] ∧ Pool.w_sleep s = [] ∧ Pool.w_task s = [] ∧ length (Pool.w_exit s) = length ids.

Lemma rtc_workers s s' : rtc (Pool.step maxQueueSize) s s' → workers s' = workers s.
Proof. induction 1 as [|s1 s2 s3 H _ IH]; [done|]. by rewrite IH, (step_workers _ _ H). Qed.

Lemma no_work_exited ids s :
  rtc (Pool.step maxQueueSize) (Pool.start ids) s → Pool.is_running s = false → work s = 0%nat → all_exited ids s.
Proof.
  intros H Hr Hw. destruct (Pool.pool_reachable_inv _ _ _ H) as (_ & _ & _ & _ & _ & Hstop).
  destruct (Hstop Hr) as [Hsl _]. pose proof (rtc_workers _ _ H) as Hn. unfold workers, work in *.
  assert (Hh : length (Pool.w_head s) = 0%nat) by lia. assert (Hrd : length (Pool.w_ready s) = 0%nat) by lia.
  assert (Ht : length (Pool.w_task s) = 0%nat) by lia. rewrite Hsl in Hn. simpl in Hn.
  apply nil_length_inv in Hh, Hrd, Ht. split_and!; [done..|]. rewrite Hh, Hrd, Ht in Hn. simpl in Hn. lia.
Qed.

Lemma stopped_exits ids n s :
  rtc (Pool.step maxQueueSize) (Pool.start ids) s → Pool.is_running s = false → (work s ≤ n)%nat →
  ∃ s', rtc (Pool.step maxQueueSize) s s' ∧ all_exited ids s'.
Proof.
  revert s. induction n as [|n IH]; intros s H Hr Hn.
  - exists s. split; [done|]. apply no_work_exited; [done|done|lia].
  - destruct (decide (work s = 0%nat)) as [E|E]; [exists s; split; [done|by apply no_work_exited]|].
    pose proof (Pool.pool_reachable_inv _ _ _ H) as Hi. destruct (step_progress s Hr E) as (s' & Hs & Hlt).
    destruct (step_work s s' Hi Hr Hs) as [Hr' _].
    destruct (IH s') as (s2 & H2 & Hx); [by eapply rtc_r|done|lia|]. exists s2. split; [by eapply rtc_l|done].
Qed.
End stopping.

(** C25.  ThreadPool::stop returns: after its critical section, whatever the
    callers of run and the workers do, the pool stays stopped and the work of
    its workers never grows; while a worker is not past the loop of
    runInThread some worker can take a step, and each such step uses up work,
    until all are past the loop and the joins of stop return. *)
Theorem pool_stop_returns (maxQueueSize : nat) (ids : list nat) (s : Pool.State) :
  rtc (Pool.step maxQueueSize) (Pool.start ids) s → Pool.is_running s = false →
  (∀ s', Pool.step maxQueueSize s s' → Pool.is_running s' = false ∧ (work s' ≤ work s)%nat) ∧
  (all_exited ids s ∨ ∃ s', Pool.step maxQueueSize s s' ∧ (work s' < work s)%nat) ∧
  ∃ s', rtc (Pool.step maxQueueSize) s s' ∧ all_exited ids s'.
Proof.
  intros H Hr. pose proof (Pool.pool_reachable_inv _ _ _ H) as Hi. split_and!.
  - intros s' Hs. by eapply step_work.
  - destruct (decide (work s = 0%nat)) as [E|E]; [left; by eapply no_work_exited|right; by apply step_progress].
  - by eapply stopped_exits.
Qed.

Lemma pool_stop_returns_witness :
  let s := Pool.mkState [9%nat] false [] [1%nat] [] [] [] [] [] [9%nat] [] in
  ∃ s', rtc (Pool.step 0) s s' ∧ all_exited [1%nat] s'.
Proof.
  intros s. eapply (pool_stop_returns 0 [1%nat] s); [|reflexivity].
  eapply rtc_l; [by eapply (Pool.head_loops 0 _ [] 1%nat [])|]. simpl.
  eapply rtc_l; [by eapply (Pool.take_waits 0 _ [] 1%nat [])|]. simpl.
  eapply rtc_l; [exact (Pool.run_call 0 _ 8%nat 9%nat)|]. simpl.
  eapply rtc_l; [eapply (Pool.run_queued 0 _ [] (8, 9)%nat [] [9%nat]); [done|done|exact (notify_one [] 1%nat [] [])]|]. simpl.
  eapply rtc_l; [exact (Pool.stop 0 _)|]. simpl. apply rtc_refl.
Defined.
