(* ===== verification/ProcessInfo.v ===== *)
(** * Small files and process information: src/dc/base/fileUtil.{h,cc}
      (ReadSmallFile), processInfo.{h,cc}

    The answers of open, fstat, read, pread, readlink, scandir and the other
    system calls are parameters; read is a function of the position in the
    file and the number of bytes asked for, so that any splitting of the data
    is covered. *)

From stdpp Require Import sorting.
From S2P Require Import Prelude StringPiece.

Open Scope Z_scope.

Abbreviation bytes := (list ascii).

(** ** ReadSmallFile *)

Definition kBufferSize : Z := 64 * 1024.
Definition EISDIR : Z := 21.

Record ReadSmallFile : Type := mkSmall { m_fd : Z; m_err : Z; m_buf : bytes }.

(** [ReadSmallFile::ReadSmallFile]: [init] is what the array held. *)
Definition ReadSmallFile_ctor (fd errno : Z) (init : bytes) : ReadSmallFile :=
  mkSmall fd (if fd <? 0 then errno else 0) (NUL :: drop 1 init).

Inductive stat_answer : Type :=
  | StatOk (isreg isdir : bool) (st_size st_ctime : Z)
  | StatErr (errno : Z).

Inductive read_answer : Type := ReadData (d : bytes) | ReadErr (errno : Z).

(** What readToString reports next to the content: the values stored through
    its pointer arguments. *)
Record stat_out : Type := mkStat { fileSize : option Z; modifyTime : option Z; createTime : option Z }.

(** [content->reserve(n)]: a negative [int] becomes a huge size. *)
Definition string_reserve (n : Z) : res unit :=
  if n <? 0 then Fail (FThrow "std::length_error") else Ok tt.

(** The fstat part of [ReadSmallFile::readToString]; [wants]: fileSize is not
    null, [wantsM], [wantsC]: nor are the others. *)
Definition read_stat (wants wantsM wantsC : bool) (maxSize err : Z) (st : stat_answer) : res (Z * stat_out) :=
  if wants then
    match st with
    | StatOk isreg isdir st_size st_ctime =>
        '(err', size) ← (if isreg : bool then
                           string_reserve (swrap 32 (Z.min maxSize st_size));; Ok (err, Some st_size)
                         else Ok (if isdir : bool then EISDIR else err, None));
        Ok (err', mkStat size (if wantsM : bool then Some st_ctime else None)
                    (if wantsC : bool then Some st_ctime else None))
    | StatErr errno => Ok (errno, mkStat None None None)
    end
  else Ok (err, mkStat None None None).

(** The read loop; [None] when the fuel runs out. *)
Fixpoint read_loop (read : Z → Z → read_answer) (fuel : nat) (maxSize : Z) (content : bytes) (err : Z) :
    option (Z * bytes) :=
  if zlen content <? u64 maxSize then
    match fuel with
    | O => None
    | S fuel' =>
        let toRead := Z.min (u64 (u64 maxSize - zlen content)) kBufferSize in
        match read (zlen content) toRead with
        | ReadData [] => Some (err, content)
        | ReadData d => read_loop read fuel' maxSize (content ++ d) err
        | ReadErr e => Some (e, content)
        end
    end
  else Some (err, content).

(** [ReadSmallFile::readToString]: errno, the content (unchanged when the file
    could not be opened), and what was stored. *)
Definition readToString (f : ReadSmallFile) (wants wantsM wantsC : bool) (st : stat_answer)
    (read : Z → Z → read_answer) (fuel : nat) (maxSize : Z) (content : bytes) :
    res (option (Z * bytes * stat_out)) :=
  let err := m_err f in
  if 0 <=? m_fd f then
    '(err1, out) ← read_stat wants wantsM wantsC maxSize err st;
    Ok (match read_loop read fuel maxSize [] err1 with Some (e, c) => Some (e, c, out) | None => None end)
  else Ok (Some (err, content, mkStat None None None)).

(** [readFile] with its default arguments; every turn of the loop that goes on
    adds a byte, so the fuel is the size asked for. *)
Definition readFile (fd errno : Z) (read : Z → Z → read_answer) (maxSize : Z) (content : bytes) :
    res (option (Z * bytes * stat_out)) :=
  readToString (ReadSmallFile_ctor fd errno []) false false false (StatErr 0) read (Z.to_nat maxSize) maxSize content.

(** [ReadSmallFile::readToBuffer]: errno, the size stored, the array.  [errno]
    is the value of errno when it is called. *)
Definition readToBuffer (f : ReadSmallFile) (pread : Z → read_answer) (errno : Z) : res (Z * option Z * ReadSmallFile) :=
  let err := m_err f in
  if 0 <=? m_fd f then
    match pread (kBufferSize - 1) with
    | ReadData d =>
        b ← write_at 0 (d ++ [NUL]) (m_buf f);
        Ok (err, Some (zlen d), mkSmall (m_fd f) (m_err f) b)
    | ReadErr _ => Ok (err, None, f)
    end
  else Ok (errno, None, f).

(** ** ProcessInfo *)

(** [isdigit], [isspace] in the C locale. *)
Definition isdigit (c : ascii) : bool := (48 <=? char_val c) && (char_val c <=? 57).
Definition is_blank (c : ascii) : bool := bool_decide (char_val c ∈ [32; 9; 10; 11; 12; 13]).

(** atoi: blanks, a sign, digits; a value outside [int] is undefined. *)
Fixpoint digits_val (acc : Z) (s : bytes) : Z :=
  match s with
  | c :: s' => if isdigit c then digits_val (10 * acc + (char_val c - 48)) s' else acc
  | [] => acc
  end.
Fixpoint skip_blanks (s : bytes) : bytes :=
  match s with c :: s' => if is_blank c then skip_blanks s' else s | [] => [] end.
Definition atoi (s : bytes) : res Z :=
  match skip_blanks s with
  | c :: s' =>
      if bool_decide (c = "-"%char) then i32 (- digits_val 0 s')
      else if bool_decide (c = "+"%char) then i32 (digits_val 0 s')
      else i32 (digits_val 0 (c :: s'))
  | [] => Ok 0
  end.

(** [fdDirFilter], [taskDirFilter]: called by scandir for every entry; both
    return 0, so that no entry is kept. *)
Definition starts_digit (name : bytes) : bool := match name with c :: _ => isdigit c | [] => false end.
Definition fdDirFilter (t_numOpenedFiles : Z) (name : bytes) : res Z :=
  if starts_digit name then i32 (t_numOpenedFiles + 1) else Ok t_numOpenedFiles.
Definition taskDirFilter (t_pids : list Z) (name : bytes) : res (list Z) :=
  if starts_digit name then n ← atoi name; Ok (t_pids ++ [n]) else Ok t_pids.

(** [scanDir] over the entries of a directory; [None]: it could not be read. *)
Definition scanDir {S : Type} (filter : S → bytes → res S) (s : S) (dir : option (list bytes)) : res S :=
  match dir with Some names => foldM filter s names | None => Ok s end.

Definition openedFiles (fd_dir : option (list bytes)) : res Z := scanDir fdDirFilter 0 fd_dir.
Definition threads (dir : option (list bytes)) : res (list Z) :=
  l ← scanDir taskDirFilter [] dir; Ok (merge_sort Z.le l).
Definition maxOpenFiles (rlim_cur : option Z) (fd_dir : option (list bytes)) : res Z :=
  match rlim_cur with None => openedFiles fd_dir | Some n => Ok (swrap 32 n) end.

Definition pidString (pid : Z) : bytes := snprintf 32 (decimal pid).
Definition username (pw_name : option bytes) : bytes := default (chars "unknownuser") pw_name.
(** gethostname fills the 256 bytes; the code sets the last one to 0. *)
Definition hostname (answer : option bytes) : bytes :=
  match answer with
  | Some buf => let buf' := take 255 buf ++ [NUL] in take (std_find NUL buf') buf'
  | None => chars "unknownhost"
  end.
Definition exePath (answer : option bytes) : bytes :=
  match answer with Some d => if 0 <? zlen d then d else [] | None => [] end.
(** The paths read by procStatus, procStat, threadStat and threads. *)
Definition procStatus_path : bytes := chars "/proc/self/status".
Definition procStat_path : bytes := chars "/proc/self/stat".
Definition threadStat_path (tid : Z) : bytes := snprintf 64 (chars "proc/self/task/" ++ decimal tid ++ chars "/stat").
Definition threads_path : bytes := chars "/proc/self/tack".

(** [std::string::find] of a character and of a text: a position, or npos. *)
Definition string_find (c : ascii) (s : bytes) : option Z :=
  let i := std_find c s in if bool_decide (i < length s)%nat then Some (Z.of_nat i) else None.
Definition string_find_text (pat s : bytes) : option Z :=
  let i := std_search pat s in if bool_decide (i < length s)%nat then Some (Z.of_nat i) else None.

(** [procname(const std::string& stat)]: a piece of stat's own characters. *)
Definition procname (stat : bytes) : StringPiece :=
  match string_find "(" stat, string_find ")" stat with
  | Some lp, Some rp =>
      if lp <? rp then piece_set StringPiece_default (At (stat ++ [NUL]) (lp + 1)) (swrap 32 (u64 (rp - lp + 1)))
      else StringPiece_default
  | _, _ => StringPiece_default
  end.

(** [procname()] on the text of /proc/self/stat *)
Definition procname_self (stat : bytes) : res bytes := as_string (procname stat).

(** The values fixed at start-up: sysconf(3) converted to int, and the
    functions that return them. *)
Definition _SC_CLK_TCK : Z := 2.
Definition _SC_PAGESIZE : Z := 30.
Definition _SC_PHYS_PAGES : Z := 85.
Definition g_clockTicks (sysconf : Z → Z) : Z := swrap 32 (sysconf _SC_CLK_TCK).
Definition g_pageSize (sysconf : Z → Z) : Z := swrap 32 (sysconf _SC_PHYS_PAGES).
Definition clockTicksPerSecond (sysconf : Z → Z) : Z := g_clockTicks sysconf.
Definition pageSize (sysconf : Z → Z) : Z := g_pageSize sysconf.
(** [NDEBUG] is the build's. *)
Definition isDebugBuild (NDEBUG : bool) : bool := negb NDEBUG.

(** [numThreads] on the text of /proc/self/status *)
Definition numThreads (status : bytes) : res Z :=
  match string_find_text (chars "Threads:") status with
  | Some pos => atoi (zdrop (pos + 8) status)
  | None => Ok 0
  end.

(** ** Reading a file *)

(** read(2) on a file with content [f]: some of the bytes at the position, at
    most as many as asked for; nothing only at the end. *)
Definition obeys_file (f : bytes) (read : Z → Z → read_answer) : Prop :=
  ∀ pos n, 0 ≤ pos → 0 < n →
    match read pos n with
    | ReadData d => zlen d ≤ n ∧ d `prefix_of` zdrop pos f ∧ (d = [] → zlen f ≤ pos)
    | ReadErr e => e ≠ 0
    end.

(** What one read adds: the next bytes of the file. *)
Lemma read_more (f c d : bytes) : d `prefix_of` zdrop (zlen c) f → c = ztake (zlen c) f → c ++ d = ztake (zlen (c ++ d)) f.
Proof.
  intros [k Hk] Hc. rewrite <- (ztake_zdrop (zlen c) f) at 1. rewrite Hk, <- Hc, zlen_app.
  pose proof (zlen_nonneg d). rewrite ztake_app_r by lia. f_equal.
  replace (zlen c + zlen d - zlen c) with (zlen d) by lia. by rewrite ztake_app_l, ztake_all by lia.
Qed.

Lemma read_loop_spec (f : bytes) read maxSize err fuel : ∀ content : bytes,
  obeys_file f read → 0 ≤ maxSize < 2 ^ 31 → content = ztake (zlen content) f → zlen content ≤ maxSize →
  maxSize - zlen content ≤ Z.of_nat fuel →
  ∃ e c, read_loop read fuel maxSize content err = Some (e, c) ∧ c = ztake (zlen c) f ∧ zlen c ≤ maxSize ∧
    ((e = err ∧ c = ztake maxSize f) ∨ ∃ pos n, 0 ≤ pos ∧ 0 < n ∧ read pos n = ReadErr e ∧ c = ztake pos f).
Proof.
  induction fuel as [|fuel IH]; intros content Hr Hm Hc Hl Hf; cbn [read_loop];
    rewrite u64_small by lia; destruct (Z.ltb_spec (zlen content) maxSize) as [H|H].
  - lia.
  - exists err, content. split_and!; [done..|]. left. split; [done|]. by replace maxSize with (zlen content) by lia.
  - pose proof (zlen_nonneg content). rewrite u64_small by lia. set (n := Z.min _ _).
    assert (0 < n) by (unfold n, kBufferSize; lia). specialize (Hr (zlen content) n) as Hn.
    destruct (read (zlen content) n) as [[|x d]|e] eqn:E; [..|].
    + destruct Hn as (_ & _ & He); [lia..|]. exists err, content. split_and!; [done..|]. left. split; [done|].
      specialize (He eq_refl). rewrite Hc at 1. by rewrite !ztake_all by lia.
    + destruct Hn as (Hd & Hp & _); [lia..|]. pose proof (read_more f content (x :: d) Hp Hc) as Hc'.
      assert (zlen (content ++ x :: d) ≤ maxSize ∧ zlen content < zlen (content ++ x :: d)) as [Hle Hlt].
      { rewrite zlen_app. rewrite zlen_cons in *. pose proof (zlen_nonneg d). unfold n in Hd. lia. }
      by apply IH; [..|lia].
    + exists e, content. split_and!; [done..|]. right. by exists (zlen content), n.
  - exists err, content. split_and!; [done..|]. left. split; [done|]. by replace maxSize with (zlen content) by lia.
Qed.

(** Reading a small file: however read(2) splits the data, readFile returns
    after at most as many reads as bytes were asked for; with no error the
    string holds exactly the first maxSize bytes of the file (all of it when
    it is shorter), and on an error of read(2) its errno is returned and the
    string holds what was read before.  A file that could not be opened gives
    the errno of open and leaves the string alone. *)
Theorem readFile_reads (f : bytes) (read : Z → Z → read_answer) (fd errno maxSize : Z) (old : bytes) :
  obeys_file f read → 0 ≤ maxSize < 2 ^ 31 →
  if 0 <=? fd then
    ∃ e c, readFile fd errno read maxSize old = Ok (Some (e, c, mkStat None None None)) ∧
      ((e = 0 ∧ c = ztake maxSize f) ∨
       (e ≠ 0 ∧ ∃ pos n, read pos n = ReadErr e ∧ c = ztake pos f))
  else readFile fd errno read maxSize old = Ok (Some (errno, old, mkStat None None None)).
Proof.
  intros Hr Hm. unfold readFile, readToString, ReadSmallFile_ctor. simpl.
  destruct (Z.leb_spec 0 fd) as [H|H].
  - rewrite (proj2 (Z.ltb_ge _ _)) by lia.
    destruct (read_loop_spec f read maxSize 0 (Z.to_nat maxSize) [] Hr Hm) as (e & c & E & _ & _ & Hc);
      [done|rewrite zlen_nil; lia|rewrite zlen_nil; lia|].
    rewrite E. exists e, c. split; [done|]. destruct Hc as [[-> ->]|(pos & n & Hp & Hn & Ee & ->)]; [by left|].
    right. split; [|eauto]. specialize (Hr pos n Hp Hn). by rewrite Ee in Hr.
  - by rewrite (proj2 (Z.ltb_lt _ _) H).
Qed.

Definition demo_file : bytes := chars "Name: dc".
(** At most three bytes at a time. *)
Definition demo_read (pos n : Z) : read_answer := ReadData (ztake (Z.min n 3) (zdrop pos demo_file)).

Lemma demo_read_obeys : obeys_file demo_file demo_read.
Proof.
  intros pos n Hp Hn. unfold demo_read. split_and!.
  - unfold ztake, zlen. rewrite length_take. lia.
  - unfold ztake. apply prefix_take.
  - unfold ztake, zdrop, zlen. intros H%(f_equal length). rewrite length_take, length_drop in H. cbn [length] in H. lia.
Qed.

Lemma readFile_reads_witness :
  readFile 3 0 demo_read 65536 [] = Ok (Some (0, demo_file, mkStat None None None)) ∧
  readFile 3 0 demo_read 5 [] = Ok (Some (0, chars "Name:", mkStat None None None)).
Proof.
  pose proof (readFile_reads demo_file demo_read 3 0 65536 [] demo_read_obeys ltac:(lia)) as (e & c & -> & [[-> ->]|(He & pos & n & E & _)]);
    [|by unfold demo_read in E].
  pose proof (readFile_reads demo_file demo_read 3 0 5 [] demo_read_obeys ltac:(lia)) as (e & c & -> & [[-> ->]|(He & pos & n & E & _)]);
    [|by unfold demo_read in E].
  by split; vm_compute.
Defined.

(** A failed pread is reported as success: errno is stored only when the file
    was not opened. *)
Theorem readToBuffer_hides_errors (e errno : Z) (init : bytes) :
  let f := ReadSmallFile_ctor 3 0 init in
  readToBuffer f (λ _, ReadErr e) errno = Ok (0, None, f).
Proof. done. Qed.

(** ** Numbers in /proc *)

Lemma digits_val_decimal (n : Z) (post : bytes) :
  0 ≤ n → (match post with c :: _ => isdigit c = false | [] => True end) → digits_val 0 (decimal n ++ post) = n.
Proof.
  intros Hn Hpost.
  assert (Hstop : ∀ acc, digits_val acc post = acc).
  { intros acc. destruct post as [|c post]; [done|]. simpl. by rewrite Hpost. }
  assert (Hc : ∀ x : N, (x < 10)%N → char_val (pretty_N_char x) = 48 + Z.of_N x ∧ isdigit (pretty_N_char x) = true).
  { intros [|p]; [by vm_compute|]. intros. do 4 (destruct p as [p|p|]; try lia; try by vm_compute). }
  assert (Hg : ∀ (x : N) s, (0 < x)%N →
    digits_val 0 (chars (pretty_N_go x s) ++ post) = digits_val (Z.of_N x) (chars s ++ post)).
  { intros x. induction (N.lt_wf_0 x) as [x _ IH]. intros s Hx. rewrite pretty_N_go_step by done.
    pose proof (N.mod_lt x 10 ltac:(done)) as Hm. destruct (Hc _ Hm) as [Hv Hd].
    pose proof (N.div_mod x 10 ltac:(done)) as Hdm.
    destruct (decide (x `div` 10 = 0)%N) as [E|E].
    - rewrite E, pretty_N_go_0. simpl. rewrite Hd, Hv. f_equal. lia.
    - rewrite IH by (try apply N.div_lt; lia). simpl. rewrite Hd, Hv. f_equal. lia. }
  unfold decimal. destruct n as [|p|p]; [simpl; apply Hstop| |lia].
  change (pretty (Z.pos p)) with (pretty (N.pos p)). unfold pretty, pretty_N. rewrite decide_False by lia.
  rewrite Hg by lia. apply Hstop.
Qed.

Lemma decimal_starts_digit (n : Z) : 0 ≤ n → ∃ c t, decimal n = c :: t ∧ 48 ≤ char_val c ≤ 57.
Proof.
  intros Hn. pose proof (decimal_digits n Hn) as Hd. pose proof (decimal_length (S (Z.to_nat n)) n) as Hl.
  destruct (decimal n) as [|c t] eqn:E.
  - exfalso. simpl in Hl. assert (n < 10 ^ Z.of_nat (S (Z.to_nat n))); [|lia].
    pose proof (Z.pow_gt_lin_r 10 (Z.of_nat (S (Z.to_nat n)))). lia.
  - apply Forall_cons in Hd as [? _]. eauto.
Qed.

(** atoi reads back a printed [int], after blanks. *)
Lemma atoi_decimal (n : Z) (blanks post : bytes) :
  0 ≤ n < 2 ^ 31 → Forall (λ c, is_blank c = true) blanks →
  (match post with c :: _ => isdigit c = false | [] => True end) →
  atoi (blanks ++ decimal n ++ post) = Ok n.
Proof.
  intros Hn Hb Hp. unfold atoi.
  assert (E : skip_blanks (blanks ++ decimal n ++ post) = decimal n ++ post).
  { induction Hb as [|c b Hc _ IH]; simpl; [|by rewrite Hc].
    destruct (decimal_starts_digit n) as (c & t & -> & H); [lia|]. simpl. unfold is_blank.
    rewrite bool_decide_eq_false_2; [done|]. rewrite !elem_of_cons, elem_of_nil. lia. }
  rewrite E. destruct (decimal_starts_digit n) as (c & t & Ed & H); [lia|].
  pose proof (digits_val_decimal n post) as Hv. rewrite Ed in *. cbn [app] in *.
  rewrite !bool_decide_eq_false_2 by (intros ->; vm_compute in H; by destruct H as [[] []]).
  rewrite Hv by (done || lia). apply i32_Ok. lia.
Qed.

Lemma std_search_at (pat pre rest : bytes) :
  (∀ k, (k < length pre)%nat → starts pat (drop k (pre ++ pat ++ rest)) = false) →
  std_search pat (pre ++ pat ++ rest) = length pre.
Proof.
  induction pre as [|x pre IH]; intros H.
  - assert (E : starts pat (pat ++ rest) = true) by (apply starts_spec; eauto).
    simpl. destruct (pat ++ rest); simpl; by rewrite E.
  - cbn [app std_search]. pose proof (H 0%nat ltac:(simpl; lia)) as H0. cbn [drop app] in H0. rewrite H0. simpl. f_equal.
    apply IH. intros k Hk. apply (H (S k)). simpl. lia.
Qed.

(** The number of threads: on the text of /proc/self/status, where the field
    "Threads:" first occurs before blanks and a number, numThreads returns
    that number. *)
Theorem numThreads_reads (pre blanks post : bytes) (n : Z) :
  (∀ k, (k < length pre)%nat →
     starts (chars "Threads:") (drop k (pre ++ chars "Threads:" ++ blanks ++ decimal n ++ LF :: post)) = false) →
  Forall (λ c, is_blank c = true) blanks → 0 ≤ n < 2 ^ 31 →
  numThreads (pre ++ chars "Threads:" ++ blanks ++ decimal n ++ LF :: post) = Ok n.
Proof.
  intros Hk Hb Hn. unfold numThreads, string_find_text. rewrite std_search_at by done.
  rewrite bool_decide_eq_true_2 by (rewrite !length_app; simpl; lia).
  replace (zdrop _ _) with (blanks ++ decimal n ++ LF :: post); [by apply atoi_decimal|].
  unfold zdrop. replace (Z.to_nat _) with (length (pre ++ chars "Threads:")) by (rewrite length_app; simpl; lia).
  by rewrite (app_assoc pre), drop_app_length.
Qed.

Lemma numThreads_reads_witness :
  numThreads (chars "Pid:" ++ [LF] ++ chars "Threads:" ++ [ascii_of_nat 9] ++ decimal 12 ++ LF :: chars "SigQ:") = Ok 12.
Proof.
  rewrite (app_assoc (chars "Pid:") [LF]). apply (numThreads_reads (chars "Pid:" ++ [LF]) [ascii_of_nat 9] (chars "SigQ:") 12).
  - intros k Hk. do 5 (destruct k as [|k]; [done|]). simpl in Hk. lia.
  - by repeat constructor.
  - lia.
Defined.

(** [procname] takes [rp - lp + 1] bytes behind the opening parenthesis: the
    name and two bytes more, the closing parenthesis and what follows it. *)
Theorem procname_takes_more (pid name rest : bytes) (c : ascii) :
  "("%char ∉ pid → ")"%char ∉ pid → ")"%char ∉ name →
  zlen pid + zlen name < 2 ^ 30 →
  as_string (procname (pid ++ "("%char :: name ++ ")"%char :: c :: rest)) = Ok (name ++ [")"%char; c]).
Proof.
  intros H1 H2 H3 Hl. set (stat := pid ++ _). pose proof (zlen_nonneg pid). pose proof (zlen_nonneg name).
  assert (E1 : string_find "(" stat = Some (zlen pid)).
  { unfold string_find, stat. rewrite std_find_app by done. by rewrite bool_decide_eq_true_2 by (rewrite length_app; simpl; lia). }
  assert (E2 : string_find ")" stat = Some (zlen pid + 1 + zlen name)).
  { unfold string_find, stat. replace (pid ++ "("%char :: name ++ ")"%char :: c :: rest)
      with ((pid ++ "("%char :: name) ++ ")"%char :: c :: rest) by (by rewrite <- app_assoc).
    rewrite std_find_app by (rewrite elem_of_app, elem_of_cons; by intros [?|[?|?]]).
    rewrite bool_decide_eq_true_2 by (rewrite !length_app; simpl; lia). rewrite length_app. unfold zlen. simpl. f_equal. lia. }
  unfold procname. rewrite E1, E2. rewrite (proj2 (Z.ltb_lt _ _)) by lia. unfold as_string, piece_set. cbn [m_length m_ptr].
  replace (zlen pid + 1 + zlen name - zlen pid + 1) with (zlen name + 2) by lia.
  rewrite u64_small by lia. rewrite swrap_small; [|done|split; [change (- 2 ^ (32 - 1)) with (-2147483648)|change (2 ^ (32 - 1)) with 2147483648]; lia].
  rewrite (proj2 (Z.ltb_ge _ _)) by lia. unfold ptr_read. rewrite (proj2 (Z.eqb_neq _ _)) by lia.
  unfold stat. replace ((pid ++ _) ++ [NUL]) with ((pid ++ ["("%char]) ++ (name ++ [")"%char; c]) ++ rest ++ [NUL])
    by (simpl; rewrite <- !app_assoc; simpl; by rewrite <- !app_assoc).
  replace (zlen pid + 1) with (zlen (pid ++ ["("%char])) by (rewrite zlen_app, zlen_cons, zlen_nil; lia).
  replace (zlen name + 2) with (zlen (name ++ [")"%char; c])) by (rewrite zlen_app, !zlen_cons, zlen_nil; lia).
  pose proof (zlen_nonneg (pid ++ ["("%char])). pose proof (zlen_nonneg (name ++ [")"%char; c])). pose proof (zlen_nonneg (rest ++ [NUL])).
  rewrite read_at_Ok by (rewrite ?(zlen_app (_ ++ _)), ?(zlen_app (name ++ _)); lia). f_equal.
  rewrite slice_app_r by lia. rewrite Z.sub_diag, Z.add_simpl_l, slice_app_l by lia. apply slice_all. lia.
Qed.

(** [pageSize] is the number of physical pages, whatever the size of a page. *)
Theorem pageSize_counts_pages (sysconf : Z → Z) :
  0 ≤ sysconf _SC_PHYS_PAGES < 2 ^ 31 → pageSize sysconf = sysconf _SC_PHYS_PAGES.
Proof. intros H. apply swrap_small; [done|]. unfold in_signed. simpl. lia. Qed.
