(* ===== verification/HttpDemo.v ===== *)
(** * The HTTP program of src/test/test_testHttp.cc

    The callback that the program gives to its HttpServer, with the picture it
    serves.  The clock is an argument: the text of the time at which a request
    is answered.  The texts of the answers are bounded, so what file
    HttpService shows of an HttpServer on any input holds for this program. *)

From S2P Require Import Prelude Buffer Channel Poller EventLoop TcpConnection Http HttpSession HttpService Date.

Open Scope Z_scope.

(** ** The program *)

(** [favicon] *)
Definition favicon : list ascii := map ascii_of_N [
   0x89; 0x50; 0x4e; 0x47; 0x0d; 0x0a; 0x1a; 0x0a; 0x00; 0x00; 0x00; 0x0d; 0x49; 0x48; 0x44; 0x52;
   0x00; 0x00; 0x00; 0x10; 0x00; 0x00; 0x00; 0x10; 0x08; 0x06; 0x00; 0x00; 0x00; 0x1f; 0xf3; 0xff;
   0x61; 0x00; 0x00; 0x00; 0x19; 0x74; 0x45; 0x58; 0x74; 0x53; 0x6f; 0x66; 0x74; 0x77; 0x61; 0x72;
   0x65; 0x00; 0x41; 0x64; 0x6f; 0x62; 0x65; 0x20; 0x49; 0x6d; 0x61; 0x67; 0x65; 0x52; 0x65; 0x61;
   0x64; 0x79; 0x71; 0xc9; 0x65; 0x3c; 0x00; 0x00; 0x01; 0xcd; 0x49; 0x44; 0x41; 0x54; 0x78; 0xda;
   0x94; 0x93; 0x39; 0x48; 0x03; 0x41; 0x14; 0x86; 0xff; 0x5d; 0x62; 0xa7; 0x04; 0x52; 0xc4; 0x6d;
   0x22; 0x1e; 0xa0; 0x46; 0x24; 0x08; 0x16; 0x16; 0x76; 0x0a; 0x36; 0xba; 0x4a; 0x9a; 0x80; 0x08;
   0x41; 0xb4; 0x71; 0x85; 0x58; 0x89; 0x47; 0xb0; 0x49; 0xa9; 0x51; 0x24; 0xcd; 0xa6; 0x08; 0xa4;
   0x48; 0x63; 0x91; 0x42; 0x0b; 0xaf; 0x56; 0xc1; 0x46; 0xb4; 0x15; 0xcf; 0x22; 0x58; 0x98; 0x0b;
   0x54; 0x48; 0x8a; 0x64; 0x93; 0x8d; 0xfb; 0x46; 0x67; 0xc9; 0x1a; 0x14; 0x7d; 0xf0; 0x66; 0x76;
   0x66; 0xdf; 0x7c; 0xef; 0xe7; 0x67; 0x46; 0xa8; 0xd5; 0x6a; 0x48; 0x24; 0x12; 0x2a; 0x00; 0x05;
   0xbf; 0x47; 0xd4; 0xef; 0xf7; 0x2f; 0x36; 0xec; 0x12; 0x20; 0x1e; 0x8f; 0xd7; 0xaa; 0xd5; 0xea;
   0xaf; 0x49; 0x35; 0x46; 0xaa; 0x54; 0x5f; 0x9f; 0x22; 0x41; 0x2a; 0x95; 0x0a; 0x83; 0xe5; 0x72;
   0x39; 0x64; 0xb3; 0x59; 0x96; 0x99; 0x4c; 0x06; 0xe9; 0x74; 0x9a; 0x25; 0x85; 0x2c; 0xcb; 0x54;
   0xa7; 0xc4; 0x62; 0x31; 0xb5; 0x5e; 0x00; 0x03; 0x68; 0x9a; 0xc6; 0x16; 0x82; 0x20; 0x58; 0x52;
   0x14; 0x45; 0x36; 0x53; 0x94; 0xcb; 0x65; 0x78; 0xbd; 0x5e; 0xaa; 0x55; 0x54; 0x23; 0x4c; 0xc0;
   0xe0; 0xe2; 0xc1; 0x8f; 0x00; 0x9e; 0xbc; 0x09; 0x41; 0x7c; 0x3e; 0x1f; 0x83; 0x44; 0x22; 0x11;
   0xd5; 0x54; 0x40; 0x3f; 0x38; 0x80; 0x77; 0xe5; 0x33; 0x07; 0xb8; 0x5c; 0x2e; 0x48; 0x92; 0x04;
   0x87; 0xc3; 0x81; 0x40; 0x20; 0x40; 0x67; 0x98; 0xe9; 0x36; 0x1a; 0xa6; 0x67; 0x15; 0x04; 0xe3;
   0xd7; 0xc8; 0xbd; 0x15; 0xe1; 0x69; 0xb7; 0x43; 0xab; 0xea; 0x78; 0x2f; 0x6a; 0x58; 0x92; 0xbb;
   0x18; 0x20; 0x9f; 0xcf; 0x33; 0xc3; 0xb8; 0xe9; 0x4e; 0xa7; 0xd3; 0x6c; 0x4a; 0x00; 0x69; 0x36;
   0x7c; 0x8e; 0xe1; 0xfe; 0x56; 0x84; 0xe7; 0x3c; 0x9f; 0x72; 0x2b; 0x3a; 0x42; 0x7b; 0x37; 0x66;
   0x77; 0xae; 0x8e; 0x0e; 0xf3; 0xbd; 0x52; 0xa9; 0x64; 0x02; 0x42; 0xaf; 0x85; 0x32; 0x66; 0x46;
   0xba; 0x0c; 0xd9; 0x9f; 0x1d; 0x9a; 0x6c; 0x22; 0xe6; 0xc7; 0x3a; 0x2c; 0x80; 0xef; 0xc1; 0x15;
   0x90; 0x07; 0x93; 0xa2; 0x28; 0xa0; 0x53; 0x6a; 0xb1; 0xb8; 0xdf; 0x29; 0x35; 0x43; 0x0e; 0x3f;
   0x58; 0xfc; 0x98; 0xda; 0x79; 0x6a; 0x50; 0x40; 0x00; 0x87; 0xae; 0x1b; 0x17; 0x42; 0xb4; 0x3a;
   0x3f; 0xbe; 0x79; 0xc7; 0x0a; 0x26; 0xb6; 0xee; 0xd9; 0x9a; 0x60; 0x14; 0x93; 0xdb; 0x8f; 0x0d;
   0x0a; 0x2e; 0xe9; 0x23; 0x95; 0x29; 0x58; 0x00; 0x27; 0xeb; 0x6e; 0x56; 0x70; 0xbc; 0xd6; 0xcb;
   0xd6; 0x47; 0xab; 0x3d; 0x6c; 0x7d; 0xb8; 0xd2; 0xdd; 0xa0; 0x60; 0x83; 0xba; 0xef; 0x5f; 0xa4;
   0xea; 0xcc; 0x02; 0x4e; 0xae; 0x5e; 0x70; 0x1a; 0xec; 0xb3; 0x40; 0x39; 0xac; 0xfe; 0xf2; 0x91;
   0x89; 0x67; 0x91; 0x85; 0x21; 0xa8; 0x87; 0xb7; 0x58; 0x7e; 0x7e; 0x85; 0xbb; 0xcd; 0x4e; 0x4e;
   0x62; 0x74; 0x40; 0xfa; 0x93; 0x89; 0xec; 0x1e; 0xec; 0x86; 0x02; 0x48; 0x26; 0x93; 0xd0; 0x75;
   0x1d; 0x7f; 0x09; 0x32; 0x95; 0xbf; 0x1f; 0xdb; 0xd7; 0x63; 0x8a; 0x1a; 0xf7; 0x5c; 0xc1; 0xff;
   0x22; 0x4a; 0xc3; 0x87; 0x00; 0x03; 0x00; 0x4b; 0xbb; 0xf8; 0xd6; 0x2a; 0x76; 0x98; 0x49; 0x00;
   0x00; 0x00; 0x00; 0x49; 0x45; 0x4e; 0x44; 0xae; 0x42; 0x60; 0x82
]%N.

(** The lines that [onRequest] logs; a std::map is walked in the order of its
    keys. *)
Definition in_key_order (m : gmap (list ascii) (list ascii)) : list (list ascii * list ascii) :=
  foldr (λ kv, smap_set kv.1 kv.2) [] (map_to_list m).
Definition request_log (benchmark : bool) (req : HttpRequest) : list (list ascii) :=
  (chars "Headers " ++ methodString req ++ chars " " ++ path_ req) ::
  (if benchmark then [] else map (λ '(k, v), k ++ chars ": " ++ v) (in_key_order (headers_ req))).

(** The page of "/". *)
Definition page (now : list ascii) : list ascii :=
  chars "<html><head><title>This is title</title></head><body><h1><Hello></he>Now is " ++ now ++ chars "</body></html>".

(** [onRequest]: what it puts into the response. *)
Definition demo_onRequest (now : HttpRequest → list ascii) (req : HttpRequest) (resp : HttpResponse) : HttpResponse :=
  if bool_decide (path_ req = chars "/") then
    let resp := setStatusMessage (setStatusCode resp k200ok) (chars "OK") in
    let resp := response_addHeader (setContentType resp (chars "text/html")) (chars "server") (chars "dc") in
    setBody resp (page (now req))
  else if bool_decide (path_ req = chars "/favicon.ivo") then
    let resp := setStatusMessage (setStatusCode resp k200ok) (chars "OK") in
    setBody (setContentType resp (chars "image/png")) favicon
  else if bool_decide (path_ req = chars "/hello") then
    let resp := setStatusMessage (setStatusCode resp k200ok) (chars "OK") in
    let resp := response_addHeader (setContentType resp (chars "test/plain")) (chars "Server") (chars "dc") in
    setBody resp (chars "hello, world" ++ [ascii_of_N 10])
  else
    setCloseConnection (setStatusMessage (setStatusCode resp k404NotFound) (chars "Not Found")) true.

(** ** The answers *)

(** The longest text of a response, from its parts. *)
Definition header_len (h : list ascii * list ascii) : Z := zlen h.1 + zlen h.2 + 3.
Definition headers_len (hs : list (list ascii * list ascii)) : Z := foldr (λ h n, header_len h + n) 0 hs.

Lemma snprintf_len n s : zlen (snprintf n s) ≤ Z.of_nat (n - 1).
Proof. unfold snprintf, zlen. rewrite length_take. lia. Qed.

Lemma headers_text_len hs : zlen (concat (concat (map (λ '(k, v), [k; [COLON]; v; CRLF]) hs))) = headers_len hs.
Proof.
  induction hs as [|[k v] hs IH]; [done|]. cbn [map concat]. change (headers_len ((k, v) :: hs)) with (zlen k + zlen v + 3 + headers_len hs).
  rewrite concat_app, zlen_app, IH. cbn [concat].
  rewrite !zlen_app. change (zlen [COLON]) with 1. change (zlen CRLF) with 2.
  rewrite zlen_nil. lia.
Qed.

Lemma wire_form_len r : zlen (wire_form r) ≤ 100 + zlen (statusMessage_ r) + headers_len (rheaders_ r) + zlen (body_ r).
Proof.
  unfold wire_form, response_pieces. rewrite !concat_app, !zlen_app, headers_text_len.
  assert (H0 : ∀ n s, zlen (snprintf n s) ≤ Z.of_nat (n - 1)) by apply snprintf_len.
  pose proof (H0 32%nat (chars "HTTP/1.1 " ++ decimal (status_value (statusCode_ r)) ++ chars " ")) as H1.
  pose proof (H0 32%nat (chars "Content-Length: " ++ decimal (zlen (body_ r)) ++ CRLF)) as H2.
  change (Z.of_nat (32 - 1)) with 31 in *. destruct (closeConnection_ r); cbn [concat]; rewrite !zlen_app, ?zlen_nil;
    change (zlen CRLF) with 2; change (zlen (chars "Connection: close")) with 17;
    change (zlen (chars "Connection: Keep-Alive")) with 22; lia.
Qed.

Lemma favicon_len : zlen favicon = 555.
Proof. by vm_compute. Qed.

Lemma page_len now : zlen (page now) = zlen now + 90.
Proof.
  unfold page. rewrite !zlen_app. change (zlen (chars "<html><head><title>This is title</title></head><body><h1><Hello></he>Now is ")) with 76.
  change (zlen (chars "</body></html>")) with 14. lia.
Qed.

(** The text of a Timestamp fits the 64 bytes it is formatted in. *)
Lemma formatted_len gmtime_r t micros s : ts_toFormattedString gmtime_r t micros = Ok s → zlen s ≤ 63.
Proof.
  unfold ts_toFormattedString. intros E. do 2 (destruct (i32 (_ + _)) in E; [|by try destruct (i32 _)]).
  cbn [mbind res_bind] in E.
  destruct micros; injection E as <-; apply (snprintf_len 64).
Qed.

Section Program.
Context (now : HttpRequest → list ascii) (Hnow : ∀ req, zlen (now req) ≤ 63).

(** No answer is longer than a kilobyte. *)
Lemma demo_answer_len req : zlen (wire_form (respond (demo_onRequest now) req)) ≤ 1024.
Proof.
  etransitivity; [apply wire_form_len|]. unfold respond, demo_onRequest. specialize (Hnow req).
  repeat case_bool_decide; cbn [statusMessage_ rheaders_ body_ setBody setContentType setStatusCode setStatusMessage
    setCloseConnection response_addHeader HttpResponse_ctor]; rewrite ?page_len, ?favicon_len;
    change (zlen (chars "OK")) with 2; change (zlen (chars "Not Found")) with 9; try (vm_compute (headers_len _)); [lia..|by vm_compute|by vm_compute].
Qed.

(** The program on any input: it does what the abstract server does with the
    program's callback, and it fails only when a client whose request line was
    refused sends more. *)
Theorem demo_any_bytes (sockfd : Z) (wcb hwcb : bool) (t0 : TcpConnection) (es : list session_event) :
  0 ≤ sockfd → TcpConnection_ctor sockfd wcb hwcb = Ok t0 → Forall event_ok es →
  2 * zlen (pieces es) + kCheapPrepend ≤ max_size → 1024 * (zlen es + 1) + kCheapPrepend ≤ max_size →
  ∃ s0, session_open t0 = Ok s0 ∧
    match serve (demo_onRequest now) new_service es with
    | Ok v => ∃ s, session_run (demo_onRequest now) s0 es = Ok (Some s) ∧ represents s v
    | Fail f => session_run (demo_onRequest now) s0 es = Fail f ∧ f = FAssert "method_ == kInvalid" ∧
        ∃ es1 es2 v1, es = es1 ++ es2 ∧ serve (demo_onRequest now) new_service es1 = Ok v1 ∧ v_refused v1 = true
    end.
Proof.
  intros Hfd E Hok Hl Hs. pose proof demo_answer_len as Hlen.
  destruct (any_input_simulates (demo_onRequest now) sockfd wcb hwcb t0 es 1024) as (s0 & E0 & P);
    [by split_and!; [..|vm_compute|intros; apply Hlen| |]|].
  exists s0. split; [done|]. destruct (serve _ new_service es) as [v|f] eqn:Ev; [done|]. split; [done|].
  apply serve_orderly in Ev as [-> (es1 & es2 & v1 & ? & ? & ? & _)]; [|split; [by left|by right]]. eauto 10.
Qed.
End Program.

(** ** What clients see *)

(** A browser asks for "/favicon.ico": the program has the picture under
    another name, answers 404 and closes the connection. *)
Theorem favicon_not_found (now : HttpRequest → list ascii) (req : HttpRequest) :
  path_ req = chars "/favicon.ico" →
  statusCode_ (respond (demo_onRequest now) req) = k404NotFound ∧ closeConnection_ (respond (demo_onRequest now) req) = true ∧
  body_ (respond (demo_onRequest now) req) = [].
Proof. intros E. unfold respond, demo_onRequest. rewrite E. by repeat (rewrite bool_decide_false by discriminate). Qed.

(** A clock that stands still. *)
Definition noon (_ : HttpRequest) : list ascii :=
  match ts_toFormattedString (λ _, mkTm 100 0 1 12 0 0) (mkTimestamp 946728000000000) true with Ok s => s | Fail _ => [] end.

(** Three requests on one connection, the first cut in two; the third is
    for a path that is not served and closes. *)
Definition demo_requests : list session_event :=
  [Arrives (chars "GET /hello HT") 1 two_bytes; Arrives (chars "TP/1.1" ++ CRLF ++ CRLF) 2 two_bytes;
   Arrives (chars "GET / HTTP/1.1" ++ CRLF ++ chars "Connection: Keep-Alive" ++ CRLF ++ CRLF) 3 two_bytes;
   Arrives (chars "GET /none HTTP/1.1" ++ CRLF ++ CRLF) 4 two_bytes].

Definition demo_transcript : list ascii :=
  chars "HTTP/1.1 200 OK" ++ CRLF ++ chars "Content-Length: 13" ++ CRLF ++ chars "Connection: Keep-Alive" ++ CRLF ++
  chars "Content-Type:test/plain" ++ CRLF ++ chars "Server:dc" ++ CRLF ++ CRLF ++ chars "hello, world" ++ [ascii_of_N 10] ++
  chars "HTTP/1.1 200 OK" ++ CRLF ++ chars "Content-Length: 114" ++ CRLF ++ chars "Connection: Keep-Alive" ++ CRLF ++
  chars "Content-Type:text/html" ++ CRLF ++ chars "server:dc" ++ CRLF ++ CRLF ++ page (noon HttpRequest_ctor) ++
  chars "HTTP/1.1 404 Not Found" ++ CRLF ++ chars "Connection: close" ++ CRLF ++ CRLF.

Lemma demo_requests_served :
  ∃ v, serve (demo_onRequest noon) new_service demo_requests = Ok v ∧ v_sent v = demo_transcript ∧ v_open v = false.
Proof. eexists. split_and!; [vm_compute; reflexivity|vm_compute; reflexivity|reflexivity]. Qed.

Lemma noon_len req : zlen (noon req) ≤ 63.
Proof. by vm_compute. Qed.

Lemma demo_requests_ok : Forall event_ok demo_requests.
Proof. pose proof two_bytes_healthy. repeat apply Forall_cons_2; try apply Forall_nil_2; done. Qed.

(** The same on the connection: the bytes on the wire and in the output buffer. *)
Lemma demo_requests_answered :
  ∃ s0 s, session_open ctor_conn = Ok s0 ∧ session_run (demo_onRequest noon) s0 demo_requests = Ok (Some s) ∧
    wire_of (c_trace (s_conn s)) ++ content (m_outputBuffer (s_conn s)) = demo_transcript ∧
    m_state (s_conn s) = kDisconnecting.
Proof.
  destruct (demo_any_bytes noon noon_len 7 true true ctor_conn demo_requests) as (s0 & E0 & P);
    [done|apply ctor_conn_eq|apply demo_requests_ok|by vm_compute|by vm_compute|].
  destruct demo_requests_served as (v & Ev & Hv & Ho). rewrite Ev in P. destruct P as (s & Es & R). exists s0, s.
  split_and!; [done|done|by rewrite (rp_sent _ _ R)|by rewrite (rp_state _ _ R), Ho].
Qed.

(** The log of a request: the header fields in the order of their names. *)
Lemma request_log_sorted :
  request_log false (mkRequest (chars "/") [] 0 (<[chars "b" := chars "2"]> {[chars "a" := chars "1"]}) kGet kHttp11) =
    [chars "Headers GET /"; chars "a: 1"; chars "b: 2"].
Proof. by vm_compute. Qed.
