(* ===== verification/UnitTests.v ===== *)
(** * The unit tests of src/test on the models

    The Boost test cases of test_buffer.cc, test_httpRequest.cc,
    test_inetAddress.cc and test_logstream.cc, translated statement by
    statement and run on the definitions of the components.  A check does not
    end a test: the lines of the checks that do not hold are collected. *)

From S2P Require Import Prelude Buffer Inet Http Doubles DoubleText LogStream LogFormat.

Open Scope Z_scope.

(** ** Tests *)

(** A test case: what it leaves, and the lines of the failed checks. *)
Definition test (A : Type) : Type := res (A * list Z).

#[export] Instance test_bind : MBind test := λ A B k m,
  match m with
  | Fail f => Fail f
  | Ok (a, l1) => match k a with Fail f => Fail f | Ok (b, l2) => Ok (b, l1 ++ l2) end
  end.

Definition ok {A} (a : A) : test A := Ok (a, []).
Definition call {A} (r : res A) : test A := match r with Ok a => Ok (a, []) | Fail f => Fail f end.
(** [BOOST_CHECK] and [BOOST_CHECK_EQUAL] at a line. *)
Definition CHECK (line : Z) (b : bool) : test unit := Ok (tt, if b then [] else [line]).
Definition CHECK_EQUAL {A} `{EqDecision A} (line : Z) (a b : A) : test unit := CHECK line (bool_decide (a = b)).

(** All checks of the test hold. *)
Definition passes (t : test unit) : Prop := t = Ok (tt, []).

(** ** test_buffer.cc *)

Module BufferTest.
Abbreviation Buffer := Buffer.Buffer.

(** [string(n, c)] *)
Definition str (n : nat) (c : ascii) : list ascii := replicate n c.

Definition sizes (l1 l2 l3 : Z) (b : Buffer) (readable writable prependable : Z) : test unit :=
  CHECK_EQUAL l1 (readableBytes b) readable;; CHECK_EQUAL l2 (writableBytes b) writable;;
  CHECK_EQUAL l3 (prependableBytes b) prependable.

Definition testBufferAppendRetrieve : test unit :=
  buf ← call (Buffer_ctor kInitialSize);
  sizes 14 15 16 buf 0 kInitialSize kCheapPrepend;;
  let s := str 200 "x" in
  buf ← call (Buffer.append buf s);
  sizes 20 21 22 buf (zlen s) (kInitialSize - zlen s) kCheapPrepend;;
  '(str2, buf) ← call (retrieveAsString buf 50);
  CHECK_EQUAL 25 (zlen str2) 50;;
  sizes 26 27 28 buf (zlen s - zlen str2) (kInitialSize - zlen s) (kCheapPrepend + zlen str2);;
  CHECK_EQUAL 29 str2 (str 50 "x");;
  buf ← call (Buffer.append buf s);
  sizes 32 33 34 buf (2 * zlen s - zlen str2) (kInitialSize - 2 * zlen s) (kCheapPrepend + zlen str2);;
  '(str3, buf) ← call (retrieveAllAsString buf);
  CHECK_EQUAL 37 (zlen str3) 350;;
  sizes 38 39 40 buf 0 kInitialSize kCheapPrepend;;
  CHECK_EQUAL 41 str3 (str 350 "x").

Definition testBufferGrow : test unit :=
  buf ← call (Buffer_ctor kInitialSize);
  buf ← call (Buffer.append buf (str 400 "y"));
  CHECK_EQUAL 48 (readableBytes buf) 400;; CHECK_EQUAL 49 (writableBytes buf) (kInitialSize - 400);;
  buf ← call (retrieve buf 50);
  sizes 52 53 54 buf 350 (kInitialSize - 400) (kCheapPrepend + 50);;
  buf ← call (Buffer.append buf (str 1000 "z"));
  sizes 57 58 59 buf 1350 0 (kCheapPrepend + 50);;
  let buf := retrieveAll buf in
  sizes 62 63 64 buf 0 1400 kCheapPrepend.

Definition testBufferInsideGrow : test unit :=
  buf ← call (Buffer_ctor kInitialSize);
  buf ← call (Buffer.append buf (str 800 "y"));
  CHECK_EQUAL 71 (readableBytes buf) 800;; CHECK_EQUAL 72 (writableBytes buf) (kInitialSize - 800);;
  buf ← call (retrieve buf 500);
  sizes 75 76 77 buf 300 (kInitialSize - 800) (kCheapPrepend + 500);;
  buf ← call (Buffer.append buf (str 300 "z"));
  sizes 80 81 82 buf 600 (kInitialSize - 600) kCheapPrepend.

Definition testBufferShrink : test unit :=
  buf ← call (Buffer_ctor kInitialSize);
  buf ← call (Buffer.append buf (str 2000 "y"));
  sizes 89 90 91 buf 2000 0 kCheapPrepend;;
  buf ← call (retrieve buf 1500);
  sizes 94 95 96 buf 500 0 (kCheapPrepend + 1500);;
  buf ← call (shrink buf 0);
  CHECK_EQUAL 99 (readableBytes buf) 500;; CHECK_EQUAL 100 (writableBytes buf) (kInitialSize - 500);;
  '(s, buf) ← call (retrieveAllAsString buf);
  CHECK_EQUAL 101 s (str 500 "y");; CHECK_EQUAL 102 (prependableBytes buf) kCheapPrepend.

Definition testBufferPrepend : test unit :=
  buf ← call (Buffer_ctor kInitialSize);
  buf ← call (Buffer.append buf (str 200 "y"));
  sizes 109 110 111 buf 200 (kInitialSize - 200) kCheapPrepend;;
  buf ← call (prepend buf (replicate 4 NUL));
  sizes 115 116 117 buf 204 (kInitialSize - 200) (kCheapPrepend - 4).

Definition testBufferReadInt : test unit :=
  buf ← call (Buffer_ctor kInitialSize);
  buf ← call (Buffer.append buf (chars "HTTP"));
  CHECK_EQUAL 125 (readableBytes buf) 4;;
  let H := char_val "H" in let T := char_val "T" in let P := char_val "P" in
  h ← call (peekInt8 buf); CHECK_EQUAL 126 h H;;
  top16 ← call (peekInt16 buf); CHECK_EQUAL 128 top16 (H * 256 + T);;
  x ← call (peekInt32 buf); CHECK_EQUAL 129 x (top16 * 65536 + T * 256 + P);;
  '(x, buf) ← call (readInt8 buf); CHECK_EQUAL 131 x H;;
  '(x, buf) ← call (readInt16 buf); CHECK_EQUAL 132 x (T * 256 + T);;
  '(x, buf) ← call (readInt8 buf); CHECK_EQUAL 133 x P;;
  CHECK_EQUAL 134 (readableBytes buf) 0;; CHECK_EQUAL 135 (writableBytes buf) kInitialSize;;
  buf ← call (appendInt8 buf (-1));
  buf ← call (appendInt16 buf (-2));
  buf ← call (appendInt32 buf (-3));
  CHECK_EQUAL 140 (readableBytes buf) 7;;
  '(x, buf) ← call (readInt8 buf); CHECK_EQUAL 141 x (-1);;
  '(x, buf) ← call (readInt16 buf); CHECK_EQUAL 142 x (-2);;
  '(x, buf) ← call (readInt32 buf); CHECK_EQUAL 143 x (-3).

Definition testBufferFindEOL : test unit :=
  buf ← call (Buffer_ctor kInitialSize);
  buf ← call (Buffer.append buf (str (N.to_nat 100000) "x"));
  CHECK_EQUAL 151 (findEOL buf) None;;
  r ← call (findEOL_from buf (peek buf + 90000)); CHECK_EQUAL 152 r None.
End BufferTest.

(** ** test_httpRequest.cc *)

Module HttpTest.

Definition line (s : string) : list ascii := chars s ++ CRLF.
Definition host_request : list ascii := line "GET /index.html HTTP/1.1" ++ line "Host: www.chenshuo.com".

(** A call of parseRequest; it always returns. *)
Definition parse (l : Z) (c : HttpContext) (input : Buffer.Buffer) (now : Z) : test (HttpContext * Buffer.Buffer) :=
  r ← call (parseRequest c input now);
  match r : option (HttpContext * Buffer.Buffer * bool) with
  | None => CHECK l false;; ok (c, input)
  | Some (c', input', b) => CHECK l b;; ok (c', input')
  end.

(** The checks of a request: method, path, version and fields. *)
Definition check_request (ls : list Z) (c : HttpContext) (fields : list (string * string)) : test unit :=
  let l i := nth i ls 0 in
  CHECK (l 0%nat) (gotAll c);;
  CHECK_EQUAL (l 1%nat) (method_ (request_ c)) kGet;; CHECK_EQUAL (l 2%nat) (path_ (request_ c)) (chars "/index.html");;
  CHECK_EQUAL (l 3%nat) (version_ (request_ c)) kHttp11;;
  foldl (λ t u, t;; u) (ok tt)
    (imap (λ i f, CHECK_EQUAL (l 4%nat + Z.of_nat i) (getHeader (request_ c) (chars f.1)) (chars f.2)) fields).

Definition testParseRequestAllInOne (now : Z) : test unit :=
  input ← call (Buffer_ctor kInitialSize);
  input ← call (Buffer.append input (host_request ++ CRLF));
  '(c, _) ← parse 23 HttpContext_ctor input now;
  check_request [24; 26; 27; 28; 29] c [("Host", "www.chenshuo.com"); ("User-Agent", "")]%string.

(** One turn of the loop of testParseRequestInTwoPieces. *)
Definition two_pieces (now : Z) (sz1 : nat) : test unit :=
  let all := host_request ++ CRLF in
  input ← call (Buffer_ctor kInitialSize);
  input ← call (Buffer.append input (take sz1 all));
  '(c, input) ← parse 44 HttpContext_ctor input now;
  CHECK 45 (negb (gotAll c));;
  input ← call (Buffer.append input (drop sz1 all));
  '(c, _) ← parse 49 c input now;
  check_request [50; 52; 53; 54; 55] c [("Host", "www.chenshuo.com"); ("User-Agent", "")]%string.

Definition testParseRequestInTwoPieces (now : Z) : test unit :=
  foldl (λ t sz1, t;; two_pieces now sz1) (ok tt) (seq 0 (length (host_request ++ CRLF))).

Definition testParseRequestEmptyHeaderValue (now : Z) : test unit :=
  input ← call (Buffer_ctor kInitialSize);
  input ← call (Buffer.append input (host_request ++ line "User-Agent:" ++ line "Accept-Encoding: " ++ CRLF));
  '(c, _) ← parse 70 HttpContext_ctor input now;
  check_request [71; 73; 74; 75; 76] c [("Host", "www.chenshuo.com"); ("User-Agent", ""); ("Accept-Encoding", "")]%string.
End HttpTest.

(** ** test_inetAddress.cc *)

Module InetTest.
Section addresses.
Context (inet_ntop : Z → list ascii → list ascii) (inet_pton : Z → list ascii → option (list ascii)).

(** The three checks of an address. *)
Definition check_address (l : Z) (a : sockaddr) (ip ipPort : string) (p : Z) : test unit :=
  x ← call (toIp inet_ntop a); CHECK_EQUAL l x (chars ip);;
  y ← call (toIpPort inet_ntop a); CHECK_EQUAL (l + 1) y (chars ipPort);;
  CHECK_EQUAL (l + 2) (port a) p.

Definition testInetAddress (stack : sockaddr) : test unit :=
  check_address 16 (InetAddress_port stack 1234 false false) "0.0.0.0" "0.0.0.0:1234" 1234;;
  check_address 21 (InetAddress_port stack 4321 true false) "127.0.0.1" "127.0.0.1:4321" 4321;;
  check_address 26 (InetAddress_ip inet_pton stack (chars "1.2.3.4") 8888 false) "1.2.3.4" "1.2.3.4:8888" 8888;;
  check_address 31 (InetAddress_ip inet_pton stack (chars "255.254.253.252") 65535 false) "255.254.253.252" "255.254.253.252:65535" 65535.

Definition testInet6Address (stack : sockaddr) : test unit :=
  check_address 39 (InetAddress_port stack 1234 false true) "::" "[::]:1234" 1234;;
  check_address 44 (InetAddress_port stack 1234 true true) "::1" "[::1]:1234" 1234;;
  check_address 49 (InetAddress_ip inet_pton stack (chars "2001:db8::1") 8888 true) "2001:db8::1" "[2001:db8::1]:8888" 8888;;
  check_address 54 (InetAddress_ip inet_pton stack (chars "fe80::1234:abcd:1") 8888 false) "fe80::1234:abcd:1" "[fe80::1234:abcd:1]:8888" 8888.
End addresses.
End InetTest.

(** ** test_logstream.cc *)

Module LogStreamTest.

(** The statements of the tests: a chain of <<, resetBuffer, a check of the
    text or of length and avail. *)
Inductive action : Type :=
  | Put (xs : list item)
  | Reset
  | Text (l : Z) (s : string)
  | Room (l : Z) (len av : Z).

Definition run_action (os : FixedBuffer) (a : action) : test FixedBuffer :=
  match a with
  | Put xs => call (puts os xs)
  | Reset => ok (LogStream.reset os)
  | Text l s => t ← call (toString os); CHECK_EQUAL l t (chars s);; ok os
  | Room l len av => CHECK_EQUAL l (length_ os) len;; CHECK_EQUAL (l + 1) (avail os) av;; ok os
  end.

(** [dc::LogStream os;] in memory that holds [stack], then the statements. *)
Definition script (stack : bytes) (acts : list action) : test unit :=
  foldl (λ t a, os ← t; run_action os a) (ok (FixedBuffer_ctor stack)) acts;; ok tt.

Definition lit (s : string) : item := ICString (Some (chars s)).
Definition newline : string := String LF EmptyString.

Definition testLogStreamBooleans (stack : bytes) : test unit :=
  script stack [Text 19 ""; Put [IBool true]; Text 21 "1"; Put [IChar LF]; Text 23 ("1" +:+ newline);
                Put [IBool false]; Text 25 ("1" +:+ newline +:+ "0")].

Definition testLogStreamIntegers (stack : bytes) : test unit :=
  script stack [Text 32 ""; Put [IInt 1]; Text 34 "1"; Put [IInt 0]; Text 36 "10"; Put [IInt (-1)]; Text 38 "10-1"; Reset;
                Put [IInt 0; lit " "; IInt 123; IChar "x"; IInt 100]; Text 42 "0 123x100"].

Definition testLogStreamIntegerLimits (stack : bytes) : test unit :=
  script stack [Put [IInt (-2147483647)]; Text 50 "-2147483647"; Put [IInt (-2147483647 - 1)]; Text 52 "-2147483647-2147483648";
    Put [IChar " "]; Put [IInt 2147483647]; Text 55 "-2147483647-2147483648 2147483647"; Reset;
    Put [IInt (- 2 ^ 15)]; Text 59 "-32768"; Reset; Put [IInt (2 ^ 15 - 1)]; Text 63 "32767"; Reset;
    Put [IInt 0]; Text 67 "0"; Reset; Put [IInt (2 ^ 16 - 1)]; Text 71 "65535"; Reset;
    Put [IInt (- 2 ^ 31)]; Text 75 "-2147483648"; Reset; Put [IInt (2 ^ 31 - 1)]; Text 79 "2147483647"; Reset;
    Put [IInt 0]; Text 83 "0"; Reset; Put [IInt (2 ^ 32 - 1)]; Text 87 "4294967295"; Reset;
    Put [IInt (- 2 ^ 63)]; Text 91 "-9223372036854775808"; Reset; Put [IInt (2 ^ 63 - 1)]; Text 95 "9223372036854775807"; Reset;
    Put [IInt 0]; Text 99 "0"; Reset; Put [IInt (2 ^ 64 - 1)]; Text 103 "18446744073709551615"; Reset;
    Put [IInt 0]; Put [IInt 0]; Put [IInt 0]; Text 112 "000"].

(** Literals with a decimal point, and the sum of two of them. *)
Definition testLogStreamFloats (stack : bytes) : test unit :=
  let a := nearest false 1 10 in
  let b := nearest false 5 100 in
  let c := nearest false 15 100 in
  let shows l x s := [Put [IDouble x]; Text l s; Reset] in
  script stack (concat [shows 121 (Finite false 0 0) "0"; shows 125 (nearest false 1 1) "1"; shows 129 (nearest false 1 10) "0.1";
    shows 133 (nearest false 5 100) "0.05"; shows 137 (nearest false 15 100) "0.15"; shows 142 a "0.1"; shows 147 b "0.05";
    shows 152 c "0.15"; shows 156 (plus a b) "0.15"]);;
  CHECK 159 (negb (bool_decide (plus a b = c)));;
  script stack (concat [shows 162 (nearest false 123456789 100000000) "1.23456789"; shows 166 (nearest false 1234567 1000000) "1.234567";
    shows 170 (nearest true 123456 1000) "-123.456"]).

Definition testLogStreamVoid (stack : bytes) : test unit :=
  script stack [Put [IPtr 0]; Text 180 "0x0"; Reset; Put [IPtr 8888]; Text 184 "0x22B8"; Reset].

Definition testLogStreamStrings (stack : bytes) : test unit :=
  script stack [Put [lit "Hello "]; Text 194 "Hello "; Put [IString (chars "Shuo Chen")]; Text 198 "Hello Shuo Chen"].

(** A Fmt object, formatted by printf. *)
Definition testLogStreamFmts (stack : bytes) : test unit :=
  f1 ← call (Fmt_ctor (fmt_d false 4 1));
  f2 ← call (Fmt_ctor (fmt_f 2 (literal 12 10)));
  f3 ← call (Fmt_ctor (fmt_d false 4 43));
  script stack [Put [IString f1]; Text 207 "   1"; Reset; Put [IString f2]; Text 211 "1.20"; Reset;
                Put [IString f2; IString f3]; Text 215 "1.20  43"; Reset].

Definition testLogStreamLong (stack : bytes) : test unit :=
  script stack (concat (map (λ i, [Put [lit "123456789 "]; Room 226 (10 * (Z.of_nat i + 1)) (4000 - 10 * (Z.of_nat i + 1))]) (seq 0 399)) ++
                [Put [lit "abcdefghi "]; Room 231 3990 10; Put [lit "abcdefghi"]; Room 235 3999 1]).

Definition check_formats (f : Z → list ascii) (cs : list (Z * Z * string)) : test unit :=
  foldl (λ t c, t;; CHECK_EQUAL c.1.1 (f c.1.2) (chars c.2)) (ok tt) cs.

Definition testFormatSI : test unit := check_formats formatSI
  [(241, 0, "0"); (242, 999, "999"); (243, 1000, "1.00k"); (244, 9990, "9.99k"); (245, 9994, "9.99k");
   (246, 9995, "10.0k"); (247, 10000, "10.0k"); (248, 10049, "10.0k"); (249, 10050, "10.1k");
   (250, 99900, "99.9k"); (251, 99949, "99.9k"); (252, 99950, "100k"); (253, 100499, "100k");
   (256, 100501, "101k"); (257, 999499, "999k"); (258, 999500, "1.00M"); (259, 1004999, "1.00M");
   (261, 1005001, "1.01M"); (262, 2 ^ 63 - 1, "9.22E")]%string.

Definition testFormatIEC : test unit := check_formats formatIEC
  [(267, 0, "0"); (268, 1023, "1023"); (269, 1024, "1.00Ki"); (270, 10234, "9.99Ki"); (271, 10235, "10.0Ki");
   (272, 10240, "10.0Ki"); (273, 10291, "10.0Ki"); (274, 10292, "10.1Ki"); (275, 102348, "99.9Ki");
   (276, 102349, "100Ki"); (277, 102912, "100Ki"); (278, 102913, "101Ki"); (279, 1022976, "999Ki");
   (280, 1047552, "1023Ki"); (281, 1047961, "1023Ki"); (282, 1048063, "1023Ki"); (283, 1048064, "1.00Mi");
   (284, 1048576, "1.00Mi"); (285, 10480517, "9.99Mi"); (286, 10480518, "10.0Mi");
   (287, 2 ^ 63 - 1, "8.00Ei")]%string.
End LogStreamTest.

(** ** They pass *)

Lemma buffer_tests_pass :
  Forall passes [BufferTest.testBufferAppendRetrieve; BufferTest.testBufferGrow; BufferTest.testBufferInsideGrow;
    BufferTest.testBufferShrink; BufferTest.testBufferPrepend; BufferTest.testBufferReadInt; BufferTest.testBufferFindEOL].
Proof. cbv zeta. repeat (apply Forall_cons_2; [vm_compute; reflexivity|]). apply Forall_nil_2. Qed.

Lemma http_tests_pass (now : Z) :
  Forall passes [HttpTest.testParseRequestAllInOne now; HttpTest.testParseRequestInTwoPieces now;
    HttpTest.testParseRequestEmptyHeaderValue now].
Proof. cbv zeta. repeat (apply Forall_cons_2; [vm_compute; reflexivity|]). apply Forall_nil_2. Qed.

(** What inet_ntop and inet_pton answer for the addresses of the tests. *)
Definition byte_string (l : list Z) : list ascii := map char_of l.
Definition known_addresses : list (Z * list ascii * string) :=
  [(AF_INET, byte_string [0; 0; 0; 0], "0.0.0.0"); (AF_INET, byte_string [127; 0; 0; 1], "127.0.0.1");
   (AF_INET, byte_string [1; 2; 3; 4], "1.2.3.4"); (AF_INET, byte_string [255; 254; 253; 252], "255.254.253.252");
   (AF_INET6, in6addr_any, "::"); (AF_INET6, in6addr_loopback, "::1");
   (AF_INET6, byte_string [32; 1; 13; 184; 0; 0; 0; 0; 0; 0; 0; 0; 0; 0; 0; 1], "2001:db8::1");
   (AF_INET6, byte_string [254; 128; 0; 0; 0; 0; 0; 0; 0; 0; 18; 52; 171; 205; 0; 1], "fe80::1234:abcd:1")]%string.

Definition known_ntop (af : Z) (src : list ascii) : list ascii :=
  match list_find (λ k, k.1 = (af, src)) known_addresses with Some (_, k) => chars k.2 | None => [] end.
Definition known_pton (af : Z) (text : list ascii) : option (list ascii) :=
  match list_find (λ k, k.1.1 = af ∧ chars k.2 = text) known_addresses with Some (_, k) => Some k.1.2 | None => None end.

Lemma inet_tests_pass :
  let stack := replicate 28 "?"%char in
  Forall passes [InetTest.testInetAddress known_ntop known_pton stack; InetTest.testInet6Address known_ntop known_pton stack].
Proof. cbv zeta. repeat (apply Forall_cons_2; [vm_compute; reflexivity|]). apply Forall_nil_2. Qed.

Lemma logstream_tests_pass :
  let stack := replicate 4000 "?"%char in
  Forall passes [LogStreamTest.testLogStreamBooleans stack; LogStreamTest.testLogStreamIntegers stack;
    LogStreamTest.testLogStreamIntegerLimits stack; LogStreamTest.testLogStreamFloats stack; LogStreamTest.testLogStreamVoid stack; LogStreamTest.testLogStreamStrings stack;
    LogStreamTest.testLogStreamFmts stack; LogStreamTest.testLogStreamLong stack; LogStreamTest.testFormatSI;
    LogStreamTest.testFormatIEC].
Proof. cbv zeta. repeat (apply Forall_cons_2; [vm_compute; reflexivity|]). apply Forall_nil_2. Qed.
